(** * radsecproxy: a shallow embedding of the packet path of radsecproxy.c

    The development follows src/radsecproxy.c function by function.  Packet
    buffers are lists of bytes (each byte a [Z] in 0..255), C pointers into a
    buffer are byte offsets, and every C function that can touch memory it
    does not own, or spin for ever, returns in the [res] type below. *)

From Stdlib Require Import ZArith List Lia Bool Ascii String.
From stdpp Require Import base list.
Import ListNotations.
Local Open Scope Z_scope.

(** ** Results of running a piece of C *)

(** [Ret v]: the code returns [v].  [Fault]: the code dereferences NULL or
    accesses memory outside the object the pointer belongs to.  [Hang]: the
    code enters a loop it never leaves. *)
Inductive res (A : Type) : Type :=
| Ret (a : A)
| Fault
| Hang.
Arguments Ret {A} a.
Arguments Fault {A}.
Arguments Hang {A}.

#[global] Instance res_ret : MRet res := fun A a => Ret a.
#[global] Instance res_bind : MBind res := fun A B k m =>
  match m with
  | Ret a => k a
  | Fault => Fault
  | Hang => Hang
  end.

(** ** Bytes and buffers *)

Definition byte_of (x : Z) : Z := x mod 256.

(** [b[p]] for a pointer [p] into the buffer [b]. *)
Definition rd (b : list Z) (p : Z) : res Z :=
  if p <? 0 then Fault
  else match b !! Z.to_nat p with
       | Some v => Ret v
       | None => Fault
       end.

(** [b[p] = v]. *)
Definition wr (b : list Z) (p : Z) (v : Z) : res (list Z) :=
  if p <? 0 then Fault
  else if (Z.to_nat p <? length b)%nat then Ret (<[Z.to_nat p := v]> b)
  else Fault.

(** The [n] bytes at [b + p]. *)
Definition rdn (b : list Z) (p : Z) (n : Z) : res (list Z) :=
  if (p <? 0) || (n <? 0) || (Z.of_nat (length b) <? p + n) then Fault
  else Ret (take (Z.to_nat n) (drop (Z.to_nat p) b)).

(** [memcpy(b + p, src, length src)]. *)
Definition wrn (b : list Z) (p : Z) (src : list Z) : res (list Z) :=
  if (p <? 0) || (Z.of_nat (length b) <? p + Z.of_nat (length src)) then Fault
  else Ret (take (Z.to_nat p) b ++ src ++ drop (Z.to_nat p + length src) b).

Definition xor_bytes (a b : list Z) : list Z := zip_with Z.lxor a b.

Definition bytes_eqb (a b : list Z) : bool :=
  bool_decide (a = b).

(** ** MD5 (RFC 1321), the digest behind EVP_md5() *)

Module MD5.

Definition w32 (x : Z) : Z := x mod 4294967296.

Definition rotl (x n : Z) : Z :=
  w32 (Z.lor (Z.shiftl x n) (Z.shiftr x (32 - n))).

Definition lnot32 (x : Z) : Z := Z.lxor x 4294967295.

Definition K : list Z :=
  [ 0xd76aa478; 0xe8c7b756; 0x242070db; 0xc1bdceee;
    0xf57c0faf; 0x4787c62a; 0xa8304613; 0xfd469501;
    0x698098d8; 0x8b44f7af; 0xffff5bb1; 0x895cd7be;
    0x6b901122; 0xfd987193; 0xa679438e; 0x49b40821;
    0xf61e2562; 0xc040b340; 0x265e5a51; 0xe9b6c7aa;
    0xd62f105d; 0x02441453; 0xd8a1e681; 0xe7d3fbc8;
    0x21e1cde6; 0xc33707d6; 0xf4d50d87; 0x455a14ed;
    0xa9e3e905; 0xfcefa3f8; 0x676f02d9; 0x8d2a4c8a;
    0xfffa3942; 0x8771f681; 0x6d9d6122; 0xfde5380c;
    0xa4beea44; 0x4bdecfa9; 0xf6bb4b60; 0xbebfbc70;
    0x289b7ec6; 0xeaa127fa; 0xd4ef3085; 0x04881d05;
    0xd9d4d039; 0xe6db99e5; 0x1fa27cf8; 0xc4ac5665;
    0xf4292244; 0x432aff97; 0xab9423a7; 0xfc93a039;
    0x655b59c3; 0x8f0ccc92; 0xffeff47d; 0x85845dd1;
    0x6fa87e4f; 0xfe2ce6e0; 0xa3014314; 0x4e0811a1;
    0xf7537e82; 0xbd3af235; 0x2ad7d2bb; 0xeb86d391 ].

Definition S : list Z :=
  [ 7; 12; 17; 22; 7; 12; 17; 22; 7; 12; 17; 22; 7; 12; 17; 22;
    5; 9; 14; 20; 5; 9; 14; 20; 5; 9; 14; 20; 5; 9; 14; 20;
    4; 11; 16; 23; 4; 11; 16; 23; 4; 11; 16; 23; 4; 11; 16; 23;
    6; 10; 15; 21; 6; 10; 15; 21; 6; 10; 15; 21; 6; 10; 15; 21 ].

Record state := St { sa : Z; sb : Z; sc : Z; sd : Z }.

Definition init : state :=
  St 0x67452301 0xefcdab89 0x98badcfe 0x10325476.

Definition round_fun (i : nat) (b c d : Z) : Z :=
  if (i <? 16)%nat then Z.lor (Z.land b c) (Z.land (lnot32 b) d)
  else if (i <? 32)%nat then Z.lor (Z.land d b) (Z.land (lnot32 d) c)
  else if (i <? 48)%nat then Z.lxor b (Z.lxor c d)
  else Z.lxor c (Z.lor b (lnot32 d)).

Definition msg_index (i : nat) : nat :=
  if (i <? 16)%nat then i
  else if (i <? 32)%nat then (5 * i + 1) mod 16
  else if (i <? 48)%nat then (3 * i + 5) mod 16
  else (7 * i) mod 16.

Definition step (m : list Z) (s : state) (i : nat) : state :=
  let f := w32 (round_fun i (sb s) (sc s) (sd s) + sa s
                + nth i K 0 + nth (msg_index i) m 0) in
  St (sd s) (w32 (sb s + rotl f (nth i S 0))) (sb s) (sc s).

Definition le32 (l : list Z) : Z :=
  nth 0 l 0 + 256 * (nth 1 l 0 + 256 * (nth 2 l 0 + 256 * nth 3 l 0)).

Definition bytes_le (n : nat) (x : Z) : list Z :=
  map (fun k => Z.shiftr x (8 * Z.of_nat k) mod 256) (seq 0 n).

Fixpoint chunks (n : nat) (fuel : nat) (l : list Z) : list (list Z) :=
  match fuel with
  | O => []
  | Datatypes.S fuel' =>
      match l with
      | [] => []
      | _ => take n l :: chunks n fuel' (drop n l)
      end
  end.

Definition block (s : state) (blk : list Z) : state :=
  let m := map le32 (chunks 4 16 blk) in
  let t := fold_left (step m) (seq 0 64) s in
  St (w32 (sa s + sa t)) (w32 (sb s + sb t))
     (w32 (sc s + sc t)) (w32 (sd s + sd t)).

Definition pad (msg : list Z) : list Z :=
  let n := length msg in
  let z := ((55 + 64 - n mod 64) mod 64)%nat in
  msg ++ [128] ++ repeat 0 z ++ bytes_le 8 (8 * Z.of_nat n).

Definition digest (msg : list Z) : list Z :=
  let p := pad msg in
  let s := fold_left block (chunks 64 (length p) p) init in
  bytes_le 4 (sa s) ++ bytes_le 4 (sb s) ++ bytes_le 4 (sc s) ++ bytes_le 4 (sd s).

End MD5.

(** ** HMAC-MD5 (RFC 2104), what HMAC_Init_ex/Update/Final compute with EVP_md5() *)

Definition hmac_md5 (key msg : list Z) : list Z :=
  let k0 := if (64 <? length key)%nat then MD5.digest key else key in
  let k := k0 ++ repeat 0 (64 - length k0)%nat in
  MD5.digest (map (Z.lxor 0x5c) k ++ MD5.digest (map (Z.lxor 0x36) k ++ msg)).

#[global] Opaque MD5.digest hmac_md5.

Definition ascii_bytes (s : String.string) : list Z :=
  map (fun c => Z.of_N (Ascii.N_of_ascii c)) (String.list_ascii_of_string s).

(** ** Constants of radsecproxy.h *)

(** Modelled from the spec: the header radsecproxy.h is not among the sources.
    The message codes are those of the data model (section 3), the attribute
    numbers those of RFC 2865/2868/2869/2548 that the spec's scenarios use
    (Message-Authenticator is [50 12 ...] in scenario S1). *)
Definition RAD_Access_Request : Z := 1.
Definition RAD_Access_Accept : Z := 2.
Definition RAD_Access_Reject : Z := 3.
Definition RAD_Access_Challenge : Z := 11.
Definition RAD_Status_Server : Z := 12.

Definition RAD_Attr_User_Name : Z := 1.
Definition RAD_Attr_User_Password : Z := 2.
Definition RAD_Attr_Reply_Message : Z := 18.
Definition RAD_Attr_Vendor_Specific : Z := 26.
Definition RAD_Attr_Tunnel_Password : Z := 69.
Definition RAD_Attr_Message_Authenticator : Z := 80.
Definition RAD_VS_ATTR_MS_MPPE_Send_Key : Z := 16.
Definition RAD_VS_ATTR_MS_MPPE_Recv_Key : Z := 17.

(** Modelled from the spec: table capacity 256, retry limit 3, total expiry
    20 s and Status-Server period 25 s (sections 3, 4.2 and 4.3). *)
Definition MAX_REQUESTS : Z := 256.
Definition REQUEST_RETRIES : Z := 3.
Definition REQUEST_EXPIRY : Z := 20.
Definition STATUS_SERVER_PERIOD : Z := 25.

(** The transport letters stored in [conf->type]. *)
Definition TYPE_UDP : Z := 85.
Definition TYPE_TLS : Z := 84.

(** ** Header and attribute accessors (the macros RADLEN, ATTRTYPE, ...) *)

Definition RADLEN (b : list Z) : res Z :=
  hi ← rd b 2; lo ← rd b 3; Ret (256 * hi + lo).

Definition ATTRTYPE (b : list Z) (x : Z) : res Z := rd b x.
Definition ATTRLEN (b : list Z) (x : Z) : res Z := rd b (x + 1).
Definition ATTRVAL (x : Z) : Z := x + 2.
Definition ATTRVALLEN (b : list Z) (x : Z) : res Z :=
  l ← rd b (x + 1); Ret (l - 2).

(** [attrget(attrs, length, type)]: the first attribute of the given type, or
    NULL.  An attribute of length 0 that is not of the wanted type leaves both
    [attrs] and [length] as they were, so the loop repeats for ever. *)
Fixpoint attrget_loop (fuel : nat) (b : list Z) (attrs length type : Z)
  : res (option Z) :=
  match fuel with
  | O => if 1 <? length then Hang else Ret None
  | S fuel' =>
      if 1 <? length then
        t ← ATTRTYPE b attrs;
        if t =? type then Ret (Some attrs)
        else
          l ← ATTRLEN b attrs;
          if l =? 0 then Hang
          else attrget_loop fuel' b (attrs + l) (length - l) type
      else Ret None
  end.

Definition attrget (b : list Z) (attrs length type : Z) : res (option Z) :=
  attrget_loop (Z.to_nat length) b attrs length type.

(** [attrvalidate(attrs, length)]. *)
Fixpoint attrvalidate_loop (fuel : nat) (b : list Z) (attrs length : Z)
  : res bool :=
  match fuel with
  | O => if 1 <? length then Hang else Ret true
  | S fuel' =>
      if 1 <? length then
        l ← ATTRLEN b attrs;
        if l <? 2 then Ret false
        else if length - l <? 0 then Ret false
        else attrvalidate_loop fuel' b (attrs + l) (length - l)
      else Ret true
  end.

Definition attrvalidate (b : list Z) (attrs length : Z) : res bool :=
  attrvalidate_loop (Z.to_nat length) b attrs length.

(** ** Authenticators *)

(** [radsign(rad, sec)]: MD5 over the packet and the secret, written to
    bytes 4..20.  Returns the C result and the buffer. *)
Definition radsign (rad sec : list Z) : res (bool * list Z) :=
  len ← RADLEN rad;
  data ← rdn rad 0 len;
  let md := MD5.digest (data ++ sec) in
  rad' ← wrn rad 4 md;
  Ret (bool_decide (length md = 16%nat), rad').

(** [validauth(rad, reqauth, sec)]; [reqauth] is the 16 bytes the pointer
    designates. *)
Definition validauth (rad reqauth sec : list Z) : res bool :=
  len ← RADLEN rad;
  hdr ← rdn rad 0 4;
  rest ← (if len <=? 20 then Ret [] else rdn rad 20 (len - 20));
  let hash := MD5.digest (hdr ++ reqauth ++ rest ++ sec) in
  mine ← rdn rad 4 16;
  Ret (bool_decide (length hash = 16%nat) && bytes_eqb (take 16 hash) mine).

(** [checkmessageauth(rad, authattr, secret)]: returns the C result and the
    buffer as the call leaves it. *)
Definition checkmessageauth (rad : list Z) (authattr : Z) (secret : list Z)
  : res (bool * list Z) :=
  auth ← rdn rad authattr 16;
  rad0 ← wrn rad authattr (repeat 0 16);
  len ← RADLEN rad0;
  data ← rdn rad0 0 len;
  let hash := hmac_md5 secret data in
  rad1 ← wrn rad0 authattr auth;
  if negb (bool_decide (length hash = 16%nat)) then Ret (false, rad1)
  else if negb (bytes_eqb auth (take 16 hash)) then Ret (false, rad1)
  else Ret (true, rad1).

(** [createmessageauth(rad, authattrval, secret)]; [authattrval] may be NULL. *)
Definition createmessageauth (rad : list Z) (authattrval : option Z)
  (secret : list Z) : res (bool * list Z) :=
  match authattrval with
  | None => Ret (true, rad)
  | Some p =>
      rad0 ← wrn rad p (repeat 0 16);
      len ← RADLEN rad0;
      data ← rdn rad0 0 len;
      let hash := hmac_md5 secret data in
      rad1 ← wrn rad0 p hash;
      Ret (bool_decide (length hash = 16%nat), rad1)
  end.

(** ** Peers, requests and queues (the structs of radsecproxy.h) *)

(** Modelled from the spec: the struct declarations are in radsecproxy.h,
    which is not among the sources; the fields are those the code in
    radsecproxy.c reads and writes (section 3 of the spec names them
    PendingRequest, ServerPeer, ClientPeer and Realm). *)
Record clsrvconf := Conf {
  conf_type : Z;
  conf_host : string;
  conf_secret : list Z;
  conf_statusserver : bool
}.

(** A [struct client]; [cl_addr] stands for the address of the struct, which
    is what the code compares when it compares [struct client *] pointers. *)
Record client := Client {
  cl_addr : nat;
  cl_conf : clsrvconf
}.

Record request := Request {
  rq_buf : option (list Z);
  rq_from : option client;
  rq_fromsa : Z;
  rq_origid : Z;
  rq_origauth : list Z;
  rq_tries : Z;
  rq_expiry : Z;
  rq_received : bool
}.

(** A [struct server]; [nextid] is taken as an [int], like the local [i] of
    [sendrq] it is assigned from and compared with. *)
Record server := Server {
  srv_conf : clsrvconf;
  srv_lastconnecttry : Z * Z;
  srv_connectionok : bool;
  srv_nextid : Z;
  srv_requests : list request;
  srv_newrq : bool
}.

Record reply := Reply {
  rp_buf : list Z;
  rp_tosa : option Z
}.

Record replyq := Replyq {
  rpq_replies : list reply;
  rpq_size : Z
}.

(** What [memset(&rq, 0, sizeof(struct request))] leaves. *)
Definition request_zero : request :=
  Request None None 0 0 (repeat 0 16) 0 0 false.

Definition set_requests (srv : server) (rqs : list request) : server :=
  Server (srv_conf srv) (srv_lastconnecttry srv) (srv_connectionok srv)
         (srv_nextid srv) rqs (srv_newrq srv).

Definition set_buf (rq : request) (b : option (list Z)) : request :=
  Request b (rq_from rq) (rq_fromsa rq) (rq_origid rq) (rq_origauth rq)
          (rq_tries rq) (rq_expiry rq) (rq_received rq).

Definition set_received (rq : request) : request :=
  Request (rq_buf rq) (rq_from rq) (rq_fromsa rq) (rq_origid rq)
          (rq_origauth rq) (rq_tries rq) (rq_expiry rq) true.

(** [to->requests[i].buf] is NULL. *)
Definition slot_free (rqs : list request) (i : nat) : bool :=
  match rqs !! i with
  | Some rq => match rq_buf rq with None => true | Some _ => false end
  | None => false
  end.

(** ** sendrq: inserting a request into a server's table *)

(** [for (i = from; i < upto; i++) if (!requests[i].buf) break;]: the value
    of [i] when the loop is left. *)
Fixpoint scan_free (rqs : list request) (from : nat) (count : nat) : nat :=
  match count with
  | O => from
  | S count' =>
      if slot_free rqs from then from else scan_free rqs (S from) count'
  end.

Inductive sendrq_result :=
| Inserted (id : Z)
| NoRoom
| AuthFailed.

(** [to->requests[i] = *rq; to->nextid = i + 1; to->newrq = 1]. *)
Definition store_request (to : server) (i : nat) (rq : request) (buf : list Z)
  : res (server * sendrq_result) :=
  if (i <? length (srv_requests to))%nat then
    Ret (Server (srv_conf to) (srv_lastconnecttry to) (srv_connectionok to)
                (Z.of_nat i + 1)
                (<[i := set_buf rq (Some buf)]> (srv_requests to)) true,
         Inserted (Z.of_nat i))
  else Fault.

(** The two search loops of [sendrq]: the slot chosen, or None when the
    second loop ends at [to->nextid]. *)
Definition sendrq_slot (to : server) : option nat :=
  let rqs := srv_requests to in
  let nextid := Z.to_nat (srv_nextid to) in
  let max := Z.to_nat MAX_REQUESTS in
  let i1 := scan_free rqs nextid (max - nextid) in
  if (i1 =? max)%nat then
    let i0 := scan_free rqs 0 nextid in
    if (i0 =? nextid)%nat then None else Some i0
  else Some i1.

(** The rest of [sendrq] once slot [i] is chosen. *)
Definition sendrq_fill (to : server) (rq : request) (i : nat)
  : res (server * sendrq_result) :=
  match rq_buf rq with
  | None => Fault
  | Some buf =>
      buf1 ← wr buf 1 (byte_of (Z.of_nat i));
      len ← RADLEN buf1;
      attr ← attrget buf1 20 (len - 20) RAD_Attr_Message_Authenticator;
      match attr with
      | Some a =>
          '(ok, buf2) ← createmessageauth buf1 (Some (ATTRVAL a))
                           (conf_secret (srv_conf to));
          if negb ok then Ret (to, AuthFailed)
          else store_request to i rq buf2
      | None => store_request to i rq buf1
      end
  end.

(** [sendrq(to, rq)].  The result names the branch taken; the server is the
    state the call leaves. *)
Definition sendrq (to : server) (rq : request) : res (server * sendrq_result) :=
  match sendrq_slot to with
  | None => Ret (to, NoRoom)
  | Some i => sendrq_fill to rq i
  end.

(** ** sendreply: signing a reply and appending it to a client's queue *)

Inductive sendreply_result :=
| Enqueued
| SignFailed
| QueueFull.

(** [sendreply(to, buf, tosa)] on the queue [to->replyq]; the array behind
    the queue has MAX_REQUESTS entries whatever [size] says. *)
Definition sendreply (q : replyq) (to : client) (buf : list Z) (tosa : option Z)
  : res (replyq * sendreply_result) :=
  '(ok, buf') ← radsign buf (conf_secret (cl_conf to));
  if negb ok then Ret (q, SignFailed)
  else if Z.of_nat (length (rpq_replies q)) =? rpq_size q then Ret (q, QueueFull)
  else if MAX_REQUESTS <=? Z.of_nat (length (rpq_replies q)) then Fault
  else Ret (Replyq (rpq_replies q ++ [Reply buf' tosa]) (rpq_size q), Enqueued).

(** ** User-Password and Tunnel-Password hiding *)

(** Where the pointer [input] of [pwdencrypt] points: at the authenticator,
    or into the local array [out] at the given offset, which is -16 after the
    first block. *)
Inductive chain_input :=
| InAuth
| InOut (off : Z).

(** The 16 bytes [input] designates.  [below] is what the 16 bytes of stack
    under [out[0]] hold; the code reads them for the second block. *)
Definition read_input (below out auth : list Z) (input : chain_input)
  : res (list Z) :=
  match input with
  | InAuth => rdn auth 0 16
  | InOut off => rdn (below ++ out) (16 + off) 16
  end.

(** The loop of [pwdencrypt]; [offset] is a uint8_t. *)
Fixpoint pwdencrypt_loop (fuel : nat) (below mem : list Z) (inp len : Z)
  (key : list Z) (auth : list Z) (input : chain_input) (offset : Z)
  (out : list Z) : res (option (list Z)) :=
  match fuel with
  | O => Hang
  | S fuel' =>
      src ← read_input below out auth input;
      let hash := MD5.digest (key ++ src) in
      if negb (bool_decide (length hash = 16%nat)) then Ret None
      else
        blk ← rdn mem (inp + offset) 16;
        out' ← wrn out offset (xor_bytes hash blk);
        let input' := InOut (offset - 16) in
        let offset' := byte_of (offset + 16) in
        if offset' =? len then Ret (Some out')
        else pwdencrypt_loop fuel' below mem inp len key auth input' offset' out'
  end.

(** [pwdencrypt(in, len, shared, sharedlen, auth)] on the buffer [mem] that
    [in] points into.  Returns the C result and the buffer. *)
Definition pwdencrypt (below : list Z) (mem : list Z) (inp len : Z)
  (shared : list Z) (sharedlen : Z) (auth : list Z) : res (bool * list Z) :=
  key ← rdn shared 0 sharedlen;
  r ← pwdencrypt_loop 16 below mem inp len key auth InAuth 0 (repeat 0 128);
  match r with
  | None => Ret (false, mem)
  | Some out =>
      data ← rdn out 0 len;
      mem' ← wrn mem inp data;
      Ret (true, mem')
  end.

(** The loop of [pwddecrypt]; [input] is the authenticator first and then
    [in + offset], a pointer into the caller's buffer. *)
Fixpoint pwddecrypt_loop (fuel : nat) (mem : list Z) (inp len : Z)
  (key : list Z) (auth : list Z) (input : option Z) (offset : Z)
  (out : list Z) : res (option (list Z)) :=
  match fuel with
  | O => Hang
  | S fuel' =>
      src ← match input with
            | None => rdn auth 0 16
            | Some p => rdn mem p 16
            end;
      let hash := MD5.digest (key ++ src) in
      if negb (bool_decide (length hash = 16%nat)) then Ret None
      else
        blk ← rdn mem (inp + offset) 16;
        out' ← wrn out offset (xor_bytes hash blk);
        let input' := Some (inp + offset) in
        let offset' := byte_of (offset + 16) in
        if offset' =? len then Ret (Some out')
        else pwddecrypt_loop fuel' mem inp len key auth input' offset' out'
  end.

Definition pwddecrypt (mem : list Z) (inp len : Z)
  (shared : list Z) (sharedlen : Z) (auth : list Z) : res (bool * list Z) :=
  key ← rdn shared 0 sharedlen;
  r ← pwddecrypt_loop 16 mem inp len key auth None 0 (repeat 0 128);
  match r with
  | None => Ret (false, mem)
  | Some out =>
      data ← rdn out 0 len;
      mem' ← wrn mem inp data;
      Ret (true, mem')
  end.

(** [strlen(secret)] passed where the callee takes a uint8_t. *)
Definition strlen8 (secret : list Z) : Z := byte_of (Z.of_nat (length secret)).

(** [pwdrecrypt(pwd, len, oldsecret, newsecret, oldauth, newauth)]; [len] has
    gone through the uint8_t parameter. *)
Definition pwdrecrypt (below : list Z) (mem : list Z) (pwd len : Z)
  (oldsecret newsecret oldauth newauth : list Z) : res (bool * list Z) :=
  let len := byte_of len in
  if (len <? 16) || (128 <? len) || negb (len mod 16 =? 0) then Ret (false, mem)
  else
    '(ok, mem1) ← pwddecrypt mem pwd len oldsecret (strlen8 oldsecret) oldauth;
    if negb ok then Ret (false, mem1)
    else
      '(ok2, mem2) ← pwdencrypt below mem1 pwd len newsecret (strlen8 newsecret) newauth;
      if negb ok2 then Ret (false, mem2) else Ret (true, mem2).

(** ** MS-MPPE key hiding *)

(** [for (i = 0; i < 16; i++) text[i] ^= hash[i];] at [text = mem + p]. *)
Fixpoint xor_in_place (mem : list Z) (p : Z) (hash : list Z) : res (list Z) :=
  match hash with
  | [] => Ret mem
  | h :: hash' =>
      v ← rd mem p;
      mem' ← wr mem p (Z.lxor v h);
      xor_in_place mem' (p + 1) hash'
  end.

(** The block loop of [msmppencrypt]; [offset] is a uint8_t, so after 240 it
    is 0 again. *)
Fixpoint msmppencrypt_loop (fuel : nat) (mem : list Z) (text len : Z)
  (key : list Z) (offset : Z) : res (bool * list Z) :=
  if offset <? len then
    match fuel with
    | O => Hang
    | S fuel' =>
        prev ← rdn mem (text + offset - 16) 16;
        let hash := MD5.digest (key ++ prev) in
        if negb (bool_decide (length hash = 16%nat)) then Ret (false, mem)
        else
          mem' ← xor_in_place mem (text + offset) (take 16 hash);
          msmppencrypt_loop fuel' mem' text len key (byte_of (offset + 16))
    end
  else Ret (true, mem).

(** [msmppencrypt(text, len, shared, sharedlen, auth, salt)], in place;
    [text] and [salt] point into [mem]. *)
Definition msmppencrypt (mem : list Z) (text len : Z) (shared : list Z)
  (sharedlen : Z) (auth : list Z) (salt : Z) : res (bool * list Z) :=
  key ← rdn shared 0 sharedlen;
  a ← rdn auth 0 16;
  s ← rdn mem salt 2;
  let hash := MD5.digest (key ++ a ++ s) in
  mem' ← xor_in_place mem text (take 16 hash);
  msmppencrypt_loop 16 mem' text len key 16.

(** [for (i = 0; i < 16; i++) plain[offset + i] = text[offset + i] ^ hash[i];]
    with [plain] the local array of 255 bytes. *)
Fixpoint xor_to_plain (mem : list Z) (p : Z) (plain : list Z) (q : Z)
  (hash : list Z) : res (list Z) :=
  match hash with
  | [] => Ret plain
  | h :: hash' =>
      v ← rd mem p;
      plain' ← wr plain q (Z.lxor v h);
      xor_to_plain mem (p + 1) plain' (q + 1) hash'
  end.

Fixpoint msmppdecrypt_loop (fuel : nat) (mem : list Z) (text len : Z)
  (key : list Z) (offset : Z) (plain : list Z) : res (option (list Z)) :=
  if offset <? len then
    match fuel with
    | O => Hang
    | S fuel' =>
        prev ← rdn mem (text + offset - 16) 16;
        let hash := MD5.digest (key ++ prev) in
        if negb (bool_decide (length hash = 16%nat)) then Ret None
        else
          plain' ← xor_to_plain mem (text + offset) plain offset (take 16 hash);
          msmppdecrypt_loop fuel' mem text len key (byte_of (offset + 16)) plain'
    end
  else Ret (Some plain).

(** [msmppdecrypt(text, len, shared, sharedlen, auth, salt)]. *)
Definition msmppdecrypt (mem : list Z) (text len : Z) (shared : list Z)
  (sharedlen : Z) (auth : list Z) (salt : Z) : res (bool * list Z) :=
  key ← rdn shared 0 sharedlen;
  a ← rdn auth 0 16;
  s ← rdn mem salt 2;
  let hash := MD5.digest (key ++ a ++ s) in
  plain0 ← xor_to_plain mem text (repeat 0 255) 0 (take 16 hash);
  r ← msmppdecrypt_loop 16 mem text len key 16 plain0;
  match r with
  | None => Ret (false, mem)
  | Some plain =>
      data ← rdn plain 0 len;
      mem' ← wrn mem text data;
      Ret (true, mem')
  end.

(** [msmpprecrypt(msmpp, len, oldsecret, newsecret, oldauth, newauth)]; [len]
    has gone through the uint8_t parameter. *)
Definition msmpprecrypt (mem : list Z) (msmpp len : Z)
  (oldsecret newsecret oldauth newauth : list Z) : res (bool * list Z) :=
  let len := byte_of len in
  if len <? 18 then Ret (false, mem)
  else
    '(ok, mem1) ← msmppdecrypt mem (msmpp + 2) (byte_of (len - 2)) oldsecret
                     (strlen8 oldsecret) oldauth msmpp;
    if negb ok then Ret (false, mem1)
    else
      '(ok2, mem2) ← msmppencrypt mem1 (msmpp + 2) (byte_of (len - 2)) newsecret
                        (strlen8 newsecret) newauth msmpp;
      if negb ok2 then Ret (false, mem2) else Ret (true, mem2).

(** [msmppe(attrs, length, type, attrtxt, rq, oldsecret, newsecret)]: every
    sub-attribute of the given type is re-encrypted in place.  [oldauth] is
    [rq->buf + 4] and [newauth] is [rq->origauth]. *)
Fixpoint msmppe_loop (fuel : nat) (mem : list Z) (attrs length type : Z)
  (attr : Z) (oldsecret newsecret oldauth newauth : list Z)
  : res (bool * list Z) :=
  found ← attrget mem attr (length - (attr - attrs)) type;
  match found with
  | None => Ret (true, mem)
  | Some a =>
      vl ← ATTRVALLEN mem a;
      '(ok, mem') ← msmpprecrypt mem (ATTRVAL a) vl oldsecret newsecret
                       oldauth newauth;
      if negb ok then Ret (false, mem')
      else
        l ← ATTRLEN mem' a;
        match fuel with
        | O => Hang
        | S fuel' =>
            msmppe_loop fuel' mem' attrs length type (a + l)
                        oldsecret newsecret oldauth newauth
        end
  end.

Definition msmppe (mem : list Z) (attrs length type : Z)
  (oldsecret newsecret oldauth newauth : list Z) : res (bool * list Z) :=
  msmppe_loop (Z.to_nat length) mem attrs length type attrs
              oldsecret newsecret oldauth newauth.

(** ** Realms and the server side: radsrv *)

(** A [struct realm].  [realm_regex] is what [regexec] answers for the
    compiled pattern; [realm_srvconf] is the pointer [realm->srvconf], an
    index into [srvconfs], NULL when the realm block names no server. *)
Record realm := Realm {
  realm_name : string;
  realm_regex : list Z -> bool;
  realm_message : option (list Z);
  realm_srvconf : option nat
}.

(** The part of the global state [radsrv] works on: the realm table and, for
    every entry of [srvconfs], the pointer [srvconfs[k].servers]. *)
Record proxy := Proxy {
  px_realms : list realm;
  px_servers : list (option server)
}.

(** [id2realm(id, len)]: the first realm whose pattern matches. *)
Fixpoint id2realm (realms : list realm) (id : list Z) : option realm :=
  match realms with
  | [] => None
  | r :: realms' => if realm_regex r id then Some r else id2realm realms' id
  end.

Definition same_client (a : option client) (b : option client) : bool :=
  match a, b with
  | Some x, Some y => (cl_addr x =? cl_addr y)%nat
  | None, None => true
  | _, _ => false
  end.

(** [rqinqueue(to, from, id)]. *)
Definition rqinqueue (to : server) (from : option client) (id : Z) : bool :=
  existsb (fun rq =>
             match rq_buf rq with
             | Some _ => (rq_origid rq =? id) && same_client (rq_from rq) from
             | None => false
             end)
          (take (Z.to_nat MAX_REQUESTS) (srv_requests to)).

(** A C string: the bytes before the first NUL. *)
Fixpoint cstring (l : list Z) : list Z :=
  match l with
  | [] => []
  | c :: l' => if c =? 0 then [] else c :: cstring l'
  end.

(** The address handed to [sendreply]: [&rq->fromsa] for a UDP client, NULL
    otherwise. *)
Definition reply_addr (from : client) (fromsa : Z) : option Z :=
  if conf_type (cl_conf from) =? TYPE_UDP then Some fromsa else None.

Inductive radsrv_result :=
| Ignored
| Responded (to : client) (pkt : list Z) (tosa : option Z)
| Forwarded (k : nat) (r : sendrq_result).

(** [respondstatusserver(rq)]: the call of [sendreply] it ends in. *)
Definition respondstatusserver (rq : request) (buf : list Z) : res radsrv_result :=
  hdr ← rdn buf 0 20;
  resp ← wr hdr 0 RAD_Access_Accept;
  resp ← wr resp 2 0;
  resp ← wr resp 3 20;
  match rq_from rq with
  | None => Fault
  | Some from => Ret (Responded from resp (reply_addr from (rq_fromsa rq)))
  end.

(** [respondreject(rq, message)]: the call of [sendreply] it ends in. *)
Definition respondreject (rq : request) (buf : list Z) (message : option (list Z))
  : res radsrv_result :=
  let len := match message with
             | Some m => 20 + 2 + Z.of_nat (length (cstring m))
             | None => 20
             end in
  hdr ← rdn buf 0 20;
  resp ← wr (hdr ++ repeat 0 (Z.to_nat (len - 20))) 0 RAD_Access_Reject;
  resp ← wrn resp 2 [len / 256 mod 256; len mod 256];
  resp ← match message with
         | Some m =>
             r1 ← wr resp 20 RAD_Attr_Reply_Message;
             r2 ← wr r1 21 (byte_of (len - 20));
             wrn r2 22 (cstring m)
         | None => Ret resp
         end;
  match rq_from rq with
  | None => Fault
  | Some from => Ret (Responded from resp (reply_addr from (rq_fromsa rq)))
  end.

(** The re-encryption of one password attribute in [radsrv]; the old
    authenticator is the pointer [buf + 4]. *)
Definition recrypt_attr (below : list Z) (buf : list Z) (attrs len type : Z)
  (oldsecret newsecret newauth : list Z) : res (bool * list Z) :=
  attr ← attrget buf attrs len type;
  match attr with
  | None => Ret (true, buf)
  | Some a =>
      vl ← ATTRVALLEN buf a;
      pwdrecrypt below buf (ATTRVAL a) vl oldsecret newsecret (drop 4 buf) newauth
  end.

(** The look-up at the head of the Access-Request block of [radsrv]: the
    realm of the User-Name, [to = realm->srvconf->servers] and the index of
    that server; None stands for the two early returns. *)
Definition radsrv_realm (px : proxy) (buf : list Z) (attrs len : Z)
  : res (option (realm * option server * nat)) :=
  attr ← attrget buf attrs len RAD_Attr_User_Name;
  match attr with
  | None => Ret None
  | Some a =>
      vl ← ATTRVALLEN buf a;
      username ← rdn buf (ATTRVAL a) vl;
      match id2realm (px_realms px) (cstring username) with
      | None => Ret None
      | Some realm =>
          match realm_srvconf realm with
          | None => Fault
          | Some k =>
              match px_servers px !! k with
              | None => Fault
              | Some to => Ret (Some (realm, to, k))
              end
          end
      end
  end.

(** The Access-Request block with its duplicate test; a Status-Server
    message passes with [realm] and [to] NULL. *)
Definition radsrv_route (px : proxy) (rq : request) (buf : list Z)
  (code id attrs len : Z) : res (option (option realm * option server * nat)) :=
  if code =? RAD_Access_Request then
    t ← radsrv_realm px buf attrs len;
    match t with
    | None => Ret None
    | Some (realm, to, k) =>
        if match to with
           | Some srv => rqinqueue srv (rq_from rq) id
           | None => false
           end
        then Ret None
        else Ret (Some (Some realm, to, k))
    end
  else Ret (Some (None, None, O)).

(** The Message-Authenticator test of [radsrv]. *)
Definition radsrv_messageauth (rq : request) (buf : list Z) (attrs len : Z)
  : res (bool * list Z) :=
  attr ← attrget buf attrs len RAD_Attr_Message_Authenticator;
  match attr with
  | None => Ret (true, buf)
  | Some a =>
      vl ← ATTRVALLEN buf a;
      if negb (vl =? 16) then Ret (false, buf)
      else
        match rq_from rq with
        | None => Fault
        | Some from =>
            checkmessageauth buf (ATTRVAL a) (conf_secret (cl_conf from))
        end
  end.

(** The tail of [radsrv] for a request that goes to the server [to]. *)
Definition radsrv_forward (below : list Z) (newauth : option (list Z))
  (px : proxy) (rq : request) (buf : list Z) (id attrs len : Z)
  (to : server) (k : nat) : res (proxy * radsrv_result) :=
  match newauth with
  | None => Ret (px, Ignored)
  | Some newauth =>
      match rq_from rq with
      | None => Fault
      | Some from =>
          let csec := conf_secret (cl_conf from) in
          let ssec := conf_secret (srv_conf to) in
          '(ok1, buf1) ← recrypt_attr below buf attrs len
                           RAD_Attr_User_Password csec ssec newauth;
          if negb ok1 then Ret (px, Ignored)
          else
            '(ok2, buf2) ← recrypt_attr below buf1 attrs len
                             RAD_Attr_Tunnel_Password csec ssec newauth;
            if negb ok2 then Ret (px, Ignored)
            else
              origauth ← rdn buf2 4 16;
              na ← rdn newauth 0 16;
              buf3 ← wrn buf2 4 na;
              let rq' := Request (Some buf3) (rq_from rq) (rq_fromsa rq)
                                 id origauth (rq_tries rq)
                                 (rq_expiry rq) (rq_received rq) in
              '(to', r) ← sendrq to rq';
              Ret (Proxy (px_realms px) (<[k := Some to']> (px_servers px)),
                   Forwarded k r)
      end
  end.

(** [radsrv(rq)].  [newauth] is what [RAND_bytes] delivers (None when it
    fails); [below] is the stack under the local array of [pwdencrypt]. *)
Definition radsrv (below : list Z) (newauth : option (list Z)) (px : proxy)
  (rq : request) : res (proxy * radsrv_result) :=
  match rq_buf rq with
  | None => Fault
  | Some buf =>
      code ← rd buf 0;
      id ← rd buf 1;
      len0 ← RADLEN buf;
      if negb (code =? RAD_Access_Request) && negb (code =? RAD_Status_Server)
      then Ret (px, Ignored)
      else
        let len := (len0 - 20) mod 65536 in
        let attrs := 20 in
        v ← attrvalidate buf attrs len;
        if negb v then Ret (px, Ignored)
        else
          route ← radsrv_route px rq buf code id attrs len;
          match route with
          | None => Ret (px, Ignored)
          | Some (realm, to, k) =>
              '(ok, buf) ← radsrv_messageauth rq buf attrs len;
              if negb ok then Ret (px, Ignored)
              else if code =? RAD_Status_Server then
                r ← respondstatusserver rq buf; Ret (px, r)
              else
                match to with
                | None =>
                    match realm with
                    | None => Fault
                    | Some realm =>
                        r ← respondreject rq buf (realm_message realm); Ret (px, r)
                    end
                | Some to => radsrv_forward below newauth px rq buf id attrs len to k
                end
          end
  end.

(** ** The upstream receiver: clientrd *)

Inductive scan_next :=
| ScanDone
| ScanAbort (attr : Z)
| ScanNext (attr : Z).

(** One turn of the MS-MPPE loop of [clientrd]: the [attrget] of the loop
    condition and the body.  [ScanDone]: [attrget] gave NULL.  [ScanAbort a]:
    a [break] at attribute [a].  [ScanNext a']: the loop goes on from
    [attr + ATTRLEN(attr)].  [rqbuf] and [origauth] are [requests[i].buf] and
    [requests[i].origauth]. *)
Definition scan_step (mem : list Z) (attrs len attr : Z) (oldsecret : list Z)
  (from : option client) (rqbuf origauth : list Z) : res (scan_next * list Z) :=
  found ← attrget mem attr (len - (attr - attrs)) RAD_Attr_Vendor_Specific;
  match found with
  | None => Ret (ScanDone, mem)
  | Some a =>
      vl ← ATTRVALLEN mem a;
      if vl <=? 4 then Ret (ScanAbort a, mem)
      else
        b2 ← rd mem (a + 2);
        b3 ← rd mem (a + 3);
        other ← (if negb ((b2 =? 0) && (b3 =? 0)) then Ret true
                 else
                   b4 ← rd mem (a + 4);
                   b5 ← rd mem (a + 5);
                   Ret (negb (256 * b4 + b5 =? 311)));
        if (other : bool) then
          l ← ATTRLEN mem a; Ret (ScanNext (a + l), mem)
        else
          let sublen := vl - 4 in
          let subattrs := ATTRVAL a + 4 in
          v ← attrvalidate mem subattrs sublen;
          if negb v then Ret (ScanAbort a, mem)
          else
            match from with
            | None => Fault
            | Some f =>
                let newsecret := conf_secret (cl_conf f) in
                '(ok1, mem1) ← msmppe mem subattrs sublen RAD_VS_ATTR_MS_MPPE_Send_Key
                                 oldsecret newsecret (drop 4 rqbuf) origauth;
                if negb ok1 then Ret (ScanAbort a, mem1)
                else
                  '(ok2, mem2) ← msmppe mem1 subattrs sublen RAD_VS_ATTR_MS_MPPE_Recv_Key
                                   oldsecret newsecret (drop 4 rqbuf) origauth;
                  if negb ok2 then Ret (ScanAbort a, mem2)
                  else
                    l ← ATTRLEN mem2 a; Ret (ScanNext (a + l), mem2)
            end
  end.

(** The loop itself: the value of [attr] when it is left (NULL or the
    attribute of the [break]) and the buffer. *)
Fixpoint ms_scan (fuel : nat) (mem : list Z) (attrs len attr : Z)
  (oldsecret : list Z) (from : option client) (rqbuf origauth : list Z)
  : res (option Z * list Z) :=
  '(nx, mem') ← scan_step mem attrs len attr oldsecret from rqbuf origauth;
  match nx with
  | ScanDone => Ret (None, mem')
  | ScanAbort a => Ret (Some a, mem')
  | ScanNext a' =>
      match fuel with
      | O => Hang
      | S fuel' => ms_scan fuel' mem' attrs len a' oldsecret from rqbuf origauth
      end
  end.

Inductive clientrd_result :=
| Discarded
| StatusAnswered
| Delivered (to : client) (buf : list Z) (tosa : option Z).

Definition set_connectionok (srv : server) : server :=
  Server (srv_conf srv) (srv_lastconnecttry srv) true
         (srv_nextid srv) (srv_requests srv) (srv_newrq srv).

(** [server->requests[i].received = 1]. *)
Definition mark_received (srv : server) (i : nat) : server :=
  match srv_requests srv !! i with
  | Some rq => set_requests srv (<[i := set_received rq]> (srv_requests srv))
  | None => srv
  end.

(** The Message-Authenticator block of [clientrd]: NULL or the attribute, the
    verdict, and the buffer. *)
Definition clientrd_messageauth (buf : list Z) (attrs len : Z)
  (rqbuf secret : list Z) : res (option Z * bool * list Z) :=
  messageauth ← attrget buf attrs len RAD_Attr_Message_Authenticator;
  match messageauth with
  | None => Ret (None, true, buf)
  | Some m =>
      vl ← ATTRVALLEN buf m;
      if negb (vl =? 16) then Ret (Some m, false, buf)
      else
        tmp ← rdn buf 4 16;
        reqauth ← rdn rqbuf 4 16;
        buf1 ← wrn buf 4 reqauth;
        '(ok, buf2) ← checkmessageauth buf1 (ATTRVAL m) secret;
        if negb ok then Ret (Some m, false, buf2)
        else
          buf3 ← wrn buf2 4 tmp;
          Ret (Some m, true, buf3)
  end.

(** The log line for Access-Accept and Access-Reject reads the User-Name of
    the stored request without testing the result of [attrget]. *)
Definition clientrd_logname (code : Z) (rqbuf : list Z) : res unit :=
  if (code =? RAD_Access_Accept) || (code =? RAD_Access_Reject) then
    rlen ← RADLEN rqbuf;
    attr ← attrget rqbuf 20 (rlen - 20) RAD_Attr_User_Name;
    match attr with
    | None => Fault
    | Some a =>
        vl ← ATTRVALLEN rqbuf a;
        _ ← rdn rqbuf (ATTRVAL a) vl;
        Ret tt
    end
  else Ret tt.

(** What the checks at the head of the loop body of [clientrd] come to:
    [Stop r] when the turn ends there, [Pass] with the identifier, the code,
    the slot [requests[i]], its buffer, the pointer [messageauth], the
    message and [len] when the turn goes on to the MS-MPPE loop. *)
Inductive checked :=
| Stop (r : clientrd_result)
| Pass (i : Z) (code : Z) (rq : request) (rqbuf : list Z)
       (messageauth : option Z) (buf : list Z) (len : Z).

(** The loop body of [clientrd] up to the MS-MPPE loop, for a message [buf]
    read from the server. *)
Definition clientrd_checks (srv : server) (buf : list Z)
  : res (server * checked) :=
  let srv := set_connectionok srv in
  i ← rd buf 1;
  code ← rd buf 0;
  if negb ((code =? RAD_Access_Accept) || (code =? RAD_Access_Reject)
           || (code =? RAD_Access_Challenge))
  then Ret (srv, Stop Discarded)
  else
    match srv_requests srv !! Z.to_nat i with
    | None => Fault
    | Some rq =>
        match rq_buf rq with
        | None => Ret (srv, Stop Discarded)
        | Some rqbuf =>
            if rq_tries rq =? 0 then Ret (srv, Stop Discarded)
            else if rq_received rq then Ret (srv, Stop Discarded)
            else
              reqauth ← rdn rqbuf 4 16;
              va ← validauth buf reqauth (conf_secret (srv_conf srv));
              if negb va then Ret (srv, Stop Discarded)
              else
                rlen ← RADLEN buf;
                let len := rlen - 20 in
                let attrs := 20 in
                v ← attrvalidate buf attrs len;
                if negb v then Ret (srv, Stop Discarded)
                else
                  '(messageauth, ok, buf) ← clientrd_messageauth buf attrs len rqbuf
                                              (conf_secret (srv_conf srv));
                  if negb ok then Ret (srv, Stop Discarded)
                  else
                    rqcode ← rd rqbuf 0;
                    if rqcode =? RAD_Status_Server
                    then Ret (mark_received srv (Z.to_nat i), Stop StatusAnswered)
                    else Ret (srv, Pass i code rq rqbuf messageauth buf len)
        end
    end.

(** The loop body of [clientrd] after the MS-MPPE loop has ended with [attr]
    NULL.  [Delivered from buf tosa] is the call [sendreply(from, buf, tosa)]. *)
Definition clientrd_finish (srv : server) (i code : Z) (rq : request)
  (rqbuf : list Z) (messageauth : option Z) (buf : list Z)
  : res (server * clientrd_result) :=
  _ ← clientrd_logname code rqbuf;
  buf ← wr buf 1 (byte_of (rq_origid rq));
  oa ← rdn (rq_origauth rq) 0 16;
  buf ← wrn buf 4 oa;
  match rq_from rq with
  | None => Fault
  | Some f =>
      '(ok, buf) ← createmessageauth buf (ATTRVAL <$> messageauth)
                     (conf_secret (cl_conf f));
      if negb ok then Ret (srv, Discarded)
      else
        Ret (mark_received srv (Z.to_nat i),
             Delivered f buf (reply_addr f (rq_fromsa rq)))
  end.

(** One turn of the loop of [clientrd] for a message [buf] read from the
    server: the server state it leaves and what became of the message. *)
Definition clientrd (srv : server) (buf : list Z)
  : res (server * clientrd_result) :=
  '(srv, c) ← clientrd_checks srv buf;
  match c with
  | Stop r => Ret (srv, r)
  | Pass i code rq rqbuf messageauth buf len =>
      '(attr, buf) ← ms_scan (Z.to_nat len) buf 20 len 20
                       (conf_secret (srv_conf srv)) (rq_from rq)
                       rqbuf (rq_origauth rq);
      match attr with
      | Some _ => Ret (srv, Discarded)
      | None => clientrd_finish srv i code rq rqbuf messageauth buf
      end
  end.

(** ** The sender's sweep of the request table: clientwr *)

Inductive event :=
| EvTransmit (buf : list Z)
| EvRemoved
| EvSuspect.

(** The number of tries after which the sweep removes a request:
    [*rq->buf == RAD_Status_Server || server->conf->type == 'T' ? 1 : REQUEST_RETRIES]. *)
Definition retry_limit (type : Z) (code : Z) : Z :=
  if (code =? RAD_Status_Server) || (type =? TYPE_TLS) then 1 else REQUEST_RETRIES.

(** The time a try is given:
    [... ? REQUEST_EXPIRY : REQUEST_EXPIRY / REQUEST_RETRIES]. *)
Definition try_interval (type : Z) (code : Z) : Z :=
  if (code =? RAD_Status_Server) || (type =? TYPE_TLS) then REQUEST_EXPIRY
  else REQUEST_EXPIRY / REQUEST_RETRIES.

(** [if (!timeout.tv_sec || expiry < timeout.tv_sec) timeout.tv_sec = expiry]. *)
Definition earlier (timeout expiry : Z) : Z :=
  if (timeout =? 0) || (expiry <? timeout) then expiry else timeout.

(** The body of the sweep for an occupied slot, read at time [now]: the slot
    as it is left, the wake-up time, and what was done. *)
Definition sweep_slot (type : Z) (now timeout : Z) (rq : request)
  : res (request * Z * list event) :=
  match rq_buf rq with
  | None => Fault
  | Some buf =>
      if rq_received rq then Ret (set_buf rq None, timeout, [])
      else if now <? rq_expiry rq then Ret (rq, earlier timeout (rq_expiry rq), [])
      else
        code ← rd buf 0;
        if rq_tries rq =? retry_limit type code then
          Ret (set_buf rq None, timeout,
               if code =? RAD_Status_Server then [EvRemoved; EvSuspect] else [EvRemoved])
        else
          let expiry := now + try_interval type code in
          Ret (Request (rq_buf rq) (rq_from rq) (rq_fromsa rq) (rq_origid rq)
                       (rq_origauth rq) (rq_tries rq + 1) expiry (rq_received rq),
               earlier timeout expiry,
               [EvTransmit buf])
  end.

(** The [for (i = 0; i < MAX_REQUESTS; i++)] loop; [clock i] is what
    [gettimeofday] answers when slot [i] is looked at.  The inner
    [while (!server->requests[i].buf && i < MAX_REQUESTS) i++] is the skip of
    the free slots; the slot it reads at [i = MAX_REQUESTS] before it tests
    [i] decides nothing and is left out. *)
Fixpoint sweep_loop (count : nat) (i : nat) (type : Z) (clock : nat -> Z)
  (rqs : list request) (timeout : Z) : res (list request * Z * list (nat * event)) :=
  match count with
  | O => Ret (rqs, timeout, [])
  | S count' =>
      match rqs !! i with
      | None => Fault
      | Some rq =>
          match rq_buf rq with
          | None => sweep_loop count' (S i) type clock rqs timeout
          | Some _ =>
              '(rq', timeout', evs) ← sweep_slot type (clock i) timeout rq;
              '(rqs', timeout'', evs') ← sweep_loop count' (S i) type clock
                                           (<[i := rq']> rqs) timeout';
              Ret (rqs', timeout'', map (pair i) evs ++ evs')
          end
      end
  end.

Definition clientwr_sweep (srv : server) (clock : nat -> Z) (timeout : Z)
  : res (server * Z * list (nat * event)) :=
  '(rqs, timeout', evs) ← sweep_loop (Z.to_nat MAX_REQUESTS) 0
                            (conf_type (srv_conf srv)) clock (srv_requests srv) timeout;
  Ret (set_requests srv rqs, timeout', evs).

(** The life of one slot under successive sweeps: each visit comes with the
    time read and with whether the receiver has marked the request received
    since the last visit.  A slot whose buffer is NULL is passed over. *)
Fixpoint slot_life (type : Z) (visits : list (Z * bool)) (rq : request)
  : res (request * list event) :=
  match visits with
  | [] => Ret (rq, [])
  | (now, answered) :: visits' =>
      match rq_buf rq with
      | None => Ret (rq, [])
      | Some _ =>
          let rq := if answered then set_received rq else rq in
          '(rq', _, evs) ← sweep_slot type now 0 rq;
          '(rq'', evs') ← slot_life type visits' rq';
          Ret (rq'', evs ++ evs')
      end
  end.

Definition is_transmit (e : event) : bool :=
  match e with EvTransmit _ => true | _ => false end.

Definition transmissions (evs : list event) : nat :=
  length (List.filter is_transmit evs).

(** ** The TLS connection loop: tlsconnect *)

(** The head of the loop body of [tlsconnect], up to the connection attempt:
    the server as it is left and the seconds slept (None: no sleep). *)
Definition tlsconnect_wait (srv : server) (now : Z * Z) : server * option Z :=
  let elapsed := fst now - fst (srv_lastconnecttry srv) in
  if srv_connectionok srv then
    (Server (srv_conf srv) (srv_lastconnecttry srv) false (srv_nextid srv)
            (srv_requests srv) (srv_newrq srv), Some 10)
  else if elapsed <? 5 then (srv, Some 10)
  else if elapsed <? 300 then (srv, Some elapsed)
  else if elapsed <? 100000 then (srv, Some 600)
  else (Server (srv_conf srv) (fst now, snd (srv_lastconnecttry srv))
               (srv_connectionok srv) (srv_nextid srv) (srv_requests srv)
               (srv_newrq srv), None).

(** The loop: every entry of [attempts] is the time read at the top of a turn
    and whether the attempt of that turn (connect, handshake, certificate
    check) succeeds.  The result is the server and the sleeps, one per
    attempt made; [done] tells whether the loop was left. *)
Fixpoint tlsconnect_loop (srv : server) (attempts : list ((Z * Z) * bool))
  : server * list (option Z) * bool :=
  match attempts with
  | [] => (srv, [], false)
  | (now, up) :: attempts' =>
      let '(srv', slept) := tlsconnect_wait srv now in
      if up then (srv', [slept], true)
      else
        let '(srv'', sleeps, done) := tlsconnect_loop srv' attempts' in
        (srv'', slept :: sleeps, done)
  end.

(** [tlsconnect(server, when, text)]; [final] is the time read once the
    connection is up. *)
Definition tlsconnect (srv : server) (when : option (Z * Z))
  (attempts : list ((Z * Z) * bool)) (final : Z * Z)
  : server * list (option Z) * bool :=
  match when with
  | Some w =>
      if negb (bool_decide (srv_lastconnecttry srv = w)) then (srv, [], true)
      else
        let '(srv', sleeps, done) := tlsconnect_loop srv attempts in
        (if done then Server (srv_conf srv') final (srv_connectionok srv')
                             (srv_nextid srv') (srv_requests srv') (srv_newrq srv')
         else srv', sleeps, done)
  | None =>
      let '(srv', sleeps, done) := tlsconnect_loop srv attempts in
      (if done then Server (srv_conf srv') final (srv_connectionok srv')
                           (srv_nextid srv') (srv_requests srv') (srv_newrq srv')
       else srv', sleeps, done)
  end.

(** The ladder as the specification words it (section 4.5). *)
Definition backoff_ladder (connection_ok : bool) (elapsed : Z) : option Z :=
  if connection_ok then Some 10
  else if elapsed <? 5 then Some 10
  else if (5 <=? elapsed) && (elapsed <? 300) then Some elapsed
  else if (300 <=? elapsed) && (elapsed <? 100000) then Some 600
  else None.

(** The server and the time at the top of every turn [tlsconnect_loop] makes. *)
Fixpoint tlsconnect_turns (srv : server) (attempts : list ((Z * Z) * bool))
  : list (server * (Z * Z)) :=
  match attempts with
  | [] => []
  | (now, up) :: attempts' =>
      (srv, now) ::
      (if up then [] else tlsconnect_turns (fst (tlsconnect_wait srv now)) attempts')
  end.

(** What the ladder prescribes at the top of a turn. *)
Definition ladder_at (turn : server * (Z * Z)) : option Z :=
  backoff_ladder (srv_connectionok (fst turn))
                 (fst (snd turn) - fst (srv_lastconnecttry (fst turn))).

(** [tlsconnect] returns at once when [when] is given and differs from
    [server->lastconnecttry]. *)
Definition tlsconnect_skips (srv : server) (when : option (Z * Z)) : bool :=
  match when with
  | Some w => negb (bool_decide (srv_lastconnecttry srv = w))
  | None => false
  end.

(** ** Well-formedness and test harnesses *)

(** Every element of a buffer is a byte. *)
Definition wf_bytes (b : list Z) : Prop := Forall (fun x => 0 <= x < 256) b.

(** The request table as [addserver] allocates it and [sendrq] keeps it:
    MAX_REQUESTS slots and [nextid] between 0 and MAX_REQUESTS. *)
Definition table_ok (to : server) : Prop :=
  length (srv_requests to) = 256%nat /\ 0 <= srv_nextid to <= 256.

(** No slot in the given range of the table is free. *)
Definition none_free (rqs : list request) (lo hi : nat) : Prop :=
  forall k, (lo <= k < hi)%nat -> slot_free rqs k = false.

(** [sendrq] called for each request of a list in turn, with no response and
    no sweep in between. *)
Fixpoint sendrq_seq (to : server) (rqs : list request)
  : res (server * list sendrq_result) :=
  match rqs with
  | [] => Ret (to, [])
  | rq :: rqs' =>
      '(to', r) ← sendrq to rq;
      '(to'', rs) ← sendrq_seq to' rqs';
      Ret (to'', r :: rs)
  end.

Definition is_inserted (r : sendrq_result) : Prop :=
  match r with Inserted _ => True | _ => False end.

(** The slots of a table whose buffer is NULL. *)
Definition is_free (rq : request) : bool :=
  match rq_buf rq with None => true | Some _ => false end.

Definition free_slots (rqs : list request) : nat :=
  length (List.filter is_free rqs).

(** ** Concrete peers and packets *)

Definition ex_client_conf : clsrvconf :=
  Conf TYPE_UDP "client.example" (ascii_bytes "testing123") false.

Definition ex_server_conf : clsrvconf :=
  Conf TYPE_UDP "upstream.example" (ascii_bytes "s3cr3t-upstream") false.

Definition ex_client : client := Client 1 ex_client_conf.

(** A server as [addserver] leaves it. *)
Definition ex_server : server :=
  Server ex_server_conf (0, 0) false 0 (repeat request_zero 256) false.

(** Access-Request, id 0x2a, User-Name "bob", Message-Authenticator under
    the client's secret. *)
Definition ex_request_pkt : list Z :=
  [ 1; 42; 0; 43; 16; 17; 18; 19; 20; 21; 22; 23; 24; 25; 26; 27; 28; 29;
    30; 31; 1; 5; 98; 111; 98; 80; 18; 69; 10; 159; 226; 151; 5; 220; 91;
    135; 3; 11; 220; 105; 239; 145; 102 ].

(** The same request as the proxy sends it on: id 0, the new authenticator,
    Message-Authenticator under the server's secret. *)
Definition ex_forwarded_pkt : list Z :=
  [ 1; 0; 0; 43; 160; 161; 162; 163; 164; 165; 166; 167; 168; 169; 170; 171;
    172; 173; 174; 175; 1; 5; 98; 111; 98; 80; 18; 103; 99; 23; 145; 153;
    45; 180; 168; 219; 20; 1; 85; 232; 40; 44; 3 ].

Definition ex_newauth : list Z :=
  [ 160; 161; 162; 163; 164; 165; 166; 167; 168; 169; 170; 171; 172; 173;
    174; 175 ].

(** The request as [udpserverrd] hands it to [radsrv]. *)
Definition ex_request : request :=
  Request (Some ex_request_pkt) (Some ex_client) 7 0 (repeat 0 16) 0 0 false.

Definition ex_realm : realm := Realm "*" (fun _ => true) None (Some 0%nat).

Definition ex_proxy : proxy := Proxy [ex_realm] [Some ex_server].

(** Access-Accept to the forwarded request: Reply-Message "ok", a
    Vendor-Specific attribute of vendor 9, Message-Authenticator. *)
Definition ex_reply_pkt : list Z :=
  [ 2; 0; 0; 51; 123; 13; 91; 10; 110; 227; 222; 60; 153; 207; 255; 115; 56;
    30; 99; 82; 18; 4; 111; 107; 26; 9; 0; 0; 0; 9; 1; 3; 65; 80; 18; 217;
    215; 212; 111; 112; 180; 68; 148; 23; 66; 144; 95; 102; 177; 99; 143 ].

(** The same with a Vendor-Specific attribute that holds the vendor id only. *)
Definition ex_reply_short_vsa : list Z :=
  [ 2; 0; 0; 48; 184; 233; 129; 13; 86; 110; 175; 150; 88; 230; 117; 81;
    165; 164; 220; 150; 18; 4; 111; 107; 26; 6; 0; 0; 0; 9; 80; 18; 53; 109;
    132; 181; 143; 66; 63; 136; 57; 31; 239; 84; 221; 211; 78; 189 ].

(** The server once [radsrv] has queued [ex_request]. *)
Definition ex_server_queued : server :=
  match radsrv (repeat 0 16) (Some ex_newauth) ex_proxy ex_request with
  | Ret (Proxy _ [Some srv], _) => srv
  | _ => ex_server
  end.

(** The same once the sweep has sent the request for the first time, at
    second 1000. *)
Definition ex_server_sent : server :=
  match clientwr_sweep ex_server_queued (fun _ => 1000) 0 with
  | Ret (srv, _, _) => srv
  | _ => ex_server
  end.

#[global] Instance is_inserted_dec (r : sendrq_result) : Decision (is_inserted r).
Proof. destruct r; simpl; apply _. Defined.

(** An Access-Request without Message-Authenticator. *)
Definition ex_plain_request : request :=
  Request (Some ([1; 42; 0; 25] ++ ex_newauth ++ [1; 5; 98; 111; 98]))
          (Some ex_client) 7 42 (repeat 0 16) 0 0 false.

(** [ex_server] after 256 copies of [ex_plain_request] have been inserted. *)
Definition ex_server_full : server :=
  match sendrq_seq ex_server (repeat ex_plain_request 256) with
  | Ret (srv, _) => srv
  | _ => ex_server
  end.

(** The slot [radsrv] fills for [ex_request]. *)
Definition ex_queued_request : request :=
  Request (Some ex_forwarded_pkt) (Some ex_client) 7 42
          (take 16 (drop 4 ex_request_pkt)) 0 0 false.

(** Five sweeps, six seconds apart, with no answer from the server. *)
Definition ex_visits : list (Z * bool) :=
  [(1000, false); (1006, false); (1012, false); (1018, false); (1024, false)].

(** The proxy once [radsrv] has queued [ex_request]. *)
Definition ex_proxy_queued : proxy := Proxy [ex_realm] [Some ex_server_queued].

(** The buffer and [attr] at the top of a later turn of the MS-MPPE loop of
    [clientrd]: [scan_reaches ... mem attr mem' attr'] when the loop, started
    with the buffer [mem] and [attr], comes to the top of a turn with the
    buffer [mem'] and [attr']. *)
Inductive scan_reaches (attrs len : Z) (oldsecret : list Z)
  (from : option client) (rqbuf origauth : list Z)
  : list Z -> Z -> list Z -> Z -> Prop :=
| reaches_here (mem : list Z) (attr : Z) :
    scan_reaches attrs len oldsecret from rqbuf origauth mem attr mem attr
| reaches_next (mem : list Z) (attr : Z) (mem1 : list Z) (attr1 : Z)
               (mem2 : list Z) (attr2 : Z) :
    scan_step mem attrs len attr oldsecret from rqbuf origauth
    = Ret (ScanNext attr1, mem1) ->
    scan_reaches attrs len oldsecret from rqbuf origauth mem1 attr1 mem2 attr2 ->
    scan_reaches attrs len oldsecret from rqbuf origauth mem attr mem2 attr2.

(** [same_below q b b']: the buffers have the same length and agree below [q]. *)
Definition same_below (q : Z) (b b' : list Z) : Prop :=
  length b' = length b
  /\ forall j : nat, Z.of_nat j < q -> b' !! j = b !! j.

(** Access-Accept with a Vendor-Specific attribute of vendor 9 followed by a
    Vendor-Specific attribute of vendor 311 that holds the vendor id only,
    then Message-Authenticator. *)
Definition ex_reply_two_vsa : list Z :=
  [ 2; 0; 0; 53; 104; 226; 141; 160; 157; 90; 240; 114; 152; 150; 71; 116;
    83; 224; 95; 130; 26; 9; 0; 0; 0; 9; 1; 3; 65; 26; 6; 0; 0; 1; 55; 80;
    18; 27; 75; 94; 136; 59; 148; 96; 120; 24; 44; 211; 29; 4; 23; 41; 205 ].

(** A User-Password of 29 characters, padded with NULs to 32 bytes, and one
    of 40 characters padded to 48 bytes. *)
Definition ex_password32 : list Z :=
  ascii_bytes "correct horse battery staple!" ++ repeat 0 3.

Definition ex_password48 : list Z :=
  ascii_bytes "correct horse battery staple, many times" ++ repeat 0 8.

Definition ex_password16 : list Z :=
  ascii_bytes "hunter2" ++ repeat 0 9.

Definition ex_secret : list Z := ascii_bytes "testing123".

Definition ex_auth : list Z := take 16 (drop 4 ex_request_pkt).

(** [pwddecrypt] applied to what [pwdencrypt] leaves, same secret and
    authenticator; [below] is the stack under [out] during [pwdencrypt]. *)
Definition pwd_roundtrip (below p s a : list Z) : res (bool * list Z) :=
  r ← pwdencrypt below p 0 (Z.of_nat (length p)) s (Z.of_nat (length s)) a;
  let '(ok, c) := (r : bool * list Z) in
  if ok then pwddecrypt c 0 (Z.of_nat (length p)) s (Z.of_nat (length s)) a
  else Ret (false, c).

(** The RFC 2865 chain the specification describes: every block after the
    first is hidden with the digest of the secret and the previous
    ciphertext block. *)
Fixpoint rfc_encrypt (blocks : nat) (s prev p : list Z) : list Z :=
  match blocks with
  | O => []
  | S blocks' =>
      let c := xor_bytes (MD5.digest (s ++ prev)) (take 16 p) in
      c ++ rfc_encrypt blocks' s c (drop 16 p)
  end.

(** A realm block with [ReplyMessage "denied"] and no [server]: [addrealm]
    leaves [realm->srvconf] NULL. *)
Definition ex_realm_reject : realm :=
  Realm "example.org" (fun _ => true) (Some (ascii_bytes "denied")) None.

Definition ex_proxy_reject : proxy := Proxy [ex_realm_reject] [Some ex_server].

(** A state [main] never builds: the realm names entry 0 of [srvconfs], and
    [srvconfs[0].servers] is still NULL. *)
Definition ex_proxy_unset : proxy :=
  Proxy [Realm "example.org" (fun _ => true) (Some (ascii_bytes "denied"))
               (Some 0%nat)]
        [None].

(** [buf] with bit [k mod 8] of byte [k / 8] flipped. *)
Definition flip_bit (buf : list Z) (k : nat) : list Z :=
  match buf !! (k / 8)%nat with
  | Some v => <[(k / 8)%nat := Z.lxor v (Z.shiftl 1 (Z.of_nat (k mod 8)))]> buf
  | None => buf
  end.

(** Bit [k] is not among the 16 bytes at [p]. *)
Definition outside_field (p : Z) (k : nat) : bool :=
  (Z.of_nat (k / 8) <? p) || (p + 16 <=? Z.of_nat (k / 8)).

(** The call returned 1. *)
Definition accepted (r : res (bool * list Z)) : bool :=
  match r with Ret (true, _) => true | _ => false end.

(** ** More of the source, and the notions the further properties are stated with *)

(** *** Attributes, signatures and the password chain *)

(** The attributes that start at [attrs]: their lengths, one after the
    other, each at least 2. *)
Fixpoint attrs_at (b : list Z) (attrs : Z) (ls : list Z) : Prop :=
  match ls with
  | [] => True
  | l :: ls' => ATTRLEN b attrs = Ret l /\ 2 <= l /\ attrs_at b (attrs + l) ls'
  end.

(** The sum of the lengths. *)
Definition total (ls : list Z) : Z := fold_right Z.add 0 ls.

(** Where the attributes of lengths [ls] start. *)
Fixpoint offsets (attrs : Z) (ls : list Z) : list Z :=
  match ls with
  | [] => []
  | l :: ls' => attrs :: offsets (attrs + l) ls'
  end.

(** [attrget] has found the right attribute: [r] is the first of the
    attributes at [os] that has the type, or NULL when none has. *)
Definition first_of_type (b : list Z) (type : Z) (os : list Z) (r : option Z)
  : Prop :=
  match r with
  | Some a =>
      exists pre post,
        os = pre ++ a :: post
        /\ ATTRTYPE b a = Ret type
        /\ Forall (fun o => ATTRTYPE b o <> Ret type) pre
  | None => Forall (fun o => ATTRTYPE b o <> Ret type) os
  end.

(** RFC 2865 decryption of [blocks] blocks: every block is recovered with
    the digest of the secret and the previous ciphertext block. *)
Fixpoint rfc_decrypt (blocks : nat) (s prev c : list Z) : list Z :=
  match blocks with
  | O => []
  | S blocks' =>
      xor_bytes (MD5.digest (s ++ prev)) (take 16 c)
      ++ rfc_decrypt blocks' s (take 16 c) (drop 16 c)
  end.

(** *** The reply queue and its writers: newreplyq, addclient, udpserverwr, tlsserverwr *)

(** [newreplyq(size)]: an empty queue; its array has MAX_REQUESTS entries
    whatever [size] is. *)
Definition newreplyq (size : Z) : replyq := Replyq [] size.

(** The queue [addclient] gives a client: one of its own for a TLS client,
    the one queue of all UDP clients otherwise. *)
Definition addclient_replyq (type : Z) (client_udp_count : Z) : replyq :=
  if type =? TYPE_TLS then newreplyq MAX_REQUESTS
  else newreplyq (client_udp_count * MAX_REQUESTS).

(** One turn of the loop of [udpserverwr] and [tlsserverwr] once [count] is
    not 0: [replies[0]] is sent, [count] goes down by one and the rest moves
    to the front.  None: the writer waits. *)
Definition serverwr_turn (q : replyq) : option (reply * replyq) :=
  match rpq_replies q with
  | [] => None
  | r :: rest => Some (r, Replyq rest (rpq_size q))
  end.

(** [n] turns of the writer: what was sent, in the order sent. *)
Fixpoint serverwr_turns (n : nat) (q : replyq) : list reply * replyq :=
  match n with
  | O => ([], q)
  | S n' =>
      match serverwr_turn q with
      | None => ([], q)
      | Some (r, q') =>
          let '(sent, q'') := serverwr_turns n' q' in (r :: sent, q'')
      end
  end.

(** [sendreply] called for each message of a list in turn, the writer not
    running in between. *)
Fixpoint sendreply_seq (q : replyq) (msgs : list (client * list Z * option Z))
  : res (replyq * list sendreply_result) :=
  match msgs with
  | [] => Ret (q, [])
  | (to, buf, tosa) :: msgs' =>
      '(q', r) ← sendreply q to buf tosa;
      '(q'', rs) ← sendreply_seq q' msgs';
      Ret (q'', r :: rs)
  end.

(** *** What signing and re-encryption leave *)

(** The packet [radsign] leaves: the digest of the packet and the secret in
    bytes 4..20. *)
Definition signed (rad sec : list Z) (len : Z) : list Z :=
  take 4 rad ++ MD5.digest (take (Z.to_nat len) rad ++ sec) ++ drop 20 rad.

(** [same_outside lo hi b b']: the buffers have the same length and agree
    on every byte that is not in [lo, hi). *)
Definition same_outside (lo hi : Z) (b b' : list Z) : Prop :=
  length b' = length b
  /\ forall j : nat, Z.of_nat j < lo \/ hi <= Z.of_nat j -> b' !! j = b !! j.

(** *** The Status-Server probe of clientwr *)

(** The Status-Server message [clientwr] prepares in [statsrvbuf]: 38 zero
    bytes with the code, the length, and an empty Message-Authenticator. *)
Definition statsrvbuf_init : list Z :=
  <[21%nat := 18]>
    (<[20%nat := RAD_Attr_Message_Authenticator]>
       (<[3%nat := 38]> (<[0%nat := RAD_Status_Server]> (repeat 0 38)))).

(** The Status-Server block at the end of a turn of [clientwr]: [lastsend]
    as it is left and the result of [sendrq] when a probe is queued.  [rand]
    is what [RAND_bytes] delivers (None when it fails); [statsrvrq] is the
    zeroed request. *)
Definition clientwr_probe (srv : server) (now lastsend : Z)
  (rand : option (list Z)) : res (server * Z * option sendrq_result) :=
  if conf_statusserver (srv_conf srv) then
    if STATUS_SERVER_PERIOD <=? now - lastsend then
      match rand with
      | None => Ret (srv, lastsend, None)
      | Some auth =>
          a ← rdn auth 0 16;
          buf ← wrn statsrvbuf_init 4 a;
          '(srv', r) ← sendrq srv (set_buf request_zero (Some buf));
          Ret (srv', now, Some r)
      end
    else Ret (srv, lastsend, None)
  else Ret (srv, lastsend, None).

(** *** Messages from a TLS connection: radtlsget *)

(** [SSL_read(ssl, p, n)].  The connection is the list of the TLS records at
    hand; a read hands out the bytes of the record at the head, at most [n]
    of them, and leaves what it did not take.  With no record left, or
    nothing to hand out, it fails ([cnt <= 0]: connection lost or closed). *)
Definition SSL_read (ssl : list (list Z)) (n : Z)
  : option (list Z * list (list Z)) :=
  match ssl with
  | [] => None
  | record :: ssl' =>
      match take (Z.to_nat n) record with
      | [] => None
      | got =>
          Some (got, match drop (Z.to_nat n) record with
                     | [] => ssl'
                     | more => more :: ssl'
                     end)
      end
  end.

(** [for (; total < len; total += cnt) { cnt = SSL_read(ssl, b + total,
    len - total); if (cnt <= 0) return NULL; }], the form of both read loops
    of [radtlsget]; [None] is the return of NULL. *)
Fixpoint radtlsget_read (fuel : nat) (ssl : list (list Z)) (b : list Z)
  (total len : Z) : res (option (list Z * Z) * list (list Z)) :=
  if total <? len then
    match fuel with
    | O => Hang
    | S fuel' =>
        match SSL_read ssl (len - total) with
        | None => Ret (None, ssl)
        | Some (got, ssl') =>
            b' ← wrn b total got;
            radtlsget_read fuel' ssl' b' (total + Z.of_nat (length got)) len
        end
    end
  else Ret (Some (b, total), ssl).

(** [radtlsget(ssl)]; [malloc] is taken to succeed, and what it and the
    local [buf] hold before they are written is taken as zeros.  The result
    is the message, or [None] for NULL, and the records left. *)
Fixpoint radtlsget (fuel : nat) (ssl : list (list Z))
  : res (option (list Z) * list (list Z)) :=
  match fuel with
  | O => Hang
  | S fuel' =>
      '(r, ssl1) ← radtlsget_read 4 ssl (repeat 0 4) 0 4;
      match r with
      | None => Ret (None, ssl1)
      | Some (buf, total) =>
          len ← RADLEN buf;
          rad ← wrn (repeat 0 (Z.to_nat len)) 0 buf;
          '(r2, ssl2) ← radtlsget_read (Z.to_nat len) ssl1 rad total len;
          match r2 with
          | None => Ret (None, ssl2)
          | Some (rad', total') =>
              if 20 <=? total' then Ret (Some rad', ssl2)
              else radtlsget fuel' ssl2
          end
      end
  end.

(** A message whose length field says how long it is. *)
Definition framed (m : list Z) : Prop := RADLEN m = Ret (Z.of_nat (length m)).

(** A message [radtlsget] reads whole and then drops: 4 to 19 bytes. *)
Definition undersized (m : list Z) : Prop :=
  framed m /\ (4 <= length m < 20)%nat.

(** *** Messages from the UDP socket: find_peer and radudpget *)

(** A [struct sockaddr]: [sockaddr_in] with the 4 bytes of [sin_addr], or
    [sockaddr_in6] with the 16 bytes of [sin6_addr]; the port is carried
    along and never looked at. *)
Inductive sockaddr :=
| SockIn (sin_addr : list Z) (sin_port : Z)
| SockIn6 (sin6_addr : list Z) (sin6_port : Z).

(** A [struct clsrvconf] with two more of its fields: the list [addrinfo]
    that resolving its host gave, one [sockaddr] per entry, the family being
    that of the entry; and the pointer [clients], NULL or the client made
    for the conf. *)
Record peer := Peer {
  peer_conf : clsrvconf;
  peer_addrinfo : list sockaddr;
  peer_clients : option client
}.

(** [IN6_IS_ADDR_V4MAPPED]: ten zero bytes, then 0xff 0xff. *)
Definition IN6_IS_ADDR_V4MAPPED (a : list Z) : bool :=
  bool_decide (take 12 a = repeat 0 10 ++ [255; 255]).

(** The test of the inner loop of [find_peer] for one [addrinfo] entry;
    [a4] and [sa6] are NULL ([None]) or point at the sender's address. *)
Definition peer_addr_matches (a4 sa6 : option (list Z)) (res : sockaddr) : bool :=
  match res with
  | SockIn a _ =>
      match a4 with
      | Some x => bool_decide (take 4 x = take 4 a)
      | None => false
      end
  | SockIn6 a _ =>
      match sa6 with
      | Some x => bool_decide (take 16 x = take 16 a)
      | None => false
      end
  end.

(** [find_peer(type, addr, confs, count)]: the first conf of the type one of
    whose addresses is the sender's. *)
Definition find_peer (type : Z) (addr : sockaddr) (confs : list peer)
  : option peer :=
  let '(a4, sa6) :=
    match addr with
    | SockIn6 a _ =>
        (if IN6_IS_ADDR_V4MAPPED a then Some (drop 12 a) else None, Some a)
    | SockIn a _ => (Some a, None)
    end in
  find (fun c => (conf_type (peer_conf c) =? type)
                 && existsb (peer_addr_matches a4 sa6) (peer_addrinfo c))
       confs.

(** [radudpget(s, client, server, sa)] with [confs] the confs it is to look
    in.  [net] is what the calls of [recvfrom] give one after the other:
    [None] for -1, else the sender and the bytes put into [buf]; when it is
    used up the function waits in [recvfrom].  [malloc] is taken to succeed.
    The result is the message, the peer found, the sender, and what is left
    of [net]. *)
Fixpoint radudpget (confs : list peer) (net : list (option (sockaddr * list Z)))
  : res (list Z * peer * sockaddr * list (option (sockaddr * list Z))) :=
  match net with
  | [] => Hang
  | None :: net' => radudpget confs net'
  | Some (from, buf) :: net' =>
      let cnt := Z.of_nat (length buf) in
      if cnt <? 20 then radudpget confs net'
      else
        len ← RADLEN buf;
        if len <? 20 then radudpget confs net'
        else if cnt <? len then radudpget confs net'
        else
          match find_peer TYPE_UDP from confs with
          | None => radudpget confs net'
          | Some p =>
              rad ← rdn buf 0 len;
              Ret (rad, p, from, net')
          end
  end.

(** What [radudpget] takes: at least 20 bytes, a length field between 20 and
    the size of the datagram, and a sender [find_peer] knows. *)
Definition acceptable (confs : list peer) (x : option (sockaddr * list Z))
  : Prop :=
  match x with
  | None => False
  | Some (from, buf) =>
      exists len, RADLEN buf = Ret len
                  /\ 20 <= len <= Z.of_nat (length buf)
                  /\ find_peer TYPE_UDP from confs <> None
  end.

(** *** The configuration file: strtokenquote *)

(** [strchr(s, c) != NULL] for a string [s] given by its characters: the
    terminating NUL counts as part of the string. *)
Definition strchr (s : list Z) (c : Z) : bool :=
  (c =? 0) || existsb (Z.eqb c) s.

(** [while ( *t && go( *t)) t++;], the form of the three loops of
    [strtokenquote]; the result is [t]. *)
Fixpoint skip_while (fuel : nat) (mem : list Z) (t : Z) (go : Z -> bool)
  : res Z :=
  c ← rd mem t;
  if negb (c =? 0) && go c then
    match fuel with
    | O => Hang
    | S fuel' => skip_while fuel' mem (t + 1) go
    end
  else Ret t.

(** [strtokenquote(s, token, del, quote, comment)] with [s], [token] and
    [del] not NULL; [quote] and [comment] may be NULL.  The result is NULL
    ([None]) or what is stored in [*token] (NULL or the start of the token)
    with the pointer returned, and the memory, in which the end of the token
    has been overwritten with NUL. *)
Definition strtokenquote (mem : list Z) (s : Z) (del : list Z)
  (quote comment : option (list Z)) : res (option (option Z * Z) * list Z) :=
  t ← skip_while (length mem) mem s (strchr del);
  c ← rd mem t;
  if (c =? 0) || match comment with Some cm => strchr cm c | None => false end
  then Ret (Some (None, t + 1), mem)
  else if match quote with Some qs => strchr qs c | None => false end then
    let r := t + 1 in
    t' ← skip_while (length mem) mem r (fun x => negb (x =? c));
    c' ← rd mem t';
    if c' =? 0 then Ret (None, mem)
    else
      c1 ← rd mem (t' + 1);
      if negb (c1 =? 0) && negb (strchr del c1) then Ret (None, mem)
      else
        mem' ← wr mem t' 0;
        Ret (Some (Some r, t' + 1), mem')
  else
    t' ← skip_while (length mem) mem (t + 1) (fun x => negb (strchr del x));
    mem' ← wr mem t' 0;
    Ret (Some (Some t, t' + 1), mem').

(** [c] is one of the characters of the optional string. *)
Definition in_chars (o : option (list Z)) (c : Z) : Prop :=
  match o with
  | Some s => In c s
  | None => False
  end.

(** *** The configuration file: addrealm *)

(** The string that starts a buffer: its characters up to the first NUL. *)
Fixpoint until_nul (mem : list Z) : list Z :=
  match mem with
  | [] => []
  | c :: mem' => if c =? 0 then [] else c :: until_nul mem'
  end.

(** [for (n = 0, s = value; *s;) if ( *s++ == '.') n++;] of [addrealm];
    a string is given by its characters, the NUL left out. *)
Fixpoint addrealm_dots (value : list Z) (n : Z) : Z :=
  match value with
  | [] => n
  | c :: value' => addrealm_dots value' (if c =? 46 then n + 1 else n)
  end.

(** [for (n = 1, s = value; *s; s++) { if ( *s == '.') regex[n++] = '\\';
    regex[n++] = *s; }]. *)
Fixpoint addrealm_copy (value : list Z) (regex : list Z) (n : Z)
  : res (list Z * Z) :=
  match value with
  | [] => Ret (regex, n)
  | c :: value' =>
      '(regex1, n1) ← (if c =? 46
                       then regex' ← wr regex n 92; Ret (regex', n + 1)
                       else Ret (regex, n));
      regex2 ← wr regex1 n1 c;
      addrealm_copy value' regex2 (n1 + 1)
  end.

(** The buffer [regex] that [addrealm] builds for a realm that is not given
    as a regular expression and is not ["*"]; [malloc] is taken to succeed
    and to give zeros. *)
Definition addrealm_regex (value : list Z) : res (list Z) :=
  let n := addrealm_dots value 0 in
  let regex := repeat 0 (Z.to_nat (Z.of_nat (length value) + n + 3)) in
  regex ← wr regex 0 64;
  '(regex, n) ← addrealm_copy value regex 1;
  regex ← wr regex n 36;
  wr regex (n + 1) 0.

(** The pattern [addrealm] hands to [regcomp]: [regex ? regex : value + 1].
    A value that starts with '/' is a regular expression, the '/' at its end,
    if there is one, being overwritten with NUL.  [dotstar] is what
    [stringcopy(".*", 0)] gives for the realm ["*"]; [stringcopy] is in
    util.c, which is not among the sources. *)
Definition addrealm_pattern (dotstar : list Z) (value : list Z)
  : res (list Z) :=
  match value with
  | 47 :: _ =>
      let value := if List.last value 0 =? 47 then removelast value else value in
      Ret (tail value)
  | _ =>
      if bool_decide (value = [42]) then Ret dotstar
      else
        regex ← addrealm_regex value;
        Ret (until_nul regex)
  end.

(** The realm with a backslash in front of every dot. *)
Definition escape_dots (value : list Z) : list Z :=
  flat_map (fun c => if c =? 46 then [92; 46] else [c]) value.

(** *** Incoming TLS connections: tlslistener *)

(** The sender [from] has the address [res] of a conf, as [find_peer]
    compares them: the 4 bytes of two IPv4 addresses, the 16 bytes of two
    IPv6 addresses, the last 4 bytes of a v4-mapped IPv6 sender with an IPv4
    address; an IPv4 sender has no IPv6 address. *)
Definition same_address (from res : sockaddr) : Prop :=
  match from, res with
  | SockIn a _, SockIn b _ => take 4 a = take 4 b
  | SockIn6 a _, SockIn6 b _ => take 16 a = take 16 b
  | SockIn6 a _, SockIn b _ =>
      IN6_IS_ADDR_V4MAPPED a = true /\ take 4 (drop 12 a) = take 4 b
  | SockIn _ _, SockIn6 _ _ => False
  end.

(** No conf of the type has the address of the sender. *)
Definition unknown_peer (type : Z) (from : sockaddr) (confs : list peer) : Prop :=
  Forall (fun c => conf_type (peer_conf c) = type ->
                   Forall (fun res => ~ same_address from res) (peer_addrinfo c))
         confs.

(** What a turn of the loop of [tlslistener] does with a connection. *)
Inductive tlslistener_result :=
| AcceptFailed
| NotKnown
| AlreadyConnected
| ServerStarted (c : client).

(** One turn of the loop of [tlslistener]: [snew] is what [accept] gives,
    [None] for a negative result, else the address of the caller; [has_ssl]
    tells whether [client->ssl] is set.  [pthread_create] is taken to
    succeed. *)
Definition tlslistener_turn (clconfs : list peer) (has_ssl : client -> bool)
  (snew : option sockaddr) : res tlslistener_result :=
  match snew with
  | None => Ret AcceptFailed
  | Some from =>
      match find_peer TYPE_TLS from clconfs with
      | None => Fault
      | Some p =>
          match peer_clients p with
          | None => Ret NotKnown
          | Some client =>
              if has_ssl client then Ret AlreadyConnected
              else Ret (ServerStarted client)
          end
      end
  end.

(** *** The reader of a TLS client: tlsserverrd *)


(** * Part II: properties *)

Lemma md5_empty :
  MD5.digest [] = [0xd4;0x1d;0x8c;0xd9;0x8f;0x00;0xb2;0x04;0xe9;0x80;0x09;0x98;0xec;0xf8;0x42;0x7e].
Proof. vm_compute. reflexivity. Qed.

Lemma md5_abc :
  MD5.digest (ascii_bytes "abc"%string) = [0x90;0x01;0x50;0x98;0x3c;0xd2;0x4f;0xb0;0xd6;0x96;0x3f;0x7d;0x28;0xe1;0x7f;0x72].
Proof. vm_compute. reflexivity. Qed.

Lemma md5_a100 :
  MD5.digest (repeat 97 100) = [0x36;0xa9;0x2c;0xc9;0x4a;0x9e;0x0f;0xa2;0x1f;0x62;0x5f;0x8b;0xfb;0x00;0x7a;0xdf].
Proof. vm_compute. reflexivity. Qed.

Lemma hmac_md5_rfc2202_2 :
  hmac_md5 (ascii_bytes "Jefe"%string) (ascii_bytes "what do ya want for nothing?"%string)
  = [0x75;0x0c;0x78;0x3e;0x6a;0xb0;0xb5;0x03;0xea;0xa8;0x6e;0x31;0x0a;0x5d;0xb7;0x38].
Proof. vm_compute. reflexivity. Qed.

(** ** tlsconnect *)

Lemma tlsconnect_wait_ladder (srv : server) (now : Z * Z) :
  snd (tlsconnect_wait srv now) = ladder_at (srv, now).
Proof.
  unfold tlsconnect_wait, ladder_at, backoff_ladder; simpl.
  destruct (srv_connectionok srv); [reflexivity|].
  set (e := fst now - fst (srv_lastconnecttry srv)).
  destruct (Z.ltb_spec e 5); [reflexivity|].
  destruct (Z.ltb_spec e 300); simpl.
  - destruct (Z.leb_spec 5 e); [reflexivity|lia].
  - destruct (Z.leb_spec 5 e); simpl; [|lia].
    destruct (Z.ltb_spec e 100000); simpl.
    + destruct (Z.leb_spec 300 e); [reflexivity|lia].
    + destruct (Z.leb_spec 300 e); reflexivity.
Qed.

Lemma tlsconnect_wait_clears (srv : server) (now : Z * Z) :
  srv_connectionok srv = true ->
  srv_connectionok (fst (tlsconnect_wait srv now)) = false.
Proof. unfold tlsconnect_wait; intros ->; reflexivity. Qed.

Lemma tlsconnect_loop_sleeps (attempts : list ((Z * Z) * bool)) :
  forall srv,
    snd (fst (tlsconnect_loop srv attempts))
    = map ladder_at (tlsconnect_turns srv attempts).
Proof.
  induction attempts as [|[now up] rest IH]; intros srv; simpl; [reflexivity|].
  pose proof (tlsconnect_wait_ladder srv now) as Hw.
  destruct (tlsconnect_wait srv now) as [srv' slept] eqn:E; simpl in *.
  destruct up; simpl.
  - now rewrite Hw.
  - specialize (IH srv').
    destruct (tlsconnect_loop srv' rest) as [[srv'' sleeps] done]; simpl in *.
    now rewrite Hw, IH.
Qed.

(** C9.  Before every connection attempt [tlsconnect] sleeps as the ladder
    says, for the state of the server at the top of that turn: 10 s when
    [connectionok] was set, which the turn clears; otherwise, with
    [elapsed = now - lastconnecttry], 10 s below 5 s, [elapsed] seconds from
    5 s to below 300 s, 600 s from 300 s to below 100000 s, and no sleep from
    100000 s on.  A call that finds [lastconnecttry] changed makes no attempt
    and does not sleep. *)
Theorem tlsconnect_sleeps_ladder :
  forall (srv : server) (when : option (Z * Z))
         (attempts : list ((Z * Z) * bool)) (final : Z * Z),
    snd (fst (tlsconnect srv when attempts final))
    = (if tlsconnect_skips srv when then []
       else map ladder_at (tlsconnect_turns srv attempts))
    /\ Forall (fun turn =>
                 snd (tlsconnect_wait (fst turn) (snd turn)) = ladder_at turn
                 /\ (srv_connectionok (fst turn) = true ->
                     ladder_at turn = Some 10
                     /\ srv_connectionok (fst (tlsconnect_wait (fst turn) (snd turn))) = false))
              (tlsconnect_turns srv attempts).
Proof.
  intros srv when attempts final; split.
  - pose proof (tlsconnect_loop_sleeps attempts srv) as H.
    unfold tlsconnect, tlsconnect_skips.
    destruct when as [w|].
    + destruct (negb (bool_decide (srv_lastconnecttry srv = w))); [reflexivity|].
      destruct (tlsconnect_loop srv attempts) as [[s sl] d]; exact H.
    + destruct (tlsconnect_loop srv attempts) as [[s sl] d]; exact H.
  - apply Forall_forall; intros [s now] _; simpl; split.
    + apply tlsconnect_wait_ladder.
    + intros Hok; split.
      * unfold ladder_at, backoff_ladder; simpl; now rewrite Hok.
      * now apply tlsconnect_wait_clears.
Qed.

(** ** Memory primitives *)

Lemma bind_Ret {A B : Type} (m : res A) (k : A -> res B) (b : B) :
  m ≫= k = Ret b -> exists a, m = Ret a /\ k a = Ret b.
Proof. destruct m; simpl; intros H; try discriminate; eauto. Qed.

Ltac res_inv H :=
  let a := fresh "v" in
  let Ha := fresh "E" in
  let H' := fresh "R" in
  apply bind_Ret in H as (a & Ha & H'); rename H' into H.

Ltac inv_ret H := inversion H; clear H; subst.

Lemma rd_Ret (b : list Z) (p v : Z) :
  rd b p = Ret v -> 0 <= p /\ b !! Z.to_nat p = Some v.
Proof.
  unfold rd. destruct (Z.ltb_spec p 0); [discriminate|].
  destruct (b !! Z.to_nat p) eqn:E; [|discriminate].
  intros [= ->]; auto.
Qed.

Lemma rd_lt (b : list Z) (p v : Z) :
  rd b p = Ret v -> 0 <= p < Z.of_nat (length b).
Proof.
  intros H; apply rd_Ret in H as [H0 H1].
  apply lookup_lt_Some in H1. lia.
Qed.

Lemma wr_Ret (b : list Z) (p v : Z) (b' : list Z) :
  wr b p v = Ret b' ->
  0 <= p < Z.of_nat (length b) /\ b' = <[Z.to_nat p := v]> b.
Proof.
  unfold wr. destruct (Z.ltb_spec p 0); [discriminate|].
  destruct (Nat.ltb_spec (Z.to_nat p) (length b)); [|discriminate].
  intros [= <-]; split; [lia|reflexivity].
Qed.

Lemma wr_length (b : list Z) (p v : Z) (b' : list Z) :
  wr b p v = Ret b' -> length b' = length b.
Proof. intros H; apply wr_Ret in H as [_ ->]. apply length_insert. Qed.

Lemma rdn_Ret (b : list Z) (p n : Z) (l : list Z) :
  rdn b p n = Ret l ->
  0 <= p /\ 0 <= n /\ p + n <= Z.of_nat (length b)
  /\ l = take (Z.to_nat n) (drop (Z.to_nat p) b).
Proof.
  unfold rdn.
  destruct (Z.ltb_spec p 0); [discriminate|].
  destruct (Z.ltb_spec n 0); [discriminate|].
  destruct (Z.ltb_spec (Z.of_nat (length b)) (p + n)); [discriminate|].
  simpl. intros [= <-]. auto.
Qed.

Lemma rdn_length (b : list Z) (p n : Z) (l : list Z) :
  rdn b p n = Ret l -> length l = Z.to_nat n.
Proof.
  intros H; apply rdn_Ret in H as (H0 & H1 & H2 & ->).
  rewrite length_take, length_drop. lia.
Qed.

Lemma rdn_ok (b : list Z) (p n : Z) :
  0 <= p -> 0 <= n -> p + n <= Z.of_nat (length b) ->
  rdn b p n = Ret (take (Z.to_nat n) (drop (Z.to_nat p) b)).
Proof.
  intros H0 H1 H2. unfold rdn.
  destruct (Z.ltb_spec p 0); [lia|].
  destruct (Z.ltb_spec n 0); [lia|].
  destruct (Z.ltb_spec (Z.of_nat (length b)) (p + n)); [lia|].
  reflexivity.
Qed.

Lemma wrn_Ret (b : list Z) (p : Z) (src b' : list Z) :
  wrn b p src = Ret b' ->
  0 <= p /\ p + Z.of_nat (length src) <= Z.of_nat (length b)
  /\ b' = take (Z.to_nat p) b ++ src ++ drop (Z.to_nat p + length src) b.
Proof.
  unfold wrn.
  destruct (Z.ltb_spec p 0); [discriminate|].
  destruct (Z.ltb_spec (Z.of_nat (length b)) (p + Z.of_nat (length src)));
    [discriminate|].
  simpl. intros [= <-]. auto.
Qed.

Lemma wrn_ok (b : list Z) (p : Z) (src : list Z) :
  0 <= p -> p + Z.of_nat (length src) <= Z.of_nat (length b) ->
  wrn b p src = Ret (take (Z.to_nat p) b ++ src ++ drop (Z.to_nat p + length src) b).
Proof.
  intros H0 H1. unfold wrn.
  destruct (Z.ltb_spec p 0); [lia|].
  destruct (Z.ltb_spec (Z.of_nat (length b)) (p + Z.of_nat (length src))); [lia|].
  reflexivity.
Qed.

Lemma wrn_length (b : list Z) (p : Z) (src b' : list Z) :
  wrn b p src = Ret b' -> length b' = length b.
Proof.
  intros H; apply wrn_Ret in H as (H0 & H1 & ->).
  rewrite !length_app, length_take, length_drop. lia.
Qed.

Lemma wrn_lookup_lt (b : list Z) (p : Z) (src b' : list Z) (q : nat) :
  wrn b p src = Ret b' -> (Z.of_nat q < p) -> b' !! q = b !! q.
Proof.
  intros H Hq; apply wrn_Ret in H as (H0 & H1 & ->).
  rewrite lookup_app_l by (rewrite length_take; lia).
  apply lookup_take_lt. lia.
Qed.

Lemma wrn_lookup_ge (b : list Z) (p : Z) (src b' : list Z) (q : nat) :
  wrn b p src = Ret b' -> (p + Z.of_nat (length src) <= Z.of_nat q) ->
  b' !! q = b !! q.
Proof.
  intros H Hq; apply wrn_Ret in H as (H0 & H1 & ->).
  rewrite lookup_app_r by (rewrite length_take; lia).
  rewrite length_take.
  rewrite lookup_app_r by lia.
  rewrite lookup_drop. f_equal. lia.
Qed.

Lemma wrn_rdn (b : list Z) (p : Z) (src b' : list Z) :
  wrn b p src = Ret b' -> rdn b' p (Z.of_nat (length src)) = Ret src.
Proof.
  intros H. pose proof (wrn_length _ _ _ _ H) as Hl.
  apply wrn_Ret in H as (H0 & H1 & ->).
  rewrite rdn_ok by lia. f_equal.
  rewrite drop_app_length' by (rewrite length_take; lia).
  rewrite Nat2Z.id. apply take_app_length.
Qed.

Lemma wr_lookup_ne (b : list Z) (p v : Z) (b' : list Z) (q : nat) :
  wr b p v = Ret b' -> Z.of_nat q <> p -> b' !! q = b !! q.
Proof.
  intros H Hq; apply wr_Ret in H as (H0 & ->).
  apply list_lookup_insert_ne. lia.
Qed.

Lemma wr_lookup_eq (b : list Z) (p v : Z) (b' : list Z) :
  wr b p v = Ret b' -> b' !! Z.to_nat p = Some v.
Proof.
  intros H; apply wr_Ret in H as (H0 & ->).
  apply list_lookup_insert_eq. lia.
Qed.

(** Reduce the binds whose first argument is a known result. *)
Ltac ret_red := cbn [mbind res_bind].

(** Reading and writing memory never loops. *)
Lemma rdn_ends (b : list Z) (p n : Z) : rdn b p n <> Hang.
Proof. unfold rdn. destruct (_ || _); discriminate. Qed.

Lemma wrn_ends (b : list Z) (p : Z) (src : list Z) : wrn b p src <> Hang.
Proof. unfold wrn. destruct (_ || _); discriminate. Qed.

(** ** sendrq *)

Lemma scan_free_spec (rqs : list request) (count : nat) :
  forall from,
    let j := scan_free rqs from count in
    (from <= j <= from + count)%nat
    /\ none_free rqs from j
    /\ ((j < from + count)%nat -> slot_free rqs j = true).
Proof.
  induction count as [|c IH]; intros from; simpl.
  - split; [lia|]. split; [intros k Hk; lia|lia].
  - destruct (slot_free rqs from) eqn:E.
    + split; [lia|]. split; [intros k Hk; lia|auto].
    + destruct (IH (S from)) as (H1 & H2 & H3).
      split; [lia|]. split.
      * intros k Hk. destruct (decide (k = from)) as [->|]; [exact E|].
        apply H2; lia.
      * intros Hj. apply H3. lia.
Qed.

Lemma scan_free_full (rqs : list request) (count : nat) :
  forall from, none_free rqs from (from + count) ->
               scan_free rqs from count = (from + count)%nat.
Proof.
  induction count as [|c IH]; intros from H; simpl; [lia|].
  rewrite (H from) by lia.
  rewrite IH; [lia|]. intros k Hk; apply H; lia.
Qed.

Lemma store_request_Ret (to : server) (i : nat) (rq : request) (buf : list Z)
  (to' : server) (r : sendrq_result) :
  store_request to i rq buf = Ret (to', r) ->
  (i < length (srv_requests to))%nat
  /\ r = Inserted (Z.of_nat i)
  /\ srv_requests to' = <[i := set_buf rq (Some buf)]> (srv_requests to)
  /\ srv_nextid to' = Z.of_nat i + 1
  /\ srv_conf to' = srv_conf to.
Proof.
  unfold store_request.
  destruct (Nat.ltb_spec i (length (srv_requests to))); [|discriminate].
  intros [= <- <-]; simpl; auto.
Qed.

Lemma attrget_loop_ge (fuel : nat) (b : list Z) (type : Z) :
  wf_bytes b ->
  forall attrs length a,
    attrget_loop fuel b attrs length type = Ret (Some a) ->
    attrs <= a /\ a + 1 < attrs + length.
Proof.
  intros Hb. induction fuel as [|f IH]; intros attrs len a; simpl.
  - destruct (1 <? len); discriminate.
  - destruct (Z.ltb_spec 1 len) as [Hl|Hl]; [|discriminate].
    intros H. res_inv H. destruct (v =? type).
    + inv_ret H. lia.
    + res_inv H. destruct (v0 =? 0); [discriminate|].
      apply IH in H. unfold ATTRLEN in E0. apply rd_Ret in E0 as [_ E0].
      pose proof (proj1 (Forall_lookup _ _) Hb _ _ E0) as Hv0. simpl in Hv0.
      lia.
Qed.

Lemma attrget_ge (b : list Z) (attrs length type a : Z) :
  wf_bytes b ->
  attrget b attrs length type = Ret (Some a) ->
  attrs <= a /\ a + 1 < attrs + length.
Proof. intros Hb; apply attrget_loop_ge, Hb. Qed.

Lemma wf_bytes_insert (b : list Z) (i : nat) (v : Z) :
  wf_bytes b -> 0 <= v < 256 -> wf_bytes (<[i := v]> b).
Proof.
  intros Hb Hv. apply Forall_insert; assumption.
Qed.

Lemma byte_of_range (x : Z) : 0 <= byte_of x < 256.
Proof. unfold byte_of. apply Z.mod_pos_bound. lia. Qed.

Lemma createmessageauth_lookup_lt (rad : list Z) (p : Z) (secret : list Z)
  (ok : bool) (rad' : list Z) (q : nat) :
  createmessageauth rad (Some p) secret = Ret (ok, rad') ->
  Z.of_nat q < p -> rad' !! q = rad !! q.
Proof.
  unfold createmessageauth. intros H Hq.
  res_inv H. res_inv H. res_inv H. res_inv H. inv_ret H.
  rewrite (wrn_lookup_lt _ _ _ _ _ E2 Hq).
  apply (wrn_lookup_lt _ _ _ _ _ E Hq).
Qed.

Lemma sendrq_slot_spec (to : server) :
  table_ok to ->
  match sendrq_slot to with
  | Some i =>
      (i < 256)%nat
      /\ slot_free (srv_requests to) i = true
      /\ ((Z.to_nat (srv_nextid to) <= i)%nat ->
          none_free (srv_requests to) (Z.to_nat (srv_nextid to)) i)
      /\ ((i < Z.to_nat (srv_nextid to))%nat ->
          none_free (srv_requests to) (Z.to_nat (srv_nextid to)) 256
          /\ none_free (srv_requests to) 0 i)
  | None => none_free (srv_requests to) 0 256
  end.
Proof.
  intros [Hlen Hnext]. unfold sendrq_slot.
  change (Z.to_nat MAX_REQUESTS) with 256%nat.
  set (rqs := srv_requests to) in *.
  set (n := Z.to_nat (srv_nextid to)).
  assert (Hn : (n <= 256)%nat) by (unfold n; lia).
  destruct (scan_free_spec rqs (256 - n) n) as (A1 & A2 & A3).
  destruct (scan_free_spec rqs n 0) as (B1 & B2 & B3).
  set (i1 := scan_free rqs n (256 - n)) in *.
  set (i0 := scan_free rqs 0 n) in *.
  simpl in A1, A2, A3, B1, B2, B3.
  destruct (Nat.eqb_spec i1 256) as [H1|H1].
  - destruct (Nat.eqb_spec i0 n) as [H0|H0].
    + intros k Hk. destruct (decide (k < n)%nat).
      * apply B2; lia.
      * apply A2; lia.
    + split; [lia|]. split; [apply B3; lia|]. split; [intros; lia|].
      intros _. split.
      * intros k Hk. apply A2; lia.
      * exact B2.
  - split; [lia|]. split; [apply A3; lia|]. split.
    + intros _ k Hk. apply A2; lia.
    + intros; lia.
Qed.

Lemma sendrq_fill_Ret (to : server) (rq : request) (i : nat)
  (to' : server) (r : sendrq_result) :
  (i < 256)%nat ->
  sendrq_fill to rq i = Ret (to', r) ->
  (r = AuthFailed /\ to' = to)
  \/ (exists buf' : list Z,
        r = Inserted (Z.of_nat i)
        /\ srv_requests to' = <[i := set_buf rq (Some buf')]> (srv_requests to)
        /\ ((forall buf, rq_buf rq = Some buf -> wf_bytes buf) ->
            buf' !! 1%nat = Some (Z.of_nat i))
        /\ srv_nextid to' = Z.of_nat i + 1
        /\ srv_conf to' = srv_conf to).
Proof.
  intros Hi. unfold sendrq_fill.
  destruct (rq_buf rq) as [buf|] eqn:Eb; [|discriminate].
  intros H. res_inv H. res_inv H. res_inv H.
  assert (Hbyte : byte_of (Z.of_nat i) = Z.of_nat i).
  { unfold byte_of. apply Z.mod_small. lia. }
  assert (Hwf1 : wf_bytes buf -> wf_bytes v).
  { intros Hwf. apply wr_Ret in E as [_ ->]. apply wf_bytes_insert; [eauto|].
    apply byte_of_range. }
  assert (Hv1 : v !! 1%nat = Some (Z.of_nat i)).
  { rewrite <- Hbyte. apply (wr_lookup_eq _ 1 _ _ E). }
  destruct v1 as [a|].
  - res_inv H. destruct v1 as [ok buf2].
    destruct ok; simpl in H.
    + apply store_request_Ret in H as (L & -> & R1 & R2 & R3).
      right. exists buf2. split; [reflexivity|]. split; [assumption|].
      split; [|split; assumption].
      intros Hwf. specialize (Hwf1 (Hwf _ eq_refl)).
      apply (attrget_ge _ _ _ _ _ Hwf1) in E1.
      rewrite <- Hv1.
      apply (createmessageauth_lookup_lt _ _ _ _ _ _ E2).
      unfold ATTRVAL. lia.
    + inv_ret H. left; split; reflexivity.
  - apply store_request_Ret in H as (L & -> & R1 & R2 & R3).
    right. exists v. auto.
Qed.

(** What a call of [sendrq] that returns has done. *)
Lemma sendrq_Ret (to : server) (rq : request) (to' : server) (r : sendrq_result) :
  table_ok to ->
  (forall buf, rq_buf rq = Some buf -> wf_bytes buf) ->
  sendrq to rq = Ret (to', r) ->
  match r with
  | Inserted id =>
      exists (i : nat) (buf' : list Z),
        id = Z.of_nat i /\ (i < 256)%nat
        /\ slot_free (srv_requests to) i = true
        /\ ((Z.to_nat (srv_nextid to) <= i)%nat ->
            none_free (srv_requests to) (Z.to_nat (srv_nextid to)) i)
        /\ ((i < Z.to_nat (srv_nextid to))%nat ->
            none_free (srv_requests to) (Z.to_nat (srv_nextid to)) 256
            /\ none_free (srv_requests to) 0 i)
        /\ srv_requests to' = <[i := set_buf rq (Some buf')]> (srv_requests to)
        /\ buf' !! 1%nat = Some id
        /\ srv_nextid to' = id + 1
  | NoRoom => to' = to /\ none_free (srv_requests to) 0 256
  | AuthFailed => to' = to
  end.
Proof.
  intros Hok Hwf. unfold sendrq.
  pose proof (sendrq_slot_spec to Hok) as Hs.
  destruct (sendrq_slot to) as [i|].
  - destruct Hs as (Hi & Hfree & Hup & Hdown).
    intros H.
    destruct (sendrq_fill_Ret _ _ _ _ _ Hi H)
      as [[-> ->]|(buf' & -> & R1 & R2 & R3 & _)]; [reflexivity|].
    exists i, buf'. auto 10.
  - intros [= <- <-]. auto.
Qed.

Lemma sendrq_full (to : server) (rq : request) :
  table_ok to ->
  none_free (srv_requests to) 0 256 ->
  sendrq to rq = Ret (to, NoRoom).
Proof.
  intros Hok Hfull. unfold sendrq.
  pose proof (sendrq_slot_spec to Hok) as Hs.
  destruct (sendrq_slot to) as [i|]; [|reflexivity].
  destruct Hs as (Hi & Hfree & _).
  rewrite Hfull in Hfree by lia. discriminate.
Qed.

Lemma sendrq_table_ok (to : server) (rq : request) (to' : server)
  (r : sendrq_result) :
  table_ok to -> sendrq to rq = Ret (to', r) -> table_ok to'.
Proof.
  intros Hok. unfold sendrq.
  pose proof (sendrq_slot_spec to Hok) as Hs.
  destruct (sendrq_slot to) as [i|].
  - destruct Hs as (Hi & _). intros H.
    destruct (sendrq_fill_Ret _ _ _ _ _ Hi H)
      as [[-> ->]|(buf' & -> & R1 & _ & R3 & _)]; [assumption|].
    destruct Hok as [Hl Hn]. split.
    + rewrite R1, length_insert. exact Hl.
    + lia.
  - intros [= <- <-]. assumption.
Qed.

Lemma free_slots_insert (rqs : list request) :
  forall (i : nat) (rq : request),
    slot_free rqs i = true ->
    rq_buf rq <> None ->
    (free_slots (<[i := rq]> rqs) + 1 = free_slots rqs)%nat.
Proof.
  unfold free_slots, slot_free.
  induction rqs as [|x rqs IH]; intros i rq Hf Hb; [discriminate|].
  destruct i as [|i]; simpl in *.
  - assert (Hx : is_free x = true).
    { unfold is_free. destruct (rq_buf x); [discriminate|reflexivity]. }
    assert (Hr : is_free rq = false).
    { unfold is_free. destruct (rq_buf rq); [reflexivity|congruence]. }
    rewrite Hx, Hr. simpl. lia.
  - specialize (IH i rq Hf Hb).
    destruct (is_free x); simpl; lia.
Qed.

Lemma free_slots_zero (rqs : list request) :
  free_slots rqs = 0%nat -> forall k, slot_free rqs k = false.
Proof.
  unfold free_slots, slot_free.
  induction rqs as [|x rqs IH]; intros H k; [reflexivity|].
  simpl in H. destruct k as [|k]; simpl.
  - unfold is_free in H. destruct (rq_buf x); [reflexivity|discriminate].
  - apply IH. destruct (is_free x); [discriminate|assumption].
Qed.

Lemma free_slots_all (rqs : list request) :
  (forall k, (k < length rqs)%nat -> slot_free rqs k = true) ->
  free_slots rqs = length rqs.
Proof.
  unfold free_slots, slot_free.
  induction rqs as [|x rqs IH]; intros H; [reflexivity|].
  simpl. pose proof (H 0%nat) as H0. simpl in H0.
  unfold is_free at 1. destruct (rq_buf x); [specialize (H0 ltac:(lia)); discriminate|].
  simpl. f_equal. apply IH. intros k Hk. apply (H (S k)). simpl. lia.
Qed.

Lemma sendrq_seq_fills (rqs : list request) :
  forall (to to' : server) (rs : list sendrq_result),
    table_ok to ->
    sendrq_seq to rqs = Ret (to', rs) ->
    Forall is_inserted rs ->
    table_ok to'
    /\ (free_slots (srv_requests to') + length rqs = free_slots (srv_requests to))%nat.
Proof.
  induction rqs as [|rq rqs IH]; intros to to' rs Hok; simpl.
  - intros [= <- <-] _. split; [assumption|lia].
  - intros H Hins. res_inv H. destruct v as [to1 r].
    res_inv H. destruct v as [to2 rs']. inv_ret H.
    apply Forall_cons in Hins as [Hr Hins].
    pose proof (sendrq_table_ok _ _ _ _ Hok E) as Hok1.
    destruct (IH _ _ _ Hok1 E0 Hins) as [Hok2 Hcount].
    split; [assumption|].
    assert (Hwf : forall buf : list Z, rq_buf rq = Some buf -> True) by auto.
    revert E. unfold sendrq.
    pose proof (sendrq_slot_spec to Hok) as Hs.
    destruct (sendrq_slot to) as [i|].
    + destruct Hs as (Hi & Hfree & _). intros H.
      destruct (sendrq_fill_Ret _ _ _ _ _ Hi H)
        as [[-> ->]|(buf' & -> & R1 & _)]; [destruct Hr|].
      rewrite R1 in Hcount.
      pose proof (free_slots_insert (srv_requests to) i
                    (set_buf rq (Some buf')) Hfree ltac:(discriminate)).
      lia.
    + intros [= <- <-]. destruct Hr.
Qed.

Lemma ex_radsrv_forwards :
  exists px, radsrv (repeat 0 16) (Some ex_newauth) ex_proxy ex_request
             = Ret (px, Forwarded 0 (Inserted 0))
    /\ (srv_requests ex_server_queued !! 0%nat)
       = Some (Request (Some ex_forwarded_pkt) (Some ex_client) 7 42
                       (take 16 (drop 4 ex_request_pkt)) 0 0 false).
Proof. eexists. split; vm_compute; reflexivity. Qed.

Lemma ex_sweep_sends :
  (srv_requests ex_server_sent !! 0%nat)
       = Some (Request (Some ex_forwarded_pkt) (Some ex_client) 7 42
                       (take 16 (drop 4 ex_request_pkt)) 1 1006 false).
Proof. vm_compute; reflexivity. Qed.

Lemma ex_clientrd_delivers :
  exists srv buf, clientrd ex_server_sent ex_reply_pkt
             = Ret (srv, Delivered ex_client buf (Some 7)).
Proof. eexists. eexists. vm_compute. reflexivity. Qed.

Lemma ex_clientrd_short :
   clientrd ex_server_sent ex_reply_short_vsa
             = Ret (set_connectionok ex_server_sent, Discarded).
Proof. vm_compute. reflexivity. Qed.

(** C3.  [sendrq] on a table of 256 slots.  A call that returns has taken one
    of three branches.  [Inserted id]: slot [id] was free, it is the first
    free slot from [nextid] upwards or, when there is none up to 255, the
    first free slot from 0, it is the only slot that changed and now holds
    the request, byte 1 of the stored packet is [id], and [nextid] is
    [id + 1].  [NoRoom]: no slot was free and the server is unchanged.
    [AuthFailed]: the server is unchanged.  When no slot is free the call
    returns [NoRoom] and leaves the server as it was; that is the case after
    256 inserts into an empty table with nothing freed in between. *)
Theorem sendrq_request_table :
  forall (to : server) (rq : request),
    table_ok to ->
    (forall buf, rq_buf rq = Some buf -> wf_bytes buf) ->
    (forall (to' : server) (r : sendrq_result),
        sendrq to rq = Ret (to', r) ->
        match r with
        | Inserted id =>
            exists (i : nat) (buf' : list Z),
              id = Z.of_nat i /\ (i < 256)%nat
              /\ slot_free (srv_requests to) i = true
              /\ ((Z.to_nat (srv_nextid to) <= i)%nat ->
                  none_free (srv_requests to) (Z.to_nat (srv_nextid to)) i)
              /\ ((i < Z.to_nat (srv_nextid to))%nat ->
                  none_free (srv_requests to) (Z.to_nat (srv_nextid to)) 256
                  /\ none_free (srv_requests to) 0 i)
              /\ srv_requests to' = <[i := set_buf rq (Some buf')]> (srv_requests to)
              /\ buf' !! 1%nat = Some id
              /\ srv_nextid to' = id + 1
        | NoRoom => to' = to /\ none_free (srv_requests to) 0 256
        | AuthFailed => to' = to
        end)
    /\ (none_free (srv_requests to) 0 256 -> sendrq to rq = Ret (to, NoRoom))
    /\ (forall (to0 : server) (rqs : list request) (rs : list sendrq_result),
           table_ok to0 ->
           free_slots (srv_requests to0) = 256%nat ->
           length rqs = 256%nat ->
           sendrq_seq to0 rqs = Ret (to, rs) ->
           Forall is_inserted rs ->
           sendrq to rq = Ret (to, NoRoom)).
Proof.
  intros to rq Hok Hwf. split; [|split].
  - intros to' r H. exact (sendrq_Ret to rq to' r Hok Hwf H).
  - intros Hfull. exact (sendrq_full to rq Hok Hfull).
  - intros to0 rqs rs Hok0 Hfree Hlen Hseq Hins.
    destruct (sendrq_seq_fills rqs to0 to rs Hok0 Hseq Hins) as [_ Hcount].
    apply sendrq_full; [assumption|].
    intros k _. apply free_slots_zero. lia.
Qed.

Lemma wf_bytes_check (b : list Z) :
  forallb (fun x => (0 <=? x) && (x <? 256)) b = true -> wf_bytes b.
Proof.
  intros H. apply Forall_forall. intros x Hx.
  apply list_elem_of_In in Hx.
  pose proof (proj1 (forallb_forall _ _) H x Hx) as Hb.
  apply andb_true_iff in Hb as [H0 H1]. lia.
Qed.

Lemma sendrq_request_table_witness :
  table_ok ex_server_full
  /\ (forall buf, rq_buf ex_request = Some buf -> wf_bytes buf)
  /\ sendrq ex_server_full ex_request = Ret (ex_server_full, NoRoom).
Proof.
  assert (H1 : table_ok ex_server_full).
  { split; [vm_compute; reflexivity|vm_compute; split; discriminate]. }
  assert (H2 : forall buf, rq_buf ex_request = Some buf -> wf_bytes buf).
  { intros buf [= <-]. apply wf_bytes_check. vm_compute. reflexivity. }
  split; [exact H1|]. split; [exact H2|].
  destruct (sendrq_request_table ex_server_full ex_request H1 H2) as (_ & _ & H3).
  apply (H3 ex_server (repeat ex_plain_request 256)
            (map (fun i => Inserted (Z.of_nat i)) (seq 0 256))).
  - split; [vm_compute; reflexivity|vm_compute; split; discriminate].
  - vm_compute. reflexivity.
  - vm_compute. reflexivity.
  - vm_compute. reflexivity.
  - apply Forall_forall. intros r Hr. apply list_elem_of_In in Hr.
    apply in_map_iff in Hr as (i & <- & _). exact I.
Defined.

(** ** The sweep of clientwr *)

Lemma retry_limit_cases (type code : Z) :
  (type = TYPE_UDP -> code <> RAD_Status_Server ->
   retry_limit type code = 3 /\ try_interval type code = REQUEST_EXPIRY / 3)
  /\ (type = TYPE_TLS \/ code = RAD_Status_Server ->
      retry_limit type code = 1 /\ try_interval type code = REQUEST_EXPIRY).
Proof.
  unfold retry_limit, try_interval. split.
  - intros -> Hc. destruct (Z.eqb_spec code RAD_Status_Server); [contradiction|].
    simpl. split; reflexivity.
  - intros [-> | ->].
    + rewrite orb_true_r. split; reflexivity.
    + simpl. split; reflexivity.
Qed.

(** One visit of the sweep to an occupied slot. *)
Lemma sweep_slot_cases (type now timeout : Z) (rq rq' : request) (t' : Z)
  (evs : list event) (b : list Z) (code : Z) :
  rq_buf rq = Some b -> rd b 0 = Ret code ->
  sweep_slot type now timeout rq = Ret (rq', t', evs) ->
  (evs = [EvTransmit b]
   /\ rq_received rq = false /\ rq_expiry rq <= now
   /\ rq_tries rq <> retry_limit type code
   /\ rq_buf rq' = Some b
   /\ rq_tries rq' = rq_tries rq + 1
   /\ rq_expiry rq' = now + try_interval type code
   /\ rq_received rq' = false)
  \/ (transmissions evs = 0%nat /\ rq_buf rq' = None
      /\ (rq_received rq = true
          \/ (rq_expiry rq <= now /\ rq_tries rq = retry_limit type code
              /\ (code = RAD_Status_Server -> In EvSuspect evs))))
  \/ (evs = [] /\ rq' = rq /\ rq_received rq = false /\ now < rq_expiry rq).
Proof.
  intros Hb Hc. unfold sweep_slot. rewrite Hb.
  destruct (rq_received rq) eqn:Er.
  - intros [= <- <- <-]. right; left. auto.
  - destruct (Z.ltb_spec now (rq_expiry rq)) as [Hn|Hn].
    + intros [= <- <- <-]. right; right. auto.
    + rewrite Hc; simpl.
      destruct (Z.eqb_spec (rq_tries rq) (retry_limit type code)) as [Ht|Ht].
      * intros [= <- <- <-]. right; left. split; [|split; [reflexivity|]].
        -- destruct (code =? RAD_Status_Server); reflexivity.
        -- right. split; [assumption|]. split; [assumption|].
           intros ->. simpl. auto.
      * intros [= <- <- <-]. left. simpl. auto 10.
Qed.

Lemma transmissions_app (a b : list event) :
  transmissions (a ++ b) = (transmissions a + transmissions b)%nat.
Proof. unfold transmissions. rewrite List.filter_app, length_app. reflexivity. Qed.

(** Over the life of a slot the number of tries and the transmissions still
    to come never exceed the limit. *)
Lemma slot_life_bound (type : Z) (visits : list (Z * bool)) :
  forall (rq rq' : request) (evs : list event) (b : list Z) (code : Z),
    rq_buf rq = Some b -> rd b 0 = Ret code ->
    0 <= rq_tries rq <= retry_limit type code ->
    slot_life type visits rq = Ret (rq', evs) ->
    rq_tries rq + Z.of_nat (transmissions evs) <= retry_limit type code.
Proof.
  induction visits as [|[now answered] visits IH];
    intros rq rq' evs b code Hb Hc Ht; simpl.
  - intros [= <- <-]. unfold transmissions; simpl; lia.
  - rewrite Hb. intros H. res_inv H. destruct v as [[rq1 t1] evs1].
    res_inv H. destruct v as [rq2 evs2]. inv_ret H.
    rewrite transmissions_app.
    set (rq0 := if answered then set_received rq else rq) in *.
    assert (Hb0 : rq_buf rq0 = Some b) by (unfold rq0; destruct answered; exact Hb).
    assert (Ht0 : rq_tries rq0 = rq_tries rq) by (unfold rq0; destruct answered; reflexivity).
    destruct (sweep_slot_cases _ _ _ _ _ _ _ _ _ Hb0 Hc E)
      as [(-> & _ & _ & Hne & Hb1 & Ht1 & _)
         |[(Hz & Hb1 & _)|(-> & -> & _)]].
    + assert (Hr : 0 <= rq_tries rq1 <= retry_limit type code) by lia.
      specialize (IH _ _ _ _ _ Hb1 Hc Hr E0).
      change (transmissions [EvTransmit b]) with 1%nat. lia.
    + destruct visits as [|[n a] visits]; simpl in E0.
      * inv_ret E0. rewrite Hz. unfold transmissions; simpl; lia.
      * rewrite Hb1 in E0. inv_ret E0. rewrite Hz. unfold transmissions; simpl; lia.
    + assert (Hr : 0 <= rq_tries rq0 <= retry_limit type code) by lia.
      specialize (IH _ _ _ _ _ Hb0 Hc Hr E0).
      change (transmissions []) with 0%nat. lia.
Qed.

Lemma sweep_slot_returns (type now timeout : Z) (rq : request) (b : list Z)
  (code : Z) :
  rq_buf rq = Some b -> rd b 0 = Ret code ->
  exists rq' t' evs,
    sweep_slot type now timeout rq = Ret (rq', t', evs)
    /\ (rq_buf rq' = Some b \/ rq_buf rq' = None).
Proof.
  intros Hb Hc. unfold sweep_slot. rewrite Hb.
  destruct (rq_received rq); [eauto 10|].
  destruct (now <? rq_expiry rq); [eauto 10|].
  rewrite Hc. ret_red.
  destruct (rq_tries rq =? retry_limit type code); eauto 10.
Qed.

(** The life of a slot is defined for every sequence of visits. *)
Lemma slot_life_returns (type : Z) (b : list Z) (code : Z)
  (visits : list (Z * bool)) :
  rd b 0 = Ret code ->
  forall rq : request,
    rq_buf rq = Some b \/ rq_buf rq = None ->
    exists rq' evs, slot_life type visits rq = Ret (rq', evs).
Proof.
  intros Hc. induction visits as [|[now answered] visits IH]; intros rq Hb.
  - simpl. eauto.
  - simpl. destruct Hb as [Hb|Hb]; rewrite Hb; [|eauto].
    set (rq0 := if answered then set_received rq else rq).
    assert (Hb0 : rq_buf rq0 = Some b) by (unfold rq0; destruct answered; exact Hb).
    destruct (sweep_slot_returns type now 0 rq0 b code Hb0 Hc)
      as (rq1 & t1 & evs1 & Hs & Hb1).
    rewrite Hs. ret_red.
    destruct (IH rq1 Hb1) as (rq2 & evs2 & Hl). rewrite Hl. ret_red. eauto.
Qed.

(** C8.  A request the sweep finds in the table with no try made yet, in the
    table of a UDP server and not a Status-Server probe, is transmitted at
    most 3 times over its life in the slot, each transmission giving it
    REQUEST_EXPIRY / 3 seconds; in the table of a TLS server, or when it is a
    Status-Server probe, it is transmitted at most once and given
    REQUEST_EXPIRY seconds.  A visit that finds the tries used up and the
    time expired transmits nothing and frees the slot, and logs the peer as
    suspect when the request is a Status-Server probe.  The sweep of a slot
    always returns. *)
Theorem sweep_retry_policy :
  forall (type : Z) (rq : request) (b : list Z) (code : Z),
    rq_buf rq = Some b -> rd b 0 = Ret code ->
    (forall visits : list (Z * bool),
        exists rq' evs, slot_life type visits rq = Ret (rq', evs))
    /\ (forall (visits : list (Z * bool)) (rq' : request) (evs : list event),
        rq_tries rq = 0 ->
        slot_life type visits rq = Ret (rq', evs) ->
        (type = TYPE_UDP -> code <> RAD_Status_Server ->
         (transmissions evs <= 3)%nat)
        /\ (type = TYPE_TLS \/ code = RAD_Status_Server ->
            (transmissions evs <= 1)%nat))
    /\ (forall (now timeout : Z) (rq' : request) (t' : Z) (evs : list event),
           sweep_slot type now timeout rq = Ret (rq', t', evs) ->
           (transmissions evs <= 1)%nat
           /\ (transmissions evs = 1%nat ->
               evs = [EvTransmit b]
               /\ rq_buf rq' = Some b
               /\ rq_tries rq' = rq_tries rq + 1
               /\ (type = TYPE_UDP -> code <> RAD_Status_Server ->
                   rq_tries rq <> 3
                   /\ rq_expiry rq' = now + REQUEST_EXPIRY / 3)
               /\ (type = TYPE_TLS \/ code = RAD_Status_Server ->
                   rq_tries rq <> 1
                   /\ rq_expiry rq' = now + REQUEST_EXPIRY))
           /\ (rq_received rq = false -> rq_expiry rq <= now ->
               ((type = TYPE_UDP /\ code <> RAD_Status_Server /\ rq_tries rq = 3)
                \/ ((type = TYPE_TLS \/ code = RAD_Status_Server) /\ rq_tries rq = 1)) ->
               transmissions evs = 0%nat /\ rq_buf rq' = None
               /\ (code = RAD_Status_Server -> In EvSuspect evs))).
Proof.
  intros type rq b code Hb Hc.
  destruct (retry_limit_cases type code) as [Hudp Htls].
  split; [|split].
  - intros visits. apply (slot_life_returns type b code visits Hc). auto.
  - intros visits rq' evs Ht H.
    assert (Hl : 0 <= rq_tries rq <= retry_limit type code).
    { rewrite Ht. unfold retry_limit, REQUEST_RETRIES.
      destruct ((code =? RAD_Status_Server) || (type =? TYPE_TLS)); lia. }
    pose proof (slot_life_bound _ _ _ _ _ _ _ Hb Hc Hl H) as Hbound.
    split.
    + intros Hu Hn. destruct (Hudp Hu Hn) as [Hl3 _]. rewrite Hl3 in Hbound. lia.
    + intros Hcase. destruct (Htls Hcase) as [Hl1 _]. rewrite Hl1 in Hbound. lia.
  - intros now timeout rq' t' evs H.
    destruct (sweep_slot_cases _ _ _ _ _ _ _ _ _ Hb Hc H)
      as [(-> & Hr & He & Hne & Hb1 & Ht1 & He1 & _)
         |[(Hz & Hb1 & Hwhy)|(-> & -> & Hr & He)]].
    + split; [unfold transmissions; simpl; lia|]. split.
      * intros _. split; [reflexivity|]. split; [assumption|].
        split; [assumption|]. split.
        -- intros Hu Hn. destruct (Hudp Hu Hn) as [Hl Hi].
           rewrite Hl in Hne. rewrite Hi in He1. auto.
        -- intros Hcase. destruct (Htls Hcase) as [Hl Hi].
           rewrite Hl in Hne. rewrite Hi in He1. auto.
      * intros _ _ [(Hu & Hn & Ht)|(Hcase & Ht)]; exfalso.
        -- destruct (Hudp Hu Hn) as [Hl _]. congruence.
        -- destruct (Htls Hcase) as [Hl _]. congruence.
    + split; [lia|]. split; [intros; lia|].
      intros Hr He _. split; [assumption|]. split; [assumption|].
      destruct Hwhy as [Hwhy|(_ & _ & Hs)]; [congruence|exact Hs].
    + split; [unfold transmissions; simpl; lia|]. split; [intros Hx; discriminate Hx|].
      intros; lia.
Qed.

Lemma ex_slot_life :
  slot_life TYPE_UDP ex_visits ex_queued_request
  = Ret (set_buf (Request (Some ex_forwarded_pkt) (Some ex_client) 7 42
                          (take 16 (drop 4 ex_request_pkt)) 3 1018 false) None,
         [EvTransmit ex_forwarded_pkt; EvTransmit ex_forwarded_pkt;
          EvTransmit ex_forwarded_pkt; EvRemoved]).
Proof. vm_compute. reflexivity. Qed.

Lemma sweep_retry_policy_witness :
  rq_buf ex_queued_request = Some ex_forwarded_pkt
  /\ rd ex_forwarded_pkt 0 = Ret 1
  /\ exists rq' evs,
      slot_life TYPE_UDP ex_visits ex_queued_request = Ret (rq', evs)
      /\ (transmissions evs <= 3)%nat.
Proof.
  assert (H1 : rq_buf ex_queued_request = Some ex_forwarded_pkt) by reflexivity.
  assert (H2 : rd ex_forwarded_pkt 0 = Ret 1) by reflexivity.
  split; [exact H1|]. split; [exact H2|].
  destruct (sweep_retry_policy TYPE_UDP ex_queued_request ex_forwarded_pkt 1 H1 H2)
    as (_ & Hlife & _).
  eexists. eexists. split; [vm_compute; reflexivity|].
  eapply (Hlife ex_visits).
  - reflexivity.
  - vm_compute; reflexivity.
  - reflexivity.
  - discriminate.
Defined.

(** ** radsrv: duplicate requests *)

Lemma attrvalidate_loop_total (fuel : nat) (b : list Z) :
  forall attrs length,
    0 <= attrs -> attrs + length <= Z.of_nat (List.length b) ->
    length <= Z.of_nat fuel ->
    exists v, attrvalidate_loop fuel b attrs length = Ret v.
Proof.
  induction fuel as [|f IH]; intros attrs len H0 H1 H2; simpl.
  - destruct (Z.ltb_spec 1 len); [lia|eauto].
  - destruct (Z.ltb_spec 1 len) as [Hl|Hl]; [|eauto].
    unfold ATTRLEN, rd.
    destruct (Z.ltb_spec (attrs + 1) 0); [lia|].
    destruct (b !! Z.to_nat (attrs + 1)) as [l|] eqn:El.
    + simpl. destruct (Z.ltb_spec l 2); [eauto|].
      destruct (Z.ltb_spec (len - l) 0); [eauto|].
      apply IH; lia.
    + apply lookup_ge_None in El. lia.
Qed.

Lemma attrvalidate_total (b : list Z) (attrs length : Z) :
  0 <= attrs -> attrs + length <= Z.of_nat (List.length b) ->
  exists v, attrvalidate b attrs length = Ret v.
Proof.
  intros H0 H1. apply attrvalidate_loop_total; [assumption|assumption|lia].
Qed.

Lemma rqinqueue_true (to : server) (from : option client) (id : Z) :
  (exists (j : nat) (q : request) (b : list Z),
      (j < 256)%nat /\ srv_requests to !! j = Some q /\ rq_buf q = Some b
      /\ rq_origid q = id /\ same_client (rq_from q) from = true) ->
  rqinqueue to from id = true.
Proof.
  intros (j & q & b & Hj & Hq & Hb & Hid & Hc).
  unfold rqinqueue. apply existsb_exists. exists q. split.
  - apply list_elem_of_In. apply list_elem_of_lookup. exists j.
    change (Z.to_nat MAX_REQUESTS) with 256%nat.
    rewrite lookup_take_lt by assumption. exact Hq.
  - rewrite Hb, Hid, Z.eqb_refl, Hc. reflexivity.
Qed.

Lemma radsrv_duplicate (below : list Z) (newauth : option (list Z)) (px : proxy)
  (rq : request) (buf : list Z) (id len0 : Z) (realm : realm) (srv : server)
  (k : nat) :
  rq_buf rq = Some buf ->
  rd buf 0 = Ret RAD_Access_Request ->
  rd buf 1 = Ret id ->
  RADLEN buf = Ret len0 ->
  20 <= len0 <= Z.of_nat (length buf) ->
  radsrv_realm px buf 20 ((len0 - 20) mod 65536) = Ret (Some (realm, Some srv, k)) ->
  rqinqueue srv (rq_from rq) id = true ->
  radsrv below newauth px rq = Ret (px, Ignored).
Proof.
  intros Hb Hc Hi Hl Hlen Hrealm Hdup.
  unfold radsrv. rewrite Hb, Hc. simpl. rewrite Hi. simpl. rewrite Hl. simpl.
  assert (Hm : (len0 - 20) mod 65536 <= len0 - 20).
  { apply Z.mod_le; lia. }
  destruct (attrvalidate_total buf 20 ((len0 - 20) mod 65536)) as [v Hv];
    [lia|lia|].
  rewrite Hv. simpl. destruct v; [|reflexivity]. simpl.
  unfold radsrv_route. simpl. rewrite Hrealm. simpl. rewrite Hdup. reflexivity.
Qed.

Lemma radsrv_realm_server (px : proxy) (buf : list Z) (attrs len : Z)
  (realm : realm) (to : option server) (k : nat) :
  radsrv_realm px buf attrs len = Ret (Some (realm, to, k)) ->
  px_servers px !! k = Some to /\ realm_srvconf realm = Some k.
Proof.
  unfold radsrv_realm. intros H. res_inv H.
  destruct v as [a|]; [|discriminate].
  res_inv H. res_inv H.
  destruct (id2realm (px_realms px) (cstring v0)) as [r|]; [|discriminate].
  destruct (realm_srvconf r) as [k'|] eqn:Ek; [|discriminate].
  destruct (px_servers px !! k') as [to'|] eqn:Et; [|discriminate].
  inv_ret H. auto.
Qed.

Lemma radsrv_route_server (px : proxy) (rq : request) (buf : list Z)
  (code id attrs len : Z) (realm : option realm) (to : server) (k : nat) :
  radsrv_route px rq buf code id attrs len = Ret (Some (realm, Some to, k)) ->
  px_servers px !! k = Some (Some to).
Proof.
  unfold radsrv_route. destruct (code =? RAD_Access_Request); [|discriminate].
  intros H. res_inv H. destruct v as [[[r t] k']|]; [|discriminate].
  apply radsrv_realm_server in E as [E _].
  destruct (match t with Some srv => rqinqueue srv (rq_from rq) id | None => false end);
    [discriminate|].
  inv_ret H. exact E.
Qed.

Lemma respondstatusserver_result (rq : request) (buf : list Z) (r : radsrv_result) :
  respondstatusserver rq buf = Ret r -> exists c p a, r = Responded c p a.
Proof.
  unfold respondstatusserver. intros H. do 4 res_inv H.
  destruct (rq_from rq); [|discriminate]. inv_ret H. eauto.
Qed.

Lemma respondreject_result (rq : request) (buf : list Z) (m : option (list Z))
  (r : radsrv_result) :
  respondreject rq buf m = Ret r -> exists c p a, r = Responded c p a.
Proof.
  unfold respondreject. intros H. do 4 res_inv H.
  destruct (rq_from rq); [|discriminate]. inv_ret H. eauto.
Qed.

Lemma radsrv_forward_Forwarded (below : list Z) (newauth : option (list Z))
  (px : proxy) (rq : request) (buf : list Z) (id attrs len : Z) (to : server)
  (k : nat) (px1 : proxy) (k1 : nat) (r : sendrq_result) :
  radsrv_forward below newauth px rq buf id attrs len to k
  = Ret (px1, Forwarded k1 r) ->
  exists (to' : server) (rq' : request),
    k1 = k
    /\ sendrq to rq' = Ret (to', r)
    /\ rq_origid rq' = id /\ rq_from rq' = rq_from rq
    /\ px1 = Proxy (px_realms px) (<[k := Some to']> (px_servers px)).
Proof.
  unfold radsrv_forward.
  destruct newauth as [na|]; [|discriminate].
  destruct (rq_from rq) as [from|] eqn:Ef; [|discriminate].
  intros H. res_inv H. destruct v as [ok1 buf1].
  destruct ok1; simpl in H; [|discriminate].
  res_inv H. destruct v as [ok2 buf2].
  destruct ok2; simpl in H; [|discriminate].
  do 4 res_inv H. destruct v2 as [to' r']. inv_ret H.
  eexists. eexists. split; [reflexivity|]. split; [exact E4|].
  simpl. auto.
Qed.

(** A call of [radsrv] that queued the request went through [sendrq] on the
    server its realm names. *)
Lemma radsrv_Forwarded (below : list Z) (newauth : option (list Z)) (px : proxy)
  (rq : request) (px1 : proxy) (k : nat) (r : sendrq_result) :
  radsrv below newauth px rq = Ret (px1, Forwarded k r) ->
  exists (buf : list Z) (id : Z) (to to' : server) (rq' : request),
    rq_buf rq = Some buf /\ rd buf 1 = Ret id
    /\ px_servers px !! k = Some (Some to)
    /\ sendrq to rq' = Ret (to', r)
    /\ rq_origid rq' = id /\ rq_from rq' = rq_from rq
    /\ px1 = Proxy (px_realms px) (<[k := Some to']> (px_servers px)).
Proof.
  unfold radsrv. destruct (rq_buf rq) as [buf|]; [|discriminate].
  intros H. do 3 res_inv H.
  destruct (negb (v =? RAD_Access_Request) && negb (v =? RAD_Status_Server));
    [discriminate|].
  res_inv H. destruct v2; simpl in H; [|discriminate].
  res_inv H. destruct v2 as [[[realm to] k']|]; [|discriminate].
  res_inv H. destruct v2 as [ok buf'].
  destruct ok; simpl in H; [|discriminate].
  destruct (v =? RAD_Status_Server).
  { res_inv H. apply respondstatusserver_result in E5 as (c & p & a & ->).
    discriminate. }
  destruct to as [to|].
  - pose proof (radsrv_route_server _ _ _ _ _ _ _ _ _ _ E3) as Hk.
    apply radsrv_forward_Forwarded in H as (to' & rq' & -> & Hs & Ho & Hf & ->).
    exists buf, v0, to, to', rq'. auto 10.
  - destruct realm as [realm|]; [|discriminate].
    res_inv H. apply respondreject_result in E5 as (c & p & a & ->).
    discriminate.
Qed.

Lemma same_client_trans (a b c : option client) :
  same_client a b = true -> same_client b c = true -> same_client a c = true.
Proof.
  destruct a as [x|], b as [y|], c as [z|]; simpl; try discriminate; auto.
  intros H1 H2. apply Nat.eqb_eq in H1, H2. apply Nat.eqb_eq. congruence.
Qed.

Lemma same_client_refl (a : option client) : same_client a a = true.
Proof. destruct a; simpl; [apply Nat.eqb_refl|reflexivity]. Qed.

(** C4.  An Access-Request from a client with identifier [id], whose realm
    names the server [srv], is dropped by [radsrv], which leaves every request
    table as it is, when a slot of [srv] holds a request with that original
    identifier from that client.  Hence when [radsrv] has queued a request
    and a second Access-Request with the same identifier from the same client
    is routed to the same server, the second one is dropped: one of the two
    is forwarded. *)
Theorem radsrv_duplicate_suppression :
  forall (below : list Z) (newauth : option (list Z)) (px : proxy) (rq : request)
         (buf : list Z) (id len0 : Z) (rlm : realm) (srv : server) (k : nat),
    rq_buf rq = Some buf ->
    rd buf 0 = Ret RAD_Access_Request ->
    rd buf 1 = Ret id ->
    RADLEN buf = Ret len0 ->
    20 <= len0 <= Z.of_nat (length buf) ->
    radsrv_realm px buf 20 ((len0 - 20) mod 65536) = Ret (Some (rlm, Some srv, k)) ->
    ((exists (j : nat) (q : request) (b : list Z),
         (j < 256)%nat /\ srv_requests srv !! j = Some q /\ rq_buf q = Some b
         /\ rq_origid q = id /\ same_client (rq_from q) (rq_from rq) = true) ->
     radsrv below newauth px rq = Ret (px, Ignored))
    /\ (table_ok srv ->
        forall (px1 : proxy) (i : Z),
          radsrv below newauth px rq = Ret (px1, Forwarded k (Inserted i)) ->
          forall (below2 : list Z) (newauth2 : option (list Z)) (rq2 : request)
                 (buf2 : list Z) (len2 : Z) (rlm2 : realm)
                 (to2 : option server),
            rq_buf rq2 = Some buf2 ->
            rd buf2 0 = Ret RAD_Access_Request ->
            rd buf2 1 = Ret id ->
            RADLEN buf2 = Ret len2 ->
            20 <= len2 <= Z.of_nat (length buf2) ->
            same_client (rq_from rq) (rq_from rq2) = true ->
            radsrv_realm px1 buf2 20 ((len2 - 20) mod 65536)
            = Ret (Some (rlm2, to2, k)) ->
            radsrv below2 newauth2 px1 rq2 = Ret (px1, Ignored)).
Proof.
  intros below newauth px rq buf id len0 rlm srv k Hb Hc Hi Hl Hlen Hrealm.
  split.
  - intros Hdup. eapply radsrv_duplicate; eauto using rqinqueue_true.
  - intros Hok px1 i Hfwd below2 newauth2 rq2 buf2 len2 rlm2 to2
           Hb2 Hc2 Hi2 Hl2 Hlen2 Hsame Hrealm2.
    apply radsrv_Forwarded in Hfwd
      as (buf' & id' & to & to' & rq' & Hb' & Hi' & Hk & Hs & Ho & Hf & ->).
    rewrite Hb in Hb'. inv_ret Hb'. rewrite Hi in Hi'. inv_ret Hi'.
    apply radsrv_realm_server in Hrealm as [Hk0 _].
    rewrite Hk in Hk0. inv_ret Hk0.
    pose proof (radsrv_realm_server _ _ _ _ _ _ _ Hrealm2) as [Hk2 _]. simpl in Hk2.
    rewrite list_lookup_insert_eq in Hk2 by (apply lookup_lt_Some in Hk; exact Hk).
    inv_ret Hk2.
    pose proof Hs as Hs'. unfold sendrq in Hs'.
    pose proof (sendrq_slot_spec srv Hok) as Hslot.
    destruct (sendrq_slot srv) as [j|]; [|discriminate].
    destruct Hslot as (Hj & _).
    destruct (sendrq_fill_Ret _ _ _ _ _ Hj Hs')
      as [[Hr _]|(b' & Hr & R1 & _)]; [discriminate|].
    eapply radsrv_duplicate; [exact Hb2|exact Hc2|exact Hi2|exact Hl2|exact Hlen2
                             |exact Hrealm2|].
    apply rqinqueue_true.
    exists j, (set_buf rq' (Some b')), b'.
    split; [assumption|]. split.
    + rewrite R1. apply list_lookup_insert_eq. destruct Hok as [Hlen' _]. lia.
    + simpl. rewrite Hf. auto.
Qed.

Lemma radsrv_duplicate_suppression_witness :
  rq_buf ex_request = Some ex_request_pkt
  /\ rd ex_request_pkt 0 = Ret RAD_Access_Request
  /\ rd ex_request_pkt 1 = Ret 42
  /\ RADLEN ex_request_pkt = Ret 43
  /\ 20 <= 43 <= Z.of_nat (length ex_request_pkt)
  /\ radsrv_realm ex_proxy_queued ex_request_pkt 20 ((43 - 20) mod 65536)
     = Ret (Some (ex_realm, Some ex_server_queued, 0%nat))
  /\ radsrv (repeat 0 16) (Some ex_newauth) ex_proxy_queued ex_request
     = Ret (ex_proxy_queued, Ignored).
Proof.
  assert (H1 : rq_buf ex_request = Some ex_request_pkt) by reflexivity.
  assert (H2 : rd ex_request_pkt 0 = Ret RAD_Access_Request) by reflexivity.
  assert (H3 : rd ex_request_pkt 1 = Ret 42) by reflexivity.
  assert (H4 : RADLEN ex_request_pkt = Ret 43) by reflexivity.
  assert (H5 : 20 <= 43 <= Z.of_nat (length ex_request_pkt)) by (simpl; lia).
  assert (H6 : radsrv_realm ex_proxy_queued ex_request_pkt 20 ((43 - 20) mod 65536)
               = Ret (Some (ex_realm, Some ex_server_queued, 0%nat)))
    by (vm_compute; reflexivity).
  repeat (split; [assumption|]).
  apply (proj1 (radsrv_duplicate_suppression (repeat 0 16) (Some ex_newauth)
                  ex_proxy_queued ex_request ex_request_pkt 42 43 ex_realm
                  ex_server_queued 0%nat H1 H2 H3 H4 H5 H6)).
  exists 0%nat, ex_queued_request, ex_forwarded_pkt.
  split; [lia|]. split; [vm_compute; reflexivity|].
  split; [reflexivity|]. split; reflexivity.
Defined.

(** ** Message-Authenticator *)

(** An MD5 digest has 16 bytes, so the tests [md_len != 16] never fire. *)
Lemma digest_length (m : list Z) : length (MD5.digest m) = 16%nat.
Proof. vm_compute. reflexivity. Qed.

Lemma hmac_md5_length (key m : list Z) : length (hmac_md5 key m) = 16%nat.
Proof. vm_compute. reflexivity. Qed.

Lemma wrn_wrn (b : list Z) (p : Z) (s1 s2 b1 : list Z) :
  wrn b p s1 = Ret b1 -> length s2 = length s1 ->
  wrn b1 p s2 = wrn b p s2.
Proof.
  intros H Hl. pose proof (wrn_length _ _ _ _ H) as Hlen.
  apply wrn_Ret in H as (H0 & H1 & ->).
  unfold wrn. rewrite Hlen, Hl.
  destruct ((p <? 0) || (Z.of_nat (length b) <? p + Z.of_nat (length s1)));
    [reflexivity|].
  f_equal.
  rewrite take_app_length' by (rewrite length_take; lia).
  f_equal. f_equal.
  rewrite drop_app_ge by (rewrite length_take; lia).
  rewrite length_take.
  rewrite drop_app_ge by lia.
  rewrite drop_drop. f_equal. lia.
Qed.

Lemma wrn_rdn_id (b : list Z) (p n : Z) (l : list Z) :
  rdn b p n = Ret l -> wrn b p l = Ret b.
Proof.
  intros H. pose proof (rdn_length _ _ _ _ H) as Hl.
  apply rdn_Ret in H as (H0 & H1 & H2 & ->).
  rewrite wrn_ok by lia. f_equal.
  rewrite Hl.
  rewrite <- (take_drop (Z.to_nat p) b) at 4. f_equal.
  rewrite <- (take_drop (Z.to_nat n) (drop (Z.to_nat p) b)) at 2. f_equal.
  rewrite drop_drop. reflexivity.
Qed.

(** [checkmessageauth] hands the buffer back as it got it. *)
Lemma checkmessageauth_preserves (rad : list Z) (authattr : Z) (secret : list Z)
  (ok : bool) (rad' : list Z) :
  checkmessageauth rad authattr secret = Ret (ok, rad') -> rad' = rad.
Proof.
  unfold checkmessageauth. intros H. do 5 res_inv H.
  assert (Hr : v3 = rad).
  { pose proof (rdn_length _ _ _ _ E) as Hl.
    rewrite (wrn_wrn _ _ _ _ _ E0) in E3
      by (rewrite Hl, repeat_length; reflexivity).
    rewrite (wrn_rdn_id _ _ _ _ E) in E3. congruence. }
  destruct (negb (bool_decide (length (hmac_md5 secret v2) = 16%nat)));
    [inv_ret H; reflexivity|].
  destruct (negb (bytes_eqb v (take 16 (hmac_md5 secret v2))));
    inv_ret H; reflexivity.
Qed.

(** What [checkmessageauth] answers: whether the 16 bytes at [authattr] are
    the HMAC-MD5, under the secret, of the packet with those bytes zeroed. *)
Lemma checkmessageauth_true (rad : list Z) (authattr : Z) (secret : list Z)
  (rad' : list Z) :
  checkmessageauth rad authattr secret = Ret (true, rad') <->
  exists (zeroed : list Z) (len : Z) (data : list Z),
    wrn rad authattr (repeat 0 16) = Ret zeroed
    /\ RADLEN zeroed = Ret len
    /\ rdn zeroed 0 len = Ret data
    /\ length (hmac_md5 secret data) = 16%nat
    /\ rdn rad authattr 16 = Ret (hmac_md5 secret data)
    /\ rad' = rad.
Proof.
  split.
  - intros H. pose proof (checkmessageauth_preserves _ _ _ _ _ H) as ->.
    unfold checkmessageauth in H. do 5 res_inv H.
    destruct (bool_decide (length (hmac_md5 secret v2) = 16%nat)) eqn:Eh;
      simpl in H; [|discriminate].
    apply bool_decide_eq_true_1 in Eh.
    unfold bytes_eqb in H.
    destruct (bool_decide (v = take 16 (hmac_md5 secret v2))) eqn:Ev;
      simpl in H; [|discriminate].
    apply bool_decide_eq_true_1 in Ev.
    rewrite take_ge in Ev by lia. subst v.
    exists v0, v1, v2. auto 10.
  - intros (zeroed & len & data & Hz & Hl & Hd & Hh & Ha & ->).
    unfold checkmessageauth. rewrite Ha. ret_red. rewrite Hz. ret_red.
    rewrite Hl. ret_red. rewrite Hd. ret_red.
    rewrite (wrn_wrn _ _ _ _ _ Hz) by (rewrite Hh, repeat_length; reflexivity).
    rewrite (wrn_rdn_id _ _ _ _ Ha). ret_red.
    rewrite bool_decide_eq_true_2 by assumption. simpl.
    unfold bytes_eqb. rewrite take_ge by lia.
    rewrite bool_decide_eq_true_2 by reflexivity. reflexivity.
Qed.

(** What [createmessageauth] leaves at a non-NULL [authattrval]. *)
Lemma createmessageauth_fills (rad : list Z) (p : Z) (secret : list Z)
  (rad' : list Z) :
  createmessageauth rad (Some p) secret = Ret (true, rad') ->
  exists (zeroed : list Z) (len : Z) (data : list Z),
    wrn rad p (repeat 0 16) = Ret zeroed
    /\ wrn rad' p (repeat 0 16) = Ret zeroed
    /\ RADLEN zeroed = Ret len
    /\ rdn zeroed 0 len = Ret data
    /\ length (hmac_md5 secret data) = 16%nat
    /\ rdn rad' p 16 = Ret (hmac_md5 secret data)
    /\ length rad' = length rad.
Proof.
  unfold createmessageauth. intros H. do 4 res_inv H.
  inv_ret H.
  pose proof (hmac_md5_length secret v1) as Hh.
  exists v, v0, v1. split; [assumption|]. split.
  - rewrite (wrn_wrn _ _ _ _ _ E2) by (rewrite Hh, repeat_length; reflexivity).
    rewrite (wrn_wrn _ _ _ _ _ E) by reflexivity. exact E.
  - split; [assumption|]. split; [assumption|]. split; [assumption|]. split.
    + pose proof (wrn_rdn _ _ _ _ E2) as Hr. rewrite Hh in Hr. exact Hr.
    + rewrite (wrn_length _ _ _ _ E2). apply (wrn_length _ _ _ _ E).
Qed.

(** A buffer filled by [createmessageauth] passes [checkmessageauth] under
    the same secret, and comes back as it was. *)
Lemma createmessageauth_checks (rad : list Z) (p : Z) (secret : list Z)
  (rad' : list Z) :
  createmessageauth rad (Some p) secret = Ret (true, rad') ->
  checkmessageauth rad' p secret = Ret (true, rad').
Proof.
  intros H. apply createmessageauth_fills in H
    as (zeroed & len & data & _ & Hz & Hl & Hd & Hh & Ha & _).
  apply checkmessageauth_true. exists zeroed, len, data. auto 10.
Qed.

(** A write leaves the bytes below it as they are. *)
Lemma rd_wrn_lt (b : list Z) (p : Z) (src b' : list Z) (q : Z) :
  wrn b p src = Ret b' -> 0 <= q < p -> rd b' q = rd b q.
Proof.
  intros Hw Hq. unfold rd.
  rewrite (wrn_lookup_lt _ _ _ _ (Z.to_nat q) Hw) by lia. reflexivity.
Qed.

(** Writing at or above byte 4 leaves the length field as it is. *)
Lemma RADLEN_wrn (b : list Z) (p : Z) (src b' : list Z) :
  4 <= p -> wrn b p src = Ret b' -> RADLEN b' = RADLEN b.
Proof.
  intros Hp Hw. unfold RADLEN.
  rewrite (rd_wrn_lt _ _ _ _ 2 Hw), (rd_wrn_lt _ _ _ _ 3 Hw) by lia.
  reflexivity.
Qed.

(** [createmessageauth] returns 1 on every packet that lies within its
    buffer and has the 16 bytes of the attribute value after the fixed
    header. *)
Lemma createmessageauth_returns (rad : list Z) (p : Z) (secret : list Z) (len : Z) :
  4 <= p -> p + 16 <= Z.of_nat (length rad) ->
  RADLEN rad = Ret len -> 0 <= len <= Z.of_nat (length rad) ->
  exists rad', createmessageauth rad (Some p) secret = Ret (true, rad').
Proof.
  intros Hp Hb Hl Hlen. unfold createmessageauth.
  destruct (wrn rad p (repeat 0 16)) as [rad0| |] eqn:E0.
  2,3: rewrite wrn_ok in E0 by (rewrite ?repeat_length; simpl; lia); discriminate.
  ret_red. rewrite (RADLEN_wrn _ _ _ _ Hp E0), Hl. ret_red.
  pose proof (wrn_length _ _ _ _ E0) as Hl0.
  rewrite rdn_ok by lia. ret_red.
  rewrite wrn_ok by (rewrite ?hmac_md5_length; simpl; lia). ret_red.
  rewrite bool_decide_eq_true_2 by apply hmac_md5_length.
  simpl. eauto.
Qed.

(** On the example request, the packet passes under the client's secret, and
    after the flip of any one bit outside the 16 bytes of the attribute value
    it does not: the call answers 0, or, for a flip that makes the length
    field exceed the buffer, reads past its end. *)
Lemma ex_bitflips_rejected :
  accepted (checkmessageauth ex_request_pkt 27 (conf_secret ex_client_conf)) = true
  /\ forallb (fun k => negb (accepted (checkmessageauth (flip_bit ex_request_pkt k) 27
                                        (conf_secret ex_client_conf))))
             (List.filter (outside_field 27) (seq 0 (8 * 43))) = true
  /\ length (List.filter (outside_field 27) (seq 0 (8 * 43))) = 216%nat.
Proof. vm_compute. auto. Qed.

(** ** clientrd: what is delivered *)

Lemma validauth_true (rad reqauth sec : list Z) :
  validauth rad reqauth sec = Ret true ->
  exists (len : Z) (hdr rest mine : list Z),
    RADLEN rad = Ret len
    /\ rdn rad 0 4 = Ret hdr
    /\ (if len <=? 20 then Ret [] else rdn rad 20 (len - 20)) = Ret rest
    /\ rdn rad 4 16 = Ret mine
    /\ mine = MD5.digest (hdr ++ reqauth ++ rest ++ sec).
Proof.
  unfold validauth. intros H. do 4 res_inv H.
  apply (f_equal (fun r => match r with Ret x => x | _ => false end)) in H.
  cbv beta iota in H.
  apply andb_true_iff in H as [_ H].
  apply bool_decide_eq_true_1 in H.
  rewrite take_ge in H by (rewrite digest_length; lia).
  exists v, v0, v1, v2. auto.
Qed.

Lemma clientrd_messageauth_Ret (buf : list Z) (attrs len : Z)
  (rqbuf secret : list Z) (m : option Z) (ok : bool) (buf1 : list Z) :
  clientrd_messageauth buf attrs len rqbuf secret = Ret (m, ok, buf1) ->
  attrget buf attrs len RAD_Attr_Message_Authenticator = Ret m
  /\ (ok = true -> buf1 = buf).
Proof.
  unfold clientrd_messageauth. intros H. res_inv H.
  destruct v as [a|].
  - res_inv H. destruct (negb (v =? 16)).
    + inv_ret H. split; [assumption|discriminate].
    + do 4 res_inv H. destruct v3 as [ok' buf2].
      apply checkmessageauth_preserves in E4 as ->.
      destruct ok'; simpl in H.
      * res_inv H. inv_ret H. split; [assumption|]. intros _.
        rewrite (wrn_wrn _ _ _ _ _ E3) in E4
          by (rewrite (rdn_length _ _ _ _ E1), (rdn_length _ _ _ _ E2); reflexivity).
        rewrite (wrn_rdn_id _ _ _ _ E1) in E4. congruence.
      * inv_ret H. split; [assumption|discriminate].
  - inv_ret H. auto.
Qed.

(** What the checks of [clientrd] have established when the turn goes on. *)
Lemma clientrd_checks_Pass (srv : server) (buf : list Z) (srv1 : server)
  (i code : Z) (rq : request) (rqbuf : list Z) (m : option Z)
  (buf1 : list Z) (len : Z) :
  clientrd_checks srv buf = Ret (srv1, Pass i code rq rqbuf m buf1 len) ->
  srv1 = set_connectionok srv
  /\ rd buf 1 = Ret i /\ rd buf 0 = Ret code
  /\ (code = RAD_Access_Accept \/ code = RAD_Access_Reject
      \/ code = RAD_Access_Challenge)
  /\ srv_requests srv !! Z.to_nat i = Some rq
  /\ rq_buf rq = Some rqbuf /\ rq_tries rq <> 0 /\ rq_received rq = false
  /\ (exists reqauth, rdn rqbuf 4 16 = Ret reqauth
                      /\ validauth buf reqauth (conf_secret (srv_conf srv)) = Ret true)
  /\ RADLEN buf = Ret (len + 20)
  /\ attrvalidate buf 20 len = Ret true
  /\ attrget buf 20 len RAD_Attr_Message_Authenticator = Ret m
  /\ buf1 = buf
  /\ (exists rqcode, rd rqbuf 0 = Ret rqcode /\ rqcode <> RAD_Status_Server).
Proof.
  unfold clientrd_checks. intros H. do 2 res_inv H.
  destruct (Z.eqb_spec v0 RAD_Access_Accept) as [Hc|Hc]; simpl in H.
  2: destruct (Z.eqb_spec v0 RAD_Access_Reject) as [Hc'|Hc']; simpl in H.
  3: destruct (Z.eqb_spec v0 RAD_Access_Challenge) as [Hc''|Hc'']; simpl in H;
       [|discriminate].
  all: destruct (srv_requests srv !! Z.to_nat v) as [rq0|] eqn:Erq;
       [|discriminate].
  all: destruct (rq_buf rq0) as [rb|] eqn:Erb; [|discriminate].
  all: destruct (Z.eqb_spec (rq_tries rq0) 0) as [Ht|Ht]; [discriminate|].
  all: destruct (rq_received rq0) eqn:Er; [discriminate|].
  all: do 2 res_inv H.
  all: destruct v2; simpl in H; [|discriminate].
  all: do 2 res_inv H.
  all: destruct v3; simpl in H; [|discriminate].
  all: res_inv H; destruct v3 as [[m' ok] b'].
  all: destruct ok; simpl in H; [|discriminate].
  all: res_inv H.
  all: destruct (Z.eqb_spec v3 RAD_Status_Server) as [Hs|Hs]; [discriminate|].
  all: inv_ret H.
  all: match goal with
       | Hx : clientrd_messageauth _ _ _ _ _ = _ |- _ =>
           apply clientrd_messageauth_Ret in Hx as [Hm Hb]; specialize (Hb eq_refl)
       end.
  all: replace (v2 - 20 + 20) with v2 by lia.
  all: repeat (split; [solve [auto | eauto]|]); eauto.
Qed.

Lemma rdn_ext (b b' : list Z) (p n : Z) :
  length b' = length b ->
  (forall q : nat, p <= Z.of_nat q < p + n -> b' !! q = b !! q) ->
  rdn b' p n = rdn b p n.
Proof.
  intros Hl Hq. unfold rdn. rewrite Hl.
  destruct (Z.ltb_spec p 0); [reflexivity|].
  destruct (Z.ltb_spec n 0); [reflexivity|].
  destruct (Z.ltb_spec (Z.of_nat (length b)) (p + n)); [reflexivity|].
  simpl. f_equal. apply list_eq. intros j.
  rewrite !lookup_take, !lookup_drop.
  destruct (decide (j < Z.to_nat n)%nat); [|reflexivity].
  apply Hq. lia.
Qed.

(** What [clientrd] has done to the message it hands to [sendreply]. *)
Lemma clientrd_finish_Delivered (srv : server) (i code : Z) (rq : request)
  (rqbuf : list Z) (m : option Z) (buf : list Z) (srv' : server) (f : client)
  (buf' : list Z) (tosa : option Z) :
  clientrd_finish srv i code rq rqbuf m buf = Ret (srv', Delivered f buf' tosa) ->
  rq_from rq = Some f
  /\ srv' = mark_received srv (Z.to_nat i)
  /\ tosa = reply_addr f (rq_fromsa rq)
  /\ ((forall a, m = Some a -> 20 <= a) ->
      buf' !! 1%nat = Some (byte_of (rq_origid rq))
      /\ rdn buf' 4 16 = Ret (take 16 (rq_origauth rq)))
  /\ (16 <= length (rq_origauth rq))%nat
  /\ (forall a, m = Some a ->
      exists (zeroed : list Z) (len : Z) (data : list Z),
        wrn buf' (ATTRVAL a) (repeat 0 16) = Ret zeroed
        /\ RADLEN zeroed = Ret len
        /\ rdn zeroed 0 len = Ret data
        /\ rdn buf' (ATTRVAL a) 16 = Ret (hmac_md5 (conf_secret (cl_conf f)) data)).
Proof.
  unfold clientrd_finish. intros H. do 4 res_inv H.
  destruct (rq_from rq) as [f0|] eqn:Ef; [|discriminate].
  res_inv H. destruct v3 as [ok b3].
  destruct ok; simpl in H; [|discriminate]. inv_ret H.
  assert (Hoa : v1 = take 16 (rq_origauth rq) /\ (16 <= length (rq_origauth rq))%nat).
  { apply rdn_Ret in E1 as (_ & _ & Hl & ->). simpl in *. split; [reflexivity|lia]. }
  destruct Hoa as [-> Hlen].
  assert (H1 : v2 !! 1%nat = Some (byte_of (rq_origid rq))).
  { rewrite (wrn_lookup_lt _ _ _ _ 1 E2) by lia. apply (wr_lookup_eq _ 1 _ _ E0). }
  assert (H4 : rdn v2 4 16 = Ret (take 16 (rq_origauth rq))).
  { pose proof (wrn_rdn _ _ _ _ E2) as Hr.
    rewrite length_take in Hr.
    replace (Z.of_nat (16 `min` length (rq_origauth rq))) with 16 in Hr by lia.
    exact Hr. }
  split; [reflexivity|]. split; [reflexivity|]. split; [reflexivity|].
  destruct m as [a|]; simpl in E3.
  - pose proof (createmessageauth_fills _ _ _ _ E3)
      as (zeroed & len & data & _ & Hz & Hl & Hd & Hh & Ha & Hlen').
    split; [|split; [assumption|]].
    + intros Hm. specialize (Hm a eq_refl). split.
      * rewrite <- H1. apply (createmessageauth_lookup_lt _ _ _ _ _ _ E3).
        unfold ATTRVAL. lia.
      * rewrite <- H4. apply rdn_ext; [assumption|].
        intros q Hq. apply (createmessageauth_lookup_lt _ _ _ _ _ _ E3).
        unfold ATTRVAL. lia.
    + intros a' [= <-]. exists zeroed, len, data. auto.
  - inv_ret E3. split; [auto|]. split; [assumption|].
    intros a' Ha'. discriminate.
Qed.

Lemma clientrd_Delivered (srv : server) (buf : list Z) (srv' : server)
  (f : client) (buf' : list Z) (tosa : option Z) :
  clientrd srv buf = Ret (srv', Delivered f buf' tosa) ->
  exists (i code : Z) (rq : request) (rqbuf : list Z) (m : option Z)
         (len : Z) (buf2 : list Z),
    clientrd_checks srv buf
    = Ret (set_connectionok srv, Pass i code rq rqbuf m buf len)
    /\ ms_scan (Z.to_nat len) buf 20 len 20 (conf_secret (srv_conf srv))
               (rq_from rq) rqbuf (rq_origauth rq) = Ret (None, buf2)
    /\ clientrd_finish (set_connectionok srv) i code rq rqbuf m buf2
       = Ret (srv', Delivered f buf' tosa).
Proof.
  unfold clientrd. intros H. res_inv H. destruct v as [srv1 c].
  destruct c as [r|i code rq rqbuf m buf1 len].
  - inv_ret H.
    unfold clientrd_checks in E. do 2 res_inv E.
    destruct (negb _); [discriminate|].
    destruct (srv_requests (set_connectionok srv) !! Z.to_nat v); [|discriminate].
    destruct (rq_buf r); [|discriminate].
    destruct (rq_tries r =? 0); [discriminate|].
    destruct (rq_received r); [discriminate|].
    do 2 res_inv E. destruct (negb v2); [discriminate|].
    do 2 res_inv E. destruct (negb v4); [discriminate|].
    res_inv E. destruct v5 as [[m ok] b]. destruct (negb ok); [discriminate|].
    res_inv E. destruct (v5 =? RAD_Status_Server); discriminate.
  - pose proof (clientrd_checks_Pass _ _ _ _ _ _ _ _ _ _ E) as (-> & Hrest).
    assert (Hb : buf1 = buf) by (decompose [and] Hrest; assumption). subst buf1.
    res_inv H. destruct v as [attr buf2].
    destruct attr as [a|]; [discriminate|].
    exists i, code, rq, rqbuf, m, len, buf2. auto.
Qed.

(** C5.  When [clientrd] hands a message to [sendreply], the message has
    code Access-Accept, Access-Reject or Access-Challenge; the slot its
    identifier names holds a request, with a number of tries that is not 0
    and [received] not set; and its Response Authenticator is the MD5 digest
    [validauth] computes from the message, the authenticator of the stored
    request and the secret of the server. *)
Theorem clientrd_delivers_only_verified :
  forall (srv : server) (buf : list Z) (srv' : server) (f : client)
         (buf' : list Z) (tosa : option Z),
    clientrd srv buf = Ret (srv', Delivered f buf' tosa) ->
    exists (code i : Z) (rq : request) (rqbuf reqauth : list Z),
      rd buf 0 = Ret code
      /\ (code = RAD_Access_Accept \/ code = RAD_Access_Reject
          \/ code = RAD_Access_Challenge)
      /\ rd buf 1 = Ret i
      /\ srv_requests srv !! Z.to_nat i = Some rq
      /\ rq_buf rq = Some rqbuf
      /\ rq_tries rq <> 0 /\ (0 <= rq_tries rq -> 1 <= rq_tries rq)
      /\ rq_received rq = false
      /\ rdn rqbuf 4 16 = Ret reqauth
      /\ validauth buf reqauth (conf_secret (srv_conf srv)) = Ret true
      /\ (exists (len : Z) (hdr rest : list Z),
             RADLEN buf = Ret len
             /\ rdn buf 0 4 = Ret hdr
             /\ (if len <=? 20 then Ret [] else rdn buf 20 (len - 20)) = Ret rest
             /\ rdn buf 4 16
                = Ret (MD5.digest (hdr ++ reqauth ++ rest
                                   ++ conf_secret (srv_conf srv))))
      /\ rq_from rq = Some f.
Proof.
  intros srv buf srv' f buf' tosa H.
  apply clientrd_Delivered in H
    as (i & code & rq & rqbuf & m & len & buf2 & Hc & _ & Hf).
  apply clientrd_checks_Pass in Hc
    as (_ & Hi & Hcode & Hcodes & Hrq & Hrb & Ht & Hr & (reqauth & Ha & Hv) & _).
  apply clientrd_finish_Delivered in Hf as (Hfrom & _).
  exists code, i, rq, rqbuf, reqauth.
  repeat (split; [first [assumption | lia]|]).
  split; [|assumption].
  apply validauth_true in Hv as (l & hdr & rest & mine & H1 & H2 & H3 & H4 & ->).
  exists l, hdr, rest. auto.
Qed.

Lemma clientrd_delivers_only_verified_witness :
  exists (srv' : server) (buf' : list Z) (rq : request),
    clientrd ex_server_sent ex_reply_pkt
    = Ret (srv', Delivered ex_client buf' (Some 7))
    /\ srv_requests ex_server_sent !! 0%nat = Some rq
    /\ rq_tries rq <> 0 /\ rq_received rq = false.
Proof.
  assert (Hex : exists srv' buf',
             clientrd ex_server_sent ex_reply_pkt
             = Ret (srv', Delivered ex_client buf' (Some 7)))
    by (eexists; eexists; vm_compute; reflexivity).
  destruct Hex as (srv' & buf' & E).
  destruct (clientrd_delivers_only_verified _ _ _ _ _ _ E)
    as (code & i & rq & rqbuf & reqauth & Hc & _ & Hi & Hrq & Hb & Ht & _ & Hr & _).
  assert (H0 : rd ex_reply_pkt 1 = Ret 0) by reflexivity.
  rewrite H0 in Hi. injection Hi as <-.
  exists srv', buf', rq. auto.
Defined.

(** C6.  The message [clientrd] hands to [sendreply] has in byte 1 the
    original identifier of the request in the slot, as [(char)origid], and in
    bytes 4..20 its original authenticator; and when the message as received
    has a Message-Authenticator attribute, the 16 bytes of its value are the
    HMAC-MD5, under the secret of the client the request came from, of the
    message handed over with those 16 bytes zeroed. *)
Theorem clientrd_restores_origin :
  forall (srv : server) (buf : list Z) (srv' : server) (f : client)
         (buf' : list Z) (tosa : option Z),
    wf_bytes buf ->
    clientrd srv buf = Ret (srv', Delivered f buf' tosa) ->
    exists (i : Z) (rq : request),
      rd buf 1 = Ret i
      /\ srv_requests srv !! Z.to_nat i = Some rq
      /\ rq_from rq = Some f
      /\ buf' !! 1%nat = Some (byte_of (rq_origid rq))
      /\ (0 <= rq_origid rq < 256 -> rd buf' 1 = Ret (rq_origid rq))
      /\ rdn buf' 4 16 = Ret (take 16 (rq_origauth rq))
      /\ (16 <= length (rq_origauth rq))%nat
      /\ (forall (len m : Z),
             RADLEN buf = Ret len ->
             attrget buf 20 (len - 20) RAD_Attr_Message_Authenticator
             = Ret (Some m) ->
             exists (zeroed : list Z) (len' : Z) (data : list Z),
               wrn buf' (ATTRVAL m) (repeat 0 16) = Ret zeroed
               /\ RADLEN zeroed = Ret len'
               /\ rdn zeroed 0 len' = Ret data
               /\ rdn buf' (ATTRVAL m) 16
                  = Ret (hmac_md5 (conf_secret (cl_conf f)) data)
               /\ checkmessageauth buf' (ATTRVAL m) (conf_secret (cl_conf f))
                  = Ret (true, buf')).
Proof.
  intros srv buf srv' f buf' tosa Hwf H.
  apply clientrd_Delivered in H
    as (i & code & rq & rqbuf & m & len & buf2 & Hc & _ & Hf).
  apply clientrd_checks_Pass in Hc
    as (_ & Hi & _ & _ & Hrq & _ & _ & _ & _ & Hlen & _ & Hm & _).
  apply clientrd_finish_Delivered in Hf as (Hfrom & _ & _ & Hhead & Hoa & Hma).
  assert (Hbound : forall a, m = Some a -> 20 <= a).
  { intros a ->. apply (attrget_ge _ _ _ _ _ Hwf) in Hm. lia. }
  destruct (Hhead Hbound) as [H1 H4].
  exists i, rq. repeat (split; [assumption|]). split; [|split; [assumption|split; [assumption|]]].
  - intros Hid. unfold rd. change (1 <? 0) with false.
    change (Z.to_nat 1) with 1%nat. cbv iota. rewrite H1. f_equal.
    unfold byte_of. apply Z.mod_small. assumption.
  - intros len0 m0 Hl0 Hm0. rewrite Hlen in Hl0. inv_ret Hl0.
    replace (len + 20 - 20) with len in Hm0 by lia.
    rewrite Hm in Hm0. inv_ret Hm0.
    destruct (Hma m0 eq_refl) as (zeroed & len' & data & Hz & Hl & Hd & Ha).
    exists zeroed, len', data. repeat (split; [assumption|]).
    apply checkmessageauth_true. exists zeroed, len', data.
    pose proof (hmac_md5_length (conf_secret (cl_conf f)) data). auto 10.
Qed.

Lemma clientrd_restores_origin_witness :
  exists (srv' : server) (buf' : list Z),
    wf_bytes ex_reply_pkt
    /\ clientrd ex_server_sent ex_reply_pkt
       = Ret (srv', Delivered ex_client buf' (Some 7))
    /\ rd buf' 1 = Ret 42
    /\ rdn buf' 4 16 = Ret (take 16 (drop 4 ex_request_pkt))
    /\ checkmessageauth buf' 35 (conf_secret ex_client_conf) = Ret (true, buf').
Proof.
  assert (Hex : exists srv' buf',
             clientrd ex_server_sent ex_reply_pkt
             = Ret (srv', Delivered ex_client buf' (Some 7)))
    by (eexists; eexists; vm_compute; reflexivity).
  destruct Hex as (srv' & buf' & E).
  assert (Hwf : wf_bytes ex_reply_pkt)
    by (apply wf_bytes_check; vm_compute; reflexivity).
  destruct (clientrd_restores_origin _ _ _ _ _ _ Hwf E)
    as (i & rq & Hi & Hrq & _ & _ & H1 & H4 & _ & Hma).
  assert (H0 : rd ex_reply_pkt 1 = Ret 0) by reflexivity.
  rewrite H0 in Hi. injection Hi as <-.
  assert (Hq : srv_requests ex_server_sent !! Z.to_nat 0
               = Some (Request (Some ex_forwarded_pkt) (Some ex_client) 7 42
                               (take 16 (drop 4 ex_request_pkt)) 1 1006 false))
    by (vm_compute; reflexivity).
  rewrite Hq in Hrq. injection Hrq as <-.
  exists srv', buf'. split; [exact Hwf|]. split; [exact E|].
  split; [apply H1; simpl; lia|]. split; [exact H4|].
  destruct (Hma 51 33) as (z & l & d & _ & _ & _ & _ & Hck);
    [reflexivity|vm_compute; reflexivity|exact Hck].
Defined.

(** ** Buffers stay buffers *)

Lemma wf_bytes_lookup (b : list Z) (i : nat) (v : Z) :
  wf_bytes b -> b !! i = Some v -> 0 <= v < 256.
Proof. intros Hb Hv. exact (proj1 (Forall_lookup _ _) Hb _ _ Hv). Qed.

Lemma lxor_byte (a b : Z) :
  0 <= a < 256 -> 0 <= b < 256 -> 0 <= Z.lxor a b < 256.
Proof.
  intros Ha Hb. split.
  - apply Z.lxor_nonneg. lia.
  - destruct (Z.eq_dec (Z.lxor a b) 0) as [->|Hz]; [lia|].
    assert (Hpos : 0 < Z.lxor a b).
    { pose proof (proj2 (Z.lxor_nonneg a b) ltac:(lia)). lia. }
    apply Z.log2_lt_cancel.
    eapply Z.le_lt_trans; [apply Z.log2_lxor; lia|].
    change (Z.log2 256) with 8.
    assert (Z.log2 a < 8).
    { destruct (Z.eq_dec a 0) as [->|]; [simpl; lia|].
      apply Z.log2_lt_pow2; lia. }
    assert (Z.log2 b < 8).
    { destruct (Z.eq_dec b 0) as [->|]; [simpl; lia|].
      apply Z.log2_lt_pow2; lia. }
    lia.
Qed.

Lemma wf_bytes_app (a b : list Z) : wf_bytes a -> wf_bytes b -> wf_bytes (a ++ b).
Proof. intros Ha Hb. apply Forall_app; auto. Qed.

Lemma wf_bytes_take (n : nat) (b : list Z) : wf_bytes b -> wf_bytes (take n b).
Proof. apply Forall_take. Qed.

Lemma wf_bytes_drop (n : nat) (b : list Z) : wf_bytes b -> wf_bytes (drop n b).
Proof. apply Forall_drop. Qed.

Lemma wf_bytes_repeat0 (n : nat) : wf_bytes (repeat 0 n).
Proof. apply Forall_forall. intros x Hx. apply list_elem_of_In, repeat_spec in Hx. lia. Qed.

Lemma wf_bytes_digest (m : list Z) : wf_bytes (MD5.digest m).
Proof.
  assert (Hle : forall n x, wf_bytes (MD5.bytes_le n x)).
  { intros n x. unfold MD5.bytes_le. apply Forall_forall. intros y Hy.
    apply list_elem_of_In, in_map_iff in Hy as (k & <- & _).
    apply Z.mod_pos_bound. lia. }
  with_strategy transparent [MD5.digest] (unfold MD5.digest).
  repeat apply wf_bytes_app; apply Hle.
Qed.

Lemma wf_bytes_rdn (b : list Z) (p n : Z) (l : list Z) :
  wf_bytes b -> rdn b p n = Ret l -> wf_bytes l.
Proof.
  intros Hb H. apply rdn_Ret in H as (_ & _ & _ & ->).
  apply wf_bytes_take, wf_bytes_drop, Hb.
Qed.

Lemma wf_bytes_wrn (b : list Z) (p : Z) (src b' : list Z) :
  wf_bytes b -> wf_bytes src -> wrn b p src = Ret b' -> wf_bytes b'.
Proof.
  intros Hb Hs H. apply wrn_Ret in H as (_ & _ & ->).
  apply wf_bytes_app; [apply wf_bytes_take, Hb|].
  apply wf_bytes_app; [exact Hs|apply wf_bytes_drop, Hb].
Qed.

Lemma wf_bytes_wr (b : list Z) (p v : Z) (b' : list Z) :
  wf_bytes b -> 0 <= v < 256 -> wr b p v = Ret b' -> wf_bytes b'.
Proof.
  intros Hb Hv H. apply wr_Ret in H as (_ & ->). apply wf_bytes_insert; assumption.
Qed.

Lemma rd_wf (b : list Z) (p v : Z) : wf_bytes b -> rd b p = Ret v -> 0 <= v < 256.
Proof. intros Hb H. apply rd_Ret in H as [_ H]. eapply wf_bytes_lookup; eauto. Qed.

(** ** In-place re-encryption: what it leaves alone *)

Lemma same_below_refl (q : Z) (b : list Z) : same_below q b b.
Proof. split; auto. Qed.

Lemma same_below_trans (q : Z) (a b c : list Z) :
  same_below q a b -> same_below q b c -> same_below q a c.
Proof.
  intros [L1 H1] [L2 H2]. split; [congruence|].
  intros j Hj. rewrite H2, H1 by assumption. reflexivity.
Qed.

Lemma same_below_le (q q' : Z) (a b : list Z) :
  q' <= q -> same_below q a b -> same_below q' a b.
Proof. intros Hq [L H]. split; [assumption|]. intros j Hj. apply H. lia. Qed.

Lemma xor_in_place_spec (hash : list Z) :
  forall (mem : list Z) (p : Z) (mem' : list Z),
    wf_bytes mem -> wf_bytes hash ->
    xor_in_place mem p hash = Ret mem' ->
    wf_bytes mem' /\ same_below p mem mem'.
Proof.
  induction hash as [|h hash IH]; intros mem p mem' Hm Hh; simpl.
  - intros [= <-]. split; [assumption|apply same_below_refl].
  - intros H. do 2 res_inv H.
    apply Forall_cons in Hh as [Hh0 Hh].
    assert (Hv0 : wf_bytes v0).
    { eapply wf_bytes_wr; [exact Hm| |exact E0].
      apply lxor_byte; [exact (rd_wf _ _ _ Hm E)|assumption]. }
    destruct (IH _ _ _ Hv0 Hh H) as [Hw Hs]. split; [assumption|].
    eapply same_below_trans; [|eapply same_below_le; [|exact Hs]; lia].
    split; [eapply wr_length; eauto|].
    intros j Hj. eapply wr_lookup_ne; [exact E0|lia].
Qed.

Lemma xor_to_plain_spec (hash : list Z) :
  forall (mem : list Z) (p : Z) (plain : list Z) (q : Z) (plain' : list Z),
    wf_bytes mem -> wf_bytes plain -> wf_bytes hash ->
    xor_to_plain mem p plain q hash = Ret plain' ->
    wf_bytes plain'.
Proof.
  induction hash as [|h hash IH]; intros mem p plain q plain' Hm Hp Hh; simpl.
  - intros [= <-]. assumption.
  - intros H. do 2 res_inv H.
    apply Forall_cons in Hh as [Hh0 Hh].
    eapply IH; [exact Hm| |exact Hh|exact H].
    eapply wf_bytes_wr; [exact Hp| |exact E0].
    apply lxor_byte; [exact (rd_wf _ _ _ Hm E)|assumption].
Qed.

Lemma msmppencrypt_loop_spec (fuel : nat) (text len : Z) (key : list Z) :
  forall (mem : list Z) (offset : Z) (ok : bool) (mem' : list Z),
    wf_bytes mem -> 0 <= offset ->
    msmppencrypt_loop fuel mem text len key offset = Ret (ok, mem') ->
    wf_bytes mem' /\ same_below text mem mem'.
Proof.
  induction fuel as [|f IH]; intros mem offset ok mem' Hm Ho; simpl.
  - destruct (offset <? len); [discriminate|].
    intros [= <- <-]. split; [assumption|apply same_below_refl].
  - destruct (offset <? len).
    + intros H. res_inv H.
      destruct (negb (bool_decide (length (MD5.digest (key ++ v)) = 16%nat))).
      * inv_ret H. split; [assumption|apply same_below_refl].
      * res_inv H.
        destruct (xor_in_place_spec _ _ _ _ Hm
                    (wf_bytes_take 16 _ (wf_bytes_digest (key ++ v))) E0)
          as [Hw Hs].
        destruct (IH _ _ _ _ Hw (proj1 (byte_of_range (offset + 16))) H)
          as [Hw' Hs'].
        split; [assumption|].
        eapply same_below_trans; [eapply same_below_le; [|exact Hs]; lia|exact Hs'].
    + intros [= <- <-]. split; [assumption|apply same_below_refl].
Qed.

Lemma msmppencrypt_spec (mem : list Z) (text len : Z) (shared : list Z)
  (sharedlen : Z) (auth : list Z) (salt : Z) (ok : bool) (mem' : list Z) :
  wf_bytes mem ->
  msmppencrypt mem text len shared sharedlen auth salt = Ret (ok, mem') ->
  wf_bytes mem' /\ same_below text mem mem'.
Proof.
  intros Hm. unfold msmppencrypt. intros H. do 4 res_inv H.
  destruct (xor_in_place_spec _ _ _ _ Hm
              (wf_bytes_take 16 _ (wf_bytes_digest (v ++ v0 ++ v1))) E2)
    as [Hw Hs].
  assert (H16 : 0 <= 16) by lia.
  destruct (msmppencrypt_loop_spec _ _ _ _ _ _ _ _ Hw H16 H) as [Hw' Hs'].
  split; [assumption|]. eapply same_below_trans; eauto.
Qed.

Lemma msmppdecrypt_loop_wf (fuel : nat) (mem : list Z) (text len : Z)
  (key : list Z) :
  forall (offset : Z) (plain plain' : list Z),
    wf_bytes mem -> wf_bytes plain ->
    msmppdecrypt_loop fuel mem text len key offset plain = Ret (Some plain') ->
    wf_bytes plain'.
Proof.
  induction fuel as [|f IH]; intros offset plain plain' Hm Hp; simpl.
  - destruct (offset <? len); [discriminate|]. intros [= <-]. assumption.
  - destruct (offset <? len).
    + intros H. res_inv H.
      destruct (negb (bool_decide (length (MD5.digest (key ++ v)) = 16%nat)));
        [discriminate|].
      res_inv H.
      eapply IH; [exact Hm| |exact H].
      eapply xor_to_plain_spec; [exact Hm|exact Hp| |exact E0].
      apply wf_bytes_take, wf_bytes_digest.
    + intros [= <-]. assumption.
Qed.

Lemma msmppdecrypt_spec (mem : list Z) (text len : Z) (shared : list Z)
  (sharedlen : Z) (auth : list Z) (salt : Z) (ok : bool) (mem' : list Z) :
  wf_bytes mem ->
  msmppdecrypt mem text len shared sharedlen auth salt = Ret (ok, mem') ->
  wf_bytes mem' /\ same_below text mem mem'.
Proof.
  intros Hm. unfold msmppdecrypt. intros H. do 5 res_inv H.
  destruct v3 as [plain|].
  - do 2 res_inv H. inv_ret H.
    assert (Hp0 : wf_bytes v2).
    { eapply xor_to_plain_spec; [exact Hm|apply wf_bytes_repeat0| |exact E2].
      apply wf_bytes_take, wf_bytes_digest. }
    pose proof (msmppdecrypt_loop_wf _ _ _ _ _ _ _ _ Hm Hp0 E3) as Hp.
    split.
    + eapply wf_bytes_wrn; [exact Hm| |exact E5]. eapply wf_bytes_rdn; eauto.
    + split; [eapply wrn_length; eauto|].
      intros j Hj. eapply wrn_lookup_lt; eauto.
  - inv_ret H. split; [assumption|apply same_below_refl].
Qed.

Lemma msmpprecrypt_spec (mem : list Z) (msmpp len : Z)
  (oldsecret newsecret oldauth newauth : list Z) (ok : bool) (mem' : list Z) :
  wf_bytes mem ->
  msmpprecrypt mem msmpp len oldsecret newsecret oldauth newauth = Ret (ok, mem') ->
  wf_bytes mem' /\ same_below (msmpp + 2) mem mem'.
Proof.
  intros Hm. unfold msmpprecrypt.
  destruct (byte_of len <? 18).
  - intros [= <- <-]. split; [assumption|apply same_below_refl].
  - intros H. res_inv H. destruct v as [ok1 mem1].
    destruct (msmppdecrypt_spec _ _ _ _ _ _ _ _ _ Hm E) as [Hw1 Hs1].
    destruct ok1; simpl in H.
    + res_inv H. destruct v as [ok2 mem2].
      destruct (msmppencrypt_spec _ _ _ _ _ _ _ _ _ Hw1 E0) as [Hw2 Hs2].
      assert (mem' = mem2) by (destruct ok2; simpl in H; congruence). subst mem'.
      split; [assumption|]. eapply same_below_trans; eauto.
    + inv_ret H. split; assumption.
Qed.

Lemma msmppe_loop_spec (fuel : nat) (attrs length type : Z)
  (oldsecret newsecret oldauth newauth : list Z) :
  forall (mem : list Z) (attr : Z) (ok : bool) (mem' : list Z),
    wf_bytes mem -> attrs <= attr ->
    msmppe_loop fuel mem attrs length type attr oldsecret newsecret oldauth newauth
    = Ret (ok, mem') ->
    wf_bytes mem' /\ same_below attrs mem mem'.
Proof.
  induction fuel as [|f IH]; intros mem attr ok mem' Hm Ha; simpl; intros H.
  - res_inv H. destruct v as [a|].
    + do 2 res_inv H. destruct v0 as [ok1 mem1].
      apply (attrget_ge _ _ _ _ _ Hm) in E as [Hge _].
      destruct (msmpprecrypt_spec _ _ _ _ _ _ _ _ _ Hm E1) as [Hw Hs].
      destruct ok1; simpl in H.
      * res_inv H. discriminate.
      * inv_ret H. split; [assumption|].
        eapply same_below_le; [|exact Hs]. unfold ATTRVAL. lia.
    + inv_ret H. split; [assumption|apply same_below_refl].
  - res_inv H. destruct v as [a|].
    + do 2 res_inv H. destruct v0 as [ok1 mem1].
      apply (attrget_ge _ _ _ _ _ Hm) in E as [Hge _].
      destruct (msmpprecrypt_spec _ _ _ _ _ _ _ _ _ Hm E1) as [Hw Hs].
      assert (Hs' : same_below attrs mem mem1).
      { eapply same_below_le; [|exact Hs]. unfold ATTRVAL. lia. }
      destruct ok1; simpl in H.
      * res_inv H.
        assert (Hl : 0 <= v0).
        { match goal with
          | Hx : ATTRLEN mem1 a = Ret v0 |- _ =>
              unfold ATTRLEN in Hx; apply (rd_wf _ _ _ Hw) in Hx; lia
          end. }
        assert (Hnext : attrs <= a + v0) by lia.
        destruct (IH _ _ _ _ Hw Hnext H) as [Hw' Hs''].
        split; [assumption|]. eapply same_below_trans; eauto.
      * inv_ret H. split; assumption.
    + inv_ret H. split; [assumption|apply same_below_refl].
Qed.

Lemma msmppe_spec (mem : list Z) (attrs length type : Z)
  (oldsecret newsecret oldauth newauth : list Z) (ok : bool) (mem' : list Z) :
  wf_bytes mem ->
  msmppe mem attrs length type oldsecret newsecret oldauth newauth = Ret (ok, mem') ->
  wf_bytes mem' /\ same_below attrs mem mem'.
Proof. intros Hm. apply msmppe_loop_spec; [assumption|lia]. Qed.

(** ** The MS-MPPE loop of clientrd *)

Lemma ATTRVALLEN_Ret (b : list Z) (x vl : Z) :
  ATTRVALLEN b x = Ret vl -> ATTRLEN b x = Ret (vl + 2).
Proof.
  unfold ATTRVALLEN, ATTRLEN. intros H. res_inv H. inv_ret H.
  rewrite E. f_equal. lia.
Qed.

Lemma scan_step_short (mem : list Z) (attrs len attr : Z) (oldsecret : list Z)
  (from : option client) (rqbuf origauth : list Z) (a vl : Z) :
  attrget mem attr (len - (attr - attrs)) RAD_Attr_Vendor_Specific = Ret (Some a) ->
  ATTRVALLEN mem a = Ret vl -> vl <= 4 ->
  scan_step mem attrs len attr oldsecret from rqbuf origauth
  = Ret (ScanAbort a, mem).
Proof.
  intros Hg Hv Hle. unfold scan_step. rewrite Hg. ret_red. rewrite Hv. ret_red.
  destruct (Z.leb_spec vl 4); [reflexivity|lia].
Qed.

Lemma ms_scan_short (fuel : nat) (mem : list Z) (attrs len attr : Z)
  (oldsecret : list Z) (from : option client) (rqbuf origauth : list Z)
  (a vl : Z) :
  attrget mem attr (len - (attr - attrs)) RAD_Attr_Vendor_Specific = Ret (Some a) ->
  ATTRVALLEN mem a = Ret vl -> vl <= 4 ->
  ms_scan fuel mem attrs len attr oldsecret from rqbuf origauth
  = Ret (Some a, mem).
Proof.
  intros Hg Hv Hle.
  pose proof (scan_step_short mem attrs len attr oldsecret from rqbuf origauth
                a vl Hg Hv Hle) as Hs.
  destruct fuel; simpl; rewrite Hs; reflexivity.
Qed.

(** A turn that goes on leaves a buffer of bytes and moves [attr] forward. *)
Lemma scan_step_next (mem : list Z) (attrs len attr : Z) (oldsecret : list Z)
  (from : option client) (rqbuf origauth : list Z) (attr1 : Z) (mem1 : list Z) :
  wf_bytes mem ->
  scan_step mem attrs len attr oldsecret from rqbuf origauth
  = Ret (ScanNext attr1, mem1) ->
  wf_bytes mem1 /\ attr < attr1 /\ attr + 1 < attrs + len.
Proof.
  intros Hm. unfold scan_step. intros H. res_inv H.
  destruct v as [a|]; [|discriminate].
  apply (attrget_ge _ _ _ _ _ Hm) in E as [Hge Hlt].
  res_inv H. apply ATTRVALLEN_Ret in E.
  destruct (Z.leb_spec v 4) as [Hs|Hs]; [discriminate|].
  do 3 res_inv H.
  destruct v2.
  - res_inv H. inv_ret H. rewrite E in E3. inv_ret E3.
    split; [assumption|]. lia.
  - res_inv H. destruct v2; simpl in H; [|discriminate].
    destruct from as [f|]; [|discriminate].
    res_inv H. destruct v2 as [ok1 m1].
    destruct (msmppe_spec _ _ _ _ _ _ _ _ _ _ Hm E4) as [Hw1 Hs1].
    destruct ok1; simpl in H; [|discriminate].
    res_inv H. destruct v2 as [ok2 m2].
    destruct (msmppe_spec _ _ _ _ _ _ _ _ _ _ Hw1 E5) as [Hw2 Hs2].
    destruct ok2; simpl in H; [|discriminate].
    res_inv H. inv_ret H.
    split; [assumption|].
    assert (Hl : v2 = v + 2).
    { unfold ATTRLEN in E6, E.
      apply rd_Ret in E6 as [Hp E6]. apply rd_Ret in E as [_ E].
      destruct Hs1 as [_ Hs1]. destruct Hs2 as [_ Hs2].
      rewrite Hs2, Hs1 in E6 by (unfold ATTRVAL; lia). congruence. }
    lia.
Qed.

(** When the loop comes to a turn at which [attrget] finds a Vendor-Specific
    attribute with a value of at most 4 bytes, it ends there with [attr]
    pointing at that attribute. *)
Lemma ms_scan_reaches_short (attrs len : Z) (oldsecret : list Z)
  (from : option client) (rqbuf origauth : list Z)
  (mem : list Z) (attr : Z) (mem2 : list Z) (attr2 : Z) (a vl : Z) :
  scan_reaches attrs len oldsecret from rqbuf origauth mem attr mem2 attr2 ->
  wf_bytes mem ->
  attrget mem2 attr2 (len - (attr2 - attrs)) RAD_Attr_Vendor_Specific
  = Ret (Some a) ->
  ATTRVALLEN mem2 a = Ret vl -> vl <= 4 ->
  forall fuel : nat,
    attrs + len - attr <= Z.of_nat fuel ->
    ms_scan fuel mem attrs len attr oldsecret from rqbuf origauth
    = Ret (Some a, mem2).
Proof.
  intros Hr. induction Hr as [mem attr|mem attr mem1 attr1 mem2 attr2 Hstep Hr IH];
    intros Hm Hg Hv Hle fuel Hfuel.
  - eapply ms_scan_short; eauto.
  - destruct (scan_step_next _ _ _ _ _ _ _ _ _ _ Hm Hstep) as (Hw & Hlt & Hend).
    destruct fuel as [|fuel]; [lia|].
    simpl. rewrite Hstep. ret_red.
    apply IH; try assumption. lia.
Qed.

(** C10.  In [clientrd], once the checks are passed and the request is not a
    Status-Server probe, suppose the MS-MPPE loop comes to a turn at which
    [attrget] finds a Vendor-Specific attribute whose value has at most 4
    bytes.  Then the loop ends at that turn with [attr] pointing at the
    attribute, whatever the bytes of its value are (nothing is assumed of
    them, and the turn does not read them), and the turn of [clientrd] ends
    with the message discarded: nothing is handed to [sendreply] and the
    request table is left as it was. *)
Theorem clientrd_short_vendor_specific :
  forall (srv : server) (buf : list Z) (srv1 : server) (i code : Z)
         (rq : request) (rqbuf : list Z) (m : option Z) (buf1 : list Z)
         (len : Z) (mem : list Z) (attr a vl : Z),
    wf_bytes buf ->
    clientrd_checks srv buf = Ret (srv1, Pass i code rq rqbuf m buf1 len) ->
    scan_reaches 20 len (conf_secret (srv_conf srv1)) (rq_from rq) rqbuf
                 (rq_origauth rq) buf1 20 mem attr ->
    attrget mem attr (len - (attr - 20)) RAD_Attr_Vendor_Specific = Ret (Some a) ->
    ATTRVALLEN mem a = Ret vl ->
    vl <= 4 ->
    (forall (fuel : nat),
        ms_scan fuel mem 20 len attr (conf_secret (srv_conf srv1)) (rq_from rq)
                rqbuf (rq_origauth rq) = Ret (Some a, mem))
    /\ clientrd srv buf = Ret (set_connectionok srv, Discarded)
    /\ srv_requests (set_connectionok srv) = srv_requests srv.
Proof.
  intros srv buf srv1 i code rq rqbuf m buf1 len mem attr a vl
         Hwf Hc Hr Hg Hv Hle.
  split; [|split].
  - intros fuel. eapply ms_scan_short; eauto.
  - pose proof (clientrd_checks_Pass _ _ _ _ _ _ _ _ _ _ Hc) as (-> & Hrest).
    assert (Hb : buf1 = buf) by (decompose [and] Hrest; assumption). subst buf1.
    unfold clientrd. rewrite Hc. ret_red.
    rewrite (ms_scan_reaches_short _ _ _ _ _ _ _ _ _ _ a vl Hr Hwf Hg Hv Hle)
      by lia.
    reflexivity.
  - reflexivity.
Qed.

Lemma clientrd_short_vendor_specific_witness :
  wf_bytes ex_reply_two_vsa
  /\ clientrd_checks ex_server_sent ex_reply_two_vsa
     = Ret (set_connectionok ex_server_sent,
            Pass 0 2 (Request (Some ex_forwarded_pkt) (Some ex_client) 7 42
                              (take 16 (drop 4 ex_request_pkt)) 1 1006 false)
                 ex_forwarded_pkt (Some 35) ex_reply_two_vsa 33)
  /\ scan_reaches 20 33 (conf_secret ex_server_conf) (Some ex_client)
                  ex_forwarded_pkt (take 16 (drop 4 ex_request_pkt))
                  ex_reply_two_vsa 20 ex_reply_two_vsa 29
  /\ attrget ex_reply_two_vsa 29 (33 - (29 - 20)) RAD_Attr_Vendor_Specific
     = Ret (Some 29)
  /\ ATTRVALLEN ex_reply_two_vsa 29 = Ret 4
  /\ clientrd ex_server_sent ex_reply_two_vsa
     = Ret (set_connectionok ex_server_sent, Discarded).
Proof.
  assert (H1 : wf_bytes ex_reply_two_vsa)
    by (apply wf_bytes_check; vm_compute; reflexivity).
  assert (H2 : clientrd_checks ex_server_sent ex_reply_two_vsa
     = Ret (set_connectionok ex_server_sent,
            Pass 0 2 (Request (Some ex_forwarded_pkt) (Some ex_client) 7 42
                              (take 16 (drop 4 ex_request_pkt)) 1 1006 false)
                 ex_forwarded_pkt (Some 35) ex_reply_two_vsa 33))
    by (vm_compute; reflexivity).
  assert (H3 : scan_reaches 20 33 (conf_secret ex_server_conf) (Some ex_client)
                  ex_forwarded_pkt (take 16 (drop 4 ex_request_pkt))
                  ex_reply_two_vsa 20 ex_reply_two_vsa 29).
  { eapply reaches_next; [|apply reaches_here]. vm_compute. reflexivity. }
  assert (H4 : attrget ex_reply_two_vsa 29 (33 - (29 - 20)) RAD_Attr_Vendor_Specific
               = Ret (Some 29)) by (vm_compute; reflexivity).
  assert (H5 : ATTRVALLEN ex_reply_two_vsa 29 = Ret 4) by reflexivity.
  repeat (split; [assumption|]).
  assert (H6 : 4 <= 4) by lia.
  exact (proj1 (proj2 (clientrd_short_vendor_specific
                         ex_server_sent ex_reply_two_vsa _ _ _ _ _ _ _ _ _ _ _ _
                         H1 H2 H3 H4 H5 H6))).
Defined.

Lemma ex_clientrd_short_other_vendor :
  clientrd ex_server_sent ex_reply_short_vsa
  = Ret (set_connectionok ex_server_sent, Discarded)
  /\ attrget ex_reply_short_vsa 20 28 RAD_Attr_Vendor_Specific = Ret (Some 24)
  /\ rdn ex_reply_short_vsa 24 6 = Ret [26; 6; 0; 0; 0; 9].
Proof. repeat split; vm_compute; reflexivity. Qed.

(** ** User-Password hiding *)

Lemma rdn_all (b : list Z) : rdn b 0 (Z.of_nat (length b)) = Ret b.
Proof.
  rewrite rdn_ok by lia. rewrite Nat2Z.id. change (Z.to_nat 0) with 0%nat.
  rewrite drop_0, take_ge by reflexivity. reflexivity.
Qed.

Lemma rdn_take (b : list Z) (n : nat) :
  (n <= length b)%nat -> rdn b 0 (Z.of_nat n) = Ret (take n b).
Proof.
  intros H. rewrite rdn_ok by lia. rewrite Nat2Z.id.
  change (Z.to_nat 0) with 0%nat. rewrite drop_0. reflexivity.
Qed.

Lemma xor_bytes_length (a b : list Z) :
  length (xor_bytes a b) = (length a `min` length b)%nat.
Proof. apply length_zip_with. Qed.

Lemma xor_bytes_involutive (h p : list Z) :
  (length p <= length h)%nat -> xor_bytes h (xor_bytes h p) = p.
Proof.
  revert p. induction h as [|x h IH]; intros [|y p] Hl; simpl in *;
    try reflexivity; try lia.
  rewrite IH by lia. f_equal.
  rewrite <- Z.lxor_assoc, Z.lxor_nilpotent, Z.lxor_0_l. reflexivity.
Qed.

Lemma digest_check (m : list Z) :
  negb (bool_decide (length (MD5.digest m) = 16%nat)) = false.
Proof. rewrite bool_decide_eq_true_2 by apply digest_length. reflexivity. Qed.

Lemma pwdencrypt_loop_last (fuel : nat) (below mem : list Z) (inp len : Z)
  (key auth : list Z) (input : chain_input) (offset : Z) (out src blk out' : list Z) :
  read_input below out auth input = Ret src ->
  rdn mem (inp + offset) 16 = Ret blk ->
  wrn out offset (xor_bytes (MD5.digest (key ++ src)) blk) = Ret out' ->
  byte_of (offset + 16) = len ->
  pwdencrypt_loop (S fuel) below mem inp len key auth input offset out
  = Ret (Some out').
Proof.
  intros Hs Hb Hw Ho. simpl. rewrite Hs. ret_red. rewrite digest_check.
  rewrite Hb. ret_red. rewrite Hw. ret_red. rewrite Ho, Z.eqb_refl. reflexivity.
Qed.

Lemma pwdencrypt_loop_more (fuel : nat) (below mem : list Z) (inp len : Z)
  (key auth : list Z) (input : chain_input) (offset : Z) (out src blk out' : list Z) :
  read_input below out auth input = Ret src ->
  rdn mem (inp + offset) 16 = Ret blk ->
  wrn out offset (xor_bytes (MD5.digest (key ++ src)) blk) = Ret out' ->
  byte_of (offset + 16) <> len ->
  pwdencrypt_loop (S fuel) below mem inp len key auth input offset out
  = pwdencrypt_loop fuel below mem inp len key auth (InOut (offset - 16))
                    (byte_of (offset + 16)) out'.
Proof.
  intros Hs Hb Hw Ho. simpl. rewrite Hs. ret_red. rewrite digest_check.
  rewrite Hb. ret_red. rewrite Hw. ret_red.
  destruct (Z.eqb_spec (byte_of (offset + 16)) len); [contradiction|reflexivity].
Qed.

Lemma pwddecrypt_loop_last (fuel : nat) (mem : list Z) (inp len : Z)
  (key auth : list Z) (input : option Z) (offset : Z) (out src blk out' : list Z) :
  match input with None => rdn auth 0 16 | Some q => rdn mem q 16 end = Ret src ->
  rdn mem (inp + offset) 16 = Ret blk ->
  wrn out offset (xor_bytes (MD5.digest (key ++ src)) blk) = Ret out' ->
  byte_of (offset + 16) = len ->
  pwddecrypt_loop (S fuel) mem inp len key auth input offset out
  = Ret (Some out').
Proof.
  intros Hs Hb Hw Ho. simpl. rewrite Hs. ret_red. rewrite digest_check.
  rewrite Hb. ret_red. rewrite Hw. ret_red. rewrite Ho, Z.eqb_refl. reflexivity.
Qed.

Lemma pwddecrypt_loop_more (fuel : nat) (mem : list Z) (inp len : Z)
  (key auth : list Z) (input : option Z) (offset : Z) (out src blk out' : list Z) :
  match input with None => rdn auth 0 16 | Some q => rdn mem q 16 end = Ret src ->
  rdn mem (inp + offset) 16 = Ret blk ->
  wrn out offset (xor_bytes (MD5.digest (key ++ src)) blk) = Ret out' ->
  byte_of (offset + 16) <> len ->
  pwddecrypt_loop (S fuel) mem inp len key auth input offset out
  = pwddecrypt_loop fuel mem inp len key auth (Some (inp + offset))
                    (byte_of (offset + 16)) out'.
Proof.
  intros Hs Hb Hw Ho. simpl. rewrite Hs. ret_red. rewrite digest_check.
  rewrite Hb. ret_red. rewrite Hw. ret_red.
  destruct (Z.eqb_spec (byte_of (offset + 16)) len); [contradiction|reflexivity].
Qed.

Lemma rdn_block (b : list Z) (k : nat) :
  (16 * k + 16 <= length b)%nat ->
  rdn b (Z.of_nat (16 * k)) 16 = Ret (take 16 (drop (16 * k) b)).
Proof. intros H. rewrite rdn_ok by lia. rewrite Nat2Z.id. reflexivity. Qed.

(** What [pwdencrypt] leaves for a password of two blocks: the second block
    is hidden with the digest of the secret and the 16 bytes under [out],
    not with the digest of the secret and the first ciphertext block. *)
Lemma pwdencrypt_two_blocks (below p s a : list Z) :
  length below = 16%nat -> length p = 32%nat -> length a = 16%nat ->
  pwdencrypt below p 0 32 s (Z.of_nat (length s)) a
  = Ret (true,
         xor_bytes (MD5.digest (s ++ a)) (take 16 p)
         ++ xor_bytes (MD5.digest (s ++ below)) (drop 16 p)).
Proof.
  intros Hb Hp Ha. unfold pwdencrypt. rewrite rdn_all. ret_red.
  set (x1 := xor_bytes (MD5.digest (s ++ a)) (take 16 p)).
  set (x2 := xor_bytes (MD5.digest (s ++ below)) (drop 16 p)).
  assert (Hx1 : length x1 = 16%nat).
  { unfold x1. rewrite xor_bytes_length, digest_length, length_take. lia. }
  assert (Hx2 : length x2 = 16%nat).
  { unfold x2. rewrite xor_bytes_length, digest_length, length_drop. lia. }
  set (out1 := x1 ++ drop 16 (repeat 0 128)).
  set (out2 := x1 ++ x2 ++ drop 32 (repeat 0 128)).
  assert (Hl1 : length out1 = 128%nat).
  { unfold out1. rewrite length_app, Hx1, length_drop, repeat_length. lia. }
  rewrite (pwdencrypt_loop_more 15 below p 0 32 s a InAuth 0 (repeat 0 128)
             a (take 16 p) out1).
  - rewrite (pwdencrypt_loop_last 14 below p 0 32 s a (InOut (0 - 16))
               (byte_of (0 + 16)) out1 below (drop 16 p) out2).
    + ret_red.
      assert (Hd : rdn out2 0 32 = Ret (x1 ++ x2)).
      { change 32 with (Z.of_nat 32). rewrite rdn_take
          by (unfold out2; rewrite !length_app, Hx1, Hx2, length_drop, repeat_length; lia).
        unfold out2. rewrite app_assoc.
        rewrite take_app_length' by (rewrite length_app, Hx1, Hx2; reflexivity).
        reflexivity. }
      rewrite Hd. ret_red.
      rewrite wrn_ok by (rewrite ?length_app, ?Hx1, ?Hx2; lia).
      change (Z.to_nat 0) with 0%nat. rewrite length_app, Hx1, Hx2.
      rewrite take_0, drop_ge by lia. rewrite app_nil_r. reflexivity.
    + unfold read_input. change (16 + (0 - 16)) with (Z.of_nat (16 * 0)).
      rewrite rdn_block by (rewrite length_app, Hl1; lia).
      change (16 * 0)%nat with 0%nat. rewrite drop_0.
      rewrite <- Hb. rewrite take_app_length. reflexivity.
    + change (0 + byte_of (0 + 16)) with (Z.of_nat (16 * 1)).
      rewrite rdn_block by lia. change (16 * 1)%nat with 16%nat.
      rewrite take_ge by (rewrite length_drop; lia). reflexivity.
    + fold x2. change (byte_of (0 + 16)) with 16.
      rewrite wrn_ok by (rewrite ?Hx2, ?Hl1; lia).
      rewrite Hx2. change (Z.to_nat 16) with 16%nat. unfold out1, out2.
      rewrite <- Hx1 at 1. rewrite take_app_length.
      rewrite drop_app_ge by lia. rewrite Hx1. rewrite drop_drop. reflexivity.
    + reflexivity.
  - unfold read_input. change 16 with (Z.of_nat 16). rewrite <- Ha. apply rdn_all.
  - change (0 + 0) with (Z.of_nat (16 * 0)). rewrite rdn_block by lia.
    reflexivity.
  - fold x1. rewrite wrn_ok by (rewrite ?Hx1, ?repeat_length; lia).
    rewrite Hx1. reflexivity.
  - discriminate.
Qed.

Lemma pwddecrypt_two_blocks (c s a : list Z) :
  length c = 32%nat -> length a = 16%nat ->
  pwddecrypt c 0 32 s (Z.of_nat (length s)) a
  = Ret (true,
         xor_bytes (MD5.digest (s ++ a)) (take 16 c)
         ++ xor_bytes (MD5.digest (s ++ take 16 c)) (drop 16 c)).
Proof.
  intros Hc Ha. unfold pwddecrypt. rewrite rdn_all. ret_red.
  set (x1 := xor_bytes (MD5.digest (s ++ a)) (take 16 c)).
  set (x2 := xor_bytes (MD5.digest (s ++ take 16 c)) (drop 16 c)).
  assert (Hx1 : length x1 = 16%nat).
  { unfold x1. rewrite xor_bytes_length, digest_length, length_take. lia. }
  assert (Hx2 : length x2 = 16%nat).
  { unfold x2. rewrite xor_bytes_length, digest_length, length_drop. lia. }
  set (out1 := x1 ++ drop 16 (repeat 0 128)).
  set (out2 := x1 ++ x2 ++ drop 32 (repeat 0 128)).
  assert (Hl1 : length out1 = 128%nat).
  { unfold out1. rewrite length_app, Hx1, length_drop, repeat_length. lia. }
  rewrite (pwddecrypt_loop_more 15 c 0 32 s a None 0 (repeat 0 128)
             a (take 16 c) out1).
  - rewrite (pwddecrypt_loop_last 14 c 0 32 s a (Some (0 + 0))
               (byte_of (0 + 16)) out1 (take 16 c) (drop 16 c) out2).
    + ret_red.
      assert (Hd : rdn out2 0 32 = Ret (x1 ++ x2)).
      { change 32 with (Z.of_nat 32). rewrite rdn_take
          by (unfold out2; rewrite !length_app, Hx1, Hx2, length_drop, repeat_length; lia).
        unfold out2. rewrite app_assoc.
        rewrite take_app_length' by (rewrite length_app, Hx1, Hx2; reflexivity).
        reflexivity. }
      rewrite Hd. ret_red.
      rewrite wrn_ok by (rewrite ?length_app, ?Hx1, ?Hx2; lia).
      change (Z.to_nat 0) with 0%nat. rewrite length_app, Hx1, Hx2.
      rewrite take_0, drop_ge by lia. rewrite app_nil_r. reflexivity.
    + change (0 + 0) with (Z.of_nat (16 * 0)). rewrite rdn_block by lia.
      reflexivity.
    + change (0 + byte_of (0 + 16)) with (Z.of_nat (16 * 1)).
      rewrite rdn_block by lia. change (16 * 1)%nat with 16%nat.
      rewrite take_ge by (rewrite length_drop; lia). reflexivity.
    + fold x2. change (byte_of (0 + 16)) with 16.
      rewrite wrn_ok by (rewrite ?Hx2, ?Hl1; lia).
      rewrite Hx2. change (Z.to_nat 16) with 16%nat. unfold out1, out2.
      rewrite <- Hx1 at 1. rewrite take_app_length.
      rewrite drop_app_ge by lia. rewrite Hx1. rewrite drop_drop. reflexivity.
    + reflexivity.
  - change 16 with (Z.of_nat 16). rewrite <- Ha. apply rdn_all.
  - change (0 + 0) with (Z.of_nat (16 * 0)). rewrite rdn_block by lia.
    reflexivity.
  - fold x1. rewrite wrn_ok by (rewrite ?Hx1, ?repeat_length; lia).
    rewrite Hx1. reflexivity.
  - discriminate.
Qed.

(** One block: [pwddecrypt] undoes [pwdencrypt]. *)
Lemma pwd_roundtrip_one_block (below p s a : list Z) :
  length p = 16%nat -> length a = 16%nat ->
  pwd_roundtrip below p s a = Ret (true, p).
Proof.
  intros Hp Ha. unfold pwd_roundtrip. rewrite Hp.
  set (x1 := xor_bytes (MD5.digest (s ++ a)) p).
  assert (Hx1 : length x1 = 16%nat).
  { unfold x1. rewrite xor_bytes_length, digest_length. lia. }
  assert (Hauth : rdn a 0 16 = Ret a).
  { change 16 with (Z.of_nat 16). rewrite <- Ha. apply rdn_all. }
  assert (Hall : forall b : list Z, length b = 16%nat -> rdn b (0 + 0) 16 = Ret b).
  { intros b Hl. change (0 + 0) with 0. change 16 with (Z.of_nat 16).
    rewrite <- Hl. apply rdn_all. }
  assert (Hout : forall x : list Z, length x = 16%nat ->
            wrn (repeat 0 128) 0 x = Ret (x ++ drop 16 (repeat 0 128))).
  { intros x Hl. rewrite wrn_ok by (rewrite ?Hl, ?repeat_length; lia).
    rewrite Hl. reflexivity. }
  assert (Hdata : forall x : list Z, length x = 16%nat ->
            rdn (x ++ drop 16 (repeat 0 128)) 0 (Z.of_nat 16) = Ret x).
  { intros x Hl. rewrite rdn_take
      by (rewrite length_app, Hl, length_drop, repeat_length; lia).
    rewrite <- Hl. rewrite take_app_length. reflexivity. }
  assert (Hmem : forall b x : list Z, length b = 16%nat -> length x = 16%nat ->
            wrn b 0 x = Ret x).
  { intros b x Hb Hl. rewrite wrn_ok by (rewrite ?Hb, ?Hl; lia).
    change (Z.to_nat 0) with 0%nat. rewrite Hl, take_0, drop_ge by lia.
    rewrite app_nil_r. reflexivity. }
  assert (Henc : pwdencrypt below p 0 (Z.of_nat 16) s (Z.of_nat (length s)) a
                 = Ret (true, x1)).
  { unfold pwdencrypt. rewrite rdn_all. ret_red.
    rewrite (pwdencrypt_loop_last 15 below p 0 (Z.of_nat 16) s a InAuth 0
               (repeat 0 128) a p (x1 ++ drop 16 (repeat 0 128)));
      [|exact Hauth|exact (Hall p Hp)|apply Hout; exact Hx1|reflexivity].
    ret_red. rewrite (Hdata x1 Hx1). ret_red. rewrite (Hmem p x1 Hp Hx1).
    reflexivity. }
  rewrite Henc. ret_red. cbv iota beta.
  unfold pwddecrypt. rewrite rdn_all. ret_red.
  assert (Hp' : xor_bytes (MD5.digest (s ++ a)) x1 = p).
  { unfold x1. apply xor_bytes_involutive. rewrite digest_length. lia. }
  rewrite (pwddecrypt_loop_last 15 x1 0 (Z.of_nat 16) s a None 0
             (repeat 0 128) a x1 (p ++ drop 16 (repeat 0 128)));
    [|exact Hauth|exact (Hall x1 Hx1)|rewrite Hp'; apply Hout; exact Hp|reflexivity].
  ret_red. rewrite (Hdata p Hp). ret_red. rewrite (Hmem x1 p Hx1 Hp).
  reflexivity.
Qed.

Lemma xor_bytes_cancel (d1 d2 p : list Z) :
  length d1 = length p -> length d2 = length p ->
  xor_bytes d1 (xor_bytes d2 p) = p -> d1 = d2.
Proof.
  revert d2 p. induction d1 as [|x d1 IH]; intros [|y d2] [|z p] H1 H2;
    simpl in *; try reflexivity; try discriminate.
  intros H. injection H as Hh Ht. f_equal.
  - rewrite <- Z.lxor_assoc in Hh.
    assert (Hz : Z.lxor x y = 0).
    { apply (f_equal (fun v => Z.lxor v z)) in Hh.
      rewrite Z.lxor_assoc, Z.lxor_nilpotent, Z.lxor_0_r in Hh. exact Hh. }
    apply Z.lxor_eq in Hz. exact Hz.
  - eapply IH; [| |exact Ht]; lia.
Qed.

(** Two blocks: what the round trip returns, and when it is the password. *)
Lemma pwd_roundtrip_two_blocks (below p s a : list Z) :
  length below = 16%nat -> length p = 32%nat -> length a = 16%nat ->
  let c1 := xor_bytes (MD5.digest (s ++ a)) (take 16 p) in
  pwd_roundtrip below p s a
  = Ret (true,
         take 16 p
         ++ xor_bytes (MD5.digest (s ++ c1))
                      (xor_bytes (MD5.digest (s ++ below)) (drop 16 p)))
  /\ (pwd_roundtrip below p s a = Ret (true, p)
      <-> MD5.digest (s ++ c1) = MD5.digest (s ++ below)).
Proof.
  intros Hb Hp Ha c1.
  set (c2 := xor_bytes (MD5.digest (s ++ below)) (drop 16 p)).
  assert (Hc1 : length c1 = 16%nat).
  { unfold c1. rewrite xor_bytes_length, digest_length, length_take. lia. }
  assert (Hc2 : length c2 = 16%nat).
  { unfold c2. rewrite xor_bytes_length, digest_length, length_drop. lia. }
  assert (Hrt : pwd_roundtrip below p s a
                = Ret (true, take 16 p ++ xor_bytes (MD5.digest (s ++ c1)) c2)).
  { unfold pwd_roundtrip. rewrite Hp.
    change (Z.of_nat 32) with 32.
    rewrite (pwdencrypt_two_blocks below p s a Hb Hp Ha). ret_red. cbv iota beta.
    fold c1 c2.
    rewrite (pwddecrypt_two_blocks (c1 ++ c2) s a)
      by (rewrite ?length_app, ?Hc1, ?Hc2; auto).
    rewrite !take_app_length' by (rewrite Hc1; reflexivity).
    rewrite drop_app_length' by (rewrite Hc1; reflexivity).
    unfold c1 at 1. rewrite xor_bytes_involutive
      by (rewrite digest_length, length_take; lia).
    reflexivity. }
  split; [exact Hrt|].
  rewrite Hrt. split.
  - intros H. injection H as H.
    apply (f_equal (drop 16)) in H.
    rewrite drop_app_length' in H by (rewrite length_take; lia).
    eapply xor_bytes_cancel; [| |exact H];
      rewrite digest_length, length_drop; lia.
  - intros H. rewrite H. unfold c2.
    rewrite xor_bytes_involutive by (rewrite digest_length, length_drop; lia).
    rewrite take_drop. reflexivity.
Qed.

(** The loops of [pwdencrypt] and [pwddecrypt] end: [offset] goes up by 16
    each turn, and the write to [out[offset..offset+16]] falls outside the
    128 bytes of [out] at the ninth turn at the latest. *)
Lemma pwdencrypt_loop_ends (below mem : list Z) (inp len : Z) (key auth : list Z) :
  forall (fuel : nat) (input : chain_input) (offset : Z) (out : list Z),
    length out = 128%nat -> 0 <= offset ->
    (1 <= fuel)%nat -> 144 - offset <= 16 * Z.of_nat fuel ->
    pwdencrypt_loop fuel below mem inp len key auth input offset out <> Hang.
Proof.
  induction fuel as [|f IH]; intros input offset out Hl Ho H1 Hf; [lia|].
  simpl.
  destruct (read_input below out auth input) as [src| |] eqn:Es;
    [|discriminate|destruct input; exfalso; exact (rdn_ends _ _ _ Es)].
  ret_red. rewrite digest_check.
  destruct (rdn mem (inp + offset) 16) as [blk| |] eqn:Er;
    [|discriminate|exfalso; exact (rdn_ends _ _ _ Er)].
  ret_red.
  destruct (wrn out offset (xor_bytes (MD5.digest (key ++ src)) blk))
    as [out'| |] eqn:Ew; [|discriminate|exfalso; exact (wrn_ends _ _ _ Ew)].
  ret_red.
  destruct (byte_of (offset + 16) =? len); [discriminate|].
  pose proof (wrn_length _ _ _ _ Ew) as Hl'.
  apply wrn_Ret in Ew as (_ & Hb & _).
  apply rdn_length in Er.
  rewrite xor_bytes_length, digest_length, Er in Hb.
  change (Z.of_nat (16 `min` Z.to_nat 16)) with 16 in Hb.
  unfold byte_of. rewrite Z.mod_small by lia.
  apply IH; [congruence|lia|lia|lia].
Qed.

Lemma pwddecrypt_loop_ends (mem : list Z) (inp len : Z) (key auth : list Z) :
  forall (fuel : nat) (input : option Z) (offset : Z) (out : list Z),
    length out = 128%nat -> 0 <= offset ->
    (1 <= fuel)%nat -> 144 - offset <= 16 * Z.of_nat fuel ->
    pwddecrypt_loop fuel mem inp len key auth input offset out <> Hang.
Proof.
  induction fuel as [|f IH]; intros input offset out Hl Ho H1 Hf; [lia|].
  simpl.
  destruct (match input with None => rdn auth 0 16 | Some p => rdn mem p 16 end)
    as [src| |] eqn:Es;
    [|discriminate|destruct input; exfalso; exact (rdn_ends _ _ _ Es)].
  ret_red. rewrite digest_check.
  destruct (rdn mem (inp + offset) 16) as [blk| |] eqn:Er;
    [|discriminate|exfalso; exact (rdn_ends _ _ _ Er)].
  ret_red.
  destruct (wrn out offset (xor_bytes (MD5.digest (key ++ src)) blk))
    as [out'| |] eqn:Ew; [|discriminate|exfalso; exact (wrn_ends _ _ _ Ew)].
  ret_red.
  destruct (byte_of (offset + 16) =? len); [discriminate|].
  pose proof (wrn_length _ _ _ _ Ew) as Hl'.
  apply wrn_Ret in Ew as (_ & Hb & _).
  apply rdn_length in Er.
  rewrite xor_bytes_length, digest_length, Er in Hb.
  change (Z.of_nat (16 `min` Z.to_nat 16)) with 16 in Hb.
  unfold byte_of. rewrite Z.mod_small by lia.
  apply IH; [congruence|lia|lia|lia].
Qed.

(** So the fuel of [pwdencrypt] and [pwddecrypt] is never used up. *)
Lemma pwdencrypt_ends (below mem : list Z) (inp len : Z) (shared : list Z)
  (sharedlen : Z) (auth : list Z) :
  pwdencrypt below mem inp len shared sharedlen auth <> Hang.
Proof.
  unfold pwdencrypt.
  destruct (rdn shared 0 sharedlen) as [key| |] eqn:Ek;
    [|discriminate|exfalso; exact (rdn_ends _ _ _ Ek)].
  ret_red.
  destruct (pwdencrypt_loop 16 below mem inp len key auth InAuth 0 (repeat 0 128))
    as [[out|]| |] eqn:El; try discriminate.
  - ret_red.
    destruct (rdn out 0 len) as [data| |] eqn:Ed;
      [|discriminate|exfalso; exact (rdn_ends _ _ _ Ed)].
    ret_red.
    destruct (wrn mem inp data) as [m| |] eqn:Em;
      [discriminate|discriminate|exfalso; exact (wrn_ends _ _ _ Em)].
  - exfalso. revert El. apply pwdencrypt_loop_ends; [reflexivity|lia|lia|lia].
Qed.

Lemma pwddecrypt_ends (mem : list Z) (inp len : Z) (shared : list Z)
  (sharedlen : Z) (auth : list Z) :
  pwddecrypt mem inp len shared sharedlen auth <> Hang.
Proof.
  unfold pwddecrypt.
  destruct (rdn shared 0 sharedlen) as [key| |] eqn:Ek;
    [|discriminate|exfalso; exact (rdn_ends _ _ _ Ek)].
  ret_red.
  destruct (pwddecrypt_loop 16 mem inp len key auth None 0 (repeat 0 128))
    as [[out|]| |] eqn:El; try discriminate.
  - ret_red.
    destruct (rdn out 0 len) as [data| |] eqn:Ed;
      [|discriminate|exfalso; exact (rdn_ends _ _ _ Ed)].
    ret_red.
    destruct (wrn mem inp data) as [m| |] eqn:Em;
      [discriminate|discriminate|exfalso; exact (wrn_ends _ _ _ Em)].
  - exfalso. revert El. apply pwddecrypt_loop_ends; [reflexivity|lia|lia|lia].
Qed.

(** C1.  [pwddecrypt] does not undo [pwdencrypt] on passwords of more than
    one block.  For the 32-byte password [ex_password32] and the 48-byte
    password [ex_password48], with the stack under [out] holding zeros, the
    round trip returns the first block and other bytes after it; and what
    [pwdencrypt] leaves is not the RFC 2865 chain, in which every block
    after the first is hidden with the digest of the secret and the previous
    ciphertext block. *)
Theorem pwd_roundtrip_breaks_after_first_block :
  pwd_roundtrip (repeat 0 16) ex_password32 ex_secret ex_auth
  = Ret (true,
         take 16 ex_password32
         ++ [50; 213; 252; 144; 19; 178; 155; 65; 1; 99; 45; 213; 244; 229; 50; 209])
  /\ pwd_roundtrip (repeat 0 16) ex_password32 ex_secret ex_auth
     <> Ret (true, ex_password32)
  /\ pwd_roundtrip (repeat 0 16) ex_password48 ex_secret ex_auth
     <> Ret (true, ex_password48)
  /\ pwdencrypt (repeat 0 16) ex_password32 0 32 ex_secret 10 ex_auth
     <> Ret (true, rfc_encrypt 2 ex_secret ex_auth ex_password32)
  /\ pwddecrypt (rfc_encrypt 2 ex_secret ex_auth ex_password32) 0 32 ex_secret 10
                ex_auth
     = Ret (true, ex_password32).
Proof.
  split; [vm_compute; reflexivity|].
  split; [vm_compute; discriminate|].
  split; [vm_compute; discriminate|].
  split; [vm_compute; discriminate|].
  vm_compute; reflexivity.
Qed.

(** A realm without server: [radsrv] follows the NULL pointer
    [realm->srvconf] before it comes to the test [if (!to)]. *)
Lemma radsrv_no_server_faults (below : list Z) (newauth : option (list Z))
  (px : proxy) (rq : request) (buf : list Z) (id len0 a vl : Z)
  (username : list Z) (rlm : realm) :
  rq_buf rq = Some buf ->
  rd buf 0 = Ret RAD_Access_Request ->
  rd buf 1 = Ret id ->
  RADLEN buf = Ret len0 ->
  attrvalidate buf 20 ((len0 - 20) mod 65536) = Ret true ->
  attrget buf 20 ((len0 - 20) mod 65536) RAD_Attr_User_Name = Ret (Some a) ->
  ATTRVALLEN buf a = Ret vl ->
  rdn buf (ATTRVAL a) vl = Ret username ->
  id2realm (px_realms px) (cstring username) = Some rlm ->
  realm_srvconf rlm = None ->
  radsrv below newauth px rq = Fault.
Proof.
  intros Hb Hc Hi Hl Hv Hg Hvl Hu Hr Hs.
  unfold radsrv. rewrite Hb, Hc. ret_red. rewrite Hi. ret_red. rewrite Hl. ret_red.
  change (negb (RAD_Access_Request =? RAD_Access_Request)
          && negb (RAD_Access_Request =? RAD_Status_Server)) with false.
  cbv iota. rewrite Hv. ret_red. change (negb true) with false. cbv iota.
  unfold radsrv_route. change (RAD_Access_Request =? RAD_Access_Request) with true.
  cbv iota. unfold radsrv_realm. rewrite Hg. ret_red. rewrite Hvl. ret_red.
  rewrite Hu. ret_red. rewrite Hr, Hs. reflexivity.
Qed.

(** C2.  An Access-Request for a realm that has a ReplyMessage and no
    server: [radsrv] dereferences the NULL [realm->srvconf] and sends no
    Access-Reject.  With [realm->srvconf] set and [srvconf->servers] NULL,
    which [main] never leaves so, the same request gets the Access-Reject
    with Reply-Message "denied" that the branch [if (!to)] builds. *)
Theorem radsrv_reject_realm_faults :
  radsrv (repeat 0 16) (Some ex_newauth) ex_proxy_reject ex_request = Fault
  /\ radsrv (repeat 0 16) (Some ex_newauth) ex_proxy_unset ex_request
     = Ret (ex_proxy_unset,
            Responded ex_client
                      ([3; 42; 0; 28] ++ take 16 (drop 4 ex_request_pkt)
                       ++ [18; 8] ++ ascii_bytes "denied")
                      (Some 7)).
Proof. split; vm_compute; reflexivity. Qed.

Lemma radsrv_reject_realm_general :
  radsrv (repeat 0 16) (Some ex_newauth) ex_proxy_reject ex_request = Fault.
Proof.
  eapply (radsrv_no_server_faults _ _ _ _ ex_request_pkt 42 43 20 3
            (ascii_bytes "bob") ex_realm_reject);
    vm_compute; reflexivity.
Qed.

(** ** Fuel *)

(** The fuel [attrget] gives its loop is enough: on a buffer of bytes the
    loop answers [Hang] only where the C loop meets an attribute of length 0
    and so repeats its turn for ever. *)
Lemma attrget_loop_fuel (fuel : nat) (b : list Z) (type : Z) :
  wf_bytes b ->
  forall attrs length,
    length <= Z.of_nat fuel ->
    attrget_loop (S fuel) b attrs length type
    = attrget_loop fuel b attrs length type.
Proof.
  intros Hb. induction fuel as [|f IH]; intros attrs len Hl.
  - simpl. destruct (Z.ltb_spec 1 len); [lia|reflexivity].
  - change (attrget_loop (S (S f)) b attrs len type)
      with (if 1 <? len then
              t ← ATTRTYPE b attrs;
              if t =? type then Ret (Some attrs)
              else
                l ← ATTRLEN b attrs;
                if l =? 0 then Hang
                else attrget_loop (S f) b (attrs + l) (len - l) type
            else Ret None).
    change (attrget_loop (S f) b attrs len type)
      with (if 1 <? len then
              t ← ATTRTYPE b attrs;
              if t =? type then Ret (Some attrs)
              else
                l ← ATTRLEN b attrs;
                if l =? 0 then Hang
                else attrget_loop f b (attrs + l) (len - l) type
            else Ret None).
    destruct (1 <? len); [|reflexivity].
    destruct (ATTRTYPE b attrs) as [t| |]; try reflexivity. ret_red.
    destruct (t =? type); [reflexivity|].
    destruct (ATTRLEN b attrs) as [l| |] eqn:El; try reflexivity. ret_red.
    destruct (Z.eqb_spec l 0); [reflexivity|].
    apply IH. unfold ATTRLEN in El. apply (rd_wf _ _ _ Hb) in El. lia.
Qed.

(** ** sendreply *)

(** What [sendreply] appends when the queue has room: the message with the
    MD5 digest of the message and the client's secret in bytes 4..20. *)
Lemma sendreply_enqueues (q : replyq) (to : client) (buf : list Z)
  (tosa : option Z) (q' : replyq) :
  sendreply q to buf tosa = Ret (q', Enqueued) ->
  exists (len : Z) (data buf' : list Z),
    RADLEN buf = Ret len
    /\ rdn buf 0 len = Ret data
    /\ wrn buf 4 (MD5.digest (data ++ conf_secret (cl_conf to))) = Ret buf'
    /\ rpq_replies q' = rpq_replies q ++ [Reply buf' tosa]
    /\ rpq_size q' = rpq_size q.
Proof.
  unfold sendreply. intros H. res_inv H. destruct v as [ok buf'].
  destruct ok; simpl in H; [|discriminate].
  destruct (Z.of_nat (length (rpq_replies q)) =? rpq_size q); [discriminate|].
  destruct (MAX_REQUESTS <=? Z.of_nat (length (rpq_replies q))); [discriminate|].
  inv_ret H. unfold radsign in E. do 3 res_inv E. inv_ret E.
  exists v, v0, buf'. auto.
Qed.

(** * Part III: further properties *)

(** ** Attributes: what [attrvalidate] accepts *)

Lemma attrs_at_total (b : list Z) (ls : list Z) :
  forall attrs, attrs_at b attrs ls -> 0 <= total ls.
Proof.
  induction ls as [|x ls IH]; simpl; intros attrs Hw; [lia|].
  destruct Hw as (_ & ? & Hw). specialize (IH _ Hw). lia.
Qed.

Lemma attrvalidate_loop_walk (fuel : nat) (b : list Z) :
  forall attrs length,
    0 <= length ->
    attrvalidate_loop fuel b attrs length = Ret true ->
    exists ls, attrs_at b attrs ls
               /\ (total ls = length \/ total ls = length - 1).
Proof.
  induction fuel as [|f IH]; intros attrs len H0; simpl.
  - destruct (Z.ltb_spec 1 len); [discriminate|]. intros _.
    exists []. simpl. split; [exact I|lia].
  - destruct (Z.ltb_spec 1 len) as [Hl|Hl].
    + intros H. res_inv H.
      destruct (Z.ltb_spec v 2); [discriminate|].
      destruct (Z.ltb_spec (len - v) 0); [discriminate|].
      assert (Hge : 0 <= len - v) by lia.
      destruct (IH _ _ Hge H) as (ls & Hw & Hs).
      exists (v :: ls). simpl. split; [auto|lia].
    + intros _. exists []. simpl. split; [exact I|lia].
Qed.

Lemma attrvalidate_loop_accepts (b : list Z) (ls : list Z) :
  forall (fuel : nat) attrs length,
    attrs_at b attrs ls ->
    (total ls = length \/ total ls = length - 1) ->
    length <= Z.of_nat fuel ->
    attrvalidate_loop fuel b attrs length = Ret true.
Proof.
  induction ls as [|l ls IH]; intros fuel attrs len Hw Hs Hf.
  - simpl in Hs. destruct fuel; simpl;
      destruct (Z.ltb_spec 1 len); try reflexivity; lia.
  - simpl in Hw, Hs. destruct Hw as (Hl & H2 & Hw).
    pose proof (attrs_at_total b ls _ Hw) as Hpos.
    destruct fuel as [|f]; [lia|]. simpl.
    destruct (Z.ltb_spec 1 len); [|lia].
    rewrite Hl. ret_red.
    destruct (Z.ltb_spec l 2); [lia|].
    destruct (Z.ltb_spec (len - l) 0); [lia|].
    apply (IH f (attrs + l) (len - l) Hw); lia.
Qed.

(** X1.  [attrvalidate] answers 1 exactly on an area that is a sequence of
    attributes, each with a length byte of at least 2, followed by at most
    one more byte. *)
Theorem attrvalidate_accepts_iff (b : list Z) (attrs length : Z) :
  0 <= length ->
  (attrvalidate b attrs length = Ret true
   <-> exists ls, attrs_at b attrs ls
                  /\ (total ls = length \/ total ls = length - 1)).
Proof.
  intros H0. unfold attrvalidate. split.
  - apply attrvalidate_loop_walk. exact H0.
  - intros (ls & Hw & Hs). apply (attrvalidate_loop_accepts b ls); [assumption..|lia].
Qed.

Lemma attrvalidate_accepts_iff_witness :
  attrvalidate ex_request_pkt 20 23 = Ret true
  <-> exists ls, attrs_at ex_request_pkt 20 ls
                 /\ (total ls = 23 \/ total ls = 23 - 1).
Proof. apply (attrvalidate_accepts_iff ex_request_pkt 20 23). lia. Defined.

Lemma attrget_loop_first (b : list Z) (type : Z) (ls : list Z) :
  forall (fuel : nat) attrs length,
    0 <= attrs ->
    attrs_at b attrs ls ->
    (total ls = length \/ total ls = length - 1) ->
    length - 1 <= Z.of_nat fuel ->
    exists r, attrget_loop fuel b attrs length type = Ret r
              /\ first_of_type b type (offsets attrs ls) r.
Proof.
  induction ls as [|l ls IH]; intros fuel attrs len Ha Hw Hs Hf.
  - simpl in Hs. exists None. split; [|constructor].
    destruct fuel; simpl; destruct (Z.ltb_spec 1 len); try reflexivity; lia.
  - simpl in Hw, Hs. destruct Hw as (Hl & H2 & Hw).
    pose proof (attrs_at_total b ls _ Hw) as Hpos.
    destruct fuel as [|f]; [lia|]. simpl.
    destruct (Z.ltb_spec 1 len); [|lia].
    assert (Ht : exists t, ATTRTYPE b attrs = Ret t).
    { unfold ATTRLEN in Hl. apply rd_Ret in Hl as [_ Hl].
      apply lookup_lt_Some in Hl.
      destruct (lookup_lt_is_Some_2 b (Z.to_nat attrs) ltac:(lia)) as [t Ht].
      exists t. unfold ATTRTYPE, rd.
      destruct (Z.ltb_spec attrs 0); [lia|]. rewrite Ht. reflexivity. }
    destruct Ht as [t Ht]. rewrite Ht. ret_red.
    destruct (Z.eqb_spec t type) as [->|Hne].
    + exists (Some attrs). split; [reflexivity|].
      exists [], (offsets (attrs + l) ls). simpl. auto.
    + rewrite Hl. ret_red.
      destruct (Z.eqb_spec l 0); [lia|].
      assert (Ha' : 0 <= attrs + l) by lia.
      assert (Hs' : total ls = len - l \/ total ls = len - l - 1) by lia.
      assert (Hf' : len - l - 1 <= Z.of_nat f) by lia.
      destruct (IH f _ _ Ha' Hw Hs' Hf') as (r & Hr & Hfirst).
      exists r. split; [exact Hr|].
      assert (Hhere : ATTRTYPE b attrs <> Ret type) by (rewrite Ht; congruence).
      destruct r as [a|]; simpl in *.
      * destruct Hfirst as (pre & post & Ho & Hty & Hpre).
        exists (attrs :: pre), post. rewrite Ho. auto.
      * constructor; assumption.
Qed.

(** X2.  On an area [attrvalidate] has accepted, [attrget] returns, whatever
    the type asked for: it gives the first attribute of that type, or NULL
    when the area has none, and reads no byte outside the area. *)
Theorem attrget_on_validated (b : list Z) (attrs length type : Z) :
  0 <= attrs -> 0 <= length ->
  attrvalidate b attrs length = Ret true ->
  exists (ls : list Z) (r : option Z),
    attrs_at b attrs ls
    /\ (total ls = length \/ total ls = length - 1)
    /\ attrget b attrs length type = Ret r
    /\ first_of_type b type (offsets attrs ls) r.
Proof.
  intros Ha H0 Hv.
  apply attrvalidate_loop_walk in Hv as (ls & Hw & Hs); [|exact H0].
  assert (Hf : length - 1 <= Z.of_nat (Z.to_nat length)) by lia.
  destruct (attrget_loop_first b type ls _ _ _ Ha Hw Hs Hf) as (r & Hr & Hfirst).
  exists ls, r. auto.
Qed.

Lemma attrget_on_validated_witness :
  exists (ls : list Z) (r : option Z),
    attrs_at ex_request_pkt 20 ls
    /\ (total ls = 23 \/ total ls = 23 - 1)
    /\ attrget ex_request_pkt 20 23 RAD_Attr_Message_Authenticator = Ret r
    /\ first_of_type ex_request_pkt RAD_Attr_Message_Authenticator (offsets 20 ls) r.
Proof.
  apply (attrget_on_validated ex_request_pkt 20 23 RAD_Attr_Message_Authenticator);
    [lia|lia|reflexivity].
Defined.

(** ** Signing and checking a reply *)

Lemma take16_digest (m : list Z) : take 16 (MD5.digest m) = MD5.digest m.
Proof. apply take_ge. rewrite digest_length. lia. Qed.

(** The first [len] bytes of a packet in three parts: the four header bytes,
    the authenticator, the attributes. *)
Lemma packet_split (rad : list Z) (len : Z) :
  20 <= len <= Z.of_nat (length rad) ->
  take (Z.to_nat len) rad
  = take 4 rad ++ take 16 (drop 4 rad) ++ take (Z.to_nat (len - 20)) (drop 20 rad).
Proof.
  intros H.
  rewrite <- (take_drop 4 (take (Z.to_nat len) rad)).
  rewrite take_take, Nat.min_l by lia. f_equal.
  rewrite skipn_firstn_comm.
  rewrite <- (take_drop 16 (take (Z.to_nat len - 4) (drop 4 rad))).
  rewrite take_take, Nat.min_l by lia. f_equal.
  rewrite skipn_firstn_comm, drop_drop. f_equal. lia.
Qed.

Lemma radsign_Ret (rad sec : list Z) (len : Z) :
  RADLEN rad = Ret len -> 20 <= len <= Z.of_nat (length rad) ->
  radsign rad sec = Ret (true, signed rad sec len).
Proof.
  intros Hl Hlen. unfold radsign, signed. rewrite Hl. ret_red.
  rewrite (rdn_ok rad 0 len) by lia. change (Z.to_nat 0) with 0%nat.
  rewrite drop_0. ret_red.
  rewrite wrn_ok by (rewrite ?digest_length; lia). ret_red.
  rewrite digest_length. rewrite bool_decide_eq_true_2 by reflexivity.
  reflexivity.
Qed.

Lemma signed_length (rad sec : list Z) (len : Z) :
  (20 <= length rad)%nat -> length (signed rad sec len) = length rad.
Proof.
  intros H. unfold signed.
  rewrite !length_app, length_take, length_drop, digest_length. lia.
Qed.

Lemma signed_lookup (rad sec : list Z) (len : Z) (j : nat) :
  (20 <= length rad)%nat -> (j < 4 \/ 20 <= j)%nat ->
  signed rad sec len !! j = rad !! j.
Proof.
  intros H [Hj|Hj]; unfold signed.
  - rewrite lookup_app_l by (rewrite length_take; lia).
    apply lookup_take_lt. exact Hj.
  - rewrite lookup_app_r by (rewrite length_take; lia).
    rewrite lookup_app_r by (rewrite length_take, digest_length; lia).
    rewrite length_take, digest_length, lookup_drop. f_equal. lia.
Qed.

Lemma validauth_signed (rad sec reqauth : list Z) (len : Z) :
  RADLEN rad = Ret len -> 20 <= len <= Z.of_nat (length rad) ->
  rdn rad 4 16 = Ret reqauth ->
  validauth (signed rad sec len) reqauth sec = Ret true.
Proof.
  intros Hl Hlen Ha.
  assert (H20 : (20 <= length rad)%nat) by lia.
  pose proof (signed_length rad sec len H20) as Hl'.
  assert (Hsame : forall j : nat, (j < 4 \/ 20 <= j)%nat ->
                                  signed rad sec len !! j = rad !! j)
    by (intros j Hj; apply signed_lookup; assumption).
  unfold validauth.
  assert (Hlen' : RADLEN (signed rad sec len) = Ret len).
  { rewrite <- Hl. unfold RADLEN, rd. simpl Z.ltb. cbv iota.
    rewrite !Hsame by (simpl; lia). reflexivity. }
  rewrite Hlen'. ret_red.
  rewrite (rdn_ext rad _ 0 4 Hl') by (intros q Hq; apply Hsame; lia).
  rewrite (rdn_ok rad 0 4) by lia. ret_red.
  assert (Hrest : (if len <=? 20 then Ret []
                   else rdn (signed rad sec len) 20 (len - 20))
                  = Ret (take (Z.to_nat (len - 20)) (drop 20 rad))).
  { destruct (Z.leb_spec len 20) as [Hle|Hgt].
    - replace (Z.to_nat (len - 20)) with 0%nat by lia. reflexivity.
    - rewrite (rdn_ext rad _ 20 (len - 20) Hl') by (intros q Hq; apply Hsame; lia).
      rewrite (rdn_ok rad 20) by lia. reflexivity. }
  rewrite Hrest. ret_red.
  assert (Hmine : rdn (signed rad sec len) 4 16
                  = Ret (MD5.digest (take (Z.to_nat len) rad ++ sec))).
  { rewrite rdn_ok by lia. f_equal. unfold signed.
    change (Z.to_nat 4) with 4%nat. change (Z.to_nat 16) with 16%nat.
    rewrite drop_app_length' by (rewrite length_take; lia).
    apply take_app_length'. rewrite digest_length. reflexivity. }
  rewrite Hmine. ret_red.
  apply rdn_Ret in Ha as (_ & _ & _ & ->).
  change (Z.to_nat 0) with 0%nat. rewrite drop_0.
  change (Z.to_nat 4) with 4%nat. change (Z.to_nat 16) with 16%nat.
  rewrite !app_assoc. rewrite <- (app_assoc (take 4 rad)).
  rewrite <- packet_split by exact Hlen.
  rewrite digest_length, take16_digest.
  rewrite bool_decide_eq_true_2 by reflexivity. unfold bytes_eqb.
  rewrite bool_decide_eq_true_2 by reflexivity. reflexivity.
Qed.

(** X3.  A reply signed by [radsign] passes [validauth]: when bytes 4..20 of
    a packet of at least 20 bytes hold the authenticator of the request,
    [radsign] returns 1, changes bytes 4..20 only, and [validauth] with that
    authenticator and the same secret returns 1 on what it leaves. *)
Theorem radsign_validauth (rad sec reqauth : list Z) (len : Z) :
  RADLEN rad = Ret len ->
  20 <= len <= Z.of_nat (length rad) ->
  rdn rad 4 16 = Ret reqauth ->
  exists rad',
    radsign rad sec = Ret (true, rad')
    /\ validauth rad' reqauth sec = Ret true
    /\ length rad' = length rad
    /\ (forall j : nat, (j < 4 \/ 20 <= j)%nat -> rad' !! j = rad !! j).
Proof.
  intros Hl Hlen Ha.
  assert (H20 : (20 <= length rad)%nat) by lia.
  exists (signed rad sec len).
  split; [apply radsign_Ret; assumption|].
  split; [apply validauth_signed; assumption|].
  split; [apply signed_length; exact H20|].
  intros j Hj. apply signed_lookup; assumption.
Qed.

Lemma radsign_validauth_witness :
  exists rad',
    radsign ex_reply_pkt (conf_secret ex_client_conf) = Ret (true, rad')
    /\ validauth rad' (take 16 (drop 4 ex_reply_pkt)) (conf_secret ex_client_conf)
       = Ret true
    /\ length rad' = length ex_reply_pkt
    /\ (forall j : nat, (j < 4 \/ 20 <= j)%nat -> rad' !! j = ex_reply_pkt !! j).
Proof.
  apply (radsign_validauth ex_reply_pkt (conf_secret ex_client_conf)
           (take 16 (drop 4 ex_reply_pkt)) 51);
    [reflexivity|vm_compute; split; discriminate|reflexivity].
Defined.

(** ** Password hiding: the RFC 2865 chain *)

Lemma rfc_decrypt_length (s : list Z) (n : nat) :
  forall prev c, (16 * n <= length c)%nat ->
                 length (rfc_decrypt n s prev c) = (16 * n)%nat.
Proof.
  induction n as [|n IH]; intros prev c Hc; simpl; [reflexivity|].
  rewrite length_app, xor_bytes_length, digest_length, length_take.
  rewrite IH by (rewrite length_drop; lia). lia.
Qed.

Lemma rfc_encrypt_length (s : list Z) (n : nat) :
  forall prev p, (16 * n <= length p)%nat ->
                 length (rfc_encrypt n s prev p) = (16 * n)%nat.
Proof.
  induction n as [|n IH]; intros prev p Hp; simpl; [reflexivity|].
  rewrite length_app, xor_bytes_length, digest_length, length_take.
  rewrite IH by (rewrite length_drop; lia). lia.
Qed.

Lemma rfc_decrypt_encrypt (s : list Z) (n : nat) :
  forall prev p, length p = (16 * n)%nat ->
                 rfc_decrypt n s prev (rfc_encrypt n s prev p) = p.
Proof.
  induction n as [|n IH]; intros prev p Hp; simpl.
  - destruct p; [reflexivity|discriminate].
  - set (c := xor_bytes (MD5.digest (s ++ prev)) (take 16 p)).
    assert (Hc : length c = 16%nat).
    { unfold c. rewrite xor_bytes_length, digest_length, length_take. lia. }
    rewrite take_app_length' by lia.
    rewrite drop_app_length' by lia.
    rewrite IH by (rewrite length_drop; lia).
    unfold c. rewrite xor_bytes_involutive
      by (rewrite digest_length, length_take; lia).
    apply take_drop.
Qed.

(** The loop of [pwddecrypt] from block [k] on, [m] blocks to go. *)
Lemma pwddecrypt_loop_blocks (mem : list Z) (inp : Z) (key auth : list Z) (n : nat) :
  forall (m fuel k : nat) (out : list Z) (input : option Z) (prev : list Z),
    (1 <= m)%nat -> (k + m = n)%nat -> (n <= 8)%nat ->
    length out = 128%nat ->
    0 <= inp -> inp + Z.of_nat (16 * n) <= Z.of_nat (length mem) ->
    match input with None => rdn auth 0 16 | Some q => rdn mem q 16 end = Ret prev ->
    (m <= fuel)%nat ->
    pwddecrypt_loop fuel mem inp (Z.of_nat (16 * n)) key auth input
                    (Z.of_nat (16 * k)) out
    = Ret (Some (take (16 * k) out
                 ++ rfc_decrypt m key prev
                      (take (16 * m) (drop (Z.to_nat inp + 16 * k) mem))
                 ++ drop (16 * (k + m)) out)).
Proof.
  induction m as [|m IH]; intros fuel k out input prev H1 Hk Hn Ho Hi Hb Hp Hf;
    [lia|].
  destruct fuel as [|fuel]; [lia|].
  set (blk := take 16 (drop (Z.to_nat inp + 16 * k) mem)).
  set (x := xor_bytes (MD5.digest (key ++ prev)) blk).
  assert (Hblk : rdn mem (inp + Z.of_nat (16 * k)) 16 = Ret blk).
  { rewrite rdn_ok by lia. unfold blk. do 3 f_equal. lia. }
  assert (Hlb : length blk = 16%nat).
  { unfold blk. rewrite length_take, length_drop. lia. }
  assert (Hx : length x = 16%nat).
  { unfold x. rewrite xor_bytes_length, digest_length. lia. }
  set (out' := take (16 * k) out ++ x ++ drop (16 * k + 16) out).
  assert (Hw : wrn out (Z.of_nat (16 * k)) x = Ret out').
  { rewrite wrn_ok by lia. unfold out'. rewrite Nat2Z.id, Hx. reflexivity. }
  assert (Hbyte : byte_of (Z.of_nat (16 * k) + 16) = Z.of_nat (16 * (k + 1))).
  { unfold byte_of. rewrite Z.mod_small by lia. lia. }
  assert (Htk : take 16 (take (16 * S m) (drop (Z.to_nat inp + 16 * k) mem)) = blk).
  { rewrite take_take, Nat.min_l by lia. reflexivity. }
  destruct m as [|m'].
  - rewrite (pwddecrypt_loop_last fuel mem inp _ key auth input _ out prev blk out'
               Hp Hblk Hw) by (rewrite Hbyte; f_equal; lia).
    change (rfc_decrypt 1 key prev ?c)
      with (xor_bytes (MD5.digest (key ++ prev)) (take 16 c) ++ []).
    rewrite Htk, app_nil_r. fold x.
    unfold out'. replace (16 * (k + 1))%nat with (16 * k + 16)%nat by lia.
    reflexivity.
  - rewrite (pwddecrypt_loop_more fuel mem inp _ key auth input _ out prev blk out'
               Hp Hblk Hw) by (rewrite Hbyte; lia).
    rewrite Hbyte.
    assert (Ho' : length out' = 128%nat).
    { unfold out'. rewrite !length_app, length_take, length_drop, Hx. lia. }
    rewrite (IH fuel (k + 1)%nat out' (Some (inp + Z.of_nat (16 * k))) blk);
      [|lia|lia|exact Hn|exact Ho'|exact Hi|exact Hb|exact Hblk|lia].
    change (rfc_decrypt (S (S m')) key prev ?c)
      with (xor_bytes (MD5.digest (key ++ prev)) (take 16 c)
            ++ rfc_decrypt (S m') key (take 16 c) (drop 16 c)).
    rewrite Htk. fold x.
    assert (Ht1 : take (16 * (k + 1)) out' = take (16 * k) out ++ x).
    { unfold out'. rewrite app_assoc.
      rewrite take_app_length'
        by (rewrite length_app, length_take, Hx; lia). reflexivity. }
    assert (Hd1 : drop (16 * (k + 1 + S m')) out' = drop (16 * (k + S (S m'))) out).
    { unfold out'. rewrite app_assoc.
      rewrite drop_app_ge by (rewrite length_app, length_take, Hx; lia).
      rewrite length_app, length_take, Hx, drop_drop. f_equal. lia. }
    assert (Hdc : drop 16 (take (16 * S (S m')) (drop (Z.to_nat inp + 16 * k) mem))
                  = take (16 * S m') (drop (Z.to_nat inp + 16 * (k + 1)) mem)).
    { rewrite skipn_firstn_comm, drop_drop. f_equal; [lia|f_equal; lia]. }
    rewrite Ht1, Hd1, Hdc. rewrite <- !app_assoc. reflexivity.
Qed.

(** [pwddecrypt] on [n] blocks, 1 to 8, that lie within the buffer: the
    blocks are replaced by their RFC 2865 decryption. *)
Lemma pwddecrypt_blocks (mem : list Z) (t n : nat) (s a : list Z) :
  (1 <= n <= 8)%nat -> (t + 16 * n <= length mem)%nat -> length a = 16%nat ->
  pwddecrypt mem (Z.of_nat t) (Z.of_nat (16 * n)) s (Z.of_nat (length s)) a
  = Ret (true,
         take t mem
         ++ rfc_decrypt n s a (take (16 * n) (drop t mem))
         ++ drop (t + 16 * n) mem).
Proof.
  intros Hn Hb Ha. unfold pwddecrypt. rewrite rdn_all. ret_red.
  assert (Hauth : rdn a 0 16 = Ret a).
  { change 16 with (Z.of_nat 16). rewrite <- Ha. apply rdn_all. }
  assert (Hloop := pwddecrypt_loop_blocks mem (Z.of_nat t) s a n
                      n 16 0 (repeat 0 128) None a).
  change (Z.of_nat (16 * 0)) with 0 in Hloop.
  rewrite Hloop; [|lia|lia|lia|apply repeat_length|lia|lia|exact Hauth|lia].
  clear Hloop. ret_red.
  rewrite Nat2Z.id, Nat.mul_0_r, Nat.add_0_r, take_0, app_nil_l.
  set (d := rfc_decrypt n s a (take (16 * n) (drop t mem))).
  assert (Hd : length d = (16 * n)%nat).
  { unfold d. apply rfc_decrypt_length. rewrite length_take, length_drop. lia. }
  assert (Hdata : rdn (d ++ drop (16 * (0 + n)) (repeat 0 128)) 0
                      (Z.of_nat (16 * n)) = Ret d).
  { rewrite rdn_take by (rewrite length_app; lia).
    f_equal. apply take_app_length'. lia. }
  rewrite Hdata. ret_red.
  rewrite wrn_ok by lia. rewrite Nat2Z.id, Hd. reflexivity.
Qed.



(** [pwdencrypt] on one block, anywhere in a buffer: the RFC 2865 chain of
    one block. *)
Lemma pwdencrypt_one_block (below pre p post s a : list Z) :
  length p = 16%nat -> length a = 16%nat ->
  pwdencrypt below (pre ++ p ++ post) (Z.of_nat (length pre)) 16 s
             (Z.of_nat (length s)) a
  = Ret (true, pre ++ rfc_encrypt 1 s a p ++ post).
Proof.
  intros Hp Ha.
  set (x := xor_bytes (MD5.digest (s ++ a)) p).
  assert (Hx : length x = 16%nat).
  { unfold x. rewrite xor_bytes_length, digest_length. lia. }
  assert (Henc : rfc_encrypt 1 s a p = x).
  { simpl. rewrite app_nil_r. unfold x. rewrite take_ge by lia. reflexivity. }
  rewrite Henc.
  assert (Hauth : rdn a 0 16 = Ret a).
  { change 16 with (Z.of_nat 16). rewrite <- Ha. apply rdn_all. }
  assert (Hblk : rdn (pre ++ p ++ post) (Z.of_nat (length pre) + 0) 16 = Ret p).
  { rewrite rdn_ok by (rewrite ?length_app; lia).
    rewrite Z.add_0_r, Nat2Z.id, drop_app_length.
    change (Z.to_nat 16) with 16%nat. rewrite <- Hp, take_app_length. reflexivity. }
  assert (Hw : wrn (repeat 0 128) 0 x = Ret (x ++ drop 16 (repeat 0 128))).
  { rewrite wrn_ok by (rewrite ?Hx, ?repeat_length; lia). rewrite Hx. reflexivity. }
  unfold pwdencrypt. rewrite rdn_all. ret_red.
  rewrite (pwdencrypt_loop_last 15 below _ _ 16 s a InAuth 0 (repeat 0 128) a p
             (x ++ drop 16 (repeat 0 128)) Hauth Hblk Hw) by reflexivity.
  ret_red.
  assert (Hdata : rdn (x ++ drop 16 (repeat 0 128)) 0 16 = Ret x).
  { change 16 with (Z.of_nat 16).
    rewrite rdn_take by (rewrite length_app, Hx, length_drop, repeat_length; lia).
    rewrite take_app_length' by lia. reflexivity. }
  rewrite Hdata. ret_red.
  rewrite wrn_ok by (rewrite ?length_app; lia).
  rewrite Nat2Z.id, take_app_length, <- drop_drop, drop_app_length.
  replace (length x) with (length p) by lia. rewrite drop_app_length.
  reflexivity.
Qed.

(** X5.  A User-Password of one block that a client has hidden under its
    secret and its Request Authenticator leaves [pwdrecrypt] hidden under
    the server's secret and the new authenticator, for the same password;
    the bytes around it stay as they were. *)
Theorem pwdrecrypt_one_block
  (below pre p post oldsecret newsecret oldauth newauth : list Z) :
  length p = 16%nat -> length oldauth = 16%nat -> length newauth = 16%nat ->
  (length oldsecret < 256)%nat -> (length newsecret < 256)%nat ->
  pwdrecrypt below (pre ++ rfc_encrypt 1 oldsecret oldauth p ++ post)
             (Z.of_nat (length pre)) 16 oldsecret newsecret oldauth newauth
  = Ret (true, pre ++ rfc_encrypt 1 newsecret newauth p ++ post).
Proof.
  intros Hp Hoa Hna Hos Hns. unfold pwdrecrypt.
  change (byte_of 16) with 16. cbn [Z.ltb Z.compare orb negb Z.modulo Z.eqb].
  change ((16 <? 16) || (128 <? 16) || negb (16 mod 16 =? 0)) with false.
  cbv iota.
  assert (Hs8 : forall s : list Z, (length s < 256)%nat ->
                                   strlen8 s = Z.of_nat (length s)).
  { intros s Hs. unfold strlen8, byte_of. apply Z.mod_small. lia. }
  rewrite (Hs8 _ Hos), (Hs8 _ Hns).
  set (c := rfc_encrypt 1 oldsecret oldauth p).
  assert (Hc : length c = 16%nat) by (apply (rfc_encrypt_length _ 1); lia).
  assert (Hdec : pwddecrypt (pre ++ c ++ post) (Z.of_nat (length pre)) 16
                            oldsecret (Z.of_nat (length oldsecret)) oldauth
                 = Ret (true, pre ++ p ++ post)).
  { change 16 with (Z.of_nat (16 * 1)).
    rewrite pwddecrypt_blocks by (rewrite ?length_app; try lia; assumption).
    rewrite take_app_length, drop_app_length.
    rewrite <- drop_drop, drop_app_length.
    change (16 * 1)%nat with 16%nat. rewrite <- Hc.
    rewrite take_app_length, drop_app_length.
    unfold c. rewrite rfc_decrypt_encrypt by (simpl; lia). reflexivity. }
  rewrite Hdec. ret_red. cbn [negb]. cbv iota.
  rewrite pwdencrypt_one_block by assumption.
  reflexivity.
Qed.

Lemma pwdrecrypt_one_block_witness :
  pwdrecrypt (repeat 0 16)
             ([2; 18] ++ rfc_encrypt 1 ex_secret ex_auth ex_password16 ++ [80; 18])
             (Z.of_nat (length [2; 18])) 16 ex_secret
             (conf_secret ex_server_conf) ex_auth ex_newauth
  = Ret (true,
         [2; 18] ++ rfc_encrypt 1 (conf_secret ex_server_conf) ex_newauth
                                ex_password16 ++ [80; 18]).
Proof.
  apply (pwdrecrypt_one_block (repeat 0 16) [2; 18] ex_password16 [80; 18]
           ex_secret (conf_secret ex_server_conf) ex_auth ex_newauth);
    [reflexivity|reflexivity|reflexivity|simpl; lia|simpl; lia].
Defined.

(** ** MS-MPPE keys: the RFC 2548 chain *)

Lemma xor_bytes_comm (a b : list Z) : xor_bytes a b = xor_bytes b a.
Proof.
  revert b. induction a as [|x a IH]; intros [|y b]; simpl; try reflexivity.
  unfold xor_bytes in *. simpl. rewrite IH, Z.lxor_comm. reflexivity.
Qed.

Lemma rd_ok (b : list Z) (p : nat) (v : Z) :
  b !! p = Some v -> rd b (Z.of_nat p) = Ret v.
Proof.
  intros H. unfold rd. destruct (Z.ltb_spec (Z.of_nat p) 0); [lia|].
  rewrite Nat2Z.id, H. reflexivity.
Qed.

Lemma wr_ok (b : list Z) (p : nat) (v : Z) :
  (p < length b)%nat -> wr b (Z.of_nat p) v = Ret (<[p := v]> b).
Proof.
  intros H. unfold wr. destruct (Z.ltb_spec (Z.of_nat p) 0); [lia|].
  rewrite Nat2Z.id. destruct (Nat.ltb_spec p (length b)); [reflexivity|lia].
Qed.

(** [xor_in_place] on a block that lies within the buffer. *)
Lemma xor_in_place_block (hash : list Z) :
  forall (mem : list Z) (p : nat),
    (p + length hash <= length mem)%nat ->
    xor_in_place mem (Z.of_nat p) hash
    = Ret (take p mem ++ xor_bytes hash (take (length hash) (drop p mem))
           ++ drop (p + length hash) mem).
Proof.
  induction hash as [|h hash IH]; intros mem p Hb; simpl.
  - rewrite Nat.add_0_r. unfold xor_bytes. simpl. rewrite take_drop. reflexivity.
  - simpl in Hb.
    destruct (lookup_lt_is_Some_2 mem p ltac:(lia)) as [v Hv].
    rewrite (rd_ok _ _ _ Hv). ret_red.
    rewrite wr_ok by lia. ret_red.
    replace (Z.of_nat p + 1) with (Z.of_nat (S p)) by lia.
    rewrite IH by (rewrite length_insert; lia).
    f_equal.
    rewrite (drop_S mem v p Hv). cbn [take]. unfold xor_bytes at 2. cbn [zip_with].
    fold (xor_bytes hash (take (length hash) (drop (S p) mem))).
    rewrite drop_insert_lt by lia.
    rewrite drop_insert_lt by lia.
    rewrite (take_S_r (<[p:=Z.lxor v h]> mem) p (Z.lxor v h))
      by (apply list_lookup_insert_eq; lia).
    rewrite take_insert_ge by lia.
    rewrite <- app_assoc. cbn [app]. rewrite Z.lxor_comm.
    replace (S p + length hash)%nat with (p + S (length hash))%nat by lia.
    reflexivity.
Qed.

(** [xor_to_plain]: the block of [mem] at [p], XORed with [hash], lands in
    [plain] at [q]. *)
Lemma xor_to_plain_block (hash : list Z) :
  forall (mem : list Z) (p : nat) (plain : list Z) (q : nat),
    (p + length hash <= length mem)%nat ->
    (q + length hash <= length plain)%nat ->
    xor_to_plain mem (Z.of_nat p) plain (Z.of_nat q) hash
    = Ret (take q plain ++ xor_bytes hash (take (length hash) (drop p mem))
           ++ drop (q + length hash) plain).
Proof.
  induction hash as [|h hash IH]; intros mem p plain q Hb Hq; simpl.
  - rewrite Nat.add_0_r. unfold xor_bytes. simpl. rewrite take_drop. reflexivity.
  - simpl in Hb, Hq.
    destruct (lookup_lt_is_Some_2 mem p ltac:(lia)) as [v Hv].
    rewrite (rd_ok _ _ _ Hv). ret_red.
    rewrite wr_ok by lia. ret_red.
    replace (Z.of_nat p + 1) with (Z.of_nat (S p)) by lia.
    replace (Z.of_nat q + 1) with (Z.of_nat (S q)) by lia.
    rewrite IH by (rewrite ?length_insert; lia).
    f_equal.
    rewrite (drop_S mem v p Hv). cbn [take]. unfold xor_bytes at 2. cbn [zip_with].
    fold (xor_bytes hash (take (length hash) (drop (S p) mem))).
    rewrite drop_insert_lt by lia.
    rewrite (take_S_r (<[q:=Z.lxor v h]> plain) q (Z.lxor v h))
      by (apply list_lookup_insert_eq; lia).
    rewrite take_insert_ge by lia.
    rewrite <- app_assoc. cbn [app]. rewrite Z.lxor_comm.
    replace (S q + length hash)%nat with (q + S (length hash))%nat by lia.
    reflexivity.
Qed.

(** The block loop of [msmppencrypt] from block [k] on, [m] blocks to go:
    the blocks before [k] are hidden already, and each block is hidden with
    the digest of the key and the hidden block before it. *)
Lemma msmppencrypt_loop_blocks (t : nat) (key : list Z) (n : nat) :
  forall (m fuel k : nat) (mem : list Z),
    (1 <= k)%nat -> (k + m = n)%nat -> (n <= 15)%nat ->
    (t + 16 * n <= length mem)%nat -> (m <= fuel)%nat ->
    msmppencrypt_loop fuel mem (Z.of_nat t) (Z.of_nat (16 * n)) key
                      (Z.of_nat (16 * k))
    = Ret (true,
           take (t + 16 * k) mem
           ++ rfc_encrypt m key (take 16 (drop (t + 16 * (k - 1)) mem))
                          (take (16 * m) (drop (t + 16 * k) mem))
           ++ drop (t + 16 * n) mem).
Proof.
  induction m as [|m IH]; intros fuel k mem H1 Hk Hn Hb Hf.
  - assert (Hlt : (Z.of_nat (16 * k) <? Z.of_nat (16 * n)) = false)
      by (apply Z.ltb_ge; lia).
    destruct fuel; cbn [msmppencrypt_loop]; rewrite Hlt; cbn [rfc_encrypt app];
      replace (t + 16 * k)%nat with (t + 16 * n)%nat by lia;
      rewrite take_drop; reflexivity.
  - destruct fuel as [|fuel]; [lia|].
    assert (Hlt : (Z.of_nat (16 * k) <? Z.of_nat (16 * n)) = true)
      by (apply Z.ltb_lt; lia).
    cbn [msmppencrypt_loop]. rewrite Hlt.
    set (prev := take 16 (drop (t + 16 * (k - 1)) mem)).
    assert (Hprev : rdn mem (Z.of_nat t + Z.of_nat (16 * k) - 16) 16 = Ret prev).
    { rewrite rdn_ok by lia. unfold prev. do 3 f_equal. lia. }
    rewrite Hprev. ret_red. rewrite digest_check, take16_digest.
    set (hash := MD5.digest (key ++ prev)).
    assert (Hh : length hash = 16%nat) by apply digest_length.
    replace (Z.of_nat t + Z.of_nat (16 * k)) with (Z.of_nat (t + 16 * k)) by lia.
    rewrite xor_in_place_block by lia. ret_red. rewrite Hh.
    set (blk := take 16 (drop (t + 16 * k) mem)).
    set (x := xor_bytes hash blk).
    assert (Hx : length x = 16%nat).
    { unfold x, blk. rewrite xor_bytes_length, Hh, length_take, length_drop. lia. }
    set (mem' := take (t + 16 * k) mem ++ x ++ drop (t + 16 * k + 16) mem).
    assert (Hl' : length mem' = length mem).
    { unfold mem'. rewrite !length_app, length_take, length_drop, Hx. lia. }
    assert (Hbyte : byte_of (Z.of_nat (16 * k) + 16) = Z.of_nat (16 * (k + 1))).
    { unfold byte_of. rewrite Z.mod_small by lia. lia. }
    rewrite Hbyte.
    rewrite (IH fuel (k + 1)%nat mem') by lia.
    f_equal. f_equal.
    assert (Ht1 : take (t + 16 * (k + 1)) mem' = take (t + 16 * k) mem ++ x).
    { unfold mem'. rewrite app_assoc.
      apply take_app_length'. rewrite length_app, length_take, Hx. lia. }
    assert (Hd0 : drop (t + 16 * (k + 1 - 1)) mem' = x ++ drop (t + 16 * k + 16) mem).
    { unfold mem'. replace (t + 16 * (k + 1 - 1))%nat with (t + 16 * k)%nat by lia.
      apply drop_app_length'. rewrite length_take. lia. }
    assert (Hd1 : forall j : nat,
              drop (t + 16 * (k + 1) + j) mem' = drop (t + 16 * k + 16 + j) mem).
    { intros j. unfold mem'. rewrite app_assoc.
      rewrite drop_app_ge by (rewrite length_app, length_take, Hx; lia).
      rewrite length_app, length_take, Hx, drop_drop. f_equal. lia. }
    rewrite Ht1, Hd0.
    rewrite take_app_length' by lia.
    pose proof (Hd1 0%nat) as Hd10. rewrite !Nat.add_0_r in Hd10. rewrite Hd10.
    replace (t + 16 * n)%nat with (t + 16 * (k + 1) + 16 * m)%nat by lia.
    rewrite Hd1.
    change (rfc_encrypt (S m) key prev ?c)
      with (xor_bytes (MD5.digest (key ++ prev)) (take 16 c)
            ++ rfc_encrypt m key (xor_bytes (MD5.digest (key ++ prev)) (take 16 c))
                           (drop 16 c)).
    rewrite take_take, Nat.min_l by lia. fold blk. fold hash. fold x.
    rewrite skipn_firstn_comm, drop_drop.
    rewrite <- !app_assoc.
    replace (16 * S m - 16)%nat with (16 * m)%nat by lia.
    replace (t + 16 * (k + 1) + 16 * m)%nat
      with (t + 16 * k + 16 + 16 * m)%nat by lia.
    reflexivity.
Qed.

(** [msmppencrypt] on a text of [n] blocks, 1 to 15, that lies within the
    buffer: the chain of RFC 2548, whose first block is hidden with the
    digest of the secret, the authenticator and the salt. *)
Lemma msmppencrypt_blocks (mem : list Z) (t n : nat) (s a : list Z) (salt : Z)
  (sb : list Z) :
  (1 <= n <= 15)%nat -> (t + 16 * n <= length mem)%nat ->
  length a = 16%nat -> rdn mem salt 2 = Ret sb ->
  msmppencrypt mem (Z.of_nat t) (Z.of_nat (16 * n)) s (Z.of_nat (length s)) a salt
  = Ret (true,
         take t mem
         ++ rfc_encrypt n s (a ++ sb) (take (16 * n) (drop t mem))
         ++ drop (t + 16 * n) mem).
Proof.
  intros Hn Hb Ha Hs. unfold msmppencrypt.
  rewrite rdn_all. ret_red.
  assert (Hauth : rdn a 0 16 = Ret a).
  { change 16 with (Z.of_nat 16). rewrite <- Ha. apply rdn_all. }
  rewrite Hauth. ret_red. rewrite Hs. ret_red.
  rewrite take16_digest.
  set (hash := MD5.digest (s ++ a ++ sb)).
  assert (Hh : length hash = 16%nat) by apply digest_length.
  rewrite xor_in_place_block by lia. ret_red. rewrite Hh.
  set (blk := take 16 (drop t mem)).
  set (x := xor_bytes hash blk).
  assert (Hx : length x = 16%nat).
  { unfold x, blk. rewrite xor_bytes_length, Hh, length_take, length_drop. lia. }
  set (mem' := take t mem ++ x ++ drop (t + 16) mem).
  assert (Hl' : length mem' = length mem).
  { unfold mem'. rewrite !length_app, length_take, length_drop, Hx. lia. }
  destruct n as [|m]; [lia|].
  assert (Hloop := msmppencrypt_loop_blocks t s (S m) m 16 1 mem').
  change (Z.of_nat (16 * 1)) with 16 in Hloop.
  rewrite Hloop by lia. clear Hloop.
  f_equal. f_equal.
  assert (Ht1 : take (t + 16 * 1) mem' = take t mem ++ x).
  { unfold mem'. rewrite app_assoc.
    apply take_app_length'. rewrite length_app, length_take, Hx. lia. }
  assert (Hd0 : drop (t + 16 * (1 - 1)) mem' = x ++ drop (t + 16) mem).
  { unfold mem'. replace (t + 16 * (1 - 1))%nat with t by lia.
    apply drop_app_length'. rewrite length_take. lia. }
  assert (Hd1 : forall j : nat, drop (t + 16 + j) mem' = drop (t + 16 + j) mem).
  { intros j. unfold mem'. rewrite app_assoc.
    rewrite drop_app_ge by (rewrite length_app, length_take, Hx; lia).
    rewrite length_app, length_take, Hx, drop_drop. f_equal. lia. }
  rewrite Ht1, Hd0. rewrite take_app_length' by lia.
  replace (t + 16 * 1)%nat with (t + 16 + 0)%nat by lia. rewrite Hd1.
  replace (t + 16 * S m)%nat with (t + 16 + 16 * m)%nat by lia. rewrite Hd1.
  change (rfc_encrypt (S m) s (a ++ sb) ?c)
    with (xor_bytes (MD5.digest (s ++ a ++ sb)) (take 16 c)
          ++ rfc_encrypt m s (xor_bytes (MD5.digest (s ++ a ++ sb)) (take 16 c))
                         (drop 16 c)).
  rewrite take_take, Nat.min_l by lia. fold blk. fold hash. fold x.
  rewrite skipn_firstn_comm, drop_drop.
  rewrite <- !app_assoc.
  replace (16 * S m - 16)%nat with (16 * m)%nat by lia.
  rewrite Nat.add_0_r. reflexivity.
Qed.

(** The block loop of [msmppdecrypt] from block [k] on. *)
Lemma msmppdecrypt_loop_blocks (mem : list Z) (t : nat) (key : list Z) (n : nat) :
  forall (m fuel k : nat) (plain : list Z),
    (1 <= k)%nat -> (k + m = n)%nat -> (n <= 15)%nat ->
    (t + 16 * n <= length mem)%nat -> length plain = 255%nat ->
    (m <= fuel)%nat ->
    msmppdecrypt_loop fuel mem (Z.of_nat t) (Z.of_nat (16 * n)) key
                      (Z.of_nat (16 * k)) plain
    = Ret (Some (take (16 * k) plain
                 ++ rfc_decrypt m key (take 16 (drop (t + 16 * (k - 1)) mem))
                                (take (16 * m) (drop (t + 16 * k) mem))
                 ++ drop (16 * n) plain)).
Proof.
  induction m as [|m IH]; intros fuel k plain H1 Hk Hn Hb Hp Hf.
  - assert (Hlt : (Z.of_nat (16 * k) <? Z.of_nat (16 * n)) = false)
      by (apply Z.ltb_ge; lia).
    destruct fuel; cbn [msmppdecrypt_loop]; rewrite Hlt; cbn [rfc_decrypt app];
      replace (16 * k)%nat with (16 * n)%nat by lia;
      rewrite take_drop; reflexivity.
  - destruct fuel as [|fuel]; [lia|].
    assert (Hlt : (Z.of_nat (16 * k) <? Z.of_nat (16 * n)) = true)
      by (apply Z.ltb_lt; lia).
    cbn [msmppdecrypt_loop]. rewrite Hlt.
    set (prev := take 16 (drop (t + 16 * (k - 1)) mem)).
    assert (Hprev : rdn mem (Z.of_nat t + Z.of_nat (16 * k) - 16) 16 = Ret prev).
    { rewrite rdn_ok by lia. unfold prev. do 3 f_equal. lia. }
    rewrite Hprev. ret_red. rewrite digest_check, take16_digest.
    set (hash := MD5.digest (key ++ prev)).
    assert (Hh : length hash = 16%nat) by apply digest_length.
    replace (Z.of_nat t + Z.of_nat (16 * k)) with (Z.of_nat (t + 16 * k)) by lia.
    rewrite xor_to_plain_block by lia. ret_red. rewrite Hh.
    set (blk := take 16 (drop (t + 16 * k) mem)).
    set (x := xor_bytes hash blk).
    assert (Hx : length x = 16%nat).
    { unfold x, blk. rewrite xor_bytes_length, Hh, length_take, length_drop. lia. }
    set (plain' := take (16 * k) plain ++ x ++ drop (16 * k + 16) plain).
    assert (Hl' : length plain' = 255%nat).
    { unfold plain'. rewrite !length_app, length_take, length_drop, Hx. lia. }
    assert (Hbyte : byte_of (Z.of_nat (16 * k) + 16) = Z.of_nat (16 * (k + 1))).
    { unfold byte_of. rewrite Z.mod_small by lia. lia. }
    rewrite Hbyte.
    rewrite (IH fuel (k + 1)%nat plain') by lia.
    f_equal. f_equal.
    assert (Ht1 : take (16 * (k + 1)) plain' = take (16 * k) plain ++ x).
    { unfold plain'. rewrite app_assoc.
      apply take_app_length'. rewrite length_app, length_take, Hx. lia. }
    assert (Hd1 : drop (16 * n) plain' = drop (16 * n) plain).
    { unfold plain'. rewrite app_assoc.
      rewrite drop_app_ge by (rewrite length_app, length_take, Hx; lia).
      rewrite length_app, length_take, Hx, drop_drop. f_equal. lia. }
    rewrite Ht1, Hd1.
    replace (t + 16 * (k + 1 - 1))%nat with (t + 16 * k)%nat by lia. fold blk.
    change (rfc_decrypt (S m) key prev ?c)
      with (xor_bytes (MD5.digest (key ++ prev)) (take 16 c)
            ++ rfc_decrypt m key (take 16 c) (drop 16 c)).
    rewrite take_take, Nat.min_l by lia. fold blk. fold hash. fold x.
    rewrite skipn_firstn_comm, drop_drop.
    rewrite <- !app_assoc.
    replace (16 * S m - 16)%nat with (16 * m)%nat by lia.
    replace (t + 16 * (k + 1))%nat with (t + 16 * k + 16)%nat by lia.
    reflexivity.
Qed.

(** [msmppdecrypt] on a text of [n] blocks, 1 to 15. *)
Lemma msmppdecrypt_blocks (mem : list Z) (t n : nat) (s a : list Z) (salt : Z)
  (sb : list Z) :
  (1 <= n <= 15)%nat -> (t + 16 * n <= length mem)%nat ->
  length a = 16%nat -> rdn mem salt 2 = Ret sb ->
  msmppdecrypt mem (Z.of_nat t) (Z.of_nat (16 * n)) s (Z.of_nat (length s)) a salt
  = Ret (true,
         take t mem
         ++ rfc_decrypt n s (a ++ sb) (take (16 * n) (drop t mem))
         ++ drop (t + 16 * n) mem).
Proof.
  intros Hn Hb Ha Hs. unfold msmppdecrypt.
  rewrite rdn_all. ret_red.
  assert (Hauth : rdn a 0 16 = Ret a).
  { change 16 with (Z.of_nat 16). rewrite <- Ha. apply rdn_all. }
  rewrite Hauth. ret_red. rewrite Hs. ret_red.
  rewrite take16_digest.
  set (hash := MD5.digest (s ++ a ++ sb)).
  assert (Hh : length hash = 16%nat) by apply digest_length.
  change (xor_to_plain mem (Z.of_nat t) (repeat 0 255) 0 hash)
    with (xor_to_plain mem (Z.of_nat t) (repeat 0 255) (Z.of_nat 0) hash).
  rewrite xor_to_plain_block by (rewrite ?repeat_length; lia). ret_red. rewrite Hh.
  set (blk := take 16 (drop t mem)).
  set (x := xor_bytes hash blk).
  assert (Hx : length x = 16%nat).
  { unfold x, blk. rewrite xor_bytes_length, Hh, length_take, length_drop. lia. }
  rewrite take_0, app_nil_l.
  replace (0 + 16)%nat with 16%nat by reflexivity.
  set (plain0 := x ++ drop 16 (repeat 0 255)).
  assert (Hl0 : length plain0 = 255%nat).
  { unfold plain0. rewrite length_app, length_drop, repeat_length, Hx. lia. }
  destruct n as [|m]; [lia|].
  assert (Hloop := msmppdecrypt_loop_blocks mem t s (S m) m 16 1 plain0).
  change (Z.of_nat (16 * 1)) with 16 in Hloop.
  rewrite Hloop by lia. clear Hloop. ret_red.
  set (d := rfc_decrypt (S m) s (a ++ sb) (take (16 * S m) (drop t mem))).
  assert (Hd : take (16 * 1) plain0
               ++ rfc_decrypt m s (take 16 (drop (t + 16 * (1 - 1)) mem))
                    (take (16 * m) (drop (t + 16 * 1) mem))
               ++ drop (16 * S m) plain0
               = d ++ drop (16 * S m) plain0).
  { unfold d.
    change (rfc_decrypt (S m) s (a ++ sb) ?c)
      with (xor_bytes (MD5.digest (s ++ a ++ sb)) (take 16 c)
            ++ rfc_decrypt m s (take 16 c) (drop 16 c)).
    rewrite take_take, Nat.min_l by lia. fold blk. fold hash. fold x.
    rewrite skipn_firstn_comm, drop_drop.
    replace (16 * S m - 16)%nat with (16 * m)%nat by lia.
    replace (t + 16 * (1 - 1))%nat with t by lia. fold blk.
    replace (t + 16 * 1)%nat with (t + 16)%nat by lia.
    unfold plain0 at 1. rewrite take_app_length' by lia.
    rewrite <- app_assoc. reflexivity. }
  rewrite Hd.
  assert (Hdl : length d = (16 * S m)%nat).
  { unfold d. apply rfc_decrypt_length. rewrite length_take, length_drop. lia. }
  assert (Hdata : rdn (d ++ drop (16 * S m) plain0) 0 (Z.of_nat (16 * S m)) = Ret d).
  { rewrite rdn_take by (rewrite length_app; lia).
    f_equal. apply take_app_length'. lia. }
  rewrite Hdata. ret_red.
  rewrite wrn_ok by lia.
  rewrite Nat2Z.id, Hdl. reflexivity.
Qed.

Lemma rdn_app_l (pre rest : list Z) (p n : Z) (l : list Z) :
  rdn pre p n = Ret l -> rdn (pre ++ rest) p n = Ret l.
Proof.
  intros H. apply rdn_Ret in H as (H0 & H1 & H2 & ->).
  rewrite rdn_ok by (rewrite ?length_app; lia). f_equal.
  rewrite drop_app_le by lia. rewrite take_app_le by (rewrite length_drop; lia).
  reflexivity.
Qed.

(** X6.  [msmppdecrypt] undoes [msmppencrypt]: for a key of 1 to 15 blocks
    anywhere in a buffer, with the salt in front of it, [msmppencrypt]
    returns 1 and changes the blocks of the key only, and [msmppdecrypt]
    with the same secret, authenticator and salt gives the buffer back. *)
Theorem msmpp_roundtrip (pre p post s a : list Z) (salt : Z) (sb : list Z)
  (n : nat) :
  (1 <= n <= 15)%nat -> length p = (16 * n)%nat -> length a = 16%nat ->
  rdn pre salt 2 = Ret sb ->
  exists c,
    length c = (16 * n)%nat
    /\ msmppencrypt (pre ++ p ++ post) (Z.of_nat (length pre)) (Z.of_nat (16 * n))
                    s (Z.of_nat (length s)) a salt
       = Ret (true, pre ++ c ++ post)
    /\ msmppdecrypt (pre ++ c ++ post) (Z.of_nat (length pre)) (Z.of_nat (16 * n))
                    s (Z.of_nat (length s)) a salt
       = Ret (true, pre ++ p ++ post).
Proof.
  intros Hn Hp Ha Hs.
  set (c := rfc_encrypt n s (a ++ sb) p).
  assert (Hc : length c = (16 * n)%nat) by (apply rfc_encrypt_length; lia).
  exists c. split; [exact Hc|]. split.
  - rewrite (msmppencrypt_blocks _ _ _ _ _ _ sb Hn)
      by (rewrite ?length_app; try lia; try assumption; apply rdn_app_l; exact Hs).
    rewrite take_app_length, drop_app_length.
    rewrite <- Hp. rewrite take_app_length.
    rewrite <- drop_drop, drop_app_length, drop_app_length. reflexivity.
  - rewrite (msmppdecrypt_blocks _ _ _ _ _ _ sb Hn)
      by (rewrite ?length_app; try lia; try assumption; apply rdn_app_l; exact Hs).
    rewrite take_app_length, drop_app_length.
    rewrite <- Hc. rewrite take_app_length.
    rewrite <- drop_drop, drop_app_length, drop_app_length.
    unfold c. rewrite rfc_decrypt_encrypt by exact Hp. reflexivity.
Qed.

Lemma msmpp_roundtrip_witness :
  exists c,
    length c = (16 * 2)%nat
    /\ msmppencrypt ([17; 36; 128; 1] ++ ex_password32 ++ [80; 18])
                    (Z.of_nat (length [17; 36; 128; 1])) (Z.of_nat (16 * 2))
                    ex_secret (Z.of_nat (length ex_secret)) ex_auth 2
       = Ret (true, [17; 36; 128; 1] ++ c ++ [80; 18])
    /\ msmppdecrypt ([17; 36; 128; 1] ++ c ++ [80; 18])
                    (Z.of_nat (length [17; 36; 128; 1])) (Z.of_nat (16 * 2))
                    ex_secret (Z.of_nat (length ex_secret)) ex_auth 2
       = Ret (true, [17; 36; 128; 1] ++ ex_password32 ++ [80; 18]).
Proof.
  apply (msmpp_roundtrip [17; 36; 128; 1] ex_password32 [80; 18] ex_secret
           ex_auth 2 [128; 1] 2);
    [lia|reflexivity|reflexivity|reflexivity].
Defined.

(** X7.  An MS-MPPE key of 1 to 15 blocks that the server has hidden under
    its secret and the authenticator of the forwarded request leaves
    [msmpprecrypt] hidden under the client's secret and the original
    authenticator, with the same salt, for the same key; the bytes around
    the attribute value stay as they were. *)
Theorem msmpprecrypt_rekeys
  (pre sb p post oldsecret newsecret oldauth newauth : list Z) (n : nat) :
  (1 <= n <= 15)%nat -> length sb = 2%nat -> length p = (16 * n)%nat ->
  length oldauth = 16%nat -> length newauth = 16%nat ->
  (length oldsecret < 256)%nat -> (length newsecret < 256)%nat ->
  msmpprecrypt (pre ++ sb ++ rfc_encrypt n oldsecret (oldauth ++ sb) p ++ post)
               (Z.of_nat (length pre)) (Z.of_nat (2 + 16 * n))
               oldsecret newsecret oldauth newauth
  = Ret (true,
         pre ++ sb ++ rfc_encrypt n newsecret (newauth ++ sb) p ++ post).
Proof.
  intros Hn Hsb Hp Hoa Hna Hos Hns. unfold msmpprecrypt.
  assert (Hlen : byte_of (Z.of_nat (2 + 16 * n)) = Z.of_nat (2 + 16 * n)).
  { unfold byte_of. apply Z.mod_small. lia. }
  rewrite Hlen.
  destruct (Z.ltb_spec (Z.of_nat (2 + 16 * n)) 18); [lia|].
  assert (Hlen2 : byte_of (Z.of_nat (2 + 16 * n) - 2) = Z.of_nat (16 * n)).
  { unfold byte_of. rewrite Z.mod_small by lia. lia. }
  rewrite Hlen2.
  assert (Hs8 : forall s : list Z, (length s < 256)%nat ->
                                   strlen8 s = Z.of_nat (length s)).
  { intros s Hs. unfold strlen8, byte_of. apply Z.mod_small. lia. }
  rewrite (Hs8 _ Hos), (Hs8 _ Hns).
  assert (Hsalt : forall rest : list Z,
            rdn ((pre ++ sb) ++ rest) (Z.of_nat (length pre)) 2 = Ret sb).
  { intros rest. apply rdn_app_l.
    rewrite rdn_ok by (rewrite ?length_app; lia).
    rewrite Nat2Z.id, drop_app_length. f_equal. apply take_ge. lia. }
  assert (Htext : Z.of_nat (length pre) + 2 = Z.of_nat (length (pre ++ sb))).
  { rewrite length_app. lia. }
  rewrite Htext.
  set (c := rfc_encrypt n oldsecret (oldauth ++ sb) p).
  assert (Hc : length c = (16 * n)%nat) by (apply rfc_encrypt_length; lia).
  replace (pre ++ sb ++ c ++ post) with ((pre ++ sb) ++ c ++ post)
    by (rewrite <- app_assoc; reflexivity).
  rewrite (msmppdecrypt_blocks _ _ _ _ _ _ sb Hn)
    by (rewrite ?length_app; try lia; try assumption; apply Hsalt).
  ret_red. cbn [negb]. cbv iota.
  assert (Hmid : take (length (pre ++ sb)) ((pre ++ sb) ++ c ++ post)
                 ++ rfc_decrypt n oldsecret (oldauth ++ sb)
                      (take (16 * n) (drop (length (pre ++ sb))
                                           ((pre ++ sb) ++ c ++ post)))
                 ++ drop (length (pre ++ sb) + 16 * n) ((pre ++ sb) ++ c ++ post)
                 = (pre ++ sb) ++ p ++ post).
  { rewrite take_app_length, drop_app_length.
    rewrite <- drop_drop, drop_app_length.
    rewrite <- Hc. rewrite take_app_length, drop_app_length.
    unfold c. rewrite rfc_decrypt_encrypt by exact Hp. reflexivity. }
  rewrite Hmid.
  rewrite (msmppencrypt_blocks _ _ _ _ _ _ sb Hn)
    by (rewrite ?length_app; try lia; try assumption; apply Hsalt).
  ret_red. cbn [negb]. cbv iota.
  rewrite take_app_length, drop_app_length.
  rewrite <- drop_drop, drop_app_length.
  rewrite <- Hp. rewrite take_app_length, drop_app_length.
  rewrite <- app_assoc. reflexivity.
Qed.

Lemma msmpprecrypt_rekeys_witness :
  msmpprecrypt ([17; 36] ++ [128; 1]
                ++ rfc_encrypt 2 (conf_secret ex_server_conf)
                               (ex_newauth ++ [128; 1]) ex_password32
                ++ [80; 18])
               (Z.of_nat (length [17; 36])) (Z.of_nat (2 + 16 * 2))
               (conf_secret ex_server_conf) ex_secret ex_newauth ex_auth
  = Ret (true,
         [17; 36] ++ [128; 1]
         ++ rfc_encrypt 2 ex_secret (ex_auth ++ [128; 1]) ex_password32
         ++ [80; 18]).
Proof.
  apply (msmpprecrypt_rekeys [17; 36] [128; 1] ex_password32 [80; 18]
           (conf_secret ex_server_conf) ex_secret ex_newauth ex_auth 2);
    [lia|reflexivity|reflexivity|reflexivity|reflexivity|simpl; lia|simpl; lia].
Defined.

(** ** The reply queue: sendreply and the server writers *)

(** X8.  [sendreply] on a queue whose size is at most MAX_REQUESTS, as
    [newreplyq(MAX_REQUESTS)] makes it, with a packet of at least 20 bytes
    that lies within its buffer: the call returns, the count stays within
    the size, a full queue is left as it is and the reply dropped, and
    otherwise the reply is appended with bytes 4..20 replaced by a Response
    Authenticator that [validauth] accepts for the authenticator those bytes
    held and the client's secret. *)
Theorem sendreply_within_size (q : replyq) (to : client) (buf : list Z)
  (tosa : option Z) (len : Z) (reqauth : list Z) :
  rpq_size q <= MAX_REQUESTS ->
  Z.of_nat (length (rpq_replies q)) <= rpq_size q ->
  RADLEN buf = Ret len -> 20 <= len <= Z.of_nat (length buf) ->
  rdn buf 4 16 = Ret reqauth ->
  exists (q' : replyq) (r : sendreply_result),
    sendreply q to buf tosa = Ret (q', r)
    /\ rpq_size q' = rpq_size q
    /\ Z.of_nat (length (rpq_replies q')) <= rpq_size q'
    /\ ((Z.of_nat (length (rpq_replies q)) = rpq_size q
         /\ r = QueueFull /\ q' = q)
        \/ (Z.of_nat (length (rpq_replies q)) < rpq_size q
            /\ r = Enqueued
            /\ exists buf',
                rpq_replies q' = rpq_replies q ++ [Reply buf' tosa]
                /\ validauth buf' reqauth (conf_secret (cl_conf to)) = Ret true
                /\ (forall j : nat, (j < 4 \/ 20 <= j)%nat -> buf' !! j = buf !! j))).
Proof.
  intros Hsize Hcount Hl Hlen Ha.
  pose proof (radsign_Ret buf (conf_secret (cl_conf to)) len Hl Hlen) as Hsign.
  pose proof (validauth_signed buf (conf_secret (cl_conf to)) reqauth len Hl Hlen Ha)
    as Hvalid.
  assert (Hsame : forall j : nat, (j < 4 \/ 20 <= j)%nat ->
            signed buf (conf_secret (cl_conf to)) len !! j = buf !! j)
    by (intros j Hj; apply signed_lookup; [lia|exact Hj]).
  set (buf' := signed buf (conf_secret (cl_conf to)) len) in *.
  unfold sendreply. rewrite Hsign. ret_red. cbn [negb].
  destruct (Z.eqb_spec (Z.of_nat (length (rpq_replies q))) (rpq_size q)) as [He|Hne].
  - exists q, QueueFull. split; [reflexivity|]. split; [reflexivity|].
    split; [exact Hcount|]. left. auto.
  - destruct (Z.leb_spec MAX_REQUESTS (Z.of_nat (length (rpq_replies q)))); [lia|].
    eexists. exists Enqueued. split; [reflexivity|]. cbn [rpq_size rpq_replies].
    split; [reflexivity|]. split; [rewrite length_app; simpl; lia|].
    right. split; [lia|]. split; [reflexivity|]. exists buf'. auto.
Qed.

Lemma sendreply_within_size_witness :
  exists (q' : replyq) (r : sendreply_result),
    sendreply (newreplyq MAX_REQUESTS) ex_client ex_reply_pkt (Some 7)
    = Ret (q', r)
    /\ rpq_size q' = rpq_size (newreplyq MAX_REQUESTS)
    /\ Z.of_nat (length (rpq_replies q')) <= rpq_size q'
    /\ ((Z.of_nat (length (rpq_replies (newreplyq MAX_REQUESTS)))
         = rpq_size (newreplyq MAX_REQUESTS)
         /\ r = QueueFull /\ q' = newreplyq MAX_REQUESTS)
        \/ (Z.of_nat (length (rpq_replies (newreplyq MAX_REQUESTS)))
            < rpq_size (newreplyq MAX_REQUESTS)
            /\ r = Enqueued
            /\ exists buf',
                rpq_replies q'
                = rpq_replies (newreplyq MAX_REQUESTS) ++ [Reply buf' (Some 7)]
                /\ validauth buf' (take 16 (drop 4 ex_reply_pkt))
                             (conf_secret (cl_conf ex_client)) = Ret true
                /\ (forall j : nat, (j < 4 \/ 20 <= j)%nat ->
                                    buf' !! j = ex_reply_pkt !! j))).
Proof.
  apply (sendreply_within_size (newreplyq MAX_REQUESTS) ex_client ex_reply_pkt
           (Some 7) 51 (take 16 (drop 4 ex_reply_pkt)));
    [reflexivity|vm_compute; discriminate|reflexivity
    |vm_compute; split; discriminate|reflexivity].
Defined.

(** X9.  The one queue of the UDP clients is given the size
    [client_udp_count * MAX_REQUESTS] and an array of MAX_REQUESTS entries.
    With two UDP clients or more, once MAX_REQUESTS replies wait in it the
    next [sendreply] does not find it full and writes the reply past the end
    of the array. *)
Theorem sendreply_shared_queue_overrun (client_udp_count : Z) (q : replyq)
  (to : client) (buf : list Z) (tosa : option Z) (len : Z) :
  2 <= client_udp_count ->
  rpq_size q = rpq_size (addclient_replyq TYPE_UDP client_udp_count) ->
  Z.of_nat (length (rpq_replies q)) = MAX_REQUESTS ->
  RADLEN buf = Ret len -> 20 <= len <= Z.of_nat (length buf) ->
  sendreply q to buf tosa = Fault.
Proof.
  intros Hc Hsize Hcount Hl Hlen.
  pose proof (radsign_Ret buf (conf_secret (cl_conf to)) len Hl Hlen) as Hsign.
  unfold sendreply. rewrite Hsign. ret_red. cbn [negb].
  unfold addclient_replyq, newreplyq in Hsize.
  change (TYPE_UDP =? TYPE_TLS) with false in Hsize. cbn [rpq_size] in Hsize.
  unfold MAX_REQUESTS in *.
  destruct (Z.eqb_spec (Z.of_nat (length (rpq_replies q))) (rpq_size q)); [lia|].
  destruct (Z.leb_spec 256 (Z.of_nat (length (rpq_replies q)))); [reflexivity|lia].
Qed.

Lemma sendreply_shared_queue_overrun_witness :
  sendreply (Replyq (repeat (Reply ex_reply_pkt (Some 7)) 256) 512)
            ex_client ex_reply_pkt (Some 7)
  = Fault.
Proof.
  apply (sendreply_shared_queue_overrun 2
           (Replyq (repeat (Reply ex_reply_pkt (Some 7)) 256) 512)
           ex_client ex_reply_pkt (Some 7) 51);
    [lia|reflexivity|reflexivity|reflexivity|vm_compute; split; discriminate].
Defined.

Lemma sendreply_seq_enqueued (msgs : list (client * list Z * option Z)) :
  forall (q q' : replyq) (rs : list sendreply_result),
    sendreply_seq q msgs = Ret (q', rs) ->
    Forall (fun r => r = Enqueued) rs ->
    exists added : list reply,
      rpq_replies q' = rpq_replies q ++ added
      /\ rpq_size q' = rpq_size q
      /\ Forall2 (fun (m : client * list Z * option Z) (r : reply) =>
                    rp_tosa r = snd m
                    /\ radsign (snd (fst m)) (conf_secret (cl_conf (fst (fst m))))
                       = Ret (true, rp_buf r))
                 msgs added.
Proof.
  induction msgs as [|[[to buf] tosa] msgs IH]; intros q q' rs; simpl.
  - intros [= <- <-] _. exists []. rewrite app_nil_r. auto.
  - intros H Hall. res_inv H. destruct v as [q1 r].
    res_inv H. destruct v as [q2 rs']. inv_ret H.
    apply Forall_cons in Hall as [-> Hall].
    destruct (IH _ _ _ E0 Hall) as (added & Hq & Hs & Hf).
    unfold sendreply in E. res_inv E. destruct v as [ok buf'].
    destruct ok; cbn [negb] in E; [|discriminate].
    destruct (Z.of_nat (length (rpq_replies q)) =? rpq_size q); [discriminate|].
    destruct (MAX_REQUESTS <=? Z.of_nat (length (rpq_replies q))); [discriminate|].
    inv_ret E. cbn [rpq_replies rpq_size] in *.
    exists (Reply buf' tosa :: added). rewrite Hq, <- app_assoc.
    split; [reflexivity|]. split; [assumption|].
    constructor; [|assumption]. simpl. auto.
Qed.

Lemma serverwr_turns_all (added : list reply) :
  forall size, serverwr_turns (length added) (Replyq added size)
               = (added, Replyq [] size).
Proof.
  induction added as [|r added IH]; intros size; simpl; [reflexivity|].
  rewrite IH. reflexivity.
Qed.

(** X10.  The reply queue is first in, first out: the replies that a run of
    [sendreply] calls has put into an empty queue leave it, in as many turns
    of the writer, in the order of the calls, each message signed under the
    secret of its client and with the address given for it, and the queue is
    empty again. *)
Theorem replyq_first_in_first_out (size : Z)
  (msgs : list (client * list Z * option Z)) (q : replyq)
  (rs : list sendreply_result) :
  sendreply_seq (newreplyq size) msgs = Ret (q, rs) ->
  Forall (fun r => r = Enqueued) rs ->
  exists sent : list reply,
    serverwr_turns (length msgs) q = (sent, newreplyq size)
    /\ Forall2 (fun (m : client * list Z * option Z) (r : reply) =>
                  rp_tosa r = snd m
                  /\ radsign (snd (fst m)) (conf_secret (cl_conf (fst (fst m))))
                     = Ret (true, rp_buf r))
               msgs sent.
Proof.
  intros H Hall.
  destruct (sendreply_seq_enqueued _ _ _ _ H Hall) as (added & Hq & Hs & Hf).
  exists added. split; [|assumption].
  destruct q as [replies sz]. cbn [rpq_replies rpq_size newreplyq] in *.
  subst. rewrite (Forall2_length _ _ _ Hf). apply serverwr_turns_all.
Qed.

Lemma replyq_first_in_first_out_witness :
  exists (q : replyq) (rs : list sendreply_result) (sent : list reply),
    sendreply_seq (newreplyq 256)
                  [(ex_client, ex_reply_pkt, Some 7);
                   (ex_client, ex_reply_short_vsa, Some 8)]
    = Ret (q, rs)
    /\ serverwr_turns 2 q = (sent, newreplyq 256)
    /\ map rp_tosa sent = [Some 7; Some 8].
Proof.
  assert (H : exists q rs,
             sendreply_seq (newreplyq 256)
                           [(ex_client, ex_reply_pkt, Some 7);
                            (ex_client, ex_reply_short_vsa, Some 8)]
             = Ret (q, rs)
             /\ Forall (fun r => r = Enqueued) rs).
  { eexists. eexists. split; [vm_compute; reflexivity|].
    repeat constructor. }
  destruct H as (q & rs & H & Hall).
  destruct (replyq_first_in_first_out 256 _ q rs H Hall) as (sent & Hs & Hf).
  exists q, rs, sent. split; [exact H|]. split; [exact Hs|].
  inversion Hf as [|m1 r1 ms1 rs1 [Ht1 _] Hf1]; subst.
  inversion Hf1 as [|m2 r2 ms2 rs2 [Ht2 _] Hf2]; subst.
  inversion Hf2; subst. simpl. rewrite Ht1, Ht2. reflexivity.
Defined.

(** ** radsrv: the answers it gives itself *)

(** The first 20 bytes of a packet: four header bytes and the
    authenticator. *)
Lemma header_split (buf : list Z) :
  (20 <= length buf)%nat ->
  exists h0 h1 h2 h3 auth,
    take 20 buf = h0 :: h1 :: h2 :: h3 :: auth
    /\ length auth = 16%nat
    /\ buf !! 1%nat = Some h1
    /\ take 16 (drop 4 buf) = auth.
Proof.
  intros H.
  do 4 (destruct buf as [|? buf]; [simpl in H; lia|]).
  simpl in H.
  exists z, z0, z1, z2, (take 16 buf). simpl.
  split; [reflexivity|]. split; [rewrite length_take; lia|]. auto.
Qed.

(** X11.  [respondstatusserver] answers a Status-Server message of at least
    20 bytes with a packet of 20 bytes: code Access-Accept, the identifier
    and the authenticator of the message, length 20, sent to where the
    message came from; signed by [sendreply] under the secret of the client
    it passes [validauth] for the authenticator of the message. *)
Theorem respondstatusserver_reply (rq : request) (buf : list Z) (from : client)
  (id : Z) :
  rq_from rq = Some from -> (20 <= length buf)%nat -> rd buf 1 = Ret id ->
  exists resp resp',
    respondstatusserver rq buf
    = Ret (Responded from resp (reply_addr from (rq_fromsa rq)))
    /\ length resp = 20%nat
    /\ rd resp 0 = Ret RAD_Access_Accept
    /\ rd resp 1 = Ret id
    /\ RADLEN resp = Ret 20
    /\ rdn resp 4 16 = rdn buf 4 16
    /\ radsign resp (conf_secret (cl_conf from)) = Ret (true, resp')
    /\ validauth resp' (take 16 (drop 4 buf)) (conf_secret (cl_conf from))
       = Ret true.
Proof.
  intros Hf Hb Hid.
  destruct (header_split buf Hb) as (h0 & h1 & h2 & h3 & auth & Ht & Ha & H1 & Hauth).
  apply rd_Ret in Hid as [_ Hid]. change (Z.to_nat 1) with 1%nat in Hid.
  assert (h1 = id) by congruence. subst h1.
  set (resp := RAD_Access_Accept :: id :: 0 :: 20 :: auth).
  assert (Hresp : respondstatusserver rq buf
                  = Ret (Responded from resp (reply_addr from (rq_fromsa rq)))).
  { unfold respondstatusserver.
    assert (Hhdr : rdn buf 0 20 = Ret (take 20 buf)) by (apply (rdn_take buf 20); lia).
    rewrite Hhdr, Ht. ret_red.
    assert (Hw : forall (l : list Z) (p : nat) (v : Z),
              (p < length l)%nat -> wr l (Z.of_nat p) v = Ret (<[p := v]> l))
      by (intros; apply wr_ok; assumption).
    rewrite (Hw _ 0%nat) by (simpl; lia). ret_red.
    rewrite (Hw _ 2%nat) by (simpl; lia). ret_red.
    rewrite (Hw _ 3%nat) by (simpl; lia). ret_red.
    rewrite Hf. reflexivity. }
  assert (Hlen : length resp = 20%nat) by (unfold resp; simpl; lia).
  assert (Hr416 : rdn resp 4 16 = Ret auth).
  { rewrite rdn_ok by (rewrite ?Hlen; lia).
    change (Z.to_nat 16) with 16%nat. change (Z.to_nat 4) with 4%nat.
    unfold resp. cbn [skipn]. rewrite drop_0, take_ge by lia. reflexivity. }
  assert (Hl : RADLEN resp = Ret 20) by reflexivity.
  assert (Hin : 20 <= 20 <= Z.of_nat (length resp)) by (rewrite Hlen; lia).
  pose proof (radsign_Ret resp (conf_secret (cl_conf from)) 20 Hl Hin) as Hsign.
  pose proof (validauth_signed resp (conf_secret (cl_conf from)) auth 20 Hl Hin Hr416)
    as Hvalid.
  set (resp' := signed resp (conf_secret (cl_conf from)) 20) in *.
  exists resp, resp'. rewrite Hauth.
  split; [exact Hresp|]. split; [exact Hlen|]. split; [reflexivity|].
  split; [reflexivity|]. split; [exact Hl|]. split.
  - rewrite Hr416, rdn_ok by lia. rewrite <- Hauth. reflexivity.
  - auto.
Qed.

Lemma respondstatusserver_reply_witness :
  exists resp resp',
    respondstatusserver ex_request ex_request_pkt
    = Ret (Responded ex_client resp (reply_addr ex_client (rq_fromsa ex_request)))
    /\ length resp = 20%nat
    /\ rd resp 0 = Ret RAD_Access_Accept
    /\ rd resp 1 = Ret 42
    /\ RADLEN resp = Ret 20
    /\ rdn resp 4 16 = rdn ex_request_pkt 4 16
    /\ radsign resp (conf_secret (cl_conf ex_client)) = Ret (true, resp')
    /\ validauth resp' (take 16 (drop 4 ex_request_pkt))
                 (conf_secret (cl_conf ex_client))
       = Ret true.
Proof.
  apply (respondstatusserver_reply ex_request ex_request_pkt ex_client 42);
    [reflexivity|simpl; lia|reflexivity].
Defined.

(** Lengths of lists built from [::], [++], [repeat], [take] and [drop]. *)
Ltac list_len :=
  repeat first [rewrite length_cons | rewrite length_app | rewrite repeat_length
               | rewrite length_take | rewrite length_drop];
  cbn [length]; try lia.

(** What [respondreject] builds for a message of at most 253 bytes. *)
Lemma respondreject_packet (rq : request) (buf : list Z) (from : client)
  (m : list Z) (h0 id h2 h3 : Z) (auth : list Z) :
  rq_from rq = Some from -> (20 <= length buf)%nat ->
  take 20 buf = h0 :: id :: h2 :: h3 :: auth -> length auth = 16%nat ->
  (length (cstring m) <= 253)%nat ->
  respondreject rq buf (Some m)
  = Ret (Responded from
           (RAD_Access_Reject :: id
            :: (22 + Z.of_nat (length (cstring m))) / 256
            :: (22 + Z.of_nat (length (cstring m))) mod 256
            :: auth ++ RAD_Attr_Reply_Message :: 2 + Z.of_nat (length (cstring m))
            :: cstring m)
           (reply_addr from (rq_fromsa rq))).
Proof.
  intros Hf Hb Ht Ha Hm. unfold respondreject.
  set (n := length (cstring m)) in *.
  assert (Hhdr : rdn buf 0 20 = Ret (take 20 buf)) by (apply (rdn_take buf 20); lia).
  rewrite Hhdr, Ht. ret_red.
  replace (Z.to_nat (20 + 2 + Z.of_nat n - 20)) with (S (S n)) by lia.
  cbn [repeat app].
  assert (Hw : forall (l : list Z) (p : nat) (v : Z),
            (p < length l)%nat -> wr l (Z.of_nat p) v = Ret (<[p := v]> l))
    by (intros; apply wr_ok; assumption).
  rewrite (Hw _ 0%nat) by list_len. ret_red.
  cbn [insert list_insert].
  replace (20 + 2 + Z.of_nat n) with (22 + Z.of_nat n) by lia.
  assert (Hhi : (22 + Z.of_nat n) / 256 mod 256 = (22 + Z.of_nat n) / 256).
  { apply Z.mod_small. split; [apply Z.div_pos; lia|].
    apply Z.div_lt_upper_bound; lia. }
  rewrite Hhi.
  rewrite wrn_ok by list_len. ret_red.
  change (Z.to_nat 2) with 2%nat. cbn [take drop firstn skipn length Nat.add app].
  rewrite drop_0.
  rewrite (Hw _ 20%nat) by list_len. ret_red.
  cbn [insert list_insert].
  rewrite (insert_app_r_alt auth _ 16) by lia. rewrite Ha.
  replace (16 - 16)%nat with 0%nat by lia. cbn [insert list_insert].
  rewrite (Hw _ 21%nat) by list_len. ret_red.
  cbn [insert list_insert].
  rewrite (insert_app_r_alt auth _ 17) by lia. rewrite Ha.
  replace (17 - 16)%nat with 1%nat by lia. cbn [insert list_insert].
  assert (Hlen8 : byte_of (22 + Z.of_nat n - 20) = 2 + Z.of_nat n).
  { unfold byte_of. rewrite Z.mod_small by lia. lia. }
  rewrite Hlen8.
  rewrite wrn_ok by (fold n; list_len).
  ret_red. rewrite Hf. do 3 f_equal.
  change (Z.to_nat 22) with 22%nat.
  cbn [take firstn]. do 4 f_equal.
  rewrite take_app_ge by lia. rewrite Ha.
  replace (18 - 16)%nat with 2%nat by lia. cbn [take firstn].
  rewrite take_0.
  rewrite (drop_ge (_ :: _)) by (fold n; list_len).
  rewrite app_nil_r. cbn [app]. rewrite <- app_assoc. reflexivity.
Qed.

(** X12.  [respondreject] with a ReplyMessage of at most 253 bytes, which
    is what [addrealm] lets through, answers a request of at least 20 bytes
    with an Access-Reject that has the identifier and the authenticator of
    the request, a length field equal to its size, and as its one attribute
    a Reply-Message with the text; [attrvalidate] accepts the attribute and
    [attrget] finds it; signed by [sendreply] under the secret of the
    client the packet passes [validauth] for the authenticator of the
    request. *)
Theorem respondreject_reply (rq : request) (buf : list Z) (from : client)
  (m : list Z) (id : Z) :
  rq_from rq = Some from -> (20 <= length buf)%nat -> rd buf 1 = Ret id ->
  (length (cstring m) <= 253)%nat ->
  exists resp resp',
    respondreject rq buf (Some m)
    = Ret (Responded from resp (reply_addr from (rq_fromsa rq)))
    /\ Z.of_nat (length resp) = 22 + Z.of_nat (length (cstring m))
    /\ RADLEN resp = Ret (22 + Z.of_nat (length (cstring m)))
    /\ rd resp 0 = Ret RAD_Access_Reject
    /\ rd resp 1 = Ret id
    /\ rdn resp 4 16 = rdn buf 4 16
    /\ attrvalidate resp 20 (2 + Z.of_nat (length (cstring m))) = Ret true
    /\ attrget resp 20 (2 + Z.of_nat (length (cstring m))) RAD_Attr_Reply_Message
       = Ret (Some 20)
    /\ ATTRVALLEN resp 20 = Ret (Z.of_nat (length (cstring m)))
    /\ rdn resp (ATTRVAL 20) (Z.of_nat (length (cstring m))) = Ret (cstring m)
    /\ radsign resp (conf_secret (cl_conf from)) = Ret (true, resp')
    /\ validauth resp' (take 16 (drop 4 buf)) (conf_secret (cl_conf from))
       = Ret true.
Proof.
  intros Hf Hb Hid Hm.
  destruct (header_split buf Hb) as (h0 & h1 & h2 & h3 & auth & Ht & Ha & H1 & Hauth).
  apply rd_Ret in Hid as [_ Hid]. change (Z.to_nat 1) with 1%nat in Hid.
  assert (h1 = id) by congruence. subst h1.
  set (n := length (cstring m)) in *.
  set (resp := RAD_Access_Reject :: id :: (22 + Z.of_nat n) / 256
               :: (22 + Z.of_nat n) mod 256
               :: auth ++ RAD_Attr_Reply_Message :: 2 + Z.of_nat n :: cstring m).
  assert (Hresp : respondreject rq buf (Some m)
                  = Ret (Responded from resp (reply_addr from (rq_fromsa rq))))
    by (apply (respondreject_packet rq buf from m h0 id h2 h3 auth); assumption).
  assert (Hlen : Z.of_nat (length resp) = 22 + Z.of_nat n).
  { unfold resp. list_len. }
  assert (Hl : RADLEN resp = Ret (22 + Z.of_nat n)).
  { unfold RADLEN, resp, rd. simpl. f_equal.
    pose proof (Z.div_mod (22 + Z.of_nat n) 256). lia. }
  assert (Hr416 : rdn resp 4 16 = Ret auth).
  { rewrite rdn_ok by lia.
    change (Z.to_nat 16) with 16%nat. change (Z.to_nat 4) with 4%nat.
    unfold resp. cbn [skipn]. rewrite drop_0.
    rewrite take_app_length' by lia. reflexivity. }
  assert (Hat : forall j : nat, resp !! (20 + j)%nat
                                = (RAD_Attr_Reply_Message :: 2 + Z.of_nat n
                                   :: cstring m) !! j).
  { intros j.
    change resp with ([RAD_Access_Reject; id; (22 + Z.of_nat n) / 256;
                       (22 + Z.of_nat n) mod 256]
                      ++ auth ++ RAD_Attr_Reply_Message :: 2 + Z.of_nat n
                      :: cstring m).
    rewrite lookup_app_r by (simpl; lia).
    rewrite lookup_app_r by (simpl; lia). f_equal. simpl. lia. }
  assert (Hty : ATTRTYPE resp 20 = Ret RAD_Attr_Reply_Message).
  { unfold ATTRTYPE, rd. simpl Z.ltb. cbv iota.
    change (Z.to_nat 20) with (20 + 0)%nat. rewrite Hat. reflexivity. }
  assert (Hal : ATTRLEN resp 20 = Ret (2 + Z.of_nat n)).
  { unfold ATTRLEN, rd. simpl Z.ltb. cbv iota.
    change (Z.to_nat (20 + 1)) with (20 + 1)%nat. rewrite Hat. reflexivity. }
  assert (Hin : 20 <= 22 + Z.of_nat n <= Z.of_nat (length resp)) by lia.
  pose proof (radsign_Ret resp (conf_secret (cl_conf from)) _ Hl Hin) as Hsign.
  pose proof (validauth_signed resp (conf_secret (cl_conf from)) auth _ Hl Hin Hr416)
    as Hvalid.
  set (resp' := signed resp (conf_secret (cl_conf from)) (22 + Z.of_nat n)) in *.
  exists resp, resp'. rewrite Hauth.
  split; [exact Hresp|]. split; [exact Hlen|]. split; [exact Hl|].
  split; [reflexivity|]. split; [reflexivity|]. split.
  { rewrite Hr416, rdn_ok by lia. rewrite <- Hauth. reflexivity. }
  split.
  { unfold attrvalidate.
    apply (attrvalidate_loop_accepts resp [2 + Z.of_nat n]); [|simpl; lia|lia].
    simpl. split; [exact Hal|]. split; [lia|exact I]. }
  split.
  { unfold attrget.
    replace (Z.to_nat (2 + Z.of_nat n)) with (S (S n)) by lia.
    cbn [attrget_loop].
    destruct (Z.ltb_spec 1 (2 + Z.of_nat n)); [|lia].
    rewrite Hty. ret_red. rewrite Z.eqb_refl. reflexivity. }
  split.
  { unfold ATTRVALLEN. unfold ATTRLEN in Hal. rewrite Hal. ret_red. f_equal. lia. }
  split; [|auto].
  unfold ATTRVAL. rewrite rdn_ok by lia. f_equal.
  change (Z.to_nat (20 + 2)) with (4 + 18)%nat.
  unfold resp. cbn [skipn drop Nat.add].
  rewrite drop_app_ge by lia. rewrite Ha.
  replace (18 - 16)%nat with 2%nat by lia. cbn [skipn drop].
  fold n. rewrite Nat2Z.id. apply take_ge. fold n. lia.
Qed.

Lemma respondreject_reply_witness :
  exists resp resp',
    respondreject ex_request ex_request_pkt (Some (ascii_bytes "denied"))
    = Ret (Responded ex_client resp (reply_addr ex_client (rq_fromsa ex_request)))
    /\ Z.of_nat (length resp) = 22 + Z.of_nat (length (cstring (ascii_bytes "denied")))
    /\ RADLEN resp = Ret (22 + Z.of_nat (length (cstring (ascii_bytes "denied"))))
    /\ rd resp 0 = Ret RAD_Access_Reject
    /\ rd resp 1 = Ret 42
    /\ rdn resp 4 16 = rdn ex_request_pkt 4 16
    /\ attrvalidate resp 20 (2 + Z.of_nat (length (cstring (ascii_bytes "denied"))))
       = Ret true
    /\ attrget resp 20 (2 + Z.of_nat (length (cstring (ascii_bytes "denied"))))
               RAD_Attr_Reply_Message
       = Ret (Some 20)
    /\ ATTRVALLEN resp 20 = Ret (Z.of_nat (length (cstring (ascii_bytes "denied"))))
    /\ rdn resp (ATTRVAL 20) (Z.of_nat (length (cstring (ascii_bytes "denied"))))
       = Ret (cstring (ascii_bytes "denied"))
    /\ radsign resp (conf_secret (cl_conf ex_client)) = Ret (true, resp')
    /\ validauth resp' (take 16 (drop 4 ex_request_pkt))
                 (conf_secret (cl_conf ex_client))
       = Ret true.
Proof.
  apply (respondreject_reply ex_request ex_request_pkt ex_client
           (ascii_bytes "denied") 42);
    [reflexivity|simpl; lia|reflexivity|simpl; lia].
Defined.

(** ** Password re-encryption: what it leaves alone *)

Lemma same_outside_refl (lo hi : Z) (b : list Z) : same_outside lo hi b b.
Proof. split; auto. Qed.

Lemma same_outside_trans (lo hi : Z) (a b c : list Z) :
  same_outside lo hi a b -> same_outside lo hi b c -> same_outside lo hi a c.
Proof.
  intros [L1 H1] [L2 H2]. split; [congruence|].
  intros j Hj. rewrite H2, H1 by assumption. reflexivity.
Qed.

Lemma same_outside_below (lo hi : Z) (b b' : list Z) :
  same_outside lo hi b b' -> same_below lo b b'.
Proof. intros [L H]. split; [exact L|]. intros j Hj. apply H. lia. Qed.

Lemma wrn_same_outside (b : list Z) (p : Z) (src b' : list Z) :
  wrn b p src = Ret b' -> same_outside p (p + Z.of_nat (length src)) b b'.
Proof.
  intros H. split; [eapply wrn_length; eauto|].
  intros j [Hj|Hj].
  - eapply wrn_lookup_lt; eauto.
  - eapply wrn_lookup_ge; eauto.
Qed.

Lemma wf_bytes_xor_bytes (a b : list Z) :
  wf_bytes a -> wf_bytes b -> wf_bytes (xor_bytes a b).
Proof.
  revert b. induction a as [|x a IH]; intros [|y b] Ha Hb;
    try (cbn; constructor; fail).
  apply Forall_cons in Ha as [Hx Ha]. apply Forall_cons in Hb as [Hy Hb].
  apply Forall_cons. split; [apply lxor_byte; assumption|].
  apply IH; assumption.
Qed.

Lemma pwddecrypt_loop_wf (mem : list Z) (inp len : Z) (key auth : list Z) :
  wf_bytes mem ->
  forall (fuel : nat) (input : option Z) (offset : Z) (out out' : list Z),
    wf_bytes out ->
    pwddecrypt_loop fuel mem inp len key auth input offset out = Ret (Some out') ->
    wf_bytes out'.
Proof.
  intros Hm. induction fuel as [|f IH]; intros input offset out out' Ho;
    simpl; [discriminate|].
  intros H. res_inv H. rewrite digest_check in H. do 2 res_inv H.
  assert (Hw : wf_bytes v1).
  { eapply wf_bytes_wrn; [exact Ho| |exact E1].
    apply wf_bytes_xor_bytes; [apply wf_bytes_digest|].
    exact (wf_bytes_rdn _ _ _ _ Hm E0). }
  destruct (byte_of (offset + 16) =? len).
  - inv_ret H. exact Hw.
  - eapply IH; eauto.
Qed.

Lemma pwdencrypt_loop_wf (below mem : list Z) (inp len : Z) (key auth : list Z) :
  wf_bytes mem ->
  forall (fuel : nat) (input : chain_input) (offset : Z) (out out' : list Z),
    wf_bytes out ->
    pwdencrypt_loop fuel below mem inp len key auth input offset out
    = Ret (Some out') ->
    wf_bytes out'.
Proof.
  intros Hm. induction fuel as [|f IH]; intros input offset out out' Ho;
    simpl; [discriminate|].
  intros H. res_inv H. rewrite digest_check in H. do 2 res_inv H.
  assert (Hw : wf_bytes v1).
  { eapply wf_bytes_wrn; [exact Ho| |exact E1].
    apply wf_bytes_xor_bytes; [apply wf_bytes_digest|].
    exact (wf_bytes_rdn _ _ _ _ Hm E0). }
  destruct (byte_of (offset + 16) =? len).
  - inv_ret H. exact Hw.
  - eapply IH; eauto.
Qed.

(** What [pwddecrypt] and [pwdencrypt] touch: the [len] bytes at [in]. *)
Lemma pwddecrypt_frame (mem : list Z) (inp len : Z) (shared : list Z)
  (sharedlen : Z) (auth : list Z) (ok : bool) (mem' : list Z) :
  wf_bytes mem ->
  pwddecrypt mem inp len shared sharedlen auth = Ret (ok, mem') ->
  wf_bytes mem' /\ same_outside inp (inp + len) mem mem'.
Proof.
  intros Hm. unfold pwddecrypt. intros H. do 2 res_inv H.
  destruct v0 as [out|].
  - do 2 res_inv H. inv_ret H.
    assert (Ho : wf_bytes out).
    { eapply pwddecrypt_loop_wf; [exact Hm|apply wf_bytes_repeat0|exact E0]. }
    split.
    + eapply wf_bytes_wrn; [exact Hm| |exact E2]. eapply wf_bytes_rdn; eauto.
    + pose proof (rdn_length _ _ _ _ E1) as Hl.
      apply rdn_Ret in E1 as (_ & Hlen & _).
      pose proof (wrn_same_outside _ _ _ _ E2) as Hs.
      rewrite Hl in Hs. replace (Z.of_nat (Z.to_nat len)) with len in Hs by lia.
      exact Hs.
  - inv_ret H. split; [assumption|apply same_outside_refl].
Qed.

Lemma pwdencrypt_frame (below mem : list Z) (inp len : Z) (shared : list Z)
  (sharedlen : Z) (auth : list Z) (ok : bool) (mem' : list Z) :
  wf_bytes mem ->
  pwdencrypt below mem inp len shared sharedlen auth = Ret (ok, mem') ->
  wf_bytes mem' /\ same_outside inp (inp + len) mem mem'.
Proof.
  intros Hm. unfold pwdencrypt. intros H. do 2 res_inv H.
  destruct v0 as [out|].
  - do 2 res_inv H. inv_ret H.
    assert (Ho : wf_bytes out).
    { eapply pwdencrypt_loop_wf; [exact Hm|apply wf_bytes_repeat0|exact E0]. }
    split.
    + eapply wf_bytes_wrn; [exact Hm| |exact E2]. eapply wf_bytes_rdn; eauto.
    + pose proof (rdn_length _ _ _ _ E1) as Hl.
      apply rdn_Ret in E1 as (_ & Hlen & _).
      pose proof (wrn_same_outside _ _ _ _ E2) as Hs.
      rewrite Hl in Hs. replace (Z.of_nat (Z.to_nat len)) with len in Hs by lia.
      exact Hs.
  - inv_ret H. split; [assumption|apply same_outside_refl].
Qed.

Lemma pwdrecrypt_wf_frame (below mem : list Z) (pwd len : Z)
  (oldsecret newsecret oldauth newauth : list Z) (ok : bool) (mem' : list Z) :
  wf_bytes mem ->
  pwdrecrypt below mem pwd len oldsecret newsecret oldauth newauth = Ret (ok, mem') ->
  wf_bytes mem' /\ same_outside pwd (pwd + byte_of len) mem mem'.
Proof.
  intros Hm. unfold pwdrecrypt.
  destruct ((byte_of len <? 16) || (128 <? byte_of len)
            || negb (byte_of len mod 16 =? 0)).
  - intros [= <- <-]. split; [assumption|apply same_outside_refl].
  - intros H. res_inv H. destruct v as [ok1 mem1].
    destruct (pwddecrypt_frame _ _ _ _ _ _ _ _ Hm E) as [Hw1 Hs1].
    destruct ok1; cbn [negb] in H.
    + res_inv H. destruct v as [ok2 mem2].
      destruct (pwdencrypt_frame _ _ _ _ _ _ _ _ _ Hw1 E0) as [Hw2 Hs2].
      assert (mem' = mem2) by (destruct ok2; cbn [negb] in H; congruence).
      subst mem'. split; [assumption|].
      eapply same_outside_trans; eauto.
    + inv_ret H. split; assumption.
Qed.

(** X13.  Whatever it returns, [pwdrecrypt] changes no byte of the buffer
    outside the [len] bytes of the password, and leaves a buffer of bytes a
    buffer of bytes; when it rejects the length it changes nothing. *)
Theorem pwdrecrypt_frame (below mem : list Z) (pwd len : Z)
  (oldsecret newsecret oldauth newauth : list Z) (ok : bool) (mem' : list Z) :
  wf_bytes mem ->
  pwdrecrypt below mem pwd len oldsecret newsecret oldauth newauth = Ret (ok, mem') ->
  wf_bytes mem'
  /\ same_outside pwd (pwd + byte_of len) mem mem'
  /\ (byte_of len < 16 \/ 128 < byte_of len \/ byte_of len mod 16 <> 0 ->
      ok = false /\ mem' = mem).
Proof.
  intros Hm H.
  destruct (pwdrecrypt_wf_frame _ _ _ _ _ _ _ _ _ _ Hm H) as [Hw Hs].
  split; [exact Hw|]. split; [exact Hs|].
  intros Hbad. unfold pwdrecrypt in H.
  assert (Hg : (byte_of len <? 16) || (128 <? byte_of len)
               || negb (byte_of len mod 16 =? 0) = true).
  { destruct Hbad as [Hb|[Hb|Hb]].
    - apply Z.ltb_lt in Hb. rewrite Hb. reflexivity.
    - apply Z.ltb_lt in Hb. rewrite Hb. apply orb_true_r || (rewrite orb_true_r; reflexivity).
    - apply Z.eqb_neq in Hb. rewrite Hb. rewrite !orb_true_r. reflexivity. }
  rewrite Hg in H. inv_ret H. auto.
Qed.

Lemma pwdrecrypt_frame_witness :
  exists (ok : bool) (mem' : list Z),
    pwdrecrypt (repeat 0 16) ([2; 34] ++ ex_password32 ++ [80; 18]) 2 32
               ex_secret (conf_secret ex_server_conf) ex_auth ex_newauth
    = Ret (ok, mem')
    /\ wf_bytes mem'
    /\ same_outside 2 (2 + byte_of 32) ([2; 34] ++ ex_password32 ++ [80; 18]) mem'.
Proof.
  assert (H : exists ok mem',
             pwdrecrypt (repeat 0 16) ([2; 34] ++ ex_password32 ++ [80; 18]) 2 32
                        ex_secret (conf_secret ex_server_conf) ex_auth ex_newauth
             = Ret (ok, mem'))
    by (eexists; eexists; vm_compute; reflexivity).
  destruct H as (ok & mem' & H).
  assert (Hwf : wf_bytes ([2; 34] ++ ex_password32 ++ [80; 18]))
    by (apply wf_bytes_check; vm_compute; reflexivity).
  exists ok, mem'. split; [exact H|].
  destruct (pwdrecrypt_frame _ _ _ _ _ _ _ _ _ _ Hwf H) as (Hw & Hs & _).
  split; assumption.
Defined.

(** ** radsrv: what is forwarded *)

(** What the look-up of [radsrv] has found when it names a server. *)
Lemma radsrv_realm_Some (px : proxy) (buf : list Z) (attrs len : Z)
  (rlm : realm) (to : option server) (k : nat) :
  radsrv_realm px buf attrs len = Ret (Some (rlm, to, k)) ->
  exists (a vl : Z) (username : list Z),
    attrget buf attrs len RAD_Attr_User_Name = Ret (Some a)
    /\ ATTRVALLEN buf a = Ret vl
    /\ rdn buf (ATTRVAL a) vl = Ret username
    /\ id2realm (px_realms px) (cstring username) = Some rlm
    /\ realm_srvconf rlm = Some k
    /\ px_servers px !! k = Some to.
Proof.
  unfold radsrv_realm. intros H. res_inv H.
  destruct v as [a|]; [|discriminate].
  do 2 res_inv H.
  destruct (id2realm (px_realms px) (cstring v0)) as [r|] eqn:Er; [|discriminate].
  destruct (realm_srvconf r) as [k'|] eqn:Ek; [|discriminate].
  destruct (px_servers px !! k') as [to'|] eqn:Et; [|discriminate].
  inv_ret H. exists a, v, v0. auto 10.
Qed.

(** X14.  [radsrv] hands to [sendrq] only what it has checked: the message is
    an Access-Request whose attributes [attrvalidate] accepts; it has a
    User-Name, the first realm whose pattern matches the name has a server,
    and that server holds no request with this identifier from this client;
    and a Message-Authenticator, when the message has one, has 16 bytes and
    [checkmessageauth] accepts it under the secret of the client. *)
Theorem radsrv_forwards_only_verified (below : list Z)
  (newauth : option (list Z)) (px : proxy) (rq : request) (px1 : proxy)
  (k : nat) (r : sendrq_result) :
  radsrv below newauth px rq = Ret (px1, Forwarded k r) ->
  exists (buf : list Z) (from : client) (id len0 : Z) (rlm : realm)
         (to : server) (a vl : Z) (username : list Z),
    rq_buf rq = Some buf /\ rq_from rq = Some from
    /\ rd buf 0 = Ret RAD_Access_Request
    /\ rd buf 1 = Ret id
    /\ RADLEN buf = Ret len0
    /\ attrvalidate buf 20 ((len0 - 20) mod 65536) = Ret true
    /\ attrget buf 20 ((len0 - 20) mod 65536) RAD_Attr_User_Name = Ret (Some a)
    /\ ATTRVALLEN buf a = Ret vl
    /\ rdn buf (ATTRVAL a) vl = Ret username
    /\ id2realm (px_realms px) (cstring username) = Some rlm
    /\ realm_srvconf rlm = Some k
    /\ px_servers px !! k = Some (Some to)
    /\ rqinqueue to (rq_from rq) id = false
    /\ (forall m : Z,
           attrget buf 20 ((len0 - 20) mod 65536) RAD_Attr_Message_Authenticator
           = Ret (Some m) ->
           ATTRVALLEN buf m = Ret 16
           /\ checkmessageauth buf (ATTRVAL m) (conf_secret (cl_conf from))
              = Ret (true, buf)).
Proof.
  unfold radsrv. destruct (rq_buf rq) as [buf|]; [|discriminate].
  intros H. do 3 res_inv H.
  destruct (Z.eqb_spec v RAD_Access_Request) as [->|Hne].
  2: { destruct (v =? RAD_Status_Server) eqn:Es; [|discriminate].
       cbn [negb andb] in H. res_inv H.
       destruct v2; cbn [negb] in H; [|discriminate].
       res_inv H. destruct v2 as [[[realm to] k']|]; [|discriminate].
       res_inv H. destruct v2 as [ok buf'].
       destruct ok; cbn [negb] in H; [|discriminate].
       res_inv H. apply respondstatusserver_result in E5 as (c & p & a & ->).
       discriminate. }
  cbn [negb andb] in H. res_inv H.
  destruct v as [|]; cbn [negb] in H; [|discriminate].
  res_inv H. destruct v as [[[realm to] k']|]; [|discriminate].
  res_inv H. destruct v as [ok buf'].
  destruct ok; cbn [negb] in H; [|discriminate].
  change (RAD_Access_Request =? RAD_Status_Server) with false in H. cbv iota in H.
  (* the route *)
  unfold radsrv_route in E3.
  change (RAD_Access_Request =? RAD_Access_Request) with true in E3. cbv iota in E3.
  res_inv E3. destruct v as [[[rlm t] k1]|]; [|discriminate].
  destruct (match t with
            | Some srv => rqinqueue srv (rq_from rq) v0
            | None => false
            end) eqn:Edup; [discriminate|].
  inv_ret E3.
  destruct to as [to|].
  2: { res_inv H. apply respondreject_result in E3 as (c & p & a & ->).
       discriminate. }
  apply radsrv_realm_Some in E5 as (a & vl & username & Ha & Hvl & Hu & Hr & Hk & Hs).
  (* the sender *)
  assert (Hfrom : exists from, rq_from rq = Some from).
  { unfold radsrv_forward in H. destruct newauth; [|discriminate].
    destruct (rq_from rq) as [f|]; [eauto|discriminate]. }
  destruct Hfrom as [from Hfrom].
  pose proof (radsrv_forward_Forwarded _ _ _ _ _ _ _ _ _ _ _ _ _ H)
    as (to' & rq' & -> & _).
  (* the Message-Authenticator *)
  unfold radsrv_messageauth in E4.
  exists buf, from, v0, v1, rlm, to, a, vl, username.
  split; [reflexivity|]. do 12 (split; [assumption|]).
  intros m Hm. rewrite Hm in E4. cbn [mbind res_bind] in E4.
  res_inv E4.
  destruct (Z.eqb_spec v 16) as [->|Hne]; cbn [negb] in E4; [|discriminate].
  rewrite Hfrom in E4.
  pose proof (checkmessageauth_preserves _ _ _ _ _ E4) as ->.
  auto.
Qed.

Lemma radsrv_forwards_only_verified_witness :
  radsrv (repeat 0 16) (Some ex_newauth) ex_proxy ex_request
  = Ret (ex_proxy_queued, Forwarded 0 (Inserted 0))
  /\ exists (from : client) (rlm : realm) (to : server) (a : Z),
      rq_from ex_request = Some from
      /\ attrget ex_request_pkt 20 23 RAD_Attr_User_Name = Ret (Some a)
      /\ realm_srvconf rlm = Some 0%nat
      /\ px_servers ex_proxy !! 0%nat = Some (Some to)
      /\ rqinqueue to (rq_from ex_request) 42 = false.
Proof.
  assert (H : radsrv (repeat 0 16) (Some ex_newauth) ex_proxy ex_request
              = Ret (ex_proxy_queued, Forwarded 0 (Inserted 0)))
    by (vm_compute; reflexivity).
  split; [exact H|].
  destruct (radsrv_forwards_only_verified _ _ _ _ _ _ _ H)
    as (buf & from & id & len0 & rlm & to & a & vl & username
        & Hb & Hf & _ & Hid & Hl & _ & Ha & _ & _ & _ & Hk & Hs & Hq & _).
  injection Hb as <-.
  assert (H1 : rd ex_request_pkt 1 = Ret 42) by reflexivity.
  rewrite H1 in Hid. injection Hid as <-.
  assert (H2 : RADLEN ex_request_pkt = Ret 43) by reflexivity.
  rewrite H2 in Hl. injection Hl as <-.
  exists from, rlm, to, a. auto.
Defined.

(** The packet [sendrq] stores: the request's, with the slot in byte 1 and,
    from byte 22 on, the Message-Authenticator it may have filled. *)
Lemma sendrq_fill_stored (to : server) (rq : request) (i : nat) (buf : list Z)
  (to' : server) (id : Z) :
  (i < 256)%nat -> rq_buf rq = Some buf -> wf_bytes buf ->
  sendrq_fill to rq i = Ret (to', Inserted id) ->
  exists buf' : list Z,
    id = Z.of_nat i
    /\ srv_requests to' = <[i := set_buf rq (Some buf')]> (srv_requests to)
    /\ length buf' = length buf
    /\ buf' !! 1%nat = Some (Z.of_nat i)
    /\ (forall q : nat, q <> 1%nat -> (q < 22)%nat -> buf' !! q = buf !! q).
Proof.
  intros Hi Eb Hwf. unfold sendrq_fill. rewrite Eb.
  intros H. do 3 res_inv H.
  assert (Hbyte : byte_of (Z.of_nat i) = Z.of_nat i).
  { unfold byte_of. apply Z.mod_small. lia. }
  assert (Hwf1 : wf_bytes v).
  { apply wr_Ret in E as [_ ->]. apply wf_bytes_insert; [assumption|].
    apply byte_of_range. }
  assert (Hv1 : v !! 1%nat = Some (Z.of_nat i)).
  { rewrite <- Hbyte. apply (wr_lookup_eq _ 1 _ _ E). }
  assert (Hvl : length v = length buf) by (eapply wr_length; eauto).
  assert (Hvq : forall q : nat, q <> 1%nat -> v !! q = buf !! q).
  { intros q Hq. apply (wr_lookup_ne _ _ _ _ _ E). lia. }
  destruct v1 as [a|].
  - res_inv H. destruct v1 as [ok buf2].
    destruct ok; cbn [negb] in H; [|discriminate].
    apply store_request_Ret in H as (L & Hid & R1 & _).
    injection Hid as ->.
    apply (attrget_ge _ _ _ _ _ Hwf1) in E1.
    assert (Hlt : forall q : nat, (q < 22)%nat -> buf2 !! q = v !! q).
    { intros q Hq. apply (createmessageauth_lookup_lt _ _ _ _ _ _ E2).
      unfold ATTRVAL. lia. }
    apply createmessageauth_fills in E2 as (_ & _ & _ & _ & _ & _ & _ & _ & _ & Hl2).
    exists buf2. split; [reflexivity|]. split; [assumption|].
    split; [congruence|]. split; [rewrite Hlt by lia; exact Hv1|].
    intros q Hq1 Hq. rewrite Hlt by exact Hq. apply Hvq. exact Hq1.
  - apply store_request_Ret in H as (L & Hid & R1 & _).
    injection Hid as ->.
    exists v. split; [reflexivity|]. split; [assumption|].
    split; [assumption|]. split; [assumption|].
    intros q Hq1 _. apply Hvq. exact Hq1.
Qed.

(** The re-encryption of a password attribute in [radsrv] leaves the bytes
    below the first attribute value as they are. *)
Lemma recrypt_attr_frame (below buf : list Z) (attrs len type : Z)
  (oldsecret newsecret newauth : list Z) (ok : bool) (buf' : list Z) :
  wf_bytes buf ->
  recrypt_attr below buf attrs len type oldsecret newsecret newauth = Ret (ok, buf') ->
  wf_bytes buf' /\ same_below (attrs + 2) buf buf'.
Proof.
  intros Hwf. unfold recrypt_attr. intros H. res_inv H.
  destruct v as [a|].
  - res_inv H. apply (attrget_ge _ _ _ _ _ Hwf) in E as [Hge _].
    destruct (pwdrecrypt_wf_frame _ _ _ _ _ _ _ _ _ _ Hwf H) as [Hw Hs].
    split; [exact Hw|].
    eapply same_below_le; [|eapply same_outside_below; exact Hs].
    unfold ATTRVAL. lia.
  - inv_ret H. split; [assumption|apply same_below_refl].
Qed.

(** X15.  A request [radsrv] has queued is stored with what [clientrd] needs
    to hand the answer back: the slot [sendrq] gave it holds the identifier
    and the Request Authenticator the client sent and the client itself,
    and a packet of the same size that has the slot number in byte 1 and
    the new authenticator in bytes 4..20. *)
Theorem radsrv_records_origin (below newauth : list Z) (px : proxy)
  (rq : request) (buf : list Z) (to : server) (px1 : proxy) (k : nat) (i : Z) :
  rq_buf rq = Some buf -> wf_bytes buf -> wf_bytes newauth ->
  px_servers px !! k = Some (Some to) -> table_ok to ->
  radsrv below (Some newauth) px rq = Ret (px1, Forwarded k (Inserted i)) ->
  exists (to' : server) (q : request) (stored : list Z) (id : Z),
    px_servers px1 !! k = Some (Some to')
    /\ 0 <= i < 256
    /\ srv_requests to' !! Z.to_nat i = Some q
    /\ rq_buf q = Some stored
    /\ rd buf 1 = Ret id /\ rq_origid q = id
    /\ rdn buf 4 16 = Ret (rq_origauth q)
    /\ rq_from q = rq_from rq
    /\ rq_tries q = rq_tries rq
    /\ length stored = length buf
    /\ rd stored 1 = Ret i
    /\ rdn stored 4 16 = Ret (take 16 newauth).
Proof.
  intros Hb Hwf Hna Hk Hok. unfold radsrv. rewrite Hb.
  intros H. do 3 res_inv H.
  destruct (negb (v =? RAD_Access_Request) && negb (v =? RAD_Status_Server));
    [discriminate|].
  res_inv H. destruct v2; cbn [negb] in H; [|discriminate].
  res_inv H. destruct v2 as [[[realm t] k']|]; [|discriminate].
  res_inv H. destruct v2 as [ok buf0].
  destruct ok; cbn [negb] in H; [|discriminate].
  destruct (v =? RAD_Status_Server).
  { res_inv H. apply respondstatusserver_result in E5 as (c & p & a & ->).
    discriminate. }
  destruct t as [t|].
  2: { destruct realm as [realm|]; [|discriminate].
       res_inv H. apply respondreject_result in E5 as (c & p & a & ->).
       discriminate. }
  (* the buffer is the one received *)
  assert (buf0 = buf).
  { unfold radsrv_messageauth in E4. res_inv E4.
    destruct v2 as [m|]; [|congruence].
    res_inv E4. destruct (negb (v2 =? 16)); [congruence|].
    destruct (rq_from rq); [|discriminate].
    apply checkmessageauth_preserves in E4. exact E4. }
  subst buf0.
  unfold radsrv_forward in H.
  destruct (rq_from rq) as [from|] eqn:Ef; [|discriminate].
  res_inv H. destruct v2 as [ok1 buf1].
  destruct ok1; cbn [negb] in H; [|discriminate].
  res_inv H. destruct v2 as [ok2 buf2].
  destruct ok2; cbn [negb] in H; [|discriminate].
  do 4 res_inv H. destruct v5 as [to' r']. inv_ret H.
  pose proof (radsrv_route_server _ _ _ _ _ _ _ _ _ _ E3) as Hk'.
  assert (t = to) by congruence. subst t.
  destruct (recrypt_attr_frame _ _ _ _ _ _ _ _ _ _ Hwf E5) as [Hw1 Hs1].
  destruct (recrypt_attr_frame _ _ _ _ _ _ _ _ _ _ Hw1 E6) as [Hw2 Hs2].
  destruct (same_below_trans _ _ _ _ Hs1 Hs2) as [Hl12 Hs12].
  assert (Hw3 : wf_bytes v4).
  { eapply wf_bytes_wrn; [exact Hw2| |exact E9].
    exact (wf_bytes_rdn _ _ _ _ Hna E8). }
  assert (Hl3 : length v4 = length buf).
  { rewrite (wrn_length _ _ _ _ E9). exact Hl12. }
  (* the slot *)
  unfold sendrq in E10.
  pose proof (sendrq_slot_spec to Hok) as Hslot.
  destruct (sendrq_slot to) as [i0|]; [|discriminate].
  destruct Hslot as (Hi0 & _).
  set (rq' := Request (Some v4) (Some from) (rq_fromsa rq) v0 v2 (rq_tries rq)
                      (rq_expiry rq) (rq_received rq)) in *.
  assert (Hb' : rq_buf rq' = Some v4) by reflexivity.
  destruct (sendrq_fill_stored to rq' i0 v4 to' i Hi0 Hb' Hw3 E10)
    as (stored & -> & Hreq & Hls & Hs1' & Hsq).
  exists to', (set_buf rq' (Some stored)), stored, v0.
  assert (Hlen : (i0 < length (srv_requests to))%nat) by (destruct Hok; lia).
  split.
  { cbn [px_servers]. apply list_lookup_insert_eq.
    apply lookup_lt_Some in Hk. exact Hk. }
  split; [lia|]. split.
  { rewrite Nat2Z.id, Hreq. apply list_lookup_insert_eq. exact Hlen. }
  unfold rq'. cbn [set_buf rq_buf rq_origid rq_origauth rq_from rq_tries].
  split; [reflexivity|]. split; [assumption|]. split; [reflexivity|].
  split.
  { rewrite <- E7. symmetry. apply rdn_ext; [exact Hl12|].
    intros q Hq. apply Hs12. lia. }
  split; [reflexivity|]. split; [reflexivity|]. split; [congruence|].
  split.
  { unfold rd. simpl Z.ltb. cbv iota. change (Z.to_nat 1) with 1%nat.
    rewrite Hs1'. reflexivity. }
  assert (Hr : rdn newauth 0 16 = Ret (take 16 newauth)).
  { apply rdn_Ret in E8 as (H0 & H1 & H2 & _). rewrite rdn_ok by lia.
    reflexivity. }
  rewrite Hr in E8. injection E8 as <-.
  pose proof (wrn_rdn _ _ _ _ E9) as Hrd.
  assert (H16 : length (take 16 newauth) = 16%nat).
  { apply rdn_length in Hr. exact Hr. }
  rewrite H16 in Hrd. change (Z.of_nat 16) with 16 in Hrd.
  rewrite <- Hrd. apply rdn_ext; [exact Hls|].
  intros q Hq. apply Hsq; lia.
Qed.

Lemma radsrv_records_origin_witness :
  exists (to' : server) (q : request) (stored : list Z) (id : Z),
    px_servers ex_proxy_queued !! 0%nat = Some (Some to')
    /\ 0 <= 0 < 256
    /\ srv_requests to' !! Z.to_nat 0 = Some q
    /\ rq_buf q = Some stored
    /\ rd ex_request_pkt 1 = Ret id /\ rq_origid q = id
    /\ rdn ex_request_pkt 4 16 = Ret (rq_origauth q)
    /\ rq_from q = rq_from ex_request
    /\ rq_tries q = rq_tries ex_request
    /\ length stored = length ex_request_pkt
    /\ rd stored 1 = Ret 0
    /\ rdn stored 4 16 = Ret (take 16 ex_newauth).
Proof.
  apply (radsrv_records_origin (repeat 0 16) ex_newauth ex_proxy ex_request
           ex_request_pkt ex_server ex_proxy_queued 0 0).
  - reflexivity.
  - apply wf_bytes_check; vm_compute; reflexivity.
  - apply wf_bytes_check; vm_compute; reflexivity.
  - reflexivity.
  - split; [reflexivity|vm_compute; split; discriminate].
  - vm_compute; reflexivity.
Defined.

(** ** clientrd: what a turn changes *)

(** How a turn of [clientrd] can end at the checks. *)
Lemma clientrd_checks_Stop (srv : server) (buf : list Z) (srv1 : server)
  (r : clientrd_result) :
  clientrd_checks srv buf = Ret (srv1, Stop r) ->
  (r = Discarded /\ srv1 = set_connectionok srv)
  \/ (r = StatusAnswered
      /\ exists (i : Z) (rq : request) (rqbuf reqauth : list Z),
          rd buf 1 = Ret i
          /\ srv_requests srv !! Z.to_nat i = Some rq
          /\ rq_buf rq = Some rqbuf /\ rq_tries rq <> 0
          /\ rq_received rq = false
          /\ rd rqbuf 0 = Ret RAD_Status_Server
          /\ rdn rqbuf 4 16 = Ret reqauth
          /\ validauth buf reqauth (conf_secret (srv_conf srv)) = Ret true
          /\ srv1 = mark_received (set_connectionok srv) (Z.to_nat i)).
Proof.
  unfold clientrd_checks. intros H. do 2 res_inv H.
  destruct (negb ((v0 =? RAD_Access_Accept) || (v0 =? RAD_Access_Reject)
                  || (v0 =? RAD_Access_Challenge))).
  { inv_ret H. left. auto. }
  cbn [set_connectionok srv_requests] in H.
  destruct (srv_requests srv !! Z.to_nat v) as [rq|] eqn:Erq; [|discriminate].
  destruct (rq_buf rq) as [rqbuf|] eqn:Eb; [|inv_ret H; left; auto].
  destruct (Z.eqb_spec (rq_tries rq) 0) as [|Ht]; [inv_ret H; left; auto|].
  destruct (rq_received rq) eqn:Er; [inv_ret H; left; auto|].
  do 2 res_inv H. cbn [srv_conf] in E2.
  destruct v2; cbn [negb] in H; [|inv_ret H; left; auto].
  do 2 res_inv H.
  destruct v3; cbn [negb] in H; [|inv_ret H; left; auto].
  res_inv H. destruct v3 as [[m ok] buf1].
  destruct ok; cbn [negb] in H; [|inv_ret H; left; auto].
  res_inv H.
  destruct (Z.eqb_spec v3 RAD_Status_Server) as [->|Hne]; [|discriminate].
  inv_ret H. right. split; [reflexivity|].
  exists v, rq, rqbuf, v1. auto 12.
Qed.

Lemma mark_received_fields (srv : server) (i : nat) :
  srv_conf (mark_received srv i) = srv_conf srv
  /\ srv_nextid (mark_received srv i) = srv_nextid srv
  /\ srv_connectionok (mark_received srv i) = srv_connectionok srv.
Proof.
  unfold mark_received. destruct (srv_requests srv !! i); auto.
Qed.

Lemma mark_received_requests (srv : server) (i : nat) (rq : request) :
  srv_requests srv !! i = Some rq ->
  srv_requests (mark_received srv i) = <[i := set_received rq]> (srv_requests srv).
Proof. unfold mark_received. intros ->. reflexivity. Qed.

(** X16.  A turn of [clientrd] changes nothing of the server but
    [connectionok], which it sets, and the [received] flag of the slot the
    identifier of the message names: a message it discards leaves the request
    table as it is; a message it hands on, and an answer to a Status-Server
    probe of the proxy, set the flag of that one slot.  An answer is taken
    for the answer to a probe exactly when the stored request is a
    Status-Server message, and it is then not handed to any client. *)
Theorem clientrd_changes_one_flag (srv : server) (buf : list Z) (srv' : server)
  (r : clientrd_result) :
  clientrd srv buf = Ret (srv', r) ->
  srv_conf srv' = srv_conf srv
  /\ srv_nextid srv' = srv_nextid srv
  /\ srv_connectionok srv' = true
  /\ match r with
     | Discarded => srv_requests srv' = srv_requests srv
     | StatusAnswered =>
         exists (i : Z) (rq : request) (rqbuf : list Z),
           rd buf 1 = Ret i
           /\ srv_requests srv !! Z.to_nat i = Some rq
           /\ rq_buf rq = Some rqbuf
           /\ rd rqbuf 0 = Ret RAD_Status_Server
           /\ srv_requests srv'
              = <[Z.to_nat i := set_received rq]> (srv_requests srv)
     | Delivered _ _ _ =>
         exists (i : Z) (rq : request) (rqbuf : list Z) (code : Z),
           rd buf 1 = Ret i
           /\ srv_requests srv !! Z.to_nat i = Some rq
           /\ rq_buf rq = Some rqbuf
           /\ rd rqbuf 0 = Ret code /\ code <> RAD_Status_Server
           /\ srv_requests srv'
              = <[Z.to_nat i := set_received rq]> (srv_requests srv)
     end.
Proof.
  unfold clientrd. intros H. res_inv H. destruct v as [srv1 c].
  destruct c as [r0|i code rq rqbuf m buf1 len].
  - inv_ret H.
    destruct (clientrd_checks_Stop _ _ _ _ E)
      as [[-> ->]|(-> & i & rq & rqbuf & reqauth & Hi & Hrq & Hb & _ & _ & Hc & _ & _ & ->)].
    + cbn [set_connectionok srv_conf srv_nextid srv_connectionok srv_requests]. auto.
    + destruct (mark_received_fields (set_connectionok srv) (Z.to_nat i))
        as (F1 & F2 & F3).
      rewrite F1, F2, F3.
      split; [reflexivity|]. split; [reflexivity|]. split; [reflexivity|].
      exists i, rq, rqbuf. do 4 (split; [assumption|]).
      apply (mark_received_requests (set_connectionok srv)). exact Hrq.
  - apply clientrd_checks_Pass in E
      as (-> & Hi & _ & _ & Hrq & Hb & _ & _ & _ & _ & _ & _ & _ & (rqcode & Hc & Hne)).
    res_inv H. destruct v as [attr buf2].
    destruct attr as [a|].
    + inv_ret H.
      cbn [set_connectionok srv_conf srv_nextid srv_connectionok srv_requests]. auto.
    + unfold clientrd_finish in H. do 4 res_inv H.
      destruct (rq_from rq) as [f|]; [|discriminate].
      res_inv H. destruct v3 as [ok buf3].
      destruct ok; cbn [negb] in H; inv_ret H.
      * destruct (mark_received_fields (set_connectionok srv) (Z.to_nat i))
          as (F1 & F2 & F3).
        rewrite F1, F2, F3.
        split; [reflexivity|]. split; [reflexivity|]. split; [reflexivity|].
        exists i, rq, rqbuf, rqcode. do 5 (split; [assumption|]).
        apply (mark_received_requests (set_connectionok srv)). exact Hrq.
      * cbn [set_connectionok srv_conf srv_nextid srv_connectionok srv_requests].
        auto.
Qed.

Lemma clientrd_changes_one_flag_witness :
  exists (srv' : server) (buf' : list Z),
    clientrd ex_server_sent ex_reply_pkt
    = Ret (srv', Delivered ex_client buf' (Some 7))
    /\ srv_nextid srv' = srv_nextid ex_server_sent
    /\ srv_connectionok srv' = true
    /\ exists rq, srv_requests ex_server_sent !! 0%nat = Some rq
                  /\ srv_requests srv'
                     = <[0%nat := set_received rq]> (srv_requests ex_server_sent).
Proof.
  assert (Hex : exists srv' buf',
             clientrd ex_server_sent ex_reply_pkt
             = Ret (srv', Delivered ex_client buf' (Some 7)))
    by (eexists; eexists; vm_compute; reflexivity).
  destruct Hex as (srv' & buf' & E).
  destruct (clientrd_changes_one_flag _ _ _ _ E)
    as (_ & Hn & Hc & (i & rq & rqbuf & code & Hi & Hrq & _ & _ & _ & Hreq)).
  assert (H0 : rd ex_reply_pkt 1 = Ret 0) by reflexivity.
  rewrite H0 in Hi. injection Hi as <-.
  exists srv', buf'. split; [exact E|]. split; [exact Hn|]. split; [exact Hc|].
  exists rq. split; assumption.
Defined.

(** ** clientwr: the Status-Server probe *)

Lemma sendrq_slot_free (to : server) (j : nat) :
  table_ok to -> (j < 256)%nat -> slot_free (srv_requests to) j = true ->
  exists i, sendrq_slot to = Some i /\ (i < 256)%nat.
Proof.
  intros Hok Hj Hfree. pose proof (sendrq_slot_spec to Hok) as Hs.
  destruct (sendrq_slot to) as [i|].
  - exists i. destruct Hs as [Hi _]. auto.
  - rewrite (Hs j) in Hfree by lia. discriminate.
Qed.

(** X17.  When the Status-Server period has passed and the table has a free
    slot, [clientwr] queues a probe: a zeroed request, no try made and no
    client behind it, whose packet of 38 bytes has code Status-Server, the
    slot in byte 1, length 38, the random authenticator, and one attribute,
    a Message-Authenticator that [checkmessageauth] accepts under the secret
    of the server; [lastsend] becomes the time read. *)
Theorem clientwr_probe_queued (srv : server) (now lastsend : Z) (auth : list Z)
  (j : nat) :
  conf_statusserver (srv_conf srv) = true ->
  STATUS_SERVER_PERIOD <= now - lastsend ->
  wf_bytes auth -> length auth = 16%nat ->
  table_ok srv -> (j < 256)%nat -> slot_free (srv_requests srv) j = true ->
  exists (srv' : server) (i : Z) (q : request) (buf : list Z),
    clientwr_probe srv now lastsend (Some auth) = Ret (srv', now, Some (Inserted i))
    /\ 0 <= i < 256
    /\ srv_requests srv' !! Z.to_nat i = Some q
    /\ rq_buf q = Some buf
    /\ rq_tries q = 0 /\ rq_received q = false /\ rq_from q = None
    /\ length buf = 38%nat
    /\ rd buf 0 = Ret RAD_Status_Server
    /\ rd buf 1 = Ret i
    /\ RADLEN buf = Ret 38
    /\ rdn buf 4 16 = Ret auth
    /\ attrvalidate buf 20 18 = Ret true
    /\ attrget buf 20 18 RAD_Attr_Message_Authenticator = Ret (Some 20)
    /\ checkmessageauth buf 22 (conf_secret (srv_conf srv)) = Ret (true, buf).
Proof.
  intros Hss Hper Hwf Hla Hok Hj Hfree.
  destruct (sendrq_slot_free srv j Hok Hj Hfree) as (i & Hslot & Hi).
  unfold clientwr_probe. rewrite Hss.
  destruct (Z.leb_spec STATUS_SERVER_PERIOD (now - lastsend)); [|lia].
  assert (Ha : rdn auth 0 16 = Ret auth).
  { change 16 with (Z.of_nat 16). rewrite <- Hla. apply rdn_all. }
  rewrite Ha. ret_red.
  set (buf0 := RAD_Status_Server :: 0 :: 0 :: 38
               :: auth ++ RAD_Attr_Message_Authenticator :: 18 :: repeat 0 16).
  assert (Hb0 : wrn statsrvbuf_init 4 auth = Ret buf0).
  { rewrite wrn_ok by (rewrite ?Hla; simpl; lia). f_equal.
    rewrite Hla. reflexivity. }
  rewrite Hb0. ret_red.
  set (buf1 := RAD_Status_Server :: Z.of_nat i :: 0 :: 38
               :: auth ++ RAD_Attr_Message_Authenticator :: 18 :: repeat 0 16).
  assert (Hbyte : byte_of (Z.of_nat i) = Z.of_nat i).
  { unfold byte_of. apply Z.mod_small. lia. }
  assert (Hl1 : length buf1 = 38%nat).
  { unfold buf1. list_len. }
  assert (Hat : forall n : nat,
            buf1 !! (20 + n)%nat
            = (RAD_Attr_Message_Authenticator :: 18 :: repeat 0 16) !! n).
  { intros n.
    change buf1 with ([RAD_Status_Server; Z.of_nat i; 0; 38]
                      ++ auth ++ RAD_Attr_Message_Authenticator :: 18
                      :: repeat 0 16).
    rewrite lookup_app_r by (simpl; lia).
    rewrite lookup_app_r by (simpl; lia). f_equal. simpl. lia. }
  assert (Hlen1 : RADLEN buf1 = Ret 38) by reflexivity.
  assert (Hty : ATTRTYPE buf1 20 = Ret RAD_Attr_Message_Authenticator).
  { unfold ATTRTYPE, rd. simpl Z.ltb. cbv iota.
    change (Z.to_nat 20) with (20 + 0)%nat. rewrite Hat. reflexivity. }
  assert (Hget1 : attrget buf1 20 (38 - 20) RAD_Attr_Message_Authenticator
                  = Ret (Some 20)).
  { unfold attrget. change (Z.to_nat (38 - 20)) with 18%nat.
    cbn [attrget_loop]. change (1 <? 38 - 20) with true. cbv iota.
    rewrite Hty. ret_red. rewrite Z.eqb_refl. reflexivity. }
  destruct (createmessageauth_returns buf1 22 (conf_secret (srv_conf srv)) 38)
    as [buf Hc]; [lia|rewrite Hl1; lia|exact Hlen1|rewrite Hl1; lia|].
  assert (Hlt : forall n : nat, (n < 22)%nat -> buf !! n = buf1 !! n).
  { intros n Hn. apply (createmessageauth_lookup_lt _ _ _ _ _ _ Hc). lia. }
  pose proof (createmessageauth_checks _ _ _ _ Hc) as Hck.
  pose proof Hc as Hfill.
  apply createmessageauth_fills in Hfill
    as (_ & _ & _ & _ & _ & _ & _ & _ & _ & Hl).
  set (rq0 := set_buf request_zero (Some buf0)).
  assert (Hsend : sendrq srv rq0
                  = Ret (Server (srv_conf srv) (srv_lastconnecttry srv)
                                (srv_connectionok srv) (Z.of_nat i + 1)
                                (<[i := set_buf rq0 (Some buf)]> (srv_requests srv))
                                true,
                         Inserted (Z.of_nat i))).
  { unfold sendrq. rewrite Hslot. unfold sendrq_fill.
    change (rq_buf rq0) with (Some buf0). cbv iota.
    assert (Hw1 : wr buf0 1 (byte_of (Z.of_nat i)) = Ret buf1).
    { rewrite Hbyte. apply (wr_ok buf0 1). unfold buf0. list_len. }
    rewrite Hw1. ret_red. rewrite Hlen1. ret_red. rewrite Hget1. ret_red.
    change (ATTRVAL 20) with 22. rewrite Hc. ret_red. cbn [negb]. cbv iota.
    unfold store_request.
    destruct (Nat.ltb_spec i (length (srv_requests srv))) as [|Hge];
      [reflexivity|destruct Hok; lia]. }
  rewrite Hsend. ret_red.
  eexists. exists (Z.of_nat i), (set_buf rq0 (Some buf)), buf.
  split; [reflexivity|]. split; [lia|]. split.
  { cbn [srv_requests]. rewrite Nat2Z.id. apply list_lookup_insert_eq.
    destruct Hok; lia. }
  split; [reflexivity|]. split; [reflexivity|]. split; [reflexivity|].
  split; [reflexivity|]. split; [congruence|].
  assert (Hrd : forall p : Z, 0 <= p < 22 -> rd buf p = rd buf1 p).
  { intros p Hp. unfold rd.
    destruct (Z.ltb_spec p 0); [lia|]. rewrite Hlt by lia. reflexivity. }
  split; [rewrite (Hrd 0) by lia; reflexivity|].
  split; [rewrite (Hrd 1) by lia; reflexivity|].
  split.
  { unfold RADLEN. rewrite (Hrd 2), (Hrd 3) by lia. exact Hlen1. }
  split.
  { rewrite (rdn_ext buf1 buf 4 16) by (try congruence; intros n Hn; apply Hlt; lia).
    rewrite rdn_ok by lia. f_equal. unfold buf1.
    change (Z.to_nat 4) with 4%nat. change (Z.to_nat 16) with 16%nat.
    cbn [skipn]. rewrite drop_0. apply take_app_length'. lia. }
  assert (Hal : ATTRLEN buf 20 = Ret 18).
  { unfold ATTRLEN. rewrite (Hrd (20 + 1)) by lia. unfold rd. simpl Z.ltb. cbv iota.
    change (Z.to_nat (20 + 1)) with (20 + 1)%nat. rewrite Hat. reflexivity. }
  split.
  { unfold attrvalidate.
    apply (attrvalidate_loop_accepts buf [18]); [|simpl; lia|lia].
    simpl. split; [exact Hal|]. split; [lia|exact I]. }
  split; [|exact Hck].
  unfold attrget. change (Z.to_nat 18) with 18%nat.
  cbn [attrget_loop]. change (1 <? 18) with true. cbv iota.
  unfold ATTRTYPE. rewrite (Hrd 20) by lia. fold (ATTRTYPE buf1 20).
  rewrite Hty. ret_red. rewrite Z.eqb_refl. reflexivity.
Qed.

Lemma clientwr_probe_queued_witness :
  exists (srv' : server) (i : Z) (q : request) (buf : list Z),
    clientwr_probe (Server (Conf TYPE_TLS "upstream.example" ex_secret true)
                           (0, 0) false 0 (repeat request_zero 256) false)
                   1025 1000 (Some ex_newauth)
    = Ret (srv', 1025, Some (Inserted i))
    /\ 0 <= i < 256
    /\ srv_requests srv' !! Z.to_nat i = Some q
    /\ rq_buf q = Some buf
    /\ RADLEN buf = Ret 38
    /\ checkmessageauth buf 22 ex_secret = Ret (true, buf).
Proof.
  destruct (clientwr_probe_queued
              (Server (Conf TYPE_TLS "upstream.example" ex_secret true)
                      (0, 0) false 0 (repeat request_zero 256) false)
              1025 1000 ex_newauth 0)
    as (srv' & i & q & buf & H & Hi & Hq & Hb & _ & _ & _ & _ & _ & _ & Hl & _ & _ & _ & Hck).
  - reflexivity.
  - unfold STATUS_SERVER_PERIOD. lia.
  - apply wf_bytes_check; vm_compute; reflexivity.
  - reflexivity.
  - split; [reflexivity|simpl; lia].
  - lia.
  - reflexivity.
  - exists srv', i, q, buf. auto 10.
Defined.

(** ** clientwr: a sweep of the request table *)







(** ** MS-MPPE keys of more than 240 bytes *)

Lemma offset_wraps (offset : Z) :
  0 <= offset <= 240 -> offset mod 16 = 0 ->
  0 <= byte_of (offset + 16) <= 240 /\ byte_of (offset + 16) mod 16 = 0.
Proof.
  intros Ho Hm. unfold byte_of.
  destruct (Z.eq_dec offset 240) as [->|Hne].
  - split; [|reflexivity]. change ((240 + 16) mod 256) with 0. lia.
  - assert (Hk : offset = 16 * (offset / 16)).
    { rewrite (Z.div_mod offset 16) at 1 by lia. lia. }
    assert (Hs : (offset + 16) mod 256 = offset + 16).
    { apply Z.mod_small. lia. }
    rewrite Hs. split; [lia|].
    rewrite Hk. replace (16 * (offset / 16) + 16) with ((offset / 16 + 1) * 16) by lia.
    apply Z.mod_mul. lia.
Qed.

(** With [len] above 240 the block loop of [msmppencrypt] has no way out:
    every value the uint8_t [offset] takes is below [len]. *)
Lemma msmppencrypt_loop_no_exit (text len : Z) (key : list Z) :
  240 < len ->
  forall (fuel : nat) (mem : list Z) (offset : Z) (r : bool * list Z),
    0 <= offset <= 240 -> offset mod 16 = 0 ->
    msmppencrypt_loop fuel mem text len key offset <> Ret r.
Proof.
  intros Hlen. induction fuel as [|fuel IH]; intros mem offset r Ho Hm H.
  - cbn [msmppencrypt_loop] in H.
    destruct (Z.ltb_spec offset len); [discriminate|lia].
  - cbn [msmppencrypt_loop] in H.
    destruct (Z.ltb_spec offset len); [|lia].
    res_inv H.
    rewrite bool_decide_eq_true_2 in H by apply digest_length.
    cbn [negb] in H. res_inv H.
    destruct (offset_wraps offset Ho Hm) as [Ho' Hm'].
    exact (IH _ _ _ Ho' Hm' H).
Qed.

Lemma msmppdecrypt_loop_no_exit (text len : Z) (key : list Z) :
  240 < len ->
  forall (fuel : nat) (mem : list Z) (offset : Z) (plain : list Z)
         (r : option (list Z)),
    0 <= offset <= 240 -> offset mod 16 = 0 ->
    msmppdecrypt_loop fuel mem text len key offset plain <> Ret r.
Proof.
  intros Hlen. induction fuel as [|fuel IH]; intros mem offset plain r Ho Hm H.
  - cbn [msmppdecrypt_loop] in H.
    destruct (Z.ltb_spec offset len); [discriminate|lia].
  - cbn [msmppdecrypt_loop] in H.
    destruct (Z.ltb_spec offset len); [|lia].
    res_inv H.
    rewrite bool_decide_eq_true_2 in H by apply digest_length.
    cbn [negb] in H. res_inv H.
    destruct (offset_wraps offset Ho Hm) as [Ho' Hm'].
    exact (IH _ _ _ _ Ho' Hm' H).
Qed.

(** X19.  A key of more than 240 bytes is never processed to the end: in
    [msmppencrypt] and [msmppdecrypt] the uint8_t [offset] goes from 240 back
    to 0 and so stays below [len], whatever the number of rounds allowed, and
    neither function returns; so [msmpprecrypt] does not return for an
    attribute value of 243 to 255 bytes, which its only length test,
    [len < 18], lets through. *)
Theorem msmpp_long_key_no_return (mem : list Z) (text len : Z) :
  240 < len <= 253 ->
  (forall fuel mem' key r,
      msmppencrypt_loop fuel mem' text len key 16 <> Ret r)
  /\ (forall fuel mem' key plain r,
        msmppdecrypt_loop fuel mem' text len key 16 plain <> Ret r)
  /\ (forall shared sharedlen auth salt r,
        msmppencrypt mem text len shared sharedlen auth salt <> Ret r)
  /\ (forall shared sharedlen auth salt r,
        msmppdecrypt mem text len shared sharedlen auth salt <> Ret r)
  /\ (forall oldsecret newsecret oldauth newauth r,
        msmpprecrypt mem (text - 2) (len + 2) oldsecret newsecret oldauth newauth
        <> Ret r).
Proof.
  intros Hlen.
  assert (Hl : 240 < len) by lia.
  assert (Henc : forall mem0 shared sharedlen auth salt r,
             msmppencrypt mem0 text len shared sharedlen auth salt <> Ret r).
  { intros mem0 shared sharedlen auth salt r H. unfold msmppencrypt in H.
    do 4 res_inv H.
    revert H. apply msmppencrypt_loop_no_exit; [assumption|lia|reflexivity]. }
  assert (Hdec : forall mem0 shared sharedlen auth salt r,
             msmppdecrypt mem0 text len shared sharedlen auth salt <> Ret r).
  { intros mem0 shared sharedlen auth salt r H. unfold msmppdecrypt in H.
    do 5 res_inv H.
    revert E3. apply msmppdecrypt_loop_no_exit; [assumption|lia|reflexivity]. }
  split.
  { intros fuel mem' key r.
    apply msmppencrypt_loop_no_exit; [assumption|lia|reflexivity]. }
  split.
  { intros fuel mem' key plain r.
    apply msmppdecrypt_loop_no_exit; [assumption|lia|reflexivity]. }
  split; [apply Henc|]. split; [apply Hdec|].
  intros oldsecret newsecret oldauth newauth r H.
  unfold msmpprecrypt in H. cbv zeta in H.
  assert (Hb : byte_of (len + 2) = len + 2) by (apply Z.mod_small; lia).
  rewrite Hb in H.
  destruct (Z.ltb_spec (len + 2) 18); [lia|].
  replace (len + 2 - 2) with len in H by lia.
  replace (text - 2 + 2) with text in H by lia.
  assert (Hb' : byte_of len = len) by (apply Z.mod_small; lia).
  rewrite Hb' in H.
  res_inv H. exact (Hdec _ _ _ _ _ _ E).
Qed.

Lemma msmpp_long_key_no_return_witness :
  240 < 244 <= 253
  /\ msmpprecrypt (repeat 0 300) 30 246 ex_secret ex_secret ex_newauth ex_newauth
     <> Ret (true, repeat 0 300).
Proof.
  split; [lia|].
  destruct (msmpp_long_key_no_return (repeat 0 300) 32 244) as (_ & _ & _ & _ & H).
  - lia.
  - apply (H ex_secret ex_secret ex_newauth ex_newauth).
Defined.

(** ** radtlsget: messages out of the TLS stream *)

Lemma wrn_mid (pre hole post src : list Z) :
  (length src <= length hole)%nat ->
  wrn (pre ++ hole ++ post) (Z.of_nat (length pre)) src
  = Ret ((pre ++ src) ++ drop (length src) hole ++ post).
Proof.
  intros H. rewrite wrn_ok by (rewrite ?length_app; lia).
  rewrite Nat2Z.id. f_equal.
  rewrite take_app_length, <- app_assoc. do 2 f_equal.
  rewrite drop_app_ge by lia.
  replace (length pre + length src - length pre)%nat with (length src) by lia.
  rewrite drop_app_le by lia. reflexivity.
Qed.

Lemma SSL_read_some (record : list Z) (ssl : list (list Z)) (n : nat) :
  take n record <> [] ->
  SSL_read (record :: ssl) (Z.of_nat n)
  = Some (take n record,
          match drop n record with [] => ssl | more => more :: ssl end).
Proof.
  intros H. unfold SSL_read. rewrite Nat2Z.id.
  destruct (take n record); [congruence|reflexivity].
Qed.

Lemma radtlsget_read_done (fuel : nat) (ssl : list (list Z)) (b : list Z)
  (total : Z) :
  radtlsget_read fuel ssl b total total = Ret (Some (b, total), ssl).
Proof. destruct fuel; simpl; rewrite Z.ltb_irrefl; reflexivity. Qed.

(** A read loop gets exactly the bytes it still needs, however the stream is
    cut into records, and leaves the rest of the stream. *)
Lemma radtlsget_read_all (ssl : list (list Z)) :
  forall (need pre hole post rest : list Z) (fuel : nat),
    Forall (fun record => record <> []) ssl ->
    concat ssl = need ++ rest ->
    length hole = length need -> (length need <= fuel)%nat ->
    exists ssl',
      radtlsget_read fuel ssl (pre ++ hole ++ post) (Z.of_nat (length pre))
                     (Z.of_nat (length pre + length need))
      = Ret (Some (pre ++ need ++ post, Z.of_nat (length pre + length need)), ssl')
      /\ Forall (fun record => record <> []) ssl'
      /\ concat ssl' = rest.
Proof.
  induction ssl as [|record ssl IH];
    intros need pre hole post rest fuel Hne Hcat Hhole Hfuel.
  - simpl in Hcat. symmetry in Hcat. apply app_eq_nil in Hcat as [-> ->].
    destruct hole; [|discriminate]. exists [].
    replace (length pre + length (@nil Z))%nat with (length pre) by (simpl; lia).
    rewrite radtlsget_read_done. auto.
  - destruct need as [|n0 need'].
    { destruct hole; [|discriminate]. exists (record :: ssl).
      replace (length pre + length (@nil Z))%nat with (length pre) by (simpl; lia).
      rewrite radtlsget_read_done. auto. }
    set (need := n0 :: need') in *.
    assert (Hpos : (0 < length need)%nat) by (simpl; lia).
    destruct fuel as [|fuel]; [lia|].
    cbn [radtlsget_read].
    destruct (Z.ltb_spec (Z.of_nat (length pre)) (Z.of_nat (length pre + length need)));
      [|lia].
    replace (Z.of_nat (length pre + length need) - Z.of_nat (length pre))
      with (Z.of_nat (length need)) by lia.
    inversion Hne as [|? ? Hrec Hne']; subst.
    change (concat (record :: ssl)) with (record ++ concat ssl) in Hcat.
    apply app_eq_app in Hcat as [l [[Hr Hrest]|[Hn Hc]]].
    + (* the record holds all that is needed, and [l] more *)
      rewrite SSL_read_some
        by (rewrite Hr, take_app_length; discriminate).
      rewrite Hr, take_app_length, drop_app_length.
      rewrite (wrn_mid pre hole post need) by lia. ret_red.
      replace (drop (length need) hole) with (@nil Z)
        by (rewrite <- Hhole, drop_all; reflexivity).
      cbn [app].
      replace (Z.of_nat (length pre) + Z.of_nat (length need))
        with (Z.of_nat (length pre + length need)) by lia.
      rewrite radtlsget_read_done, <- app_assoc.
      destruct l as [|l0 l].
      * exists ssl. rewrite app_nil_l in Hrest. auto.
      * exists ((l0 :: l) :: ssl). split; [reflexivity|].
        split; [constructor; [discriminate|assumption]|].
        rewrite Hrest. reflexivity.
    + (* the record is part of what is needed *)
      destruct record as [|r0 record']; [congruence|].
      set (record := r0 :: record') in *.
      assert (Hlr : (length record <= length need)%nat).
      { rewrite Hn, length_app. lia. }
      rewrite SSL_read_some by (rewrite take_ge by assumption; discriminate).
      rewrite take_ge, drop_ge by assumption.
      rewrite (wrn_mid pre hole post record) by lia. ret_red.
      assert (Hh : length (drop (length record) hole) = length l).
      { rewrite length_drop, Hhole, Hn, length_app. lia. }
      assert (Hf : (length l <= fuel)%nat).
      { rewrite Hn, length_app in Hfuel. simpl in Hfuel. simpl. lia. }
      destruct (IH l (pre ++ record) (drop (length record) hole) post rest fuel
                   Hne' Hc Hh Hf) as (ssl' & Hread & Hne'' & Hcat').
      exists ssl'.
      replace (Z.of_nat (length pre) + Z.of_nat (length record))
        with (Z.of_nat (length (pre ++ record))) by (rewrite length_app; lia).
      replace (length pre + length need)%nat
        with (length (pre ++ record) + length l)%nat
        by (rewrite Hn, !length_app; lia).
      rewrite Hread, Hn, <- !app_assoc. auto.
Qed.

(** One round of [radtlsget] on a stream that starts with a whole message
    whose length field is its length. *)
Lemma radtlsget_round (msg rest : list Z) (ssl : list (list Z)) (fuel : nat) :
  Forall (fun record => record <> []) ssl ->
  concat ssl = msg ++ rest ->
  (4 <= length msg)%nat ->
  RADLEN msg = Ret (Z.of_nat (length msg)) ->
  exists ssl',
    Forall (fun record => record <> []) ssl'
    /\ concat ssl' = rest
    /\ radtlsget (S fuel) ssl
       = if 20 <=? Z.of_nat (length msg) then Ret (Some msg, ssl')
         else radtlsget fuel ssl'.
Proof.
  intros Hne Hcat Hlen Hrl.
  destruct msg as [|h0 [|h1 [|h2 [|h3 body]]]]; try (simpl in Hlen; lia).
  set (hdr := [h0; h1; h2; h3]).
  change (h0 :: h1 :: h2 :: h3 :: body) with (hdr ++ body) in *.
  assert (Hl : length (hdr ++ body) = (4 + length body)%nat) by reflexivity.
  rewrite Hl in *.
  rewrite <- app_assoc in Hcat.
  destruct (radtlsget_read_all ssl hdr [] (repeat 0 4) [] (body ++ rest) 4
              Hne Hcat eq_refl (le_n 4))
    as (ssl1 & Hr1 & Hne1 & Hcat1).
  change (radtlsget_read 4 ssl (repeat 0 4) 0 4 = Ret (Some (hdr, 4), ssl1)) in Hr1.
  cbn [radtlsget]. rewrite Hr1. ret_red.
  assert (Hrl' : RADLEN hdr = Ret (Z.of_nat (4 + length body))).
  { rewrite <- Hrl. reflexivity. }
  rewrite Hrl'. ret_red. rewrite Nat2Z.id.
  assert (Hw : wrn (repeat 0 (4 + length body)) 0 hdr
               = Ret (hdr ++ repeat 0 (length body) ++ [])).
  { rewrite wrn_ok by (rewrite ?repeat_length; simpl; lia).
    rewrite app_nil_r. change (Z.to_nat 0) with 0%nat. rewrite take_0.
    cbn [app]. do 5 f_equal. }
  rewrite Hw. ret_red.
  assert (Hf : (length body <= 4 + length body)%nat) by lia.
  destruct (radtlsget_read_all ssl1 body hdr (repeat 0 (length body)) [] rest
              (4 + length body) Hne1 Hcat1 (repeat_length _ _) Hf)
    as (ssl2 & Hr2 & Hne2 & Hcat2).
  change (Z.of_nat (length hdr)) with 4 in Hr2.
  change (length hdr + length body)%nat with (4 + length body)%nat in Hr2.
  rewrite Hr2. ret_red. rewrite app_nil_r.
  exists ssl2. auto.
Qed.

(** The undersized messages at the head of the stream cost one round each. *)
Lemma radtlsget_skips (shorts : list (list Z)) :
  forall (ssl : list (list Z)) (tail : list Z) (fuel : nat),
    Forall (fun record => record <> []) ssl ->
    concat ssl = concat shorts ++ tail ->
    Forall undersized shorts ->
    exists ssl',
      Forall (fun record => record <> []) ssl'
      /\ concat ssl' = tail
      /\ radtlsget (length shorts + fuel) ssl = radtlsget fuel ssl'.
Proof.
  induction shorts as [|m shorts IH]; intros ssl tail fuel Hne Hcat Hsh.
  - exists ssl. auto.
  - inversion Hsh as [|? ? [Hfr Hlen] Hsh']; subst.
    change (concat (m :: shorts)) with (m ++ concat shorts) in Hcat.
    rewrite <- app_assoc in Hcat.
    destruct (radtlsget_round m _ ssl (length shorts + fuel) Hne Hcat
                ltac:(lia) Hfr)
      as (ssl1 & Hne1 & Hcat1 & Hr).
    destruct (Z.leb_spec 20 (Z.of_nat (length m))); [lia|].
    destruct (IH ssl1 tail fuel Hne1 Hcat1 Hsh') as (ssl' & Hne' & Hcat' & Hr').
    exists ssl'. split; [assumption|]. split; [assumption|].
    change (length (m :: shorts) + fuel)%nat with (S (length shorts + fuel)).
    rewrite Hr. exact Hr'.
Qed.

(** X20.  [radtlsget] puts the message together from the stream however TLS
    cuts the stream into records: when the stream holds, after any number of
    undersized messages (4 to 19 bytes, length field right), a message of at
    least 20 bytes whose length field is its length, [radtlsget] returns
    exactly that message and leaves exactly the bytes that follow it. *)
Theorem radtlsget_reassembles (shorts : list (list Z)) (msg rest : list Z)
  (ssl : list (list Z)) (fuel : nat) :
  Forall (fun record => record <> []) ssl ->
  concat ssl = concat shorts ++ msg ++ rest ->
  Forall undersized shorts ->
  framed msg -> (20 <= length msg)%nat ->
  (length shorts < fuel)%nat ->
  exists ssl',
    radtlsget fuel ssl = Ret (Some msg, ssl')
    /\ Forall (fun record => record <> []) ssl'
    /\ concat ssl' = rest.
Proof.
  intros Hne Hcat Hsh Hfr Hlen Hfuel.
  replace fuel with (length shorts + S (fuel - length shorts - 1))%nat by lia.
  destruct (radtlsget_skips shorts ssl (msg ++ rest) (S (fuel - length shorts - 1))
              Hne Hcat Hsh)
    as (ssl1 & Hne1 & Hcat1 & ->).
  destruct (radtlsget_round msg rest ssl1 (fuel - length shorts - 1) Hne1 Hcat1
              ltac:(lia) Hfr)
    as (ssl2 & Hne2 & Hcat2 & ->).
  destruct (Z.leb_spec 20 (Z.of_nat (length msg))); [|lia].
  exists ssl2. auto.
Qed.

Lemma radtlsget_reassembles_witness :
  exists ssl',
    radtlsget 2 [[1; 7; 0];
                 [9; 0; 0; 0; 0; 0; 1; 42; 0; 20; 83; 12];
                 [240; 7; 66; 191; 5; 38; 120; 9; 77; 214; 31; 150; 2; 99; 55;
                  66]]
    = Ret (Some [1; 42; 0; 20; 83; 12; 240; 7; 66; 191; 5; 38; 120; 9; 77;
     214; 31; 150; 2; 99],
           ssl')
    /\ concat ssl' = [55; 66].
Proof.
  destruct (radtlsget_reassembles
              [[1; 7; 0; 9; 0; 0; 0; 0; 0]]
              [1; 42; 0; 20; 83; 12; 240; 7; 66; 191; 5; 38; 120; 9; 77; 214;
               31; 150; 2; 99]
              [55; 66]
              [[1; 7; 0];
               [9; 0; 0; 0; 0; 0; 1; 42; 0; 20; 83; 12];
               [240; 7; 66; 191; 5; 38; 120; 9; 77; 214; 31; 150; 2; 99; 55;
                66]] 2)
    as (ssl' & H & _ & Hc).
  - repeat constructor; discriminate.
  - reflexivity.
  - repeat constructor; simpl; lia.
  - reflexivity.
  - simpl; lia.
  - simpl; lia.
  - exists ssl'. auto.
Defined.

(** A read loop that needs more than the stream still holds ends with the
    failing read. *)
Lemma radtlsget_read_lost (ssl : list (list Z)) :
  forall (pre hole post : list Z) (n fuel : nat),
    Forall (fun record => record <> []) ssl ->
    (length (concat ssl) < n)%nat -> (n <= length hole)%nat -> (n <= fuel)%nat ->
    radtlsget_read fuel ssl (pre ++ hole ++ post) (Z.of_nat (length pre))
                   (Z.of_nat (length pre + n))
    = Ret (None, []).
Proof.
  induction ssl as [|record ssl IH]; intros pre hole post n fuel Hne Hn Hh Hf;
    (destruct fuel as [|fuel]; [lia|]); cbn [radtlsget_read];
    (destruct (Z.ltb_spec (Z.of_nat (length pre)) (Z.of_nat (length pre + n)));
     [|lia]).
  - reflexivity.
  - inversion Hne as [|? ? Hrec Hne']; subst.
    change (concat (record :: ssl)) with (record ++ concat ssl) in Hn.
    rewrite length_app in Hn.
    assert (Hr : (0 < length record)%nat).
    { destruct record; [congruence|simpl; lia]. }
    replace (Z.of_nat (length pre + n) - Z.of_nat (length pre))
      with (Z.of_nat n) by lia.
    rewrite SSL_read_some by (rewrite take_ge by lia; assumption).
    rewrite take_ge, drop_ge by lia.
    rewrite (wrn_mid pre hole post record) by lia. ret_red.
    replace (Z.of_nat (length pre) + Z.of_nat (length record))
      with (Z.of_nat (length (pre ++ record))) by (rewrite length_app; lia).
    replace (length pre + n)%nat
      with (length (pre ++ record) + (n - length record))%nat
      by (rewrite length_app; lia).
    apply IH; [assumption|lia|rewrite length_drop; lia|lia].
Qed.

(** X21.  When the stream ends before the four bytes of a header have come, or
    before the length its header gives has come, [radtlsget] returns NULL;
    undersized messages before that are read and dropped. *)
Theorem radtlsget_connection_lost (shorts : list (list Z)) (part : list Z)
  (ssl : list (list Z)) (fuel : nat) :
  Forall (fun record => record <> []) ssl ->
  concat ssl = concat shorts ++ part ->
  Forall undersized shorts ->
  (length part < 4)%nat
  \/ (exists len, RADLEN part = Ret len /\ 4 <= len
                  /\ Z.of_nat (length part) < len) ->
  (length shorts < fuel)%nat ->
  radtlsget fuel ssl = Ret (None, []).
Proof.
  intros Hne Hcat Hsh Hpart Hfuel.
  replace fuel with (length shorts + S (fuel - length shorts - 1))%nat by lia.
  destruct (radtlsget_skips shorts ssl part (S (fuel - length shorts - 1))
              Hne Hcat Hsh)
    as (ssl1 & Hne1 & Hcat1 & ->).
  cbn [radtlsget].
  destruct Hpart as [Hshort|(len & Hrl & Hlen & Hlt)].
  - assert (Hlost := radtlsget_read_lost ssl1 [] (repeat 0 4) [] 4 4 Hne1).
    rewrite Hcat1 in Hlost. specialize (Hlost Hshort (le_n 4) (le_n 4)).
    change (radtlsget_read 4 ssl1 (repeat 0 4) 0 4 = Ret (None, [])) in Hlost.
    rewrite Hlost. reflexivity.
  - destruct part as [|h0 [|h1 [|h2 [|h3 body]]]]; try discriminate Hrl.
    set (hdr := [h0; h1; h2; h3]).
    change (h0 :: h1 :: h2 :: h3 :: body) with (hdr ++ body) in *.
    destruct (radtlsget_read_all ssl1 hdr [] (repeat 0 4) [] body 4
                Hne1 Hcat1 eq_refl (le_n 4))
      as (ssl2 & Hr1 & Hne2 & Hcat2).
    change (radtlsget_read 4 ssl1 (repeat 0 4) 0 4 = Ret (Some (hdr, 4), ssl2))
      in Hr1.
    rewrite Hr1. ret_red.
    assert (Hrl' : RADLEN hdr = Ret len) by (rewrite <- Hrl; reflexivity).
    rewrite Hrl'. ret_red.
    assert (Hl : Z.to_nat len = (4 + (Z.to_nat len - 4))%nat) by lia.
    assert (Hw : wrn (repeat 0 (Z.to_nat len)) 0 hdr
                 = Ret (hdr ++ repeat 0 (Z.to_nat len - 4) ++ [])).
    { rewrite wrn_ok by (rewrite ?repeat_length; simpl; lia).
      rewrite app_nil_r. change (Z.to_nat 0) with 0%nat. rewrite take_0.
      cbn [app]. do 5 f_equal. rewrite Hl at 1. rewrite repeat_app.
      reflexivity. }
    rewrite Hw. ret_red.
    assert (Hlost := radtlsget_read_lost ssl2 hdr (repeat 0 (Z.to_nat len - 4)) []
                       (Z.to_nat len - 4) (Z.to_nat len) Hne2).
    rewrite Hcat2, repeat_length in Hlost.
    change (length (hdr ++ body)) with (4 + length body)%nat in Hlt.
    specialize (Hlost ltac:(lia) (le_n _) ltac:(lia)).
    change (Z.of_nat (length hdr)) with 4 in Hlost.
    replace (Z.of_nat (length hdr + (Z.to_nat len - 4))) with len in Hlost
      by (change (length hdr) with 4%nat; lia).
    rewrite Hlost. reflexivity.
Qed.

Lemma radtlsget_connection_lost_witness :
  radtlsget 2 [[1; 7; 0]; [9; 0; 0; 0; 0; 0; 1; 42; 0; 20; 83; 12]]
  = Ret (None, []).
Proof.
  apply (radtlsget_connection_lost
           [[1; 7; 0; 9; 0; 0; 0; 0; 0]] [1; 42; 0; 20; 83; 12]).
  - repeat constructor; discriminate.
  - reflexivity.
  - repeat constructor; simpl; lia.
  - right. exists 20. split; [reflexivity|]. simpl; lia.
  - simpl; lia.
Defined.

(** X22.  A header whose length field is below 4 makes [radtlsget] write
    outside the block it allocated: the block has [len] bytes and the four
    bytes of the header are copied into it. *)
Theorem radtlsget_length_below_header (shorts : list (list Z))
  (hdr rest : list Z) (len : Z) (ssl : list (list Z)) (fuel : nat) :
  Forall (fun record => record <> []) ssl ->
  concat ssl = concat shorts ++ hdr ++ rest ->
  Forall undersized shorts ->
  length hdr = 4%nat -> RADLEN hdr = Ret len -> len < 4 ->
  (length shorts < fuel)%nat ->
  radtlsget fuel ssl = Fault.
Proof.
  intros Hne Hcat Hsh Hh Hrl Hlen Hfuel.
  replace fuel with (length shorts + S (fuel - length shorts - 1))%nat by lia.
  destruct (radtlsget_skips shorts ssl (hdr ++ rest)
              (S (fuel - length shorts - 1)) Hne Hcat Hsh)
    as (ssl1 & Hne1 & Hcat1 & ->).
  cbn [radtlsget].
  assert (H4 : (length hdr <= 4)%nat) by lia.
  destruct (radtlsget_read_all ssl1 hdr [] (repeat 0 4) [] rest 4
              Hne1 Hcat1 (eq_sym Hh) H4)
    as (ssl2 & Hr1 & _).
  rewrite Hh, !app_nil_r in Hr1.
  change (radtlsget_read 4 ssl1 (repeat 0 4) 0 4 = Ret (Some (hdr, 4), ssl2))
    in Hr1.
  rewrite Hr1. ret_red. rewrite Hrl. ret_red.
  unfold wrn. rewrite repeat_length, Hh.
  destruct (Z.ltb_spec (Z.of_nat (Z.to_nat len)) (0 + Z.of_nat 4)); [|lia].
  reflexivity.
Qed.

Lemma radtlsget_length_below_header_witness :
  radtlsget 1 [[1; 42; 0; 3; 5; 6; 7]] = Fault.
Proof.
  apply (radtlsget_length_below_header [] [1; 42; 0; 3] [5; 6; 7] 3).
  - repeat constructor; discriminate.
  - reflexivity.
  - constructor.
  - reflexivity.
  - reflexivity.
  - lia.
  - simpl; lia.
Defined.

(** ** radudpget: messages from the UDP socket *)

Lemma RADLEN_header (buf : list Z) :
  (4 <= length buf)%nat ->
  exists hi lo, buf !! 2%nat = Some hi /\ buf !! 3%nat = Some lo
                /\ RADLEN buf = Ret (256 * hi + lo).
Proof.
  intros H. destruct buf as [|b0 [|b1 [|b2 [|b3 buf]]]]; try (simpl in H; lia).
  exists b2, b3. auto.
Qed.

Lemma RADLEN_take (buf : list Z) (n : nat) (len : Z) :
  (4 <= n)%nat -> RADLEN buf = Ret len -> RADLEN (take n buf) = Ret len.
Proof.
  intros Hn H. unfold RADLEN in *. res_inv H. res_inv H.
  apply rd_Ret in E as [_ E]. apply rd_Ret in E0 as [_ E0].
  change (Z.to_nat 2) with 2%nat in E. change (Z.to_nat 3) with 3%nat in E0.
  unfold rd. simpl.
  change (Z.to_nat 2) with 2%nat. change (Z.to_nat 3) with 3%nat.
  rewrite !lookup_take_lt by lia. rewrite E. simpl. rewrite E0. exact H.
Qed.

(** A datagram that is not acceptable is passed over. *)
Lemma radudpget_skips (confs : list peer) (x : option (sockaddr * list Z))
  (net : list (option (sockaddr * list Z))) :
  ~ acceptable confs x -> radudpget confs (x :: net) = radudpget confs net.
Proof.
  intros Hx. destruct x as [[from buf]|]; [|reflexivity].
  cbn [radudpget]. cbv zeta.
  destruct (Z.ltb_spec (Z.of_nat (length buf)) 20); [reflexivity|].
  destruct (RADLEN_header buf ltac:(lia)) as (hi & lo & _ & _ & Hl).
  rewrite Hl. ret_red.
  destruct (Z.ltb_spec (256 * hi + lo) 20); [reflexivity|].
  destruct (Z.ltb_spec (Z.of_nat (length buf)) (256 * hi + lo)); [reflexivity|].
  destruct (find_peer TYPE_UDP from confs) eqn:Hp; [|reflexivity].
  exfalso. apply Hx. exists (256 * hi + lo).
  split; [assumption|]. split; [lia|]. rewrite Hp. discriminate.
Qed.

Lemma radudpget_waits (confs : list peer)
  (net : list (option (sockaddr * list Z))) :
  Forall (fun x => ~ acceptable confs x) net -> radudpget confs net = Hang.
Proof.
  induction net as [|x net IH]; intros H; [reflexivity|].
  inversion H as [|? ? Hx Hnet]; subst.
  rewrite radudpget_skips by assumption. auto.
Qed.

(** X23.  [radudpget] returns the first acceptable datagram and passes over
    all before it: one of at least 20 bytes whose length field lies between
    20 and its size and whose sender [find_peer] knows among the UDP confs.
    What it returns is the datagram cut to its length field, so a message
    whose length field is its length, with the conf found and the sender.
    While no acceptable datagram comes it does not return. *)
Theorem radudpget_first_acceptable (confs : list peer)
  (skipped : list (option (sockaddr * list Z))) (from : sockaddr)
  (buf : list Z) (rest : list (option (sockaddr * list Z))) :
  Forall (fun x => ~ acceptable confs x) skipped ->
  acceptable confs (Some (from, buf)) ->
  radudpget confs skipped = Hang
  /\ exists (rad : list Z) (p : peer),
       radudpget confs (skipped ++ Some (from, buf) :: rest)
       = Ret (rad, p, from, rest)
       /\ find_peer TYPE_UDP from confs = Some p
       /\ In p confs /\ conf_type (peer_conf p) = TYPE_UDP
       /\ (20 <= length rad)%nat /\ framed rad
       /\ rad = take (length rad) buf.
Proof.
  intros Hsk (len & Hl & Hlen & Hp).
  split; [apply radudpget_waits; assumption|].
  induction skipped as [|x skipped IH].
  - destruct (find_peer TYPE_UDP from confs) as [p|] eqn:Hf; [|congruence].
    assert (Hr : rdn buf 0 len = Ret (take (Z.to_nat len) buf)).
    { rewrite rdn_ok by lia. change (Z.to_nat 0) with 0%nat.
      rewrite drop_0. reflexivity. }
    assert (Hlt : length (take (Z.to_nat len) buf) = Z.to_nat len).
    { rewrite length_take. lia. }
    exists (take (Z.to_nat len) buf), p.
    split.
    { cbn [app radudpget]. cbv zeta.
      destruct (Z.ltb_spec (Z.of_nat (length buf)) 20); [lia|].
      rewrite Hl. ret_red.
      destruct (Z.ltb_spec len 20); [lia|].
      destruct (Z.ltb_spec (Z.of_nat (length buf)) len); [lia|].
      rewrite Hf, Hr. reflexivity. }
    split; [reflexivity|].
    unfold find_peer in Hf.
    destruct (match from with
              | SockIn a _ => (Some a, None)
              | SockIn6 a _ =>
                  (if IN6_IS_ADDR_V4MAPPED a then Some (drop 12 a) else None,
                   Some a)
              end) as [a4 sa6].
    apply find_some in Hf as [Hin Hc].
    apply andb_prop in Hc as [Ht _]. apply Z.eqb_eq in Ht.
    split; [assumption|]. split; [assumption|].
    split; [lia|]. split.
    { unfold framed. rewrite Hlt, Z2Nat.id by lia.
      apply RADLEN_take; [lia|assumption]. }
    rewrite Hlt. reflexivity.
  - inversion Hsk as [|? ? Hx Hsk']; subst.
    destruct (IH Hsk') as (rad & p & Hr & H).
    exists rad, p. split; [|assumption].
    change ((x :: skipped) ++ Some (from, buf) :: rest)
      with (x :: (skipped ++ Some (from, buf) :: rest)).
    rewrite radudpget_skips by assumption. exact Hr.
Qed.

Lemma radudpget_first_acceptable_witness :
  exists (rad : list Z) (p : peer),
    radudpget [Peer ex_client_conf [SockIn [192; 0; 2; 7] 0] (Some ex_client)]
              ([None; Some (SockIn [192; 0; 2; 9] 1812, ex_request_pkt)]
               ++ Some (SockIn6 (repeat 0 10 ++ [255; 255; 192; 0; 2; 7]) 40000,
                        ex_request_pkt ++ [0; 0]) :: [])
    = Ret (rad, p, SockIn6 (repeat 0 10 ++ [255; 255; 192; 0; 2; 7]) 40000, [])
    /\ framed rad.
Proof.
  destruct (radudpget_first_acceptable
              [Peer ex_client_conf [SockIn [192; 0; 2; 7] 0] (Some ex_client)]
              [None; Some (SockIn [192; 0; 2; 9] 1812, ex_request_pkt)]
              (SockIn6 (repeat 0 10 ++ [255; 255; 192; 0; 2; 7]) 40000)
              (ex_request_pkt ++ [0; 0]) [])
    as (_ & rad & p & H & _ & _ & _ & _ & Hf & _).
  - constructor; [intros []|].
    constructor; [|constructor].
    intros (len & _ & _ & Hp). apply Hp. reflexivity.
  - exists 43. split; [reflexivity|]. split; [simpl; lia|]. discriminate.
  - exists rad, p. auto.
Defined.

(** ** strtokenquote: the tokens of a configuration line *)

Lemma rd_mid (before after : list Z) (c : Z) :
  rd (before ++ c :: after) (Z.of_nat (length before)) = Ret c.
Proof.
  apply rd_ok. rewrite lookup_app_r by lia.
  rewrite Nat.sub_diag. reflexivity.
Qed.

Lemma wr_mid (before after : list Z) (c v : Z) :
  wr (before ++ c :: after) (Z.of_nat (length before)) v
  = Ret (before ++ v :: after).
Proof.
  rewrite wr_ok by (rewrite length_app; simpl; lia). f_equal.
  rewrite insert_app_r_alt by lia. rewrite Nat.sub_diag. reflexivity.
Qed.

(** A loop of [strtokenquote] runs over the characters it is to pass and
    stops at the first it is not, or at the NUL. *)
Lemma skip_while_run (go : Z -> bool) (run : list Z) :
  forall (before : list Z) (e : Z) (after : list Z) (fuel : nat),
    Forall (fun c => c <> 0 /\ go c = true) run ->
    e = 0 \/ go e = false ->
    (length run <= fuel)%nat ->
    skip_while fuel (before ++ run ++ e :: after) (Z.of_nat (length before)) go
    = Ret (Z.of_nat (length before + length run)).
Proof.
  induction run as [|c run IH]; intros before e after fuel Hrun He Hfuel.
  - cbn [app]. rewrite Nat.add_0_r.
    destruct fuel; cbn [skip_while]; rewrite rd_mid; ret_red;
      (destruct He as [-> | ->]; [reflexivity|]);
      rewrite andb_false_r; reflexivity.
  - inversion Hrun as [|? ? [Hc Hgo] Hrun']; subst.
    destruct fuel as [|fuel]; [simpl in Hfuel; lia|].
    cbn [skip_while]. change ((c :: run) ++ e :: after) with (c :: run ++ e :: after).
    rewrite rd_mid. ret_red.
    destruct (Z.eqb_spec c 0); [contradiction|]. rewrite Hgo. cbn [negb andb].
    replace (before ++ c :: run ++ e :: after)
      with ((before ++ [c]) ++ run ++ e :: after)
      by (rewrite <- app_assoc; reflexivity).
    replace (Z.of_nat (length before) + 1)
      with (Z.of_nat (length (before ++ [c])))
      by (rewrite length_app; simpl; lia).
    rewrite (IH (before ++ [c]) e after fuel Hrun' He) by (simpl in Hfuel; lia).
    f_equal. rewrite length_app. simpl. lia.
Qed.

Lemma strchr_true (s : list Z) (c : Z) : In c s -> strchr s c = true.
Proof.
  intros H. unfold strchr. apply orb_true_iff. right.
  apply existsb_exists. exists c. split; [assumption|apply Z.eqb_refl].
Qed.

Lemma strchr_false (s : list Z) (c : Z) :
  c <> 0 -> ~ In c s -> strchr s c = false.
Proof.
  intros H0 H. unfold strchr. apply orb_false_iff. split; [lia|].
  apply not_true_is_false. intros He. apply existsb_exists in He as (x & Hx & E).
  apply Z.eqb_eq in E. subst x. contradiction.
Qed.

Lemma strchr_opt_false (o : option (list Z)) (c : Z) :
  c <> 0 -> ~ in_chars o c ->
  match o with Some s => strchr s c | None => false end = false.
Proof. destruct o; [apply strchr_false|reflexivity]. Qed.

(** The first loop: the delimiters in front are passed. *)
Lemma strtokenquote_pad (del pad : list Z) (before : list Z) (e : Z)
  (after : list Z) :
  Forall (fun c => c <> 0 /\ In c del) pad ->
  e = 0 \/ ~ In e del ->
  skip_while (length (before ++ pad ++ e :: after)) (before ++ pad ++ e :: after)
             (Z.of_nat (length before)) (strchr del)
  = Ret (Z.of_nat (length (before ++ pad))).
Proof.
  intros Hpad He. rewrite skip_while_run.
  - rewrite length_app. reflexivity.
  - eapply Forall_impl; [exact Hpad|]. intros c [H0 Hc].
    split; [assumption|apply strchr_true; assumption].
  - destruct He as [->|He]; [auto|].
    destruct (Z.eq_dec e 0); [auto|]. right. apply strchr_false; assumption.
  - rewrite !length_app. lia.
Qed.

(** X24.  A token that is not quoted: after the delimiters in front,
    [strtokenquote] takes the characters up to the next delimiter or the end
    of the string, writes NUL over that delimiter, stores the start of the
    token and returns the place after the NUL.  When the token ends the
    string, that place is behind the terminating NUL of the string.  When
    after the delimiters the string ends or a comment character stands, it
    stores NULL and leaves the memory as it is. *)
Theorem strtokenquote_plain_token (del : list Z) (quote comment : option (list Z))
  (before pad after : list Z) :
  Forall (fun c => c <> 0 /\ In c del) pad ->
  (forall (c0 : Z) (tok : list Z) (e : Z),
      Forall (fun c => c <> 0 /\ ~ In c del) (c0 :: tok) ->
      ~ in_chars comment c0 -> ~ in_chars quote c0 ->
      e = 0 \/ In e del ->
      strtokenquote (before ++ pad ++ (c0 :: tok) ++ e :: after)
                    (Z.of_nat (length before)) del quote comment
      = Ret (Some (Some (Z.of_nat (length (before ++ pad))),
                   Z.of_nat (length (before ++ pad ++ c0 :: tok)) + 1),
             before ++ pad ++ (c0 :: tok) ++ 0 :: after))
  /\ (forall (e : Z),
        e = 0 \/ (~ In e del /\ in_chars comment e) ->
        strtokenquote (before ++ pad ++ e :: after)
                      (Z.of_nat (length before)) del quote comment
        = Ret (Some (None, Z.of_nat (length (before ++ pad)) + 1),
               before ++ pad ++ e :: after)).
Proof.
  intros Hpad. split.
  - intros c0 tok e Htok Hcm Hq He.
    inversion Htok as [|? ? [H0 Hd] Htok']; subst.
    unfold strtokenquote.
    change ((c0 :: tok) ++ e :: after) with (c0 :: (tok ++ e :: after)).
    rewrite strtokenquote_pad by auto. ret_red.
    rewrite (app_assoc before pad), rd_mid. ret_red.
    destruct (Z.eqb_spec c0 0); [contradiction|].
    rewrite (strchr_opt_false comment c0), (strchr_opt_false quote c0)
      by assumption.
    cbn [orb].
    replace ((before ++ pad) ++ c0 :: tok ++ e :: after)
      with (((before ++ pad) ++ [c0]) ++ tok ++ e :: after)
      by (rewrite <- (app_assoc (before ++ pad)); reflexivity).
    replace (Z.of_nat (length (before ++ pad)) + 1)
      with (Z.of_nat (length ((before ++ pad) ++ [c0])))
      by (rewrite (length_app _ [c0]); simpl; lia).
    rewrite skip_while_run.
    + ret_red. rewrite <- length_app, (app_assoc _ tok), wr_mid. ret_red.
      rewrite <- !app_assoc. reflexivity.
    + eapply Forall_impl; [exact Htok'|]. intros c [Hc0 Hc].
      split; [assumption|]. rewrite strchr_false by assumption. reflexivity.
    + destruct He as [->|He]; [auto|]. right.
      rewrite strchr_true by assumption. reflexivity.
    + rewrite !length_app. simpl. lia.
  - intros e He. unfold strtokenquote.
    rewrite strtokenquote_pad by tauto. ret_red.
    rewrite (app_assoc before pad), rd_mid. ret_red.
    destruct He as [->|[Hd Hc]]; [reflexivity|].
    destruct (Z.eqb_spec e 0); [reflexivity|].
    destruct comment as [cm|]; [|contradiction].
    rewrite strchr_true by assumption. reflexivity.
Qed.

Lemma strtokenquote_plain_token_witness :
  strtokenquote [32; 104; 111; 115; 116; 32; 120; 0] 0 [32; 9; 10]
                (Some [34; 39]) (Some [35])
  = Ret (Some (Some 1, 6), [32; 104; 111; 115; 116; 0; 120; 0]).
Proof.
  destruct (strtokenquote_plain_token [32; 9; 10] (Some [34; 39]) (Some [35])
              [] [32] [120; 0]) as [H _].
  - repeat constructor; simpl; auto; lia.
  - apply (H 104 [111; 115; 116] 32).
    + repeat constructor; simpl; lia.
    + simpl; lia.
    + simpl; lia.
    + right. simpl. auto.
Defined.

(** X25.  A quoted token: [strtokenquote] takes what stands between the quote
    character and the next occurrence of the same character, delimiters
    included, when that one is followed by a delimiter or ends the string;
    it writes NUL over the closing quote.  It returns NULL when the string
    ends before the closing quote, and when the closing quote is followed by
    a character that is no delimiter; the memory is then as it was. *)
Theorem strtokenquote_quoted_token (del qs : list Z) (comment : option (list Z))
  (before pad body after : list Z) (q : Z) :
  Forall (fun c => c <> 0 /\ In c del) pad ->
  q <> 0 -> ~ In q del -> ~ in_chars comment q -> In q qs ->
  Forall (fun c => c <> 0 /\ c <> q) body ->
  (forall e, e = 0 \/ In e del ->
      strtokenquote (before ++ pad ++ (q :: body) ++ q :: e :: after)
                    (Z.of_nat (length before)) del (Some qs) comment
      = Ret (Some (Some (Z.of_nat (length (before ++ pad)) + 1),
                   Z.of_nat (length (before ++ pad ++ q :: body)) + 1),
             before ++ pad ++ (q :: body) ++ 0 :: e :: after))
  /\ (forall e, e <> 0 -> ~ In e del ->
        strtokenquote (before ++ pad ++ (q :: body) ++ q :: e :: after)
                      (Z.of_nat (length before)) del (Some qs) comment
        = Ret (None, before ++ pad ++ (q :: body) ++ q :: e :: after))
  /\ strtokenquote (before ++ pad ++ (q :: body) ++ 0 :: after)
                   (Z.of_nat (length before)) del (Some qs) comment
     = Ret (None, before ++ pad ++ (q :: body) ++ 0 :: after).
Proof.
  intros Hpad Hq0 Hqd Hqc Hqq Hbody.
  assert (Hgo : Forall (fun c => c <> 0 /\ negb (c =? q) = true) body).
  { eapply Forall_impl; [exact Hbody|]. intros c [H0 Hc].
    split; [assumption|]. destruct (Z.eqb_spec c q); [contradiction|reflexivity]. }
  assert (Hstart : forall x rest,
             x = 0 \/ x = q ->
             strtokenquote (before ++ pad ++ (q :: body) ++ x :: rest)
                           (Z.of_nat (length before)) del (Some qs) comment
             = (c' ← rd (((before ++ pad) ++ [q]) ++ body ++ x :: rest)
                       (Z.of_nat (length (((before ++ pad) ++ [q]) ++ body)));
                if c' =? 0
                then Ret (None, ((before ++ pad) ++ [q]) ++ body ++ x :: rest)
                else
                  c1 ← rd (((before ++ pad) ++ [q]) ++ body ++ x :: rest)
                          (Z.of_nat (length (((before ++ pad) ++ [q]) ++ body)) + 1);
                  if negb (c1 =? 0) && negb (strchr del c1)
                  then Ret (None, ((before ++ pad) ++ [q]) ++ body ++ x :: rest)
                  else
                    mem' ← wr (((before ++ pad) ++ [q]) ++ body ++ x :: rest)
                              (Z.of_nat (length (((before ++ pad) ++ [q]) ++ body))) 0;
                    Ret (Some (Some (Z.of_nat (length (before ++ pad)) + 1),
                               Z.of_nat (length (((before ++ pad) ++ [q]) ++ body)) + 1),
                         mem'))).
  { intros x rest Hx. unfold strtokenquote.
    change ((q :: body) ++ x :: rest) with (q :: (body ++ x :: rest)).
    rewrite strtokenquote_pad by auto. ret_red.
    rewrite (app_assoc before pad), rd_mid. ret_red.
    destruct (Z.eqb_spec q 0); [contradiction|].
    rewrite (strchr_opt_false comment q) by assumption.
    rewrite (strchr_true qs q) by assumption. cbn [orb]. cbv zeta.
    replace ((before ++ pad) ++ q :: body ++ x :: rest)
      with (((before ++ pad) ++ [q]) ++ body ++ x :: rest)
      by (rewrite <- (app_assoc (before ++ pad)); reflexivity).
    replace (Z.of_nat (length (before ++ pad)) + 1)
      with (Z.of_nat (length ((before ++ pad) ++ [q])))
      by (rewrite (length_app _ [q]); simpl; lia).
    rewrite skip_while_run.
    - ret_red. rewrite <- length_app. reflexivity.
    - assumption.
    - destruct Hx as [->| ->]; [auto|]. right. rewrite Z.eqb_refl. reflexivity.
    - rewrite !length_app. simpl. lia. }
  assert (Hshape : forall x rest,
             before ++ pad ++ (q :: body) ++ x :: rest
             = (((before ++ pad) ++ [q]) ++ body) ++ x :: rest).
  { intros x rest. rewrite <- !app_assoc. reflexivity. }
  assert (Hlen : Z.of_nat (length (((before ++ pad) ++ [q]) ++ body))
                 = Z.of_nat (length (before ++ pad ++ q :: body))).
  { rewrite <- !app_assoc. reflexivity. }
  assert (Hnext : forall (l : list Z) (x y : Z) (rest : list Z),
             rd (l ++ x :: y :: rest) (Z.of_nat (length l) + 1) = Ret y).
  { intros l x y rest.
    replace (Z.of_nat (length l) + 1) with (Z.of_nat (length (l ++ [x])))
      by (rewrite length_app; simpl; lia).
    replace (l ++ x :: y :: rest) with ((l ++ [x]) ++ y :: rest)
      by (rewrite <- app_assoc; reflexivity).
    apply rd_mid. }
  split; [|split].
  - intros e He. rewrite Hstart by auto.
    rewrite (app_assoc _ body), rd_mid. ret_red.
    destruct (Z.eqb_spec q 0); [contradiction|].
    rewrite Hnext. ret_red.
    assert (Hd : negb (e =? 0) && negb (strchr del e) = false).
    { destruct He as [->|He]; [reflexivity|].
      rewrite (strchr_true del e) by assumption. apply andb_false_r. }
    rewrite Hd, wr_mid. ret_red. rewrite Hlen, Hshape. reflexivity.
  - intros e He0 Hed. rewrite Hstart by auto.
    rewrite (app_assoc _ body), rd_mid. ret_red.
    destruct (Z.eqb_spec q 0); [contradiction|].
    rewrite Hnext. ret_red.
    destruct (Z.eqb_spec e 0); [contradiction|].
    rewrite (strchr_false del e) by assumption. cbn [negb andb].
    rewrite Hshape. reflexivity.
  - rewrite Hstart by auto.
    rewrite (app_assoc _ body), rd_mid. ret_red.
    rewrite Hshape. reflexivity.
Qed.

Lemma strtokenquote_quoted_token_witness :
  strtokenquote [34; 97; 32; 98; 34; 10; 0] 0 [32; 9; 10] (Some [34; 39]) None
  = Ret (Some (Some 1, 5), [34; 97; 32; 98; 0; 10; 0]).
Proof.
  destruct (strtokenquote_quoted_token [32; 9; 10] [34; 39] None
              [] [] [97; 32; 98] [0] 34) as [H _].
  - constructor.
  - lia.
  - simpl. lia.
  - simpl. auto.
  - simpl. auto.
  - repeat constructor; lia.
  - apply (H 10). right. simpl. auto.
Defined.

(** ** addrealm: the pattern of a realm *)

Lemma addrealm_dots_length (value : list Z) (n : Z) :
  Z.of_nat (length (escape_dots value))
  = Z.of_nat (length value) + (addrealm_dots value n - n).
Proof.
  revert n. induction value as [|c value IH]; intros n; cbn [addrealm_dots].
  - simpl. lia.
  - unfold escape_dots in *. cbn [flat_map]. rewrite length_app.
    rewrite Nat2Z.inj_add, (IH (if c =? 46 then n + 1 else n)).
    destruct (c =? 46); simpl; lia.
Qed.

(** The copy loop writes the escaped realm where it stands in the buffer. *)
Lemma addrealm_copy_writes (value : list Z) :
  forall (done hole post : list Z),
    length hole = length (escape_dots value) ->
    addrealm_copy value (done ++ hole ++ post) (Z.of_nat (length done))
    = Ret (done ++ escape_dots value ++ post,
           Z.of_nat (length done + length (escape_dots value))).
Proof.
  induction value as [|c value IH]; intros done hole post Hh.
  - destruct hole; [|discriminate]. simpl. rewrite Nat.add_0_r. reflexivity.
  - unfold escape_dots in *. cbn [flat_map addrealm_copy] in *.
    rewrite length_app in Hh.
    destruct (Z.eqb_spec c 46) as [->|Hc].
    + destruct hole as [|h0 [|h1 hole]]; try (simpl in Hh; lia).
      change (done ++ (h0 :: h1 :: hole) ++ post)
        with (done ++ h0 :: h1 :: hole ++ post).
      rewrite wr_mid. ret_red.
      replace (done ++ 92 :: h1 :: hole ++ post)
        with ((done ++ [92]) ++ h1 :: hole ++ post)
        by (rewrite <- app_assoc; reflexivity).
      replace (Z.of_nat (length done) + 1) with (Z.of_nat (length (done ++ [92])))
        by (rewrite length_app; simpl; lia).
      rewrite wr_mid. ret_red.
      replace ((done ++ [92]) ++ 46 :: hole ++ post)
        with ((done ++ [92; 46]) ++ hole ++ post)
        by (rewrite <- !app_assoc; reflexivity).
      replace (Z.of_nat (length (done ++ [92])) + 1)
        with (Z.of_nat (length (done ++ [92; 46])))
        by (rewrite !length_app; simpl; lia).
      rewrite IH by (simpl in Hh; lia).
      rewrite <- !app_assoc, !length_app. simpl.
      do 2 f_equal. lia.
    + destruct hole as [|h0 hole]; try (simpl in Hh; lia).
      ret_red.
      change (done ++ (h0 :: hole) ++ post) with (done ++ h0 :: hole ++ post).
      rewrite wr_mid. ret_red.
      replace (done ++ c :: hole ++ post) with ((done ++ [c]) ++ hole ++ post)
        by (rewrite <- app_assoc; reflexivity).
      replace (Z.of_nat (length done) + 1) with (Z.of_nat (length (done ++ [c])))
        by (rewrite length_app; simpl; lia).
      rewrite IH by (simpl in Hh; lia).
      rewrite <- !app_assoc, !length_app. simpl.
      do 2 f_equal. lia.
Qed.

Lemma until_nul_app (s rest : list Z) :
  Forall (fun c => c <> 0) s -> until_nul (s ++ 0 :: rest) = s.
Proof.
  induction 1 as [|c s Hc Hs IH]; [reflexivity|].
  simpl. destruct (Z.eqb_spec c 0); [contradiction|]. rewrite IH. reflexivity.
Qed.

(** X26.  For a realm that is not given as a regular expression [addrealm]
    builds the pattern '@', the realm with a backslash in front of every
    dot, '$', and the terminating NUL: it fills the block it allocated
    exactly and writes nowhere else.  That pattern goes to [regcomp] unless
    the realm is ["*"]; of a realm that starts with '/' what follows the '/'
    goes to [regcomp], less a '/' at its end. *)
Theorem addrealm_literal_pattern (dotstar : list Z) (value : list Z) :
  Forall (fun c => c <> 0) value ->
  addrealm_regex value = Ret (64 :: escape_dots value ++ [36; 0])
  /\ (head value <> Some 47 -> value <> [42] ->
      addrealm_pattern dotstar value = Ret (64 :: escape_dots value ++ [36]))
  /\ addrealm_pattern dotstar (47 :: value ++ [47]) = Ret value
  /\ (List.last value 0 <> 47 ->
      addrealm_pattern dotstar (47 :: value) = Ret value).
Proof.
  intros Hv.
  assert (Hesc : Forall (fun c => c <> 0) (escape_dots value)).
  { unfold escape_dots. induction Hv as [|c v Hc Hv IH]; [constructor|].
    cbn [flat_map]. apply Forall_app. split; [|assumption].
    destruct (c =? 46); repeat constructor; try assumption; lia. }
  assert (Hreg : addrealm_regex value = Ret (64 :: escape_dots value ++ [36; 0])).
  { unfold addrealm_regex. cbv zeta.
    pose proof (addrealm_dots_length value 0) as Hd.
    replace (Z.to_nat (Z.of_nat (length value) + addrealm_dots value 0 + 3))
      with (1 + (length (escape_dots value) + 2))%nat by lia.
    rewrite repeat_app, repeat_app.
    change (repeat 0 1) with [0]. change (repeat 0 2) with [0; 0].
    change (wr ([0] ++ repeat 0 (length (escape_dots value)) ++ [0; 0]) 0 64)
      with (wr ([] ++ 0 :: repeat 0 (length (escape_dots value)) ++ [0; 0])
               (Z.of_nat (length (@nil Z))) 64).
    rewrite wr_mid. ret_red.
    change ([] ++ 64 :: repeat 0 (length (escape_dots value)) ++ [0; 0])
      with ([64] ++ repeat 0 (length (escape_dots value)) ++ [0; 0]).
    assert (Hcopy := addrealm_copy_writes value [64]
                       (repeat 0 (length (escape_dots value))) [0; 0]
                       (repeat_length _ _)).
    change (Z.of_nat (length [64])) with 1 in Hcopy.
    rewrite Hcopy. ret_red.
    rewrite (app_assoc [64]), <- length_app, wr_mid. ret_red.
    replace (([64] ++ escape_dots value) ++ [36; 0])
      with ((([64] ++ escape_dots value) ++ [36]) ++ [0])
      by (rewrite <- !app_assoc; reflexivity).
    replace (Z.of_nat (length ([64] ++ escape_dots value)) + 1)
      with (Z.of_nat (length (([64] ++ escape_dots value) ++ [36])))
      by (rewrite (length_app _ [36]); simpl; lia).
    rewrite wr_mid. rewrite <- !app_assoc. reflexivity. }
  split; [assumption|]. split; [|split].
  - intros Hhead Hstar. unfold addrealm_pattern.
    destruct value as [|c value'] eqn:Ev.
    + rewrite bool_decide_eq_false_2 by assumption. rewrite Hreg. ret_red.
      reflexivity.
    + assert (Hc : c <> 47) by (intros ->; apply Hhead; reflexivity).
      rewrite bool_decide_eq_false_2 by assumption.
      rewrite Hreg. ret_red.
      assert (Hu : until_nul (64 :: escape_dots (c :: value') ++ [36; 0])
                   = 64 :: escape_dots (c :: value') ++ [36]).
      { replace (64 :: escape_dots (c :: value') ++ [36; 0])
          with ((64 :: escape_dots (c :: value') ++ [36]) ++ 0 :: [])
          by (simpl; rewrite <- app_assoc; reflexivity).
        apply until_nul_app. constructor; [lia|].
        apply Forall_app. split; [assumption|]. repeat constructor. lia. }
      destruct c as [|p|p]; try (rewrite Hu; reflexivity).
      do 6 (destruct p as [p|p|]; try (rewrite Hu; reflexivity)); congruence.
  - unfold addrealm_pattern.
    change (47 :: value ++ [47]) with ((47 :: value) ++ [47]).
    rewrite last_last, Z.eqb_refl, removelast_last. reflexivity.
  - intros Hl. unfold addrealm_pattern.
    destruct value as [|c value']; [reflexivity|].
    change (List.last (47 :: c :: value') 0) with (List.last (c :: value') 0).
    destruct (Z.eqb_spec (List.last (c :: value') 0) 47); [contradiction|].
    reflexivity.
Qed.

Lemma addrealm_literal_pattern_witness :
  addrealm_pattern [] [97; 46; 98; 46; 99]
  = Ret [64; 97; 92; 46; 98; 92; 46; 99; 36].
Proof.
  destruct (addrealm_literal_pattern [] [97; 46; 98; 46; 99]) as (_ & H & _).
  - repeat constructor; lia.
  - apply H; discriminate.
Defined.

(** ** find_peer and tlslistener: who is let in *)

Lemma peer_addr_matches_same (from res : sockaddr) :
  peer_addr_matches
    (match from with
     | SockIn a _ => Some a
     | SockIn6 a _ => if IN6_IS_ADDR_V4MAPPED a then Some (drop 12 a) else None
     end)
    (match from with
     | SockIn _ _ => None
     | SockIn6 a _ => Some a
     end) res = true
  <-> same_address from res.
Proof.
  destruct from as [a pa|a pa], res as [b pb|b pb]; simpl.
  - apply bool_decide_eq_true.
  - split; [discriminate|contradiction].
  - destruct (IN6_IS_ADDR_V4MAPPED a).
    + rewrite bool_decide_eq_true. tauto.
    + split; [discriminate|]. intros [H _]. discriminate.
  - apply bool_decide_eq_true.
Qed.

Lemma find_peer_find (type : Z) (from : sockaddr) (confs : list peer) :
  find_peer type from confs
  = find (fun c => (conf_type (peer_conf c) =? type)
                   && existsb (peer_addr_matches
                                 (match from with
                                  | SockIn a _ => Some a
                                  | SockIn6 a _ =>
                                      if IN6_IS_ADDR_V4MAPPED a
                                      then Some (drop 12 a) else None
                                  end)
                                 (match from with
                                  | SockIn _ _ => None
                                  | SockIn6 a _ => Some a
                                  end))
                              (peer_addrinfo c))
         confs.
Proof. unfold find_peer. destruct from; reflexivity. Qed.

Lemma conf_lists_address (type : Z) (from : sockaddr) (c : peer) :
  (conf_type (peer_conf c) =? type)
  && existsb (peer_addr_matches
                (match from with
                 | SockIn a _ => Some a
                 | SockIn6 a _ =>
                     if IN6_IS_ADDR_V4MAPPED a then Some (drop 12 a) else None
                 end)
                (match from with
                 | SockIn _ _ => None
                 | SockIn6 a _ => Some a
                 end))
             (peer_addrinfo c) = false
  <-> (conf_type (peer_conf c) = type ->
       Forall (fun res => ~ same_address from res) (peer_addrinfo c)).
Proof.
  rewrite andb_false_iff, Z.eqb_neq. split.
  - intros [Ht|He] Hty; [contradiction|].
    apply List.Forall_forall. intros res Hin Hs.
    apply peer_addr_matches_same in Hs.
    assert (Hex : existsb
                    (peer_addr_matches
                       (match from with
                        | SockIn a _ => Some a
                        | SockIn6 a _ =>
                            if IN6_IS_ADDR_V4MAPPED a then Some (drop 12 a)
                            else None
                        end)
                       (match from with
                        | SockIn _ _ => None
                        | SockIn6 a _ => Some a
                        end)) (peer_addrinfo c) = true).
    { apply existsb_exists. eauto. }
    congruence.
  - intros H. destruct (Z.eq_dec (conf_type (peer_conf c)) type) as [Hty|Hty];
      [right|left; assumption].
    specialize (H Hty). apply not_true_is_false. intros He.
    apply existsb_exists in He as (res & Hin & Hm).
    apply peer_addr_matches_same in Hm.
    rewrite List.Forall_forall in H. exact (H res Hin Hm).
Qed.

Lemma find_peer_unknown (type : Z) (from : sockaddr) (confs : list peer) :
  unknown_peer type from confs -> find_peer type from confs = None.
Proof.
  rewrite find_peer_find. unfold unknown_peer.
  induction 1 as [|c confs Hc Hun IH]; [reflexivity|].
  cbn [find]. rewrite (proj2 (conf_lists_address type from c) Hc). exact IH.
Qed.

(** X27.  [find_peer] gives the first conf of the type that has the address of
    the sender, ports not compared: the conf has the type and one of its
    addresses is the sender's, and no conf of the type before it has one;
    it gives NULL exactly when no conf of the type has the address. *)
Theorem find_peer_first_listed (type : Z) (from : sockaddr) (confs : list peer) :
  match find_peer type from confs with
  | Some p =>
      exists pre post,
        confs = pre ++ p :: post
        /\ conf_type (peer_conf p) = type
        /\ Exists (same_address from) (peer_addrinfo p)
        /\ unknown_peer type from pre
  | None => unknown_peer type from confs
  end.
Proof.
  rewrite find_peer_find. unfold unknown_peer.
  induction confs as [|c confs IH]; [constructor|].
  cbn [find].
  destruct (_ && _) eqn:Hc.
  - exists [], confs. split; [reflexivity|].
    apply andb_prop in Hc as [Ht He]. apply Z.eqb_eq in Ht.
    split; [assumption|]. split; [|constructor].
    apply existsb_exists in He as (res & Hin & Hm).
    apply peer_addr_matches_same in Hm.
    apply List.Exists_exists. eauto.
  - pose proof (proj1 (conf_lists_address type from c) Hc) as Hc'.
    revert IH. destruct (find _ confs) as [p|]; intros IH.
    + destruct IH as (pre & post & -> & Ht & Hex & Hpre).
      exists (c :: pre), post. split; [reflexivity|].
      split; [assumption|]. split; [assumption|].
      constructor; assumption.
    + constructor; assumption.
Qed.

(** X28.  A connection from an address that no TLS client conf has makes
    [tlslistener] read [clients] through the NULL that [find_peer] returned:
    the test for an unknown client comes after that.  A connection from the
    address of a TLS client conf is served by the client of the first such
    conf, unless that client has a connection already. *)
Theorem tlslistener_unknown_peer (clconfs : list peer) (has_ssl : client -> bool)
  (from : sockaddr) :
  (unknown_peer TYPE_TLS from clconfs ->
   tlslistener_turn clconfs has_ssl (Some from) = Fault)
  /\ (forall pre p post c,
        clconfs = pre ++ p :: post ->
        unknown_peer TYPE_TLS from pre ->
        conf_type (peer_conf p) = TYPE_TLS ->
        Exists (same_address from) (peer_addrinfo p) ->
        peer_clients p = Some c ->
        tlslistener_turn clconfs has_ssl (Some from)
        = Ret (if has_ssl c then AlreadyConnected else ServerStarted c)).
Proof.
  unfold tlslistener_turn. split.
  - intros Hun. rewrite find_peer_unknown by assumption. reflexivity.
  - rewrite find_peer_find. intros pre p post c -> Hpre Hty Hex Hcl.
    induction pre as [|c0 pre IH]; cbn [app find].
    + assert (Hm : (conf_type (peer_conf p) =? TYPE_TLS)
                   && existsb
                        (peer_addr_matches
                           (match from with
                            | SockIn a _ => Some a
                            | SockIn6 a _ =>
                                if IN6_IS_ADDR_V4MAPPED a then Some (drop 12 a)
                                else None
                            end)
                           (match from with
                            | SockIn _ _ => None
                            | SockIn6 a _ => Some a
                            end)) (peer_addrinfo p) = true).
      { apply andb_true_intro. split; [apply Z.eqb_eq; assumption|].
        apply List.Exists_exists in Hex as (res & Hin & Hs).
        apply existsb_exists. exists res. split; [assumption|].
        apply peer_addr_matches_same. assumption. }
      rewrite Hm, Hcl. destruct (has_ssl c); reflexivity.
    + inversion Hpre as [|? ? H0 Hpre']; subst.
      rewrite (proj2 (conf_lists_address TYPE_TLS from c0) H0).
      apply IH. assumption.
Qed.

Lemma tlslistener_unknown_peer_witness :
  tlslistener_turn
    [Peer (Conf TYPE_TLS "client.example" ex_secret false)
          [SockIn [192; 0; 2; 7] 0] (Some ex_client)]
    (fun _ => false) (Some (SockIn [192; 0; 2; 9] 40000))
  = Fault.
Proof.
  apply (tlslistener_unknown_peer
           [Peer (Conf TYPE_TLS "client.example" ex_secret false)
                 [SockIn [192; 0; 2; 7] 0] (Some ex_client)]
           (fun _ => false) (SockIn [192; 0; 2; 9] 40000)).
  repeat constructor. simpl. discriminate.
Defined.

(** ** tlsserverrd: from the stream to radsrv *)


